(** * Supermarket check-out simulator: a shallow embedding and its properties

    The development follows the Python package [simulation]:
    [customer.py], [checkout_line.py], [grocery_store.py], [utility.py],
    [event.py] and [simulator.py].

    Python objects are mutable and shared by reference: the same [Customer]
    object is reachable from an event, from a line's waiting queue and from a
    line's served list.  The embedding therefore keeps every [Customer] object
    in one object table of the [World] and lets events and lines hold
    positions in that table; in the same way events refer to a
    [CheckoutLine] by its position in [store.lines].

    Python integers are unbounded and are modelled by [Z].  Exceptions are the
    [Raise] branch of the [Result] type. *)

From Stdlib Require Import ZArith Lia Bool List Ascii String Reals.
From stdpp Require Import base list.

Import ListNotations.
Local Open Scope string_scope.
Local Open Scope list_scope.
Local Open Scope nat_scope.

(** ** Exceptions and the result monad *)

Inductive Error : Type :=
| AssertionError_closed_line (line_id : Z)   (* queue_new_customer *)
| AssertionError_empty_line (line_id : Z)    (* serve_next_customer *)
| AssertionError_no_line                     (* every pick_checkout_line_* *)
| AssertionError_finished                    (* Simulator.run *)
| AssertionError_not_finished                (* Simulator.query_statistics *)
| ValueError_unknown_line_type (ty : string) (* get_checkout_time_deterministic *)
| ValueError_parse (idx : nat)               (* create_event_list *)
| ValueError_filter_by (f : string)          (* query_statistics *)
| ValueError_criterion (c : string)          (* query_statistics *)
| ValueError_zero_size_reduction             (* numpy: min of an empty array *)
| NotImplementedError                        (* get_checkout_time_stochastic *)
| TypeError_not_callable                     (* calling a slot that is None *)
| TypeError_None_operand                     (* arithmetic or order on None *)
| IndexError                                 (* list index out of range *)
| KeyError                                   (* dict key absent *)
| Blocked_on_empty_queue                     (* Queue.get() on an empty queue never returns *)
| InvalidReference.                          (* a position outside the object table;
                                                no Python state has one *)

Inductive Result (A : Type) : Type :=
| Ok (a : A)
| Raise (e : Error).
Arguments Ok {A} a.
Arguments Raise {A} e.

#[global] Instance Result_bind : MBind Result :=
  fun A B (k : A -> Result B) (r : Result A) =>
    match r with
    | Ok a => k a
    | Raise e => Raise e
    end.

#[global] Instance Result_ret : MRet Result := fun A a => Ok a.

Definition of_option {A : Type} (o : option A) (e : Error) : Result A :=
  match o with
  | Some a => Ok a
  | None => Raise e
  end.

(** [for x in xs: acc = body(acc, x)] with exceptions. *)
Fixpoint for_each {A S : Type} (body : S -> A -> Result S) (xs : list A) (acc : S)
  : Result S :=
  match xs with
  | [] => Ok acc
  | x :: xs' => acc' ← body acc x; for_each body xs' acc'
  end.

(** ** customer.py *)

Module Customer.
Record t : Type := mk {
  id : Z;
  num_items : Z;
  join_timestamp : option Z;
  begin_timestamp : option Z;
  finish_timestamp : option Z
}.

Definition __init__ (id num_items : Z) : t :=
  mk id num_items None None None.

Definition set_join_timestamp (ts : Z) (c : t) : t :=
  mk (id c) (num_items c) (Some ts) (begin_timestamp c) (finish_timestamp c).
Definition set_begin_timestamp (ts : Z) (c : t) : t :=
  mk (id c) (num_items c) (join_timestamp c) (Some ts) (finish_timestamp c).
Definition set_finish_timestamp (ts : Z) (c : t) : t :=
  mk (id c) (num_items c) (join_timestamp c) (begin_timestamp c) (Some ts).
End Customer.

(** A reference to a [Customer] object: its position in the object table. *)
Abbreviation cref := nat (only parsing).
(** A reference to a [CheckoutLine] object: its position in [store.lines]. *)
Abbreviation lref := nat (only parsing).

(** ** The duration model of utility.py

    [Utility.get_checkout_time] and [Utility.pick_checkout_line] are class
    attributes that start as [None] and are assigned one of the static
    methods by the caller. *)

Inductive DurationModel : Type :=
| Deterministic   (* Utility.get_checkout_time_deterministic *)
| Stochastic.     (* Utility.get_checkout_time_stochastic *)

Inductive Policy : Type :=
| PureRandom      (* Utility.pick_checkout_line_pure_random *)
| LeastPerson     (* Utility.pick_checkout_line_least_person *)
| LeastItem       (* Utility.pick_checkout_line_least_item *)
| LeastTime       (* Utility.pick_checkout_line_least_time *)
| RoundRobin.     (* Utility.pick_checkout_line_round_robin *)

(** The process-wide settings: the two slots and [count_first] of [Utility],
    and the stream of raw draws the numpy generator hands out ([np_random k]
    is the draw of the [k]-th call; [randint(n)] reduces it into [0, n)). *)
Record Globals : Type := {
  get_checkout_time : option DurationModel;
  pick_checkout_line : option Policy;
  count_first : bool;
  np_random : nat -> nat
}.

Definition _checkout_w (ty : string) : option Z :=
  if String.eqb ty "cashier" then Some 1%Z
  else if String.eqb ty "express" then Some 1%Z
  else if String.eqb ty "self" then Some 2%Z
  else None.

Definition _checkout_b (ty : string) : option Z :=
  if String.eqb ty "cashier" then Some 7%Z
  else if String.eqb ty "express" then Some 4%Z
  else if String.eqb ty "self" then Some 1%Z
  else None.

(** ** checkout_line.py *)

Module CheckoutLine.
Record t : Type := mk {
  id : Z;
  type : string;
  queue : list cref;     (* Queue(): put appends, get removes the front *)
  served : list cref;
  closed : bool
}.

Definition __init__ (id : Z) (type : string) (closed : bool) : t :=
  mk id type [] [] closed.

Definition get_num_customers (self : t) : Z := Z.of_nat (length (queue self)).

Definition is_empty (self : t) : bool := (get_num_customers self =? 0)%Z.

Definition serve_next_customer (self : t) : Result cref :=
  if is_empty self then Raise (AssertionError_empty_line (id self))
  else of_option (head (queue self)) IndexError.

Definition queue_new_customer (self : t) (customer : cref) : Result t :=
  if closed self then Raise (AssertionError_closed_line (id self))
  else Ok (mk (id self) (type self) (queue self ++ [customer]) (served self)
              (closed self)).

Definition close (self : t) : t :=
  mk (id self) (type self) (queue self) (served self) true.

Definition open (self : t) : t :=
  mk (id self) (type self) (queue self) (served self) false.
End CheckoutLine.

(** [line.type in ("cashier", "express", "self")] *)
Definition known_line_type (ty : string) : bool :=
  String.eqb ty "cashier" || String.eqb ty "express" || String.eqb ty "self".

Definition get_checkout_time_deterministic
  (customer : Customer.t) (line : CheckoutLine.t) : Result Z :=
  if known_line_type (CheckoutLine.type line) then
    w ← of_option (_checkout_w (CheckoutLine.type line)) KeyError;
    b ← of_option (_checkout_b (CheckoutLine.type line)) KeyError;
    Ok (Customer.num_items customer * w + b)%Z
  else Raise (ValueError_unknown_line_type (CheckoutLine.type line)).

Definition get_checkout_time_stochastic
  (customer : Customer.t) (line : CheckoutLine.t) : Result Z :=
  Raise NotImplementedError.

(** The call [Utility.get_checkout_time(customer, line)]. *)
Definition call_get_checkout_time (g : Globals)
  (customer : Customer.t) (line : CheckoutLine.t) : Result Z :=
  match get_checkout_time g with
  | None => Raise TypeError_not_callable
  | Some Deterministic => get_checkout_time_deterministic customer line
  | Some Stochastic => get_checkout_time_stochastic customer line
  end.

(** ** grocery_store.py *)

Module GroceryStore.
Record t : Type := mk {
  lines : list CheckoutLine.t;
  last_line_id : Z;
  total_lines : Z
}.

(** Python orders the [(key, count)] tuples of [line_counts.items()]:
    by key (code point order), then by count. *)
Definition item_ltb (a b : string * Z) : bool :=
  match String.compare (fst a) (fst b) with
  | Lt => true
  | Eq => (snd a <? snd b)%Z
  | Gt => false
  end.

Fixpoint insert_sorted (x : string * Z) (l : list (string * Z))
  : list (string * Z) :=
  match l with
  | [] => [x]
  | y :: l' => if item_ltb x y then x :: l else y :: insert_sorted x l'
  end.

(** [sorted(items)]: the tuples in ascending order (the items of a dict are
    pairwise different, so the order is determined). *)
Definition sorted (items : list (string * Z)) : list (string * Z) :=
  fold_right insert_sorted [] items.

(** [for _ in range(line_count): lines.append(CheckoutLine(line_id, line_type));
     line_id += 1] *)
Fixpoint append_lines (n : nat) (line_type : string)
  (acc : list CheckoutLine.t * Z) : list CheckoutLine.t * Z :=
  match n with
  | O => acc
  | S n' =>
      let '(lines, line_id) := acc in
      append_lines n' line_type
        (lines ++ [CheckoutLine.__init__ line_id line_type false],
         (line_id + 1)%Z)
  end.

(** [line_counts] is a dict, given by its items in insertion order. *)
Definition __init__ (line_counts : list (string * Z)) : t :=
  let '(lines, line_id) :=
    fold_left (fun acc '(line_type, line_count) =>
                 append_lines (Z.to_nat line_count) line_type acc)
              (sorted line_counts) ([], 0%Z) in
  mk lines (line_id - 1)%Z line_id.
End GroceryStore.

(** ** The state the engine works on *)

Record World : Type := {
  customers : list Customer.t;   (* the Customer objects, by reference *)
  store : GroceryStore.t;
  rng_calls : nat                (* how many draws were taken from np.random *)
}.

Definition get_customer (w : World) (c : cref) : Result Customer.t :=
  of_option (customers w !! c) InvalidReference.

Definition get_line (w : World) (l : lref) : Result CheckoutLine.t :=
  of_option (GroceryStore.lines (store w) !! l) InvalidReference.

Definition update_customer (f : Customer.t -> Customer.t) (c : cref) (w : World)
  : Result World :=
  cust ← get_customer w c;
  Ok {| customers := <[c := f cust]> (customers w);
        store := store w;
        rng_calls := rng_calls w |}.

Definition set_lines (ls : list CheckoutLine.t) (w : World) : World :=
  {| customers := customers w;
     store := GroceryStore.mk ls (GroceryStore.last_line_id (store w))
                (GroceryStore.total_lines (store w));
     rng_calls := rng_calls w |}.

Definition set_line (l : lref) (line : CheckoutLine.t) (w : World) : World :=
  set_lines (<[l := line]> (GroceryStore.lines (store w))) w.

Definition set_last_line_id (i : Z) (w : World) : World :=
  {| customers := customers w;
     store := GroceryStore.mk (GroceryStore.lines (store w)) i
                (GroceryStore.total_lines (store w));
     rng_calls := rng_calls w |}.

(** *** checkout_line.py, the methods that read the customers *)

(** [reduce(lambda accum, customer: accum + customer.num_items, queue, 0)] *)
Definition CheckoutLine_get_num_items (w : World) (self : CheckoutLine.t)
  : Result Z :=
  for_each (fun accum c => customer ← get_customer w c;
                           Ok (accum + Customer.num_items customer)%Z)
           (CheckoutLine.queue self) 0%Z.

Definition CheckoutLine_get_queue_time (g : Globals) (w : World)
  (self : CheckoutLine.t) (count_first : bool) : Result Z :=
  let customers := CheckoutLine.queue self in
  if (length customers =? 0)%nat then Ok 0%Z
  else
    let start_idx := if count_first then 0 else 1 in
    for_each (fun wait_time c =>
                customer ← get_customer w c;
                d ← call_get_checkout_time g customer self;
                Ok (wait_time + d)%Z)
             (drop start_idx customers) 0%Z.

(** ** utility.py, the line-selection policies *)

(** The test every policy applies to a line:
    [not line.closed and (line.type != "express" or customer.num_items <= 10)] *)
Definition eligible (customer : Customer.t) (line : CheckoutLine.t) : bool :=
  negb (CheckoutLine.closed line)
  && (negb (String.eqb (CheckoutLine.type line) "express")
      || (Customer.num_items customer <=? 10)%Z).

(** The loop shared by the three "least" policies; [i] is the position of the
    head of [ls] in [store.lines], [best] is [best_line].  The comparison
    evaluates the candidate's measure, then the best line's. *)
Fixpoint least_loop (measure : CheckoutLine.t -> Result Z) (customer : Customer.t)
  (i : lref) (ls : list CheckoutLine.t) (best : option (lref * CheckoutLine.t))
  : Result (option (lref * CheckoutLine.t)) :=
  match ls with
  | [] => Ok best
  | line :: ls' =>
      if eligible customer line then
        match best with
        | None => least_loop measure customer (S i) ls' (Some (i, line))
        | Some (_, best_line) =>
            m ← measure line;
            mb ← measure best_line;
            least_loop measure customer (S i) ls'
              (if (m <? mb)%Z then Some (i, line) else best)
        end
      else least_loop measure customer (S i) ls' best
  end.

Definition pick_least (measure : CheckoutLine.t -> Result Z)
  (customer : Customer.t) (st : GroceryStore.t) : Result lref :=
  best ← least_loop measure customer 0 (GroceryStore.lines st) None;
  match best with
  | None => Raise AssertionError_no_line
  | Some (i, _) => Ok i
  end.

Definition pick_checkout_line_least_person (customer : Customer.t) (w : World)
  : Result lref :=
  pick_least (fun line => Ok (CheckoutLine.get_num_customers line))
    customer (store w).

Definition pick_checkout_line_least_item (customer : Customer.t) (w : World)
  : Result lref :=
  pick_least (CheckoutLine_get_num_items w) customer (store w).

Definition pick_checkout_line_least_time (g : Globals) (customer : Customer.t)
  (w : World) : Result lref :=
  pick_least (fun line => CheckoutLine_get_queue_time g w line (count_first g))
    customer (store w).

(** [lines_avail]: the positions of the eligible lines, in store order. *)
Fixpoint lines_avail (customer : Customer.t) (i : lref) (ls : list CheckoutLine.t)
  : list lref :=
  match ls with
  | [] => []
  | line :: ls' =>
      if eligible customer line then i :: lines_avail customer (S i) ls'
      else lines_avail customer (S i) ls'
  end.

(** [np.random.randint(n)] for the draw number [rng_calls w]. *)
Definition randint (g : Globals) (w : World) (n : nat) : nat :=
  np_random g (rng_calls w) mod n.

Definition pick_checkout_line_pure_random (g : Globals) (customer : Customer.t)
  (w : World) : Result (lref * World) :=
  let avail := lines_avail customer 0 (GroceryStore.lines (store w)) in
  if (length avail =? 0)%nat then Raise AssertionError_no_line
  else
    l ← of_option (avail !! randint g w (length avail)) IndexError;
    Ok (l, {| customers := customers w; store := store w;
              rng_calls := S (rng_calls w) |}).

(** [lst[i]] for a Python list: a negative index counts from the end. *)
Definition py_index {A : Type} (lst : list A) (i : Z) : Result (nat * A) :=
  let n := Z.of_nat (length lst) in
  let j := if (i <? 0)%Z then (i + n)%Z else i in
  if (j <? 0)%Z then Raise IndexError
  else of_option ((fun x => (Z.to_nat j, x)) <$> lst !! Z.to_nat j) IndexError.

(** The [for offset in range(1, store.total_lines+1)] loop with its [break]. *)
Fixpoint round_robin_loop (customer : Customer.t) (st : GroceryStore.t)
  (offsets : list Z) : Result (option (lref * CheckoutLine.t)) :=
  match offsets with
  | [] => Ok None
  | offset :: offsets' =>
      let line_id :=
        ((GroceryStore.last_line_id st + offset) mod GroceryStore.total_lines st)%Z in
      '(l, line) ← py_index (GroceryStore.lines st) line_id;
      if eligible customer line then Ok (Some (l, line))
      else round_robin_loop customer st offsets'
  end.

(** [range(1, n+1)] *)
Definition range1 (n : Z) : list Z := map Z.of_nat (seq 1 (Z.to_nat n)).

Definition pick_checkout_line_round_robin (customer : Customer.t) (w : World)
  : Result (lref * World) :=
  next_line ← round_robin_loop customer (store w)
                 (range1 (GroceryStore.total_lines (store w)));
  match next_line with
  | None => Raise AssertionError_no_line
  | Some (l, line) => Ok (l, set_last_line_id (CheckoutLine.id line) w)
  end.

(** The call [Utility.pick_checkout_line(customer, store)]. *)
Definition call_pick_checkout_line (g : Globals) (customer : Customer.t)
  (w : World) : Result (lref * World) :=
  match pick_checkout_line g with
  | None => Raise TypeError_not_callable
  | Some PureRandom => pick_checkout_line_pure_random g customer w
  | Some LeastPerson =>
      l ← pick_checkout_line_least_person customer w; Ok (l, w)
  | Some LeastItem =>
      l ← pick_checkout_line_least_item customer w; Ok (l, w)
  | Some LeastTime =>
      l ← pick_checkout_line_least_time g customer w; Ok (l, w)
  | Some RoundRobin => pick_checkout_line_round_robin customer w
  end.

(** ** event.py *)

Inductive Event : Type :=
| BeginCheckoutEvent (timestamp : Z) (customer : cref) (line : lref)
| FinishCheckoutEvent (timestamp : Z) (customer : cref) (line : lref)
| JoinCheckoutEvent (timestamp : Z) (customer : cref)
| LineOpenEvent (timestamp : Z) (line : lref)
| LineCloseEvent (timestamp : Z) (line : lref).

Definition timestamp (e : Event) : Z :=
  match e with
  | BeginCheckoutEvent t _ _ | FinishCheckoutEvent t _ _
  | JoinCheckoutEvent t _ | LineOpenEvent t _ | LineCloseEvent t _ => t
  end.

(** [Event.__lt__] *)
Definition Event_lt (self other : Event) : bool :=
  (timestamp self <? timestamp other)%Z.

Definition BeginCheckoutEvent_do (g : Globals) (t : Z) (c : cref) (l : lref)
  (w : World) : Result (World * list Event) :=
  w1 ← update_customer (Customer.set_begin_timestamp t) c w;
  customer ← get_customer w1 c;
  line ← get_line w1 l;
  checkout_time ← call_get_checkout_time g customer line;
  Ok (w1, [FinishCheckoutEvent (t + checkout_time) c l]).

Definition FinishCheckoutEvent_do (t : Z) (c : cref) (l : lref) (w : World)
  : Result (World * list Event) :=
  w1 ← update_customer (Customer.set_finish_timestamp t) c w;
  line ← get_line w1 l;
  match CheckoutLine.queue line with
  | [] => Raise Blocked_on_empty_queue
  | served_customer :: rest =>
      let line' :=
        CheckoutLine.mk (CheckoutLine.id line) (CheckoutLine.type line) rest
          (CheckoutLine.served line ++ [served_customer])
          (CheckoutLine.closed line) in
      let w2 := set_line l line' w1 in
      if negb (CheckoutLine.is_empty line') then
        next_customer ← CheckoutLine.serve_next_customer line';
        Ok (w2, [BeginCheckoutEvent t next_customer l])
      else Ok (w2, [])
  end.

(** [JoinCheckoutEvent.do]; the first component of the result is the
    attribute [self.line] the call leaves on the event. *)
Definition JoinCheckoutEvent_do_line (g : Globals) (t : Z) (c : cref) (w : World)
  : Result (lref * (World * list Event)) :=
  w1 ← update_customer (Customer.set_join_timestamp t) c w;
  customer ← get_customer w1 c;
  '(l, w2) ← call_pick_checkout_line g customer w1;
  line ← get_line w2 l;
  if CheckoutLine.is_empty line then
    line' ← CheckoutLine.queue_new_customer line c;
    Ok (l, (set_line l line' w2, [BeginCheckoutEvent t c l]))
  else
    line' ← CheckoutLine.queue_new_customer line c;
    Ok (l, (set_line l line' w2, [])).

Definition JoinCheckoutEvent_do (g : Globals) (t : Z) (c : cref) (w : World)
  : Result (World * list Event) :=
  '(_, r) ← JoinCheckoutEvent_do_line g t c w; Ok r.

Definition LineOpenEvent_do (l : lref) (w : World) : Result (World * list Event) :=
  line ← get_line w l;
  Ok (set_line l (CheckoutLine.open line) w, []).

Definition LineCloseEvent_do (l : lref) (w : World) : Result (World * list Event) :=
  line ← get_line w l;
  Ok (set_line l (CheckoutLine.close line) w, []).

(** [event.do(store)] *)
Definition Event_do (g : Globals) (e : Event) (w : World)
  : Result (World * list Event) :=
  match e with
  | BeginCheckoutEvent t c l => BeginCheckoutEvent_do g t c l w
  | FinishCheckoutEvent t c l => FinishCheckoutEvent_do t c l w
  | JoinCheckoutEvent t c => JoinCheckoutEvent_do g t c w
  | LineOpenEvent _ l => LineOpenEvent_do l w
  | LineCloseEvent _ l => LineCloseEvent_do l w
  end.

(** *** The text of the initial events

    Strings are sequences of ASCII characters; the Unicode white space and
    digits that Python also accepts are outside the model. *)

(** [c.isspace()] on ASCII: TAB, LF, VT, FF, CR, FS, GS, RS, US and space. *)
Definition is_space (c : ascii) : bool :=
  let n := nat_of_ascii c in
  ((9 <=? n) && (n <=? 13)) || ((28 <=? n) && (n <=? 32)).

Fixpoint lstrip (s : string) : string :=
  match s with
  | String c s' => if is_space c then lstrip s' else s
  | EmptyString => EmptyString
  end.

Fixpoint string_rev_onto (s acc : string) : string :=
  match s with
  | String c s' => string_rev_onto s' (String c acc)
  | EmptyString => acc
  end.

Definition string_rev (s : string) : string := string_rev_onto s EmptyString.

Definition rstrip (s : string) : string := string_rev (lstrip (string_rev s)).

(** [s.strip()] *)
Definition strip (s : string) : string := rstrip (lstrip s).

(** [s.split(sep)] for a one-character separator: never returns an empty
    list; [cur] holds the field being read, reversed. *)
Fixpoint split_onto (sep : ascii) (s cur : string) : list string :=
  match s with
  | EmptyString => [string_rev cur]
  | String c s' =>
      if Ascii.eqb c sep then string_rev cur :: split_onto sep s' EmptyString
      else split_onto sep s' (String c cur)
  end.

Definition split (sep : ascii) (s : string) : list string :=
  split_onto sep s EmptyString.

Definition digit_value (c : ascii) : option Z :=
  let n := nat_of_ascii c in
  if (48 <=? n) && (n <=? 57) then Some (Z.of_nat (n - 48)) else None.

(** The digits of a decimal literal: digits, with single underscores allowed
    between two digits.  [after_digit] tells whether the previous character
    was a digit. *)
Fixpoint parse_digits (s : string) (acc : Z) (after_digit : bool) : option Z :=
  match s with
  | EmptyString => if after_digit then Some acc else None
  | String c s' =>
      match digit_value c with
      | Some d => parse_digits s' (10 * acc + d)%Z true
      | None =>
          if Ascii.eqb c "_"%char && after_digit then
            match s' with
            | EmptyString => None
            | _ => parse_digits s' acc false
            end
          else None
      end
  end.

(** [int(s)]: white space around, an optional sign, decimal digits. *)
Definition py_int (s : string) : option Z :=
  match strip s with
  | String "-"%char s' => Z.opp <$> parse_digits s' 0%Z false
  | String "+"%char s' => parse_digits s' 0%Z false
  | s' => parse_digits s' 0%Z false
  end.

(** [list(filter(lambda line: line.id == param, store.lines))[0]] *)
Fixpoint find_line_by_id (param : Z) (i : lref) (ls : list CheckoutLine.t)
  : option lref :=
  match ls with
  | [] => None
  | line :: ls' =>
      if (CheckoutLine.id line =? param)%Z then Some i
      else find_line_by_id param (S i) ls'
  end.

(** The body of the [try] for one line of text.  It returns the event and the
    customers created so far; any exception inside becomes the parse error of
    that line. *)
Definition parse_event_line (customers : list Customer.t) (st : GroceryStore.t)
  (curr_customer_id : Z) (line : string)
  : option (Event * list Customer.t * Z) :=
  match split ","%char line with
  | [timestamp; event_type; param] =>
      timestamp ← py_int timestamp;
      param ← py_int param;
      if String.eqb event_type "join" then
        let customer := Customer.__init__ curr_customer_id param in
        Some (JoinCheckoutEvent timestamp (length customers),
              customers ++ [customer], (curr_customer_id + 1)%Z)
      else if String.eqb event_type "open" || String.eqb event_type "close" then
        l ← find_line_by_id param 0 (GroceryStore.lines st);
        if String.eqb event_type "open" then
          Some (LineOpenEvent timestamp l, customers, curr_customer_id)
        else Some (LineCloseEvent timestamp l, customers, curr_customer_id)
      else None
  | _ => None
  end.

Fixpoint create_event_loop (st : GroceryStore.t) (idx : nat) (text : list string)
  (events : list Event) (customers : list Customer.t) (curr_customer_id : Z)
  : Result (list Event * list Customer.t) :=
  match text with
  | [] => Ok (events, customers)
  | line :: text' =>
      match parse_event_line customers st curr_customer_id line with
      | None => Raise (ValueError_parse idx)
      | Some (event, customers', id') =>
          create_event_loop st (S idx) text' (events ++ [event]) customers' id'
      end
  end.

(** The character LF. *)
Definition LF : ascii := "010"%char.

(** [create_event_list(initial_events_str, store)]: the events, and the world
    with the new [Customer] objects in it. *)
Definition create_event_list (initial_events_str : string) (w : World)
  : Result (list Event * World) :=
  '(events, customers') ←
    create_event_loop (store w) 0 (split LF (strip initial_events_str))
      [] (customers w) 0%Z;
  Ok (events, {| customers := customers'; store := store w;
                 rng_calls := rng_calls w |}).

(** ** The priority queue

    [PriorityQueue.put] and [PriorityQueue.get] are [heapq.heappush] and
    [heapq.heappop] of the Python library on the list [self.queue]; they
    compare events with [<] only.  The two sifting loops move a position
    strictly towards the root or towards the leaves, so the length of the list
    bounds their number of rounds. *)

Fixpoint _siftdown_loop (rounds : nat) (heap : list Event) (newitem : Event)
  (startpos pos : nat) : list Event :=
  match rounds with
  | O => <[pos := newitem]> heap
  | S rounds' =>
      if startpos <? pos then
        let parentpos := Nat.div2 (pos - 1) in
        match heap !! parentpos with
        | Some parent =>
            if Event_lt newitem parent then
              _siftdown_loop rounds' (<[pos := parent]> heap) newitem
                startpos parentpos
            else <[pos := newitem]> heap
        | None => heap
        end
      else <[pos := newitem]> heap
  end.

Definition _siftdown (heap : list Event) (startpos pos : nat) : list Event :=
  match heap !! pos with
  | Some newitem => _siftdown_loop (length heap) heap newitem startpos pos
  | None => heap
  end.

Definition heappush (heap : list Event) (item : Event) : list Event :=
  let heap := heap ++ [item] in
  _siftdown heap 0 (length heap - 1).

(** The loop of [_siftup]: returns the list and the position of the leaf
    reached. *)
Fixpoint _siftup_loop (rounds : nat) (heap : list Event) (endpos pos childpos : nat)
  : list Event * nat :=
  match rounds with
  | O => (heap, pos)
  | S rounds' =>
      if childpos <? endpos then
        let rightpos := childpos + 1 in
        let childpos :=
          match heap !! childpos, heap !! rightpos with
          | Some child, Some rchild =>
              if (rightpos <? endpos) && negb (Event_lt child rchild)
              then rightpos else childpos
          | _, _ => childpos
          end in
        match heap !! childpos with
        | Some child =>
            _siftup_loop rounds' (<[pos := child]> heap) endpos childpos
              (2 * childpos + 1)
        | None => (heap, pos)
        end
      else (heap, pos)
  end.

Definition _siftup (heap : list Event) (pos : nat) : list Event :=
  match heap !! pos with
  | Some newitem =>
      let '(heap, leaf) :=
        _siftup_loop (length heap) heap (length heap) pos (2 * pos + 1) in
      _siftdown (<[leaf := newitem]> heap) pos leaf
  | None => heap
  end.

(** [heappop] of a non-empty heap: the item, and the heap left. *)
Definition heappop (heap : list Event) : option (Event * list Event) :=
  match last heap with
  | None => None
  | Some lastelt =>
      let heap := removelast heap in
      match heap with
      | [] => Some (lastelt, [])
      | returnitem :: _ => Some (returnitem, _siftup (<[0 := lastelt]> heap) 0)
      end
  end.

(** ** simulator.py *)

Record Simulator : Type := {
  events : list Event;     (* PriorityQueue: the heap list *)
  world : World;
  _finished : bool
}.

Definition Simulator__init__ (store_config : list (string * Z)) : Simulator :=
  {| events := [];
     world := {| customers := []; store := GroceryStore.__init__ store_config;
                 rng_calls := 0 |};
     _finished := false |}.

(** One round of [while not self.events.empty()]: [None] when the queue is
    empty and the loop is left. *)
Definition engine_step (g : Globals) (conf : list Event * World)
  : option (Result (list Event * World)) :=
  let '(heap, w) := conf in
  match heappop heap with
  | None => None
  | Some (event, heap') =>
      Some ('(w', future_events) ← Event_do g event w;
            Ok (fold_left heappush future_events heap', w'))
  end.

(** The [while] loop, for at most [fuel] rounds: [None] means the loop was
    still running after [fuel] rounds. *)
Fixpoint engine_loop (fuel : nat) (g : Globals) (conf : list Event * World)
  : option (Result (list Event * World)) :=
  match engine_step g conf with
  | None => Some (Ok conf)
  | Some (Raise e) => Some (Raise e)
  | Some (Ok conf') =>
      match fuel with
      | O => None
      | S fuel' => engine_loop fuel' g conf'
      end
  end.

Definition run (fuel : nat) (g : Globals) (self : Simulator)
  (initial_events_str : string) : option (Result Simulator) :=
  if _finished self then Some (Raise AssertionError_finished)
  else
    match create_event_list initial_events_str (world self) with
    | Raise e => Some (Raise e)
    | Ok (initial_events, w) =>
        match engine_loop fuel g (fold_left heappush initial_events (events self), w) with
        | None => None
        | Some (Raise e) => Some (Raise e)
        | Some (Ok (heap, w')) =>
            Some (Ok {| events := heap; world := w'; _finished := true |})
        end
    end.

(** *** Statistics

    [np.array(raw_time)] is an array of 64-bit integers: [sum] wraps around,
    [min] and [max] are exact and refuse an empty array.  [mean] and [std] are
    64-bit floats in numpy; the model gives the real numbers they round. *)

Definition wrap_int64 (z : Z) : Z :=
  ((z + 2 ^ 63) mod 2 ^ 64 - 2 ^ 63)%Z.

Definition np_sum (a : list Z) : Z := wrap_int64 (fold_left Z.add a 0%Z).

Definition np_min (a : list Z) : Result Z :=
  match a with
  | [] => Raise ValueError_zero_size_reduction
  | x :: a' => Ok (fold_left Z.min a' x)
  end.

Definition np_max (a : list Z) : Result Z :=
  match a with
  | [] => Raise ValueError_zero_size_reduction
  | x :: a' => Ok (fold_left Z.max a' x)
  end.

Definition Rsum (a : list R) : R := fold_right Rplus 0%R a.

Definition np_mean (a : list Z) : R :=
  (Rsum (map IZR a) / INR (length a))%R.

Definition np_std (a : list Z) : R :=
  sqrt (Rsum (map (fun x => Rsqr (IZR x - np_mean a)) a) / INR (length a)).

Record Statistics : Type := {
  num_customers : nat;
  total_time : Z;
  min_time : Z;
  max_time : Z;
  mean_time : R;
  std_time : R
}.

(** The timestamp [filter_by] names. *)
Definition customer_timestamp (filter_by : string) (customer : Customer.t)
  : Result (option Z) :=
  if String.eqb filter_by "join" then Ok (Customer.join_timestamp customer)
  else if String.eqb filter_by "begin" then Ok (Customer.begin_timestamp customer)
  else if String.eqb filter_by "finish" then Ok (Customer.finish_timestamp customer)
  else Raise (ValueError_filter_by filter_by).

(** [start_time <= customer_timestamp < end_time]; [end_time = None] stands
    for [float("inf")].  Ordering [None] against a number is a [TypeError]. *)
Definition in_window (start_time : Z) (end_time : option Z) (ts : option Z)
  : Result bool :=
  match ts with
  | None => Raise TypeError_None_operand
  | Some t =>
      Ok ((start_time <=? t)%Z
          && match end_time with
             | None => true
             | Some e => (t <? e)%Z
             end)
  end.

(** [line_ids is None or line.id in line_ids] *)
Definition line_selected (line_ids : option (list Z)) (line : CheckoutLine.t)
  : bool :=
  match line_ids with
  | None => true
  | Some ids => existsb (Z.eqb (CheckoutLine.id line)) ids
  end.

(** The first loop of [query_statistics]: the list [customers]. *)
Definition retained_customers (w : World) (start_time : Z) (end_time : option Z)
  (line_ids : option (list Z)) (filter_by : string) : Result (list cref) :=
  for_each
    (fun acc line =>
       if line_selected line_ids line then
         for_each
           (fun acc c =>
              customer ← get_customer w c;
              ts ← customer_timestamp filter_by customer;
              keep ← in_window start_time end_time ts;
              Ok (if keep : bool then acc ++ [c] else acc))
           (CheckoutLine.served line) acc
       else Ok acc)
    (GroceryStore.lines (store w)) [].

(** [a - b] on two timestamps. *)
Definition ts_sub (a b : option Z) : Result Z :=
  match a, b with
  | Some x, Some y => Ok (x - y)%Z
  | _, _ => Raise TypeError_None_operand
  end.

Definition criterion_value (criterion : string) (customer : Customer.t)
  : Result Z :=
  if String.eqb criterion "wait" then
    ts_sub (Customer.begin_timestamp customer) (Customer.join_timestamp customer)
  else if String.eqb criterion "checkout" then
    ts_sub (Customer.finish_timestamp customer) (Customer.begin_timestamp customer)
  else if String.eqb criterion "total" then
    ts_sub (Customer.finish_timestamp customer) (Customer.join_timestamp customer)
  else Raise (ValueError_criterion criterion).

(** The second loop: the list [raw_time]. *)
Definition raw_times (w : World) (criterion : string) (cs : list cref)
  : Result (list Z) :=
  for_each
    (fun raw_time c =>
       customer ← get_customer w c;
       v ← criterion_value criterion customer;
       Ok (raw_time ++ [v]))
    cs [].

Definition query_statistics (self : Simulator) (criterion : string)
  (start_time end_time : option Z) (line_ids : option (list Z))
  (filter_by : string) : Result (Statistics * list Z) :=
  if negb (_finished self) then Raise AssertionError_not_finished
  else
    let start_time := match start_time with None => 0%Z | Some s => s end in
    customers ← retained_customers (world self) start_time end_time line_ids
                   filter_by;
    raw_time ← raw_times (world self) criterion customers;
    let total := np_sum raw_time in
    lo ← np_min raw_time;
    hi ← np_max raw_time;
    Ok ({| num_customers := length customers;
           total_time := total;
           min_time := lo;
           max_time := hi;
           mean_time := np_mean raw_time;
           std_time := np_std raw_time |},
        raw_time).

(** ** Notions used in the statements *)

(** The part of [eligible] that does not look at the customer. *)
Definition is_express (line : CheckoutLine.t) : bool :=
  String.eqb (CheckoutLine.type line) "express".

(** The store as [GroceryStore.__init__] leaves it and as the engine keeps it:
    [total_lines] counts the lines, a line's id is its position, and the
    cursor is a line id (or -1 in a store without lines). *)
Definition wf_store (st : GroceryStore.t) : Prop :=
  GroceryStore.total_lines st = Z.of_nat (length (GroceryStore.lines st))
  /\ (forall (i : nat) (line : CheckoutLine.t),
        GroceryStore.lines st !! i = Some line ->
        CheckoutLine.id line = Z.of_nat i)
  /\ (-1 <= GroceryStore.last_line_id st < GroceryStore.total_lines st)%Z.

(** Executing the events [evs] one after the other, as the engine does with
    the events it pops; the result lists [self.line] of the join events. *)
Fixpoint exec_events (g : Globals) (evs : list Event) (w : World)
  : Result (list lref * World) :=
  match evs with
  | [] => Ok ([], w)
  | JoinCheckoutEvent t c :: evs' =>
      '(l, (w', _)) ← JoinCheckoutEvent_do_line g t c w;
      '(ls, w'') ← exec_events g evs' w';
      Ok (l :: ls, w'')
  | e :: evs' =>
      '(w', _) ← Event_do g e w;
      exec_events g evs' w'
  end.

(** [engine_exec g conf evs conf']: the loop of [run], started in [conf],
    pops and executes exactly the events [evs], in this order, and is then in
    [conf']. *)
Inductive engine_exec (g : Globals)
  : list Event * World -> list Event -> list Event * World -> Prop :=
| engine_exec_nil conf : engine_exec g conf [] conf
| engine_exec_cons heap w e heap' w' future_events evs conf' :
    heappop heap = Some (e, heap') ->
    Event_do g e w = Ok (w', future_events) ->
    engine_exec g (fold_left heappush future_events heap', w') evs conf' ->
    engine_exec g (heap, w) (e :: evs) conf'.

(** The configuration [run] starts its loop in. *)
Definition initial_conf (self : Simulator) (initial_events_str : string)
  : Result (list Event * World) :=
  '(initial_events, w) ← create_event_list initial_events_str (world self);
  Ok (fold_left heappush initial_events (events self), w).

(** No customer with more than 10 items stands in, or was served by, an
    express line. *)
Definition express_lines_respected (w : World) : Prop :=
  forall (l : lref) (line : CheckoutLine.t) (c : cref) (customer : Customer.t),
    GroceryStore.lines (store w) !! l = Some line ->
    is_express line = true ->
    c ∈ CheckoutLine.queue line ++ CheckoutLine.served line ->
    customers w !! c = Some customer ->
    (Customer.num_items customer <= 10)%Z.

(** Sample data for the instances below. *)
Definition sample_customer (n : Z) : Customer.t := Customer.__init__ 0 n.

Definition sample_line (ty : string) (q : list cref) : CheckoutLine.t :=
  CheckoutLine.mk 0 ty q [] false.

(** One cashier line on which customers 0 and 1 wait, 0 first. *)
Definition sample_world_waiting : World :=
  {| customers := [Customer.mk 0 3 (Some 0%Z) (Some 0%Z) None;
                   Customer.mk 1 5 (Some 0%Z) None None];
     store := GroceryStore.mk [sample_line "cashier" [0; 1]] 0 1;
     rng_calls := 0 |}.

(** What [GroceryStore.__init__] establishes for the line at position [i]. *)
Definition fresh_lines (ls : list CheckoutLine.t) : Prop :=
  forall (i : nat) (line : CheckoutLine.t),
    ls !! i = Some line ->
    CheckoutLine.id line = Z.of_nat i
    /\ CheckoutLine.queue line = []
    /\ CheckoutLine.served line = []
    /\ CheckoutLine.closed line = false.

(** The position round robin inspects at [offset]. *)
Definition round_robin_pos (st : GroceryStore.t) (offset : Z) : nat :=
  Z.to_nat ((GroceryStore.last_line_id st + offset) mod GroceryStore.total_lines st).

(** Every line takes every customer: nothing is closed, and no customer is too
    loaded for an express line of the store. *)
Definition all_lines_eligible (w : World) : Prop :=
  forall (customer : Customer.t) (line : CheckoutLine.t),
    customer ∈ customers w ->
    line ∈ GroceryStore.lines (store w) ->
    eligible customer line = true.

Definition is_close_event (e : Event) : bool :=
  match e with
  | LineCloseEvent _ _ => true
  | _ => false
  end.

(** The store of the examples: one cashier line, one express line. *)
Definition two_line_config : list (string * Z) := [("express", 1%Z); ("cashier", 1%Z)].

Definition fresh_world (line_counts : list (string * Z)) : World :=
  world (Simulator__init__ line_counts).

(** [r] is a line of [ls] that is eligible for the customer, whose measure is
    minimal among the eligible lines, and that comes first among the eligible
    lines with that measure. *)
Definition selects_first_minimum (measure : CheckoutLine.t -> Result Z)
  (customer : Customer.t) (ls : list CheckoutLine.t) (r : Result lref) : Prop :=
  exists (i : lref) (line : CheckoutLine.t) (v : Z),
    r = Ok i
    /\ ls !! i = Some line
    /\ eligible customer line = true
    /\ measure line = Ok v
    /\ forall (j : lref) (line' : CheckoutLine.t) (v' : Z),
         ls !! j = Some line' ->
         eligible customer line' = true ->
         measure line' = Ok v' ->
         (v <= v')%Z /\ (v' = v -> i <= j).

(** The measure of a line when it has one. *)
Definition measure_value (measure : CheckoutLine.t -> Result Z)
  (line : CheckoutLine.t) : Z :=
  match measure line with
  | Ok v => v
  | Raise _ => 0%Z
  end.

(** Three lines with customers waiting: two on the cashier line, one on the
    express line, one on the self-service line. *)
Definition sample_world_three_lines : World :=
  {| customers := [Customer.mk 0 3 (Some 0%Z) (Some 0%Z) None;
                   Customer.mk 1 5 (Some 0%Z) None None;
                   Customer.mk 2 9 (Some 0%Z) (Some 0%Z) None;
                   Customer.mk 3 2 (Some 0%Z) (Some 0%Z) None];
     store := GroceryStore.mk
                [CheckoutLine.mk 0 "cashier" [0; 1] [] false;
                 CheckoutLine.mk 1 "express" [2] [] false;
                 CheckoutLine.mk 2 "self" [3] [] false] 2 3;
     rng_calls := 0 |}.

Definition sample_globals (p : Policy) : Globals :=
  {| get_checkout_time := Some Deterministic;
     pick_checkout_line := Some p;
     count_first := true;
     np_random := fun _ => 0 |}.

(** The failure of the precondition of [queue_new_customer]. *)
Definition is_closed_line_error (e : Error) : bool :=
  match e with
  | AssertionError_closed_line _ => true
  | _ => false
  end.

(** [r] is not the closed-line failure. *)
Definition never_closed_line_error {A : Type} (r : Result A) : Prop :=
  forall e, r = Raise e -> is_closed_line_error e = false.

(** Two arrivals at time 0, the first with 11 items, the second with 3. *)
Definition text_11_then_3 : string :=
  String.append "0,join,11" (String LF "0,join,3").

(** Two arrivals at time 0 with 11 items each. *)
Definition text_11_twice : string :=
  String.append "0,join,11" (String LF "0,join,11").

(** The selections of a round robin that skips nothing, started with the
    cursor on [last] in a store of [n] lines: the [k]-th one (from 0). *)
Definition cycle_from (last n : Z) (k : nat) : lref :=
  Z.to_nat ((last + 1 + Z.of_nat k) mod n).

Definition no_close_event (evs : list Event) : bool :=
  forallb (fun e => negb (is_close_event e)) evs.

Definition no_line_closed (w : World) : Prop :=
  forall line, line ∈ GroceryStore.lines (store w) ->
               CheckoutLine.closed line = false.

(** Three arrivals at time 0 with 3, 5 and 2 items. *)
Definition text_three_light : string :=
  String.append "0,join,3" (String LF (String.append "0,join,5" (String LF "0,join,2"))).

(** The statement "over any run in which no line is ever closed, successive
    round-robin selections cycle through all line ids in ascending order",
    for the runs of a fresh simulator. *)
Definition round_robin_cycles_without_closing (g : Globals) : Prop :=
  forall line_counts text conf0 evs conf sels,
    initial_conf (Simulator__init__ line_counts) text = Ok conf0 ->
    no_close_event evs = true ->
    engine_exec g conf0 evs conf ->
    exec_events g evs (snd conf0) = Ok (sels, snd conf) ->
    sels = map (fun k => k mod length (GroceryStore.lines (store (snd conf0))))
               (seq 0 (length sels)).

(** *** The statistics query, as the specification words it *)

(** The three timestamps [filter_by] can name. *)
Inductive TimeField : Type := ByJoin | ByBegin | ByFinish.

Definition field_name (f : TimeField) : string :=
  match f with
  | ByJoin => "join"
  | ByBegin => "begin"
  | ByFinish => "finish"
  end.

Definition field_value (f : TimeField) (customer : Customer.t) : option Z :=
  match f with
  | ByJoin => Customer.join_timestamp customer
  | ByBegin => Customer.begin_timestamp customer
  | ByFinish => Customer.finish_timestamp customer
  end.

(** The three criteria. *)
Inductive Criterion : Type := Wait | Checkout | Total.

Definition criterion_name (crit : Criterion) : string :=
  match crit with
  | Wait => "wait"
  | Checkout => "checkout"
  | Total => "total"
  end.


(** The served customers of the selected lines (all lines when
    [line_ids = None]), line after line. *)
Definition spec_served_on (w : World) (line_ids : option (list Z)) : list cref :=
  flat_map (fun line => if line_selected line_ids line
                        then CheckoutLine.served line else [])
           (GroceryStore.lines (store w)).

(** [t] lies in the half-open interval [[start_time, end_time)]; without
    [start_time] the interval starts at 0, without [end_time] it has no end. *)
Definition spec_in_interval (start_time end_time : option Z) (t : Z) : bool :=
  (match start_time with None => 0 | Some s => s end <=? t)%Z
  && match end_time with
     | None => true
     | Some e => (t <? e)%Z
     end.

Definition spec_keeps (w : World) (f : TimeField) (start_time end_time : option Z)
  (c : cref) : bool :=
  match customers w !! c with
  | Some customer =>
      match field_value f customer with
      | Some t => spec_in_interval start_time end_time t
      | None => false
      end
  | None => false
  end.

(** The customers the query retains. *)
Definition spec_retained (w : World) (f : TimeField) (start_time end_time : option Z)
  (line_ids : option (list Z)) : list cref :=
  List.filter (spec_keeps w f start_time end_time) (spec_served_on w line_ids).


(** Customer [c] exists and went through join, begin and finish. *)
Definition fully_stamped (w : World) (c : cref) : Prop :=
  exists customer j b f,
    customers w !! c = Some customer
    /\ Customer.join_timestamp customer = Some j
    /\ Customer.begin_timestamp customer = Some b
    /\ Customer.finish_timestamp customer = Some f.



(** The simulator after a run in which customer 0 (3 items) and customer 1
    (5 items) were served by the only line, a cashier line. *)
Definition sample_finished_simulator : Simulator :=
  {| events := [];
     world := {| customers := [Customer.mk 0 3 (Some 0%Z) (Some 0%Z) (Some 10%Z);
                               Customer.mk 1 5 (Some 0%Z) (Some 10%Z) (Some 22%Z)];
                 store := GroceryStore.mk
                            [CheckoutLine.mk 0 "cashier" [] [0; 1] false] 0 1;
                 rng_calls := 0 |};
     _finished := true |}.

(** The settings of the end-to-end examples: the deterministic duration
    model, any of the five policies. *)
Definition deterministic_globals (p : Policy) (cf : bool) (draws : nat -> nat)
  : Globals :=
  {| get_checkout_time := Some Deterministic;
     pick_checkout_line := Some p;
     count_first := cf;
     np_random := draws |}.

Definition one_cashier_config : list (string * Z) := [("cashier", 1%Z)].

Definition text_3 : string := "0,join,3".

Definition text_3_then_5 : string :=
  String.append "0,join,3" (String LF "0,join,5").

(** *** The invariant of the engine loop *)

(** Customer [c] exists and carries the timestamp [f]. *)
Definition has_stamp (w : World) (f : TimeField) (c : cref) : Prop :=
  exists customer t,
    customers w !! c = Some customer /\ field_value f customer = Some t.

(** Customer [c] is at the head of the waiting sequence of line [l]. *)
Definition head_of (w : World) (l : lref) (c : cref) : Prop :=
  exists line, GroceryStore.lines (store w) !! l = Some line
               /\ head (CheckoutLine.queue line) = Some c.

(** What a queued event can rely on: a BeginCheckout or FinishCheckout event
    is for the customer at the head of its line, and the customer of a
    FinishCheckout event has begun. *)
Definition event_ok (w : World) (e : Event) : Prop :=
  match e with
  | BeginCheckoutEvent _ c l => head_of w l c
  | FinishCheckoutEvent _ c l => head_of w l c /\ has_stamp w ByBegin c
  | _ => True
  end.

(** [e] is the BeginCheckout or FinishCheckout event of line [l]. *)
Definition serves (l : lref) (e : Event) : bool :=
  match e with
  | BeginCheckoutEvent _ _ l' | FinishCheckoutEvent _ _ l' => Nat.eqb l l'
  | _ => false
  end.

Definition service_count (l : lref) (evs : list Event) : nat :=
  length (List.filter (serves l) evs).

(** The invariant, for the events [evs] waiting in the priority queue: every
    event is in order, a line has at most one service event under way, the
    waiting customers have joined, and the served customers carry their three
    timestamps. *)
Definition engine_invariant (evs : list Event) (w : World) : Prop :=
  Forall (event_ok w) evs
  /\ (forall l, service_count l evs <= 1)
  /\ (forall l line c, GroceryStore.lines (store w) !! l = Some line ->
                       c ∈ CheckoutLine.queue line -> has_stamp w ByJoin c)
  /\ (forall l line c, GroceryStore.lines (store w) !! l = Some line ->
                       c ∈ CheckoutLine.served line -> fully_stamped w c).

(** Events of the text: arrivals, openings and closings. *)
Definition is_initial_event (e : Event) : bool :=
  match e with
  | JoinCheckoutEvent _ _ | LineOpenEvent _ _ | LineCloseEvent _ _ => true
  | _ => false
  end.

(** Line [i] of [ls] is eligible, and against every other eligible line its
    measure is no greater, and smaller when the other line comes earlier. *)
Definition first_minimum_among (measure : CheckoutLine.t -> Result Z)
  (customer : Customer.t) (ls : list CheckoutLine.t) (i : lref) : Prop :=
  exists line,
    ls !! i = Some line
    /\ eligible customer line = true
    /\ forall (j : lref) (line' : CheckoutLine.t),
         j <> i -> ls !! j = Some line' -> eligible customer line' = true ->
         exists v v', measure line = Ok v /\ measure line' = Ok v'
                      /\ (v <= v')%Z /\ (v' = v -> i < j).


(** * More of the code

    The notions below serve the second part of the theorems: the end of
    [run], the text of the events, the customers' way through the store, the
    failures, the lines of a new store. *)

From Stdlib Require Import Sorted DecimalString DecimalPos.

(** *** How long the loop of [run] can go on *)





(** The lines of the text of the initial events. *)
Definition text_lines (initial_events_str : string) : list string :=
  split LF (strip initial_events_str).

(** *** The text of the initial events *)

(** The timestamp a line of the text carries: its first field, read as an
    integer. *)
Definition line_timestamp (line : string) : option Z :=
  match split ","%char line with
  | [timestamp; _; _] => py_int timestamp
  | _ => None
  end.


(** The customers whose JoinCheckoutEvent is among [evs], in the order of
    [evs]. *)
Definition arriving (evs : list Event) : list cref :=
  flat_map (fun e => match e with
                     | JoinCheckoutEvent _ c => [c]
                     | _ => []
                     end) evs.


(** *** What one event does

    [line_effect l line e line' future_events]: event [e], executed when the
    line at position [l] is [line], leaves that line as [line'] and returns
    [future_events]; no other line changes. *)
Inductive line_effect (l : lref) (line : CheckoutLine.t)
  : Event -> CheckoutLine.t -> list Event -> Prop :=
| effect_begin t c d :
    line_effect l line (BeginCheckoutEvent t c l) line
      [FinishCheckoutEvent (t + d) c l]
| effect_finish_last t c served_customer :
    CheckoutLine.queue line = [served_customer] ->
    line_effect l line (FinishCheckoutEvent t c l)
      (CheckoutLine.mk (CheckoutLine.id line) (CheckoutLine.type line) []
         (CheckoutLine.served line ++ [served_customer]) (CheckoutLine.closed line))
      []
| effect_finish_next t c served_customer next_customer rest :
    CheckoutLine.queue line = served_customer :: next_customer :: rest ->
    line_effect l line (FinishCheckoutEvent t c l)
      (CheckoutLine.mk (CheckoutLine.id line) (CheckoutLine.type line)
         (next_customer :: rest)
         (CheckoutLine.served line ++ [served_customer]) (CheckoutLine.closed line))
      [BeginCheckoutEvent t next_customer l]
| effect_join_first t c :
    CheckoutLine.queue line = [] ->
    CheckoutLine.closed line = false ->
    line_effect l line (JoinCheckoutEvent t c)
      (CheckoutLine.mk (CheckoutLine.id line) (CheckoutLine.type line) [c]
         (CheckoutLine.served line) (CheckoutLine.closed line))
      [BeginCheckoutEvent t c l]
| effect_join_behind t c :
    CheckoutLine.queue line <> [] ->
    CheckoutLine.closed line = false ->
    line_effect l line (JoinCheckoutEvent t c)
      (CheckoutLine.mk (CheckoutLine.id line) (CheckoutLine.type line)
         (CheckoutLine.queue line ++ [c])
         (CheckoutLine.served line) (CheckoutLine.closed line))
      []
| effect_open t :
    line_effect l line (LineOpenEvent t l) (CheckoutLine.open line) []
| effect_close t :
    line_effect l line (LineCloseEvent t l) (CheckoutLine.close line) [].

(** The customer an event stamps, and the stamp. *)
Definition stamp (e : Event) : option (cref * (Customer.t -> Customer.t)) :=
  match e with
  | BeginCheckoutEvent t c _ => Some (c, Customer.set_begin_timestamp t)
  | FinishCheckoutEvent t c _ => Some (c, Customer.set_finish_timestamp t)
  | JoinCheckoutEvent t c => Some (c, Customer.set_join_timestamp t)
  | LineOpenEvent _ _ | LineCloseEvent _ _ => None
  end.

Definition customers_effect (e : Event) (cs cs' : list Customer.t) : Prop :=
  match stamp e with
  | Some (c, f) => exists customer, cs !! c = Some customer /\ cs' = <[c := f customer]> cs
  | None => cs' = cs
  end.

(** The customers waiting on the lines, and the customers served, line after
    line. *)
Definition waiting (ls : list CheckoutLine.t) : list cref :=
  flat_map CheckoutLine.queue ls.

Definition served_customers (ls : list CheckoutLine.t) : list cref :=
  flat_map CheckoutLine.served ls.

(** *** Nobody is lost

    Every customer is in exactly one place: still to arrive (its
    JoinCheckoutEvent is in the priority queue), waiting on one line, or
    served by one line. *)
Definition everybody_accounted (evs : list Event) (w : World) : Prop :=
  arriving evs ++ waiting (GroceryStore.lines (store w))
    ++ served_customers (GroceryStore.lines (store w))
  ≡ₚ seq 0 (length (customers w)).

(** A line on which somebody waits has its BeginCheckout or FinishCheckout
    event in the priority queue. *)
Definition lines_busy (evs : list Event) (w : World) : Prop :=
  forall (l : lref) (line : CheckoutLine.t),
    GroceryStore.lines (store w) !! l = Some line ->
    CheckoutLine.queue line <> [] ->
    1 <= service_count l evs.

(** *** First come, first served *)

(** The customers a line has taken, in the order in which it took them: the
    served ones, then the waiting ones. *)
Definition line_history (line : CheckoutLine.t) : list cref :=
  CheckoutLine.served line ++ CheckoutLine.queue line.

(** Between [line] and [line'] the customers [joined] queued up at the end,
    and customers were served from the front, in order. *)
Definition line_moves_on (line line' : CheckoutLine.t) (joined : list cref) : Prop :=
  CheckoutLine.id line' = CheckoutLine.id line
  /\ CheckoutLine.type line' = CheckoutLine.type line
  /\ CheckoutLine.served line `prefix_of` CheckoutLine.served line'
  /\ line_history line' = line_history line ++ joined.

(** One cashier line at which customer 0 stands alone, served from time 0,
    and the FinishCheckout event that is under way for it. *)
Definition sample_world_one_served : World :=
  {| customers := [Customer.mk 0 3 (Some 0%Z) (Some 0%Z) None];
     store := GroceryStore.mk [sample_line "cashier" [0]] 0 1;
     rng_calls := 0 |}.

(** *** Failures *)

(** [r] raises nothing but errors with property [P]. *)
Definition raises_only {A : Type} (P : Error -> Prop) (r : Result A) : Prop :=
  forall e, r = Raise e -> P e.

(** The ways [Utility.get_checkout_time(customer, line)] fails on a line whose
    type is among [types]: the slot is empty, the stochastic model is not
    written, or the deterministic model does not know the type. *)
Definition duration_failure (g : Globals) (types : list string) (e : Error) : Prop :=
  match e with
  | TypeError_not_callable => get_checkout_time g = None
  | NotImplementedError => get_checkout_time g = Some Stochastic
  | ValueError_unknown_line_type ty =>
      get_checkout_time g = Some Deterministic
      /\ known_line_type ty = false /\ ty ∈ types
  | _ => False
  end.



(** No line of the store takes the customer. *)
Definition nobody_takes (customer : Customer.t) (st : GroceryStore.t) : Prop :=
  forall line, line ∈ GroceryStore.lines st -> eligible customer line = false.

(** *** The lines of a new store *)

(** The types of the lines [GroceryStore.__init__] makes from the items
    [(line_type, line_count)], in the order of the items: [line_count] times
    [line_type], and none for a count that is not positive. *)
Definition types_of_counts (items : list (string * Z)) : list string :=
  flat_map (fun '(line_type, line_count) => replicate (Z.to_nat line_count) line_type)
    items.

(** [b] does not come before [a] in the order of [sorted]. *)
Definition item_le (a b : string * Z) : Prop := GroceryStore.item_ltb b a = false.

(** *** What the loop of [run] can rely on *)



(** *** A line that is open to everybody *)



(** *** The timestamps of a run *)

(** Customer [c], served by [line], was at the till for the time the duration
    model gives for it on that line. *)
Definition service_timed (g : Globals) (w : World) (c : cref) (line : CheckoutLine.t)
  : Prop :=
  exists customer b f,
    customers w !! c = Some customer
    /\ Customer.begin_timestamp customer = Some b
    /\ Customer.finish_timestamp customer = Some f
    /\ call_get_checkout_time g customer line = Ok (f - b)%Z.

(** A FinishCheckout event waiting in the priority queue is due when the
    duration model says, counted from the begin of its customer. *)
Definition finish_timed (g : Globals) (w : World) (e : Event) : Prop :=
  match e with
  | FinishCheckoutEvent t c l =>
      exists customer line b,
        customers w !! c = Some customer
        /\ GroceryStore.lines (store w) !! l = Some line
        /\ Customer.begin_timestamp customer = Some b
        /\ call_get_checkout_time g customer line = Ok (t - b)%Z
  | _ => True
  end.

(** Every arrival of [initial] is still to come, or has left its timestamp on
    its customer. *)
Definition joins_stamped (initial evs : list Event) (w : World) : Prop :=
  forall t c,
    JoinCheckoutEvent t c ∈ initial ->
    JoinCheckoutEvent t c ∈ evs
    \/ ((c ∉ arriving evs)
        /\ exists customer, customers w !! c = Some customer
                            /\ Customer.join_timestamp customer = Some t).

Definition timed (g : Globals) (initial evs : list Event) (w : World) : Prop :=
  engine_invariant evs w
  /\ everybody_accounted evs w
  /\ Forall (finish_timed g w) evs
  /\ (forall l line c, GroceryStore.lines (store w) !! l = Some line ->
                       c ∈ CheckoutLine.served line -> service_timed g w c line)
  /\ joins_stamped initial evs w.

(** *** The order of the priority queue *)

(** The position above [i] in the tree that [heapq] lays over a list. *)
Definition parent (i : nat) : nat := Nat.div2 (i - 1).

(** [a] is not later than [b]: [b < a] does not hold for [Event.__lt__]. *)
Definition not_later (a b : Event) : Prop := (timestamp a <= timestamp b)%Z.

(** The invariant of [heapq]: no item is earlier than the item above it. *)
Definition is_heap (h : list Event) : Prop :=
  forall i c p, 0 < i -> h !! i = Some c -> h !! parent i = Some p -> not_later p c.

(** The invariant with a hole at [pos]: what stands at [pos] is not looked
    at. *)
Definition heap_hole (h : list Event) (pos : nat) : Prop :=
  forall i c p, 0 < i -> i <> pos -> parent i <> pos ->
                h !! i = Some c -> h !! parent i = Some p -> not_later p c.

(** *** Time *)

(** No event of [evs] is due before [now]. *)
Definition nothing_overdue (now : Z) (evs : list Event) : Prop :=
  Forall (fun e => (now <= timestamp e)%Z) evs.

(** No customer has a negative number of items. *)
Definition items_nonneg (w : World) : Prop :=
  forall customer, customer ∈ customers w -> (0 <= Customer.num_items customer)%Z.

(** One arrival with 3 items at time 0 on a store with one cashier line: the
    configuration [run] starts its loop in, and the one it ends in. *)
Definition conf_arriving : list Event * World :=
  ([JoinCheckoutEvent 0 0],
   {| customers := [Customer.__init__ 0 3];
      store := GroceryStore.__init__ one_cashier_config;
      rng_calls := 0 |}).

Definition conf_finished : list Event * World :=
  ([],
   {| customers := [Customer.mk 0 3 (Some 0%Z) (Some 0%Z) (Some 10%Z)];
      store := GroceryStore.mk [CheckoutLine.mk 0 "cashier" [] [0] false] 0 1;
      rng_calls := 0 |}).

(** The three timestamps of customer [c]. *)
Definition joined_at (w : World) (c : cref) (j : Z) : Prop :=
  exists customer, customers w !! c = Some customer
                   /\ Customer.join_timestamp customer = Some j.

Definition begun_at (w : World) (c : cref) (b : Z) : Prop :=
  exists customer, customers w !! c = Some customer
                   /\ Customer.begin_timestamp customer = Some b.

Definition finished_at (w : World) (c : cref) (f : Z) : Prop :=
  exists customer, customers w !! c = Some customer
                   /\ Customer.finish_timestamp customer = Some f.

(** The rule of a queue with one server: customer [c] begins at [b], the
    moment it has joined and the customer before it on the line, [prev] if
    there is one, has finished. *)
Definition begin_rule (w : World) (prev : option cref) (c : cref) (b : Z) : Prop :=
  exists j, joined_at w c j
            /\ match prev with
               | None => b = j
               | Some p => exists f, finished_at w p f /\ b = Z.max j f
               end.

(** The customers [served], in this order, were served one at a time after
    [prev]. *)
Fixpoint one_at_a_time (w : World) (prev : option cref) (served : list cref) : Prop :=
  match served with
  | [] => True
  | c :: rest =>
      (exists b, begun_at w c b /\ begin_rule w prev c b)
      /\ one_at_a_time w (Some c) rest
  end.

(** A BeginCheckout event is due when the rule says; the customer of a
    FinishCheckout event has begun when the rule says, before the event is
    due. *)
Definition event_clocked (w : World) (e : Event) : Prop :=
  match e with
  | BeginCheckoutEvent t c l =>
      exists line, GroceryStore.lines (store w) !! l = Some line
                   /\ begin_rule w (last (CheckoutLine.served line)) c t
  | FinishCheckoutEvent t c l =>
      exists line b, GroceryStore.lines (store w) !! l = Some line
                     /\ begun_at w c b /\ (b < t)%Z
                     /\ begin_rule w (last (CheckoutLine.served line)) c b
  | _ => True
  end.

(** The state of a simulation at time [now]. *)
Definition clocked (now : Z) (evs : list Event) (w : World) : Prop :=
  engine_invariant evs w
  /\ everybody_accounted evs w
  /\ items_nonneg w
  /\ (forall l line c, GroceryStore.lines (store w) !! l = Some line ->
        c ∈ CheckoutLine.queue line ->
        exists j, joined_at w c j /\ (j <= now)%Z)
  /\ (forall l line c, GroceryStore.lines (store w) !! l = Some line ->
        c ∈ CheckoutLine.served line ->
        exists j b f, joined_at w c j /\ begun_at w c b /\ finished_at w c f
                      /\ (j <= b < f)%Z /\ (f <= now)%Z)
  /\ (forall l line, GroceryStore.lines (store w) !! l = Some line ->
        one_at_a_time w None (CheckoutLine.served line))
  /\ Forall (event_clocked w) evs.

(** *** What a run leaves as it was *)

(** The draws an arrival takes from the random stream. *)
Definition draws_per_arrival (g : Globals) : nat :=
  match pick_checkout_line g with
  | Some PureRandom => 1
  | _ => 0
  end.

(** The customers of [w] are the customers of [w0], timestamps apart. *)
Definition same_customers (w0 w : World) : Prop :=
  length (customers w) = length (customers w0)
  /\ forall c customer0,
       customers w0 !! c = Some customer0 ->
       exists customer,
         customers w !! c = Some customer
         /\ Customer.id customer = Customer.id customer0
         /\ Customer.num_items customer = Customer.num_items customer0.

(** The lines of [st] are the lines of [st0], the customers on them and the
    closed flags apart. *)
Definition same_layout (st0 st : GroceryStore.t) : Prop :=
  GroceryStore.total_lines st = GroceryStore.total_lines st0
  /\ map CheckoutLine.id (GroceryStore.lines st) = map CheckoutLine.id (GroceryStore.lines st0)
  /\ map CheckoutLine.type (GroceryStore.lines st)
     = map CheckoutLine.type (GroceryStore.lines st0).

(** *** event.py, the other comparisons *)

(** [Event.__eq__], [__ne__], [__le__], [__gt__] and [__ge__]. *)
Definition Event_eq (self other : Event) : bool :=
  (timestamp self =? timestamp other)%Z.

Definition Event_ne (self other : Event) : bool := negb (Event_eq self other).

Definition Event_le (self other : Event) : bool :=
  (timestamp self <=? timestamp other)%Z.

Definition Event_gt (self other : Event) : bool := negb (Event_le self other).

Definition Event_ge (self other : Event) : bool := negb (Event_lt self other).

(** ** data_generator.py

    The generator post-processes arrays that numpy draws.  The draws
    themselves are outside the program: [NumpyRandom] gives, for the [k]-th
    sampling of a stream, the integer array that the expression of the source
    evaluates to, or nothing where numpy raises (a negative size, a negative
    scale, bounds out of range). *)

Record NumpyRandom : Type := {
  (* np.floor(np.random.uniform(start_time, end_time, num_customers)).astype(int) *)
  floor_uniform : nat -> Z -> Z -> Z -> option (list Z);
  (* np.round(sampling_func(param1, param2, num_customers)).astype(int), where
     [sampling_func] is np.random.uniform for "uniform", np.random.normal
     otherwise *)
  round_sample : nat -> string -> R -> R -> Z -> option (list Z)
}.

(** The module numpy.random: the stream as it stands, and the stream after
    [np.random.seed(seed)], which raises for some seeds. *)
Record Numpy : Type := {
  np_stream : NumpyRandom;
  np_random_seed : Z -> option NumpyRandom
}.

Inductive GenError : Type :=
| AssertionError_item_distribution (name : string)  (* unknown item distribution type *)
| AssertionError_dist_params                        (* incorrect number of parameters *)
| NumpyError.                                       (* an exception of numpy *)

Inductive GenResult (A : Type) : Type :=
| GenOk (a : A)
| GenRaise (e : GenError).
Arguments GenOk {A} a.
Arguments GenRaise {A} e.

Module DataGenerator.
Record t : Type := mk { random_state : option Z }.

Definition __init__ (random_state : option Z) : t := mk random_state.
End DataGenerator.

(** One tuple of [params]: the arguments of [_generate_uniform_time]. *)
Module SubParams.
Record t : Type := mk {
  start_time : Z;
  end_time : Z;
  num_customers : Z;
  item_distribution : string;
  dist_params : list R
}.
End SubParams.

(** [sorted] on a list of integers. *)
Fixpoint insert_Z (x : Z) (l : list Z) : list Z :=
  match l with
  | [] => [x]
  | y :: l' => if (x <=? y)%Z then x :: l else y :: insert_Z x l'
  end.

Definition sorted_Z (l : list Z) : list Z := fold_right insert_Z [] l.

(** [items[items <= 0] = 1] *)
Definition at_least_one_item (item : Z) : Z := if (item <=? 0)%Z then 1%Z else item.

(** ["%d" % z] *)
Definition format_d (z : Z) : string := NilEmpty.string_of_int (Z.to_int z).

(** ["%d,join,%d" % (timestamp, item)] *)
Definition format_join (row : Z * Z) : string :=
  String.append (format_d (fst row)) (String.append ",join," (format_d (snd row))).

(** The rows [zip(timestamps, items)] of one call, [k] being the number of
    samplings taken from the stream before. *)
Definition uniform_time_rows (np : NumpyRandom) (k : nat) (p : SubParams.t)
  : GenResult (list (Z * Z)) :=
  if negb (String.eqb (SubParams.item_distribution p) "uniform"
           || String.eqb (SubParams.item_distribution p) "gaussian")
  then GenRaise (AssertionError_item_distribution (SubParams.item_distribution p))
  else if negb (length (SubParams.dist_params p) =? 2)%nat
  then GenRaise AssertionError_dist_params
  else
    match floor_uniform np k (SubParams.start_time p) (SubParams.end_time p)
            (SubParams.num_customers p) with
    | None => GenRaise NumpyError
    | Some drawn_times =>
        let timestamps := sorted_Z drawn_times in
        match SubParams.dist_params p with
        | [param1; param2] =>
            match round_sample np (S k) (SubParams.item_distribution p) param1 param2
                    (SubParams.num_customers p) with
            | None => GenRaise NumpyError
            | Some drawn_items =>
                let items := map at_least_one_item drawn_items in
                GenOk (combine timestamps items)
            end
        | _ => GenRaise AssertionError_dist_params
        end
    end.

Definition _generate_uniform_time (np : NumpyRandom) (k : nat) (p : SubParams.t)
  : GenResult (list string) :=
  match uniform_time_rows np k p with
  | GenOk rows => GenOk (map format_join rows)
  | GenRaise e => GenRaise e
  end.

(** [for sub_params in params: lines += self._generate_uniform_time(...)] *)
Fixpoint generate_loop (np : NumpyRandom) (k : nat) (params : list SubParams.t)
  (lines : list string) : GenResult (list string) :=
  match params with
  | [] => GenOk lines
  | p :: params' =>
      match _generate_uniform_time np k p with
      | GenOk new => generate_loop np (k + 2) params' (lines ++ new)
      | GenRaise e => GenRaise e
      end
  end.

(** [sep.join(lines)] *)
Definition join_lines (sep : ascii) (lines : list string) : string :=
  match lines with
  | [] => EmptyString
  | line :: lines' =>
      fold_left (fun text l => String.append text (String sep l)) lines' line
  end.

(** The stream that [generate_time_varying] draws from. *)
Definition seeded (numpy : Numpy) (self : DataGenerator.t) : option NumpyRandom :=
  match DataGenerator.random_state self with
  | Some seed => np_random_seed numpy seed
  | None => Some (np_stream numpy)
  end.

(** [generate_time_varying(params)] *)
Definition generate_time_varying (numpy : Numpy) (self : DataGenerator.t)
  (params : list SubParams.t) : GenResult string :=
  match seeded numpy self with
  | None => GenRaise NumpyError
  | Some np =>
      match generate_loop np 0 params [] with
      | GenOk lines => GenOk (join_lines LF lines)
      | GenRaise e => GenRaise e
      end
  end.

(** The rows of a whole call. *)
Fixpoint generated_rows (np : NumpyRandom) (k : nat) (params : list SubParams.t)
  : GenResult (list (Z * Z)) :=
  match params with
  | [] => GenOk []
  | p :: params' =>
      match uniform_time_rows np k p, generated_rows np (k + 2) params' with
      | GenOk rows, GenOk rows' => GenOk (rows ++ rows')
      | GenRaise e, _ => GenRaise e
      | _, GenRaise e => GenRaise e
      end
  end.

(** A numpy for the examples: seeds are the 32-bit naturals, sizes must not be
    negative, the times asked for come in descending order,
    [low + n, ..., low + 1], and the items are [-2, 3, 8, ...]. *)
Definition sample_stream : NumpyRandom :=
  {| floor_uniform := fun _ low _ n =>
       if (n <? 0)%Z then None
       else Some (map (fun i => (low + (n - Z.of_nat i))%Z) (seq 0 (Z.to_nat n)));
     round_sample := fun _ _ _ _ n =>
       if (n <? 0)%Z then None
       else Some (map (fun i => (5 * Z.of_nat i - 2)%Z) (seq 0 (Z.to_nat n))) |}.

Definition sample_numpy : Numpy :=
  {| np_stream := sample_stream;
     np_random_seed := fun seed =>
       if (0 <=? seed)%Z && (seed <? 2 ^ 32)%Z then Some sample_stream else None |}.

Definition sample_params : list SubParams.t :=
  [SubParams.mk 0 10 3 "uniform" [1%R; 10%R]].

(** What [generate_time_varying] makes of them, and the simulator after a run
    on that text with one cashier line. *)
Definition sample_rows : list (Z * Z) := [(1, 1); (2, 3); (3, 8)]%Z.

Definition sample_generated_text : string :=
  String.append "1,join,1" (String LF (String.append "2,join,3" (String LF "3,join,8"))).

Definition sample_generated_simulator : Simulator :=
  {| events := [];
     world :=
       {| customers := [Customer.mk 0 1 (Some 1%Z) (Some 1%Z) (Some 9%Z);
                        Customer.mk 1 3 (Some 2%Z) (Some 9%Z) (Some 19%Z);
                        Customer.mk 2 8 (Some 3%Z) (Some 19%Z) (Some 34%Z)];
          store := GroceryStore.mk [CheckoutLine.mk 0 "cashier" [] [0; 1; 2] false] 0 1;
          rng_calls := 0 |};
     _finished := true |}.

(** The numpy contract: an array has the size asked for. *)
Definition sized (np : NumpyRandom) : Prop :=
  (forall k low high n drawn,
     floor_uniform np k low high n = Some drawn -> length drawn = Z.to_nat n)
  /\ (forall k name param1 param2 n drawn,
        round_sample np k name param1 param2 n = Some drawn ->
        length drawn = Z.to_nat n).

(** What the assertions of [_generate_uniform_time] ask of its arguments. *)
Definition valid_params (p : SubParams.t) : Prop :=
  (SubParams.item_distribution p = "uniform"
   \/ SubParams.item_distribution p = "gaussian")
  /\ length (SubParams.dist_params p) = 2.

(** The assertions of [_generate_uniform_time] refuse the arguments [p] with
    [e]; they are checked in this order. *)
Definition refused (p : SubParams.t) (e : GenError) : Prop :=
  let known := SubParams.item_distribution p = "uniform"
               \/ SubParams.item_distribution p = "gaussian" in
  (~ known /\ e = AssertionError_item_distribution (SubParams.item_distribution p))
  \/ (known /\ length (SubParams.dist_params p) <> 2 /\ e = AssertionError_dist_params).

(** The number of customers that [params] ask for. *)
Definition customers_asked (params : list SubParams.t) : nat :=
  list_sum (map (fun p => Z.to_nat (SubParams.num_customers p)) params).

(** Arguments that are refused: a distribution that is not known, and one
    distribution parameter too few. *)
Definition poisson_params : SubParams.t :=
  SubParams.mk 0 10 3 "poisson" [5%R; 2%R].

Definition one_parameter_params : SubParams.t :=
  SubParams.mk 0 10 3 "gaussian" [5%R].

(** What [create_event_list] is to make of the rows: one arrival per row, of
    customers numbered from [id] and stored from position [c] on. *)
Fixpoint events_of_rows (c : cref) (rows : list (Z * Z)) : list Event :=
  match rows with
  | [] => []
  | row :: rows' => JoinCheckoutEvent (fst row) c :: events_of_rows (S c) rows'
  end.

Fixpoint customers_of_rows (id : Z) (rows : list (Z * Z)) : list Customer.t :=
  match rows with
  | [] => []
  | row :: rows' => Customer.__init__ id (snd row) :: customers_of_rows (id + 1) rows'
  end.

(** Every character of [s] satisfies [P]. *)
Fixpoint string_forall (P : ascii -> bool) (s : string) : bool :=
  match s with
  | EmptyString => true
  | String c s' => P c && string_forall P s'
  end.

(** The characters of ["%d"]: the digits and the minus sign. *)
Definition is_number_char (c : ascii) : bool :=
  match digit_value c with
  | Some _ => true
  | None => Ascii.eqb c "-"%char
  end.

(** * Properties *)

(** ** The result monad *)

Lemma of_option_Ok {A : Type} (o : option A) (e : Error) (a : A) :
  of_option o e = Ok a <-> o = Some a.
Proof. destruct o; simpl; split; congruence. Qed.

(** ** The deterministic duration model *)

Lemma known_line_type_spec (ty : string) :
  known_line_type ty = true <-> ty = "cashier" \/ ty = "express" \/ ty = "self".
Proof.
  unfold known_line_type. rewrite !orb_true_iff, !String.eqb_eq. tauto.
Qed.

(** C6: the deterministic duration model returns
    weight[category] * itemCount + bias[category] on the categories cashier,
    express and self (weights 1, 1, 2 and biases 7, 4, 1), whatever the
    customer, and raises the unknown-category error on every other
    category. *)
Theorem C6_deterministic_duration (customer : Customer.t) (line : CheckoutLine.t) :
  let n := Customer.num_items customer in
  let ty := CheckoutLine.type line in
  (ty = "cashier" -> get_checkout_time_deterministic customer line = Ok (n * 1 + 7)%Z)
  /\ (ty = "express" -> get_checkout_time_deterministic customer line = Ok (n * 1 + 4)%Z)
  /\ (ty = "self" -> get_checkout_time_deterministic customer line = Ok (n * 2 + 1)%Z)
  /\ (ty <> "cashier" -> ty <> "express" -> ty <> "self" ->
      get_checkout_time_deterministic customer line
      = Raise (ValueError_unknown_line_type ty))
  /\ (forall w b, _checkout_w ty = Some w -> _checkout_b ty = Some b ->
      get_checkout_time_deterministic customer line = Ok (n * w + b)%Z).
Proof.
  intros n ty. unfold get_checkout_time_deterministic. fold ty. fold n.
  repeat split.
  - intros ->. reflexivity.
  - intros ->. reflexivity.
  - intros ->. reflexivity.
  - intros H1 H2 H3.
    destruct (known_line_type ty) eqn:Hk; [|reflexivity].
    apply known_line_type_spec in Hk. tauto.
  - intros w b Hw Hb.
    assert (Hk : known_line_type ty = true).
    { unfold _checkout_w in Hw. unfold known_line_type.
      destruct (String.eqb ty "cashier"); [reflexivity|].
      destruct (String.eqb ty "express"); [reflexivity|].
      destruct (String.eqb ty "self"); [reflexivity|discriminate]. }
    rewrite Hk, Hw, Hb. reflexivity.
Qed.

Lemma C6_deterministic_duration_witness :
  get_checkout_time_deterministic (sample_customer 3) (sample_line "cashier" []) = Ok 10%Z
  /\ get_checkout_time_deterministic (sample_customer 3) (sample_line "express" []) = Ok 7%Z
  /\ get_checkout_time_deterministic (sample_customer 3) (sample_line "self" []) = Ok 7%Z
  /\ get_checkout_time_deterministic (sample_customer 3) (sample_line "vip" [])
     = Raise (ValueError_unknown_line_type "vip").
Proof.
  pose proof (C6_deterministic_duration (sample_customer 3) (sample_line "cashier" []))
    as (H1 & _).
  pose proof (C6_deterministic_duration (sample_customer 3) (sample_line "express" []))
    as (_ & H2 & _).
  pose proof (C6_deterministic_duration (sample_customer 3) (sample_line "self" []))
    as (_ & _ & H3 & _).
  pose proof (C6_deterministic_duration (sample_customer 3) (sample_line "vip" []))
    as (_ & _ & _ & H4 & _).
  split; [apply H1; reflexivity|].
  split; [apply H2; reflexivity|].
  split; [apply H3; reflexivity|].
  apply H4; discriminate.
Defined.

(** ** Executing a FinishCheckout event *)

(** C2: a FinishCheckout event at time t whose customer is the head of the
    line's waiting sequence sets that customer's finish timestamp to t, moves
    the head of the waiting sequence to the end of the served list, and spawns
    exactly one BeginCheckout event at the same time t for the new head when
    the waiting sequence is still non-empty, and nothing otherwise. *)
Theorem C2_finish_checkout (t : Z) (c : cref) (l : lref) (w : World)
  (customer : Customer.t) (line : CheckoutLine.t) (rest : list cref) :
  customers w !! c = Some customer ->
  GroceryStore.lines (store w) !! l = Some line ->
  CheckoutLine.queue line = c :: rest ->
  exists (w' : World) (line' : CheckoutLine.t),
    FinishCheckoutEvent_do t c l w
    = Ok (w', match rest with
              | [] => []
              | new_head :: _ => [BeginCheckoutEvent t new_head l]
              end)
    /\ customers w' = <[c := Customer.set_finish_timestamp t customer]> (customers w)
    /\ (Customer.finish_timestamp <$> customers w' !! c) = Some (Some t)
    /\ GroceryStore.lines (store w') = <[l := line']> (GroceryStore.lines (store w))
    /\ GroceryStore.lines (store w') !! l = Some line'
    /\ CheckoutLine.queue line' = rest
    /\ CheckoutLine.served line' = CheckoutLine.served line ++ [c]
    /\ CheckoutLine.id line' = CheckoutLine.id line
    /\ CheckoutLine.type line' = CheckoutLine.type line
    /\ CheckoutLine.closed line' = CheckoutLine.closed line.
Proof.
  intros Hc Hl Hq.
  assert (Hlt : l < length (GroceryStore.lines (store w)))
    by (eapply lookup_lt_Some; eauto).
  assert (Hct : c < length (customers w)) by (eapply lookup_lt_Some; eauto).
  unfold FinishCheckoutEvent_do, update_customer, get_customer, get_line.
  rewrite Hc; simpl. rewrite Hl; simpl. rewrite Hq.
  eexists _, _. split.
  - destruct rest as [|c' rest']; simpl; reflexivity.
  - simpl. repeat split.
    + rewrite list_lookup_insert_eq by assumption. reflexivity.
    + rewrite list_lookup_insert_eq by assumption. reflexivity.
Qed.

Lemma C2_finish_checkout_witness :
  exists w' line',
    FinishCheckoutEvent_do 10 0 0 sample_world_waiting
    = Ok (w', [BeginCheckoutEvent 10 1 0])
    /\ (Customer.finish_timestamp <$> customers w' !! 0) = Some (Some 10%Z)
    /\ GroceryStore.lines (store w') !! 0 = Some line'
    /\ CheckoutLine.queue line' = [1]
    /\ CheckoutLine.served line' = [0].
Proof.
  destruct (C2_finish_checkout 10 0 0 sample_world_waiting
              (Customer.mk 0 3 (Some 0%Z) (Some 0%Z) None)
              (sample_line "cashier" [0; 1]) [1])
    as (w' & line' & H1 & _ & H3 & _ & H5 & H6 & H7 & _);
    [reflexivity | reflexivity | reflexivity |].
  exists w', line'. repeat split; assumption.
Defined.

(** ** A freshly built store *)

Lemma append_lines_fresh (n : nat) (ty : string) (ls : list CheckoutLine.t) :
  fresh_lines ls ->
  exists ls',
    GroceryStore.append_lines n ty (ls, Z.of_nat (length ls))
    = (ls', Z.of_nat (length ls'))
    /\ fresh_lines ls'.
Proof.
  revert ls. induction n as [|n IH]; intros ls Hls; simpl.
  - eauto.
  - replace (Z.of_nat (length ls) + 1)%Z
      with (Z.of_nat (length (ls ++ [CheckoutLine.__init__ (Z.of_nat (length ls)) ty false])))
      by (rewrite length_app; simpl; lia).
    apply IH. intros i line Hi.
    destruct (decide (i < length ls)) as [Hlt|Hge].
    + rewrite lookup_app_l in Hi by assumption. auto.
    + rewrite lookup_app_r in Hi by lia.
      destruct (i - length ls) as [|k] eqn:Hk; simpl in Hi; [|discriminate].
      injection Hi as <-. simpl.
      replace i with (length ls) by lia. auto.
Qed.

Lemma fold_append_lines_fresh (items : list (string * Z)) (ls : list CheckoutLine.t) :
  fresh_lines ls ->
  exists ls',
    fold_left (fun acc '(line_type, line_count) =>
                 GroceryStore.append_lines (Z.to_nat line_count) line_type acc)
              items (ls, Z.of_nat (length ls))
    = (ls', Z.of_nat (length ls'))
    /\ fresh_lines ls'.
Proof.
  revert ls. induction items as [|[ty n] items IH]; intros ls Hls; simpl.
  - eauto.
  - destruct (append_lines_fresh (Z.to_nat n) ty ls Hls) as (ls1 & -> & Hls1).
    apply IH, Hls1.
Qed.

Lemma GroceryStore_init_fresh (line_counts : list (string * Z)) :
  let st := GroceryStore.__init__ line_counts in
  GroceryStore.total_lines st = Z.of_nat (length (GroceryStore.lines st))
  /\ GroceryStore.last_line_id st = (GroceryStore.total_lines st - 1)%Z
  /\ fresh_lines (GroceryStore.lines st).
Proof.
  unfold GroceryStore.__init__.
  destruct (fold_append_lines_fresh (GroceryStore.sorted line_counts) [])
    as (ls & Hfold & Hls).
  { intros i line Hi. rewrite lookup_nil in Hi. discriminate. }
  change (Z.of_nat (length (@nil CheckoutLine.t))) with 0%Z in Hfold.
  rewrite Hfold. simpl. split; [reflexivity|]. split; [lia|assumption].
Qed.

Lemma GroceryStore_init_wf (line_counts : list (string * Z)) :
  wf_store (GroceryStore.__init__ line_counts).
Proof.
  destruct (GroceryStore_init_fresh line_counts) as (Htot & Hlast & Hfresh).
  unfold wf_store. split; [assumption|]. split.
  - intros i line Hi. apply (Hfresh i line Hi).
  - rewrite Hlast, Htot. lia.
Qed.

(** ** Eligibility *)

Lemma eligible_spec (customer : Customer.t) (line : CheckoutLine.t) :
  eligible customer line = true
  <-> CheckoutLine.closed line = false
      /\ (CheckoutLine.type line <> "express"
          \/ (Customer.num_items customer <= 10)%Z).
Proof.
  unfold eligible.
  rewrite andb_true_iff, orb_true_iff, !negb_true_iff, Z.leb_le.
  rewrite <- String.eqb_neq. tauto.
Qed.

Lemma eligible_same_items (c c' : Customer.t) (line : CheckoutLine.t) :
  Customer.num_items c = Customer.num_items c' ->
  eligible c line = eligible c' line.
Proof. unfold eligible. intros ->. reflexivity. Qed.

(** ** Round robin *)

Lemma py_index_in_range {A : Type} (lst : list A) (i : Z) (x : A) :
  (0 <= i)%Z -> lst !! Z.to_nat i = Some x ->
  py_index lst i = Ok (Z.to_nat i, x).
Proof.
  intros Hi Hx. unfold py_index.
  destruct (i <? 0)%Z eqn:Hneg; [apply Z.ltb_lt in Hneg; lia|].
  rewrite Hneg, Hx. reflexivity.
Qed.

Lemma round_robin_pos_lt (st : GroceryStore.t) (offset : Z) :
  wf_store st -> (0 < GroceryStore.total_lines st)%Z ->
  round_robin_pos st offset < length (GroceryStore.lines st).
Proof.
  intros (Htot & _ & _) Hpos. unfold round_robin_pos.
  pose proof (Z.mod_pos_bound (GroceryStore.last_line_id st + offset)
                (GroceryStore.total_lines st) Hpos).
  lia.
Qed.

(** The scan over the offsets [a, a+1, ..., a+m-1]: it stops at the first
    offset whose line is eligible. *)
Lemma round_robin_loop_seq (customer : Customer.t) (st : GroceryStore.t) (m a : nat) :
  wf_store st -> (0 < GroceryStore.total_lines st)%Z ->
  match round_robin_loop customer st (map Z.of_nat (seq a m)) with
  | Ok (Some (l, line)) =>
      exists k, a <= k < a + m
        /\ l = round_robin_pos st (Z.of_nat k)
        /\ GroceryStore.lines st !! l = Some line
        /\ eligible customer line = true
        /\ forall j line', a <= j < k ->
             GroceryStore.lines st !! round_robin_pos st (Z.of_nat j) = Some line' ->
             eligible customer line' = false
  | Ok None =>
      forall j line', a <= j < a + m ->
        GroceryStore.lines st !! round_robin_pos st (Z.of_nat j) = Some line' ->
        eligible customer line' = false
  | Raise _ => False
  end.
Proof.
  intros Hwf Hpos. revert a. induction m as [|m IH]; intros a; simpl.
  - intros j line' Hj. lia.
  - pose proof (round_robin_pos_lt st (Z.of_nat a) Hwf Hpos) as Hlt.
    destruct (lookup_lt_is_Some_2 _ _ Hlt) as [line Hline].
    unfold round_robin_pos in Hline, Hlt.
    rewrite (py_index_in_range _ _ line); [|apply Z.mod_pos_bound; assumption|assumption].
    simpl. destruct (eligible customer line) eqn:Hel.
    + exists a. split; [lia|]. split; [reflexivity|].
      split; [assumption|]. split; [assumption|].
      intros j line' Hj. lia.
    + specialize (IH (S a)).
      destruct (round_robin_loop customer st (map Z.of_nat (seq (S a) m)))
        as [[[l line1]|]|e]; [| |assumption].
      * destruct IH as (k & Hk & Hl & Hlk & Helk & Hbefore).
        exists k. split; [lia|]. split; [assumption|].
        split; [assumption|]. split; [assumption|].
        intros j line' Hj Hj'.
        destruct (decide (j = a)) as [->|Hne].
        -- unfold round_robin_pos in Hj'. congruence.
        -- apply (Hbefore j line'); [lia|assumption].
      * intros j line' Hj Hj'.
        destruct (decide (j = a)) as [->|Hne].
        -- unfold round_robin_pos in Hj'. congruence.
        -- apply (IH j line'); [lia|assumption].
Qed.

Lemma round_robin_pos_cover (st : GroceryStore.t) (i : nat) :
  wf_store st -> i < length (GroceryStore.lines st) ->
  exists j, 1 <= j < 1 + Z.to_nat (GroceryStore.total_lines st)
            /\ round_robin_pos st (Z.of_nat j) = i.
Proof.
  intros (Htot & _ & Hlast) Hi.
  set (n := GroceryStore.total_lines st) in *.
  set (last := GroceryStore.last_line_id st) in *.
  assert (Hn : (0 < n)%Z) by lia.
  pose proof (Z.mod_pos_bound (Z.of_nat i - last - 1) n Hn) as Hb.
  exists (Z.to_nat ((Z.of_nat i - last - 1) mod n + 1)). split; [lia|].
  unfold round_robin_pos. fold n. fold last.
  rewrite Z2Nat.id by lia.
  replace (last + ((Z.of_nat i - last - 1) mod n + 1))%Z
    with ((last + 1) + (Z.of_nat i - last - 1) mod n)%Z by lia.
  rewrite Zplus_mod_idemp_r.
  replace (last + 1 + (Z.of_nat i - last - 1))%Z with (Z.of_nat i) by lia.
  rewrite Z.mod_small by lia. lia.
Qed.

(** What one round-robin selection does in a well-formed store. *)
Lemma pick_round_robin_spec (customer : Customer.t) (w : World) :
  wf_store (store w) ->
  match pick_checkout_line_round_robin customer w with
  | Ok (l, w') =>
      exists (k : nat) (line : CheckoutLine.t),
        1 <= k <= length (GroceryStore.lines (store w))
        /\ l = round_robin_pos (store w) (Z.of_nat k)
        /\ GroceryStore.lines (store w) !! l = Some line
        /\ eligible customer line = true
        /\ (forall j line', 1 <= j < k ->
              GroceryStore.lines (store w) !! round_robin_pos (store w) (Z.of_nat j)
              = Some line' ->
              eligible customer line' = false)
        /\ w' = set_last_line_id (Z.of_nat l) w
  | Raise e =>
      e = AssertionError_no_line
      /\ forall line, line ∈ GroceryStore.lines (store w) ->
                      eligible customer line = false
  end.
Proof.
  intros Hwf. unfold pick_checkout_line_round_robin, range1.
  destruct (Z_lt_le_dec 0 (GroceryStore.total_lines (store w))) as [Hpos|Hzero].
  - pose proof (round_robin_loop_seq customer (store w)
                  (Z.to_nat (GroceryStore.total_lines (store w))) 1 Hwf Hpos) as Hloop.
    destruct (round_robin_loop customer (store w)
                (map Z.of_nat (seq 1 (Z.to_nat (GroceryStore.total_lines (store w))))))
      as [[[l line]|]|e]; simpl; [| |contradiction].
    + destruct Hloop as (k & Hk & Hl & Hlk & Hel & Hbefore).
      destruct Hwf as (Htot & Hid & _).
      exists k, line. split; [lia|]. split; [assumption|].
      split; [assumption|]. split; [assumption|].
      split; [assumption|]. rewrite (Hid l line Hlk). reflexivity.
    + split; [reflexivity|]. intros line Hin.
      apply list_elem_of_lookup in Hin as [i Hi].
      destruct (round_robin_pos_cover (store w) i Hwf) as (j & Hj & Hji).
      { eapply lookup_lt_Some; eauto. }
      apply (Hloop j line); [lia|]. rewrite Hji. assumption.
  - destruct Hwf as (Htot & _ & _).
    replace (Z.to_nat (GroceryStore.total_lines (store w))) with 0 by lia.
    simpl. split; [reflexivity|]. intros line Hin.
    destruct (GroceryStore.lines (store w)); [|simpl in Htot; lia].
    apply elem_of_nil in Hin. contradiction.
Qed.

(** When every line takes the customer, the selection is the line right after
    the cursor. *)
Lemma pick_round_robin_next (customer : Customer.t) (w : World) :
  wf_store (store w) ->
  (0 < GroceryStore.total_lines (store w))%Z ->
  (forall line, line ∈ GroceryStore.lines (store w) -> eligible customer line = true) ->
  pick_checkout_line_round_robin customer w
  = Ok (round_robin_pos (store w) 1,
        set_last_line_id (Z.of_nat (round_robin_pos (store w) 1)) w).
Proof.
  intros Hwf Hpos Hall.
  pose proof (pick_round_robin_spec customer w Hwf) as Hspec.
  destruct (pick_checkout_line_round_robin customer w) as [[l w']|e].
  - destruct Hspec as (k & line & Hk & Hl & Hlk & Hel & Hbefore & Hw').
    destruct (decide (k = 1)) as [->|Hne].
    + subst. reflexivity.
    + exfalso.
      pose proof (round_robin_pos_lt (store w) (Z.of_nat 1) Hwf Hpos) as Hlt.
      destruct (lookup_lt_is_Some_2 _ _ Hlt) as [line1 Hline1].
      assert (eligible customer line1 = false)
        by (apply (Hbefore 1 line1); [lia|assumption]).
      assert (eligible customer line1 = true)
        by (apply Hall; eapply list_elem_of_lookup_2; eassumption).
      congruence.
  - destruct Hspec as (_ & Hnone). exfalso.
    pose proof (round_robin_pos_lt (store w) 1 Hwf Hpos) as Hlt.
    destruct (lookup_lt_is_Some_2 _ _ Hlt) as [line1 Hline1].
    assert (Hin : line1 ∈ GroceryStore.lines (store w))
      by (eapply list_elem_of_lookup_2; eassumption).
    specialize (Hnone line1 Hin). rewrite (Hall line1 Hin) in Hnone. discriminate.
Qed.

(** C10: a freshly constructed store has its cursor on the highest line id
    (the number of lines minus one); the first round-robin selection therefore
    starts its scan at line 0 and picks line 0 when that line is eligible. *)
Theorem C10_fresh_store_cursor (line_counts : list (string * Z))
  (customer : Customer.t) (w : World) (line0 : CheckoutLine.t) :
  store w = GroceryStore.__init__ line_counts ->
  GroceryStore.last_line_id (store w) = (GroceryStore.total_lines (store w) - 1)%Z
  /\ GroceryStore.total_lines (store w)
     = Z.of_nat (length (GroceryStore.lines (store w)))
  /\ (forall i line, GroceryStore.lines (store w) !! i = Some line ->
        CheckoutLine.id line = Z.of_nat i)
  /\ (GroceryStore.lines (store w) !! 0 = Some line0 ->
      hd_error (range1 (GroceryStore.total_lines (store w))) = Some 1%Z
      /\ round_robin_pos (store w) 1 = 0
      /\ (eligible customer line0 = true ->
          pick_checkout_line_round_robin customer w
          = Ok (0, set_last_line_id 0 w))).
Proof.
  intros Hst.
  pose proof (GroceryStore_init_fresh line_counts) as (Htot & Hlast & Hfresh).
  pose proof (GroceryStore_init_wf line_counts) as Hwf.
  rewrite <- Hst in Htot, Hlast, Hfresh, Hwf.
  split; [assumption|]. split; [assumption|].
  split; [intros i line Hi; apply (Hfresh i line Hi)|].
  intros H0.
  assert (Hlen : 0 < length (GroceryStore.lines (store w)))
    by (eapply lookup_lt_Some; eassumption).
  assert (Hpos1 : round_robin_pos (store w) 1 = 0).
  { unfold round_robin_pos. rewrite Hlast.
    replace (GroceryStore.total_lines (store w) - 1 + 1)%Z
      with (GroceryStore.total_lines (store w)) by lia.
    rewrite Z.mod_same by lia. reflexivity. }
  split; [|split; [assumption|]].
  - unfold range1.
    destruct (Z.to_nat (GroceryStore.total_lines (store w))) eqn:Hn; [lia|].
    reflexivity.
  - intros Hel.
    pose proof (pick_round_robin_spec customer w Hwf) as Hspec.
    destruct (pick_checkout_line_round_robin customer w) as [[l w']|e].
    + destruct Hspec as (k & line & Hk & Hl & Hlk & Helk & Hbefore & Hw').
      destruct (decide (k = 1)) as [->|Hne].
      * change (Z.of_nat 1) with 1%Z in Hl. rewrite Hpos1 in Hl. subst. reflexivity.
      * exfalso.
        assert (eligible customer line0 = false); [|congruence].
        apply (Hbefore 1 line0); [lia|].
        change (Z.of_nat 1) with 1%Z. rewrite Hpos1. assumption.
    + destruct Hspec as (_ & Hnone). exfalso.
      assert (eligible customer line0 = false); [|congruence].
      apply Hnone. eapply list_elem_of_lookup_2; eassumption.
Qed.

Lemma C10_fresh_store_cursor_witness :
  GroceryStore.last_line_id (store (fresh_world two_line_config)) = 1%Z
  /\ pick_checkout_line_round_robin (sample_customer 3) (fresh_world two_line_config)
     = Ok (0, set_last_line_id 0 (fresh_world two_line_config)).
Proof.
  pose proof (C10_fresh_store_cursor two_line_config (sample_customer 3)
                (fresh_world two_line_config)
                (CheckoutLine.__init__ 0 "cashier" false) eq_refl)
    as (H1 & _ & _ & H4).
  split; [exact H1|].
  destruct (H4 eq_refl) as (_ & _ & H5). apply H5. reflexivity.
Defined.

(** ** The three "least" policies *)

Section LeastLoop.

Variable measure : CheckoutLine.t -> Result Z.
Variable mv : CheckoutLine.t -> Z.
Variable customer : Customer.t.

(** The loop, when the measure of every eligible line is available:
    the result is an eligible line of least measure, the earliest one. *)
Lemma least_loop_spec (ls : list CheckoutLine.t) :
  forall (i : lref) (best : option (lref * CheckoutLine.t)),
    (forall jb b, best = Some (jb, b) -> measure b = Ok (mv b)) ->
    (forall line, line ∈ ls -> eligible customer line = true ->
                  measure line = Ok (mv line)) ->
    exists r, least_loop measure customer i ls best = Ok r /\
      match r with
      | None => best = None
                /\ forall line, line ∈ ls -> eligible customer line = false
      | Some (j, line) =>
          (forall k line', ls !! k = Some line' ->
             eligible customer line' = true -> (mv line <= mv line')%Z)
          /\ (forall jb b, best = Some (jb, b) -> (mv line <= mv b)%Z)
          /\ (best = Some (j, line)
              \/ exists k, ls !! k = Some line /\ j = i + k
                   /\ eligible customer line = true
                   /\ (forall jb b, best = Some (jb, b) -> (mv line < mv b)%Z)
                   /\ (forall k' line', k' < k -> ls !! k' = Some line' ->
                         eligible customer line' = true ->
                         (mv line < mv line')%Z))
      end.
Proof.
  induction ls as [|line ls' IH]; intros i best Hbest Hls.
  - exists best. split; [reflexivity|]. destruct best as [[j b]|].
    + split; [intros k line' Hk; rewrite lookup_nil in Hk; discriminate|].
      split; [intros jb b' [= -> ->]; lia|]. left; reflexivity.
    + split; [reflexivity|]. intros line Hin. apply elem_of_nil in Hin. contradiction.
  - assert (Hls' : forall l0, l0 ∈ ls' -> eligible customer l0 = true ->
                              measure l0 = Ok (mv l0)).
    { intros l0 Hin. apply Hls. right. assumption. }
    simpl. destruct (eligible customer line) eqn:Hel.
    + assert (Hm : measure line = Ok (mv line)) by (apply Hls; [left|assumption]).
      destruct best as [[jb b]|].
      * rewrite Hm. simpl. rewrite (Hbest jb b eq_refl). simpl.
        destruct (mv line <? mv b)%Z eqn:Hlt.
        -- apply Z.ltb_lt in Hlt.
           destruct (IH (S i) (Some (i, line))) as (r & Hr & Hspec);
             [intros ? ? [= <- <-]; assumption | assumption |].
           exists r. split; [assumption|].
           destruct r as [[j l0]|]; [|destruct Hspec as [? _]; discriminate].
           destruct Hspec as (Hmin & Hle & Hwhich).
           pose proof (Hle i line eq_refl) as Hl0.
           split; [|split].
           ++ intros [|k] line' Hk Hel'; simpl in Hk.
              ** injection Hk as <-. assumption.
              ** eapply Hmin; eassumption.
           ++ intros ? ? [= <- <-]. lia.
           ++ right. destruct Hwhich as [[= -> ->] | (k & Hk & -> & Helk & Hlt' & Hfirst)].
              ** exists 0. split; [reflexivity|]. split; [lia|].
                 split; [assumption|]. split; [intros ? ? [= <- <-]; lia|].
                 intros k' ? Hk'. lia.
              ** exists (S k). split; [assumption|]. split; [lia|].
                 split; [assumption|].
                 pose proof (Hlt' i line eq_refl).
                 split; [intros ? ? [= <- <-]; lia|].
                 intros [|k'] line' Hk' Hlk' Hel'; simpl in Hlk'.
                 --- injection Hlk' as <-. lia.
                 --- apply (Hfirst k' line'); [lia|assumption|assumption].
        -- apply Z.ltb_ge in Hlt.
           destruct (IH (S i) (Some (jb, b))) as (r & Hr & Hspec);
             [assumption | assumption |].
           exists r. split; [assumption|].
           destruct r as [[j l0]|]; [|destruct Hspec as [? _]; discriminate].
           destruct Hspec as (Hmin & Hle & Hwhich).
           pose proof (Hle jb b eq_refl) as Hl0.
           split; [|split].
           ++ intros [|k] line' Hk Hel'; simpl in Hk.
              ** injection Hk as <-. lia.
              ** eapply Hmin; eassumption.
           ++ assumption.
           ++ destruct Hwhich as [Heq | (k & Hk & -> & Helk & Hlt' & Hfirst)];
                [left; assumption|].
              right. exists (S k). split; [assumption|]. split; [lia|].
              split; [assumption|]. split; [assumption|].
              pose proof (Hlt' jb b eq_refl).
              intros [|k'] line' Hk' Hlk' Hel'; simpl in Hlk'.
              ** injection Hlk' as <-. lia.
              ** apply (Hfirst k' line'); [lia|assumption|assumption].
      * destruct (IH (S i) (Some (i, line))) as (r & Hr & Hspec);
          [intros ? ? [= <- <-]; assumption | assumption |].
        exists r. split; [assumption|].
        destruct r as [[j l0]|]; [|destruct Hspec as [? _]; discriminate].
        destruct Hspec as (Hmin & Hle & Hwhich).
        pose proof (Hle i line eq_refl) as Hl0.
        split; [|split].
        -- intros [|k] line' Hk Hel'; simpl in Hk.
           ++ injection Hk as <-. assumption.
           ++ eapply Hmin; eassumption.
        -- intros ? ? [=].
        -- right. destruct Hwhich as [[= -> ->] | (k & Hk & -> & Helk & Hlt' & Hfirst)].
           ++ exists 0. split; [reflexivity|]. split; [lia|].
              split; [assumption|]. split; [intros ? ? [=]|].
              intros k' ? Hk'. lia.
           ++ exists (S k). split; [assumption|]. split; [lia|].
              split; [assumption|]. split; [intros ? ? [=]|].
              pose proof (Hlt' i line eq_refl).
              intros [|k'] line' Hk' Hlk' Hel'; simpl in Hlk'.
              ** injection Hlk' as <-. lia.
              ** apply (Hfirst k' line'); [lia|assumption|assumption].
    + destruct (IH (S i) best) as (r & Hr & Hspec); [assumption|assumption|].
      exists r. split; [assumption|].
      destruct r as [[j l0]|].
      * destruct Hspec as (Hmin & Hle & Hwhich).
        split; [|split].
        -- intros [|k] line' Hk Hel'; simpl in Hk.
           ++ injection Hk as <-. congruence.
           ++ eapply Hmin; eassumption.
        -- assumption.
        -- destruct Hwhich as [Heq | (k & Hk & -> & Helk & Hlt' & Hfirst)];
             [left; assumption|].
           right. exists (S k). split; [assumption|]. split; [lia|].
           split; [assumption|]. split; [assumption|].
           intros [|k'] line' Hk' Hlk' Hel'; simpl in Hlk'.
           ++ injection Hlk' as <-. congruence.
           ++ apply (Hfirst k' line'); [lia|assumption|assumption].
      * destruct Hspec as (-> & Hnone). split; [reflexivity|].
        intros l0 Hin. apply elem_of_cons in Hin as [->|Hin]; [assumption|].
        apply Hnone. assumption.
Qed.

End LeastLoop.

Lemma lookup_same {A : Type} (l : list A) (i : nat) (a b : A) :
  l !! i = Some a -> l !! i = Some b -> a = b.
Proof. congruence. Qed.

(** The loop again, from its result alone: whatever it returns has been
    compared, directly or through the lines that were best before it, with
    every other eligible line.  [seen] are the lines the loop has behind it. *)
Lemma least_loop_returned (measure : CheckoutLine.t -> Result Z)
  (customer : Customer.t) (ls : list CheckoutLine.t) :
  forall (seen : list CheckoutLine.t) (best : option (lref * CheckoutLine.t))
         (r : option (lref * CheckoutLine.t)),
    match best with
    | None => forall line, line ∈ seen -> eligible customer line = false
    | Some (j, _) => first_minimum_among measure customer seen j
                     /\ seen !! j = (snd <$> best)
    end ->
    least_loop measure customer (length seen) ls best = Ok r ->
    match r with
    | None => forall line, line ∈ seen ++ ls -> eligible customer line = false
    | Some (j, _) => first_minimum_among measure customer (seen ++ ls) j
                     /\ (seen ++ ls) !! j = (snd <$> r)
    end.
Proof.
  induction ls as [|line ls IH]; intros seen best r Hbest Hloop; simpl in Hloop.
  - injection Hloop as <-. rewrite app_nil_r. exact Hbest.
  - replace (seen ++ line :: ls) with ((seen ++ [line]) ++ ls)
      by (rewrite <- app_assoc; reflexivity).
    assert (Hlen : S (length seen) = length (seen ++ [line]))
      by (rewrite length_app; simpl; lia).
    rewrite Hlen in Hloop.
    assert (Hhere : (seen ++ [line]) !! length seen = Some line).
    { rewrite lookup_app_r by lia. rewrite Nat.sub_diag. reflexivity. }
    destruct (eligible customer line) eqn:Hel.
    + destruct best as [[jb b]|].
      * destruct (measure line) as [m|] eqn:Hm; simpl in Hloop; [|discriminate].
        destruct (measure b) as [mb|] eqn:Hmb; simpl in Hloop; [|discriminate].
        destruct Hbest as [(b0 & Hb0 & Helb & Hmin) Hb]. simpl in Hb.
        assert (b0 = b) as -> by first [congruence | eapply lookup_same; eassumption].
        assert (Hjb : jb < length seen) by (eapply lookup_lt_Some; eassumption).
        destruct (m <? mb)%Z eqn:Hlt;
          refine (IH (seen ++ [line]) _ r _ Hloop).
        -- apply Z.ltb_lt in Hlt. split; [|exact Hhere].
           exists line. split; [exact Hhere|]. split; [exact Hel|].
           intros j line' Hne Hj Hel'.
           assert (Hjlt : j < length seen).
           { apply lookup_lt_Some in Hj. rewrite length_app in Hj. simpl in Hj. lia. }
           rewrite lookup_app_l in Hj by assumption.
           destruct (decide (j = jb)) as [->|Hnejb].
           ++ assert (line' = b) as -> by first [congruence | eapply lookup_same; eassumption].
              exists m, mb. repeat split; try assumption; lia.
           ++ destruct (Hmin j line' Hnejb Hj Hel') as (v & v' & Hv & Hv' & Hle & _).
              assert (v = mb) as -> by first [congruence | eapply lookup_same; eassumption].
              exists m, v'. repeat split; try assumption; lia.
        -- apply Z.ltb_ge in Hlt. split.
           ++ exists b. split; [rewrite lookup_app_l by assumption; exact Hb0|].
              split; [exact Helb|].
              intros j line' Hne Hj Hel'.
              destruct (decide (j < length seen)) as [Hjlt|Hjge].
              ** rewrite lookup_app_l in Hj by assumption.
                 apply (Hmin j line' Hne Hj Hel').
              ** assert (j = length seen) as ->.
                 { apply lookup_lt_Some in Hj. rewrite length_app in Hj.
                   simpl in Hj. lia. }
                 assert (line' = line) as -> by first [congruence | eapply lookup_same; eassumption].
                 exists mb, m. repeat split; try assumption; lia.
           ++ simpl. rewrite lookup_app_l by assumption. exact Hb0.
      * refine (IH (seen ++ [line]) _ r _ Hloop).
        split; [|exact Hhere].
        exists line. split; [exact Hhere|]. split; [exact Hel|].
        intros j line' Hne Hj Hel'. exfalso.
        assert (Hjlt : j < length seen).
        { apply lookup_lt_Some in Hj. rewrite length_app in Hj. simpl in Hj. lia. }
        rewrite lookup_app_l in Hj by assumption.
        rewrite (Hbest line') in Hel'; [discriminate|].
        eapply list_elem_of_lookup_2; eassumption.
    + refine (IH (seen ++ [line]) _ r _ Hloop).
      destruct best as [[jb b]|].
      * destruct Hbest as [(b0 & Hb0 & Helb & Hmin) Hb]. simpl in Hb.
        assert (Hjb : jb < length seen) by (eapply lookup_lt_Some; eassumption).
        split.
        -- exists b0. split; [rewrite lookup_app_l by assumption; exact Hb0|].
           split; [exact Helb|].
           intros j line' Hne Hj Hel'.
           destruct (decide (j < length seen)) as [Hjlt|Hjge].
           ++ rewrite lookup_app_l in Hj by assumption.
              apply (Hmin j line' Hne Hj Hel').
           ++ assert (j = length seen) as ->.
              { apply lookup_lt_Some in Hj. rewrite length_app in Hj.
                simpl in Hj. lia. }
              assert (line' = line) as -> by first [congruence | eapply lookup_same; eassumption]. congruence.
        -- simpl. rewrite lookup_app_l by assumption. exact Hb.
      * intros line' Hin. apply elem_of_app in Hin as [Hin|Hin]; [auto|].
        apply list_elem_of_singleton in Hin as ->. exact Hel.
Qed.

Lemma pick_least_returned (measure : CheckoutLine.t -> Result Z)
  (customer : Customer.t) (st : GroceryStore.t) (i : lref) :
  pick_least measure customer st = Ok i ->
  first_minimum_among measure customer (GroceryStore.lines st) i.
Proof.
  unfold pick_least. intros H.
  destruct (least_loop measure customer 0 (GroceryStore.lines st) None)
    as [[[j line]|]|] eqn:Hloop; simpl in H; try discriminate.
  injection H as ->.
  pose proof (least_loop_returned measure customer (GroceryStore.lines st) [] None
                (Some (i, line))) as Hret.
  simpl in Hret. apply Hret; [|exact Hloop].
  intros line0 Hin. apply elem_of_nil in Hin. contradiction.
Qed.

Lemma for_each_available {A S : Type} (body : S -> A -> Result S) (xs : list A) :
  (forall acc x, x ∈ xs -> exists acc', body acc x = Ok acc') ->
  forall acc, exists r, for_each body xs acc = Ok r.
Proof.
  induction xs as [|x xs IH]; intros Hbody acc; simpl; [eauto|].
  destruct (Hbody acc x) as [acc' Hacc']; [left|].
  rewrite Hacc'. simpl. apply IH. intros acc0 y Hy. apply Hbody. right. assumption.
Qed.


(** The projected wait time exists under the deterministic duration model on
    a line of a known category. *)
Lemma get_queue_time_available (g : Globals) (w : World) (line : CheckoutLine.t)
  (cf : bool) :
  get_checkout_time g = Some Deterministic ->
  known_line_type (CheckoutLine.type line) = true ->
  (forall c, c ∈ CheckoutLine.queue line -> c < length (customers w)) ->
  exists v, CheckoutLine_get_queue_time g w line cf = Ok v.
Proof.
  intros Hdet Hknown Hvalid. unfold CheckoutLine_get_queue_time.
  destruct (length (CheckoutLine.queue line) =? 0)%nat; [eauto|].
  apply for_each_available. intros acc c Hc. cbv beta. unfold get_customer.
  assert (Hin : c ∈ CheckoutLine.queue line).
  { apply list_elem_of_lookup in Hc as [k Hk]. rewrite lookup_drop in Hk.
    eapply list_elem_of_lookup_2; eassumption. }
  destruct (lookup_lt_is_Some_2 _ _ (Hvalid c Hin)) as [customer Hcust].
  rewrite Hcust. simpl.
  unfold call_get_checkout_time, get_checkout_time_deterministic.
  rewrite Hdet, Hknown.
  apply known_line_type_spec in Hknown as [->|[->| ->]]; simpl; eauto.
Qed.

Lemma measure_value_Ok (measure : CheckoutLine.t -> Result Z) (line : CheckoutLine.t) (v : Z) :
  measure line = Ok v -> measure_value measure line = v.
Proof. unfold measure_value. intros ->. reflexivity. Qed.

(** A "least" policy on a store with an eligible line, when the measure of
    every eligible line is available. *)
Lemma pick_least_spec (measure : CheckoutLine.t -> Result Z)
  (customer : Customer.t) (st : GroceryStore.t) :
  (exists line0, line0 ∈ GroceryStore.lines st /\ eligible customer line0 = true) ->
  (forall line, line ∈ GroceryStore.lines st -> eligible customer line = true ->
                exists v, measure line = Ok v) ->
  selects_first_minimum measure customer (GroceryStore.lines st)
    (pick_least measure customer st).
Proof.
  intros (line0 & Hin0 & Hel0) Hmeasure.
  set (mv := measure_value measure).
  assert (Hmv : forall line, line ∈ GroceryStore.lines st ->
                  eligible customer line = true -> measure line = Ok (mv line)).
  { intros line Hin Hel. destruct (Hmeasure line Hin Hel) as [v Hv].
    unfold mv. rewrite (measure_value_Ok _ _ _ Hv). assumption. }
  destruct (least_loop_spec measure mv customer (GroceryStore.lines st) 0 None)
    as (r & Hr & Hspec); [intros ? ? [=] | assumption |].
  unfold selects_first_minimum, pick_least. rewrite Hr. simpl.
  destruct r as [[i line]|].
  - destruct Hspec as (Hmin & _ & [[=] | (k & Hk & -> & Hel & _ & Hfirst)]).
    simpl. exists k, line, (mv line).
    assert (Hin : line ∈ GroceryStore.lines st)
      by (eapply list_elem_of_lookup_2; eassumption).
    split; [reflexivity|]. split; [assumption|]. split; [assumption|].
    split; [apply Hmv; assumption|].
    intros j line' v' Hj Hel' Hv'.
    assert (Hin' : line' ∈ GroceryStore.lines st)
      by (eapply list_elem_of_lookup_2; eassumption).
    pose proof (Hmv line' Hin' Hel') as Hv''.
    assert (v' = mv line') as -> by congruence.
    split; [eapply Hmin; eassumption|].
    intros Heq. destruct (decide (k <= j)) as [|Hlt]; [assumption|].
    pose proof (Hfirst j line' ltac:(lia) Hj Hel'). lia.
  - destruct Hspec as (_ & Hnone). rewrite (Hnone line0 Hin0) in Hel0. discriminate.
Qed.

(** C5: for the least-person, least-item and least-time policies, when some
    line is eligible: the line a policy returns is eligible, its measure
    (waiting-sequence length, total of waiting items, projected wait time) is
    no greater than the measure of every other eligible line at selection
    time, and it comes first in the store's order among the eligible lines
    with that measure.  Least person always returns a line; the two others
    do as soon as the measure of every eligible line can be computed. *)
Theorem C5_least_policies (g : Globals) (customer : Customer.t) (w : World) :
  (exists line0, line0 ∈ GroceryStore.lines (store w)
                 /\ eligible customer line0 = true) ->
  (exists i,
      pick_checkout_line_least_person customer w = Ok i
      /\ first_minimum_among (fun line => Ok (CheckoutLine.get_num_customers line))
           customer (GroceryStore.lines (store w)) i)
  /\ (forall i,
        pick_checkout_line_least_item customer w = Ok i ->
        first_minimum_among (CheckoutLine_get_num_items w)
          customer (GroceryStore.lines (store w)) i)
  /\ ((forall line, line ∈ GroceryStore.lines (store w) ->
                    eligible customer line = true ->
                    exists v, CheckoutLine_get_num_items w line = Ok v) ->
      selects_first_minimum (CheckoutLine_get_num_items w)
        customer (GroceryStore.lines (store w))
        (pick_checkout_line_least_item customer w))
  /\ (forall i,
        pick_checkout_line_least_time g customer w = Ok i ->
        first_minimum_among
          (fun line => CheckoutLine_get_queue_time g w line (count_first g))
          customer (GroceryStore.lines (store w)) i)
  /\ ((forall line, line ∈ GroceryStore.lines (store w) ->
                    eligible customer line = true ->
                    exists v, CheckoutLine_get_queue_time g w line (count_first g)
                              = Ok v) ->
      selects_first_minimum
        (fun line => CheckoutLine_get_queue_time g w line (count_first g))
        customer (GroceryStore.lines (store w))
        (pick_checkout_line_least_time g customer w)).
Proof.
  intros Hsome.
  split; [|split; [|split; [|split]]].
  - destruct (pick_least_spec (fun line => Ok (CheckoutLine.get_num_customers line))
                customer (store w) Hsome) as (i & line & v & Hpick & _).
    { intros line _ _. eauto. }
    exists i. split; [exact Hpick|]. apply pick_least_returned. exact Hpick.
  - intros i. apply pick_least_returned.
  - intros Havail. apply pick_least_spec; assumption.
  - intros i. apply pick_least_returned.
  - intros Havail. apply pick_least_spec; assumption.
Qed.

Lemma C5_least_policies_witness :
  pick_checkout_line_least_person (sample_customer 3) sample_world_three_lines = Ok 1
  /\ pick_checkout_line_least_item (sample_customer 3) sample_world_three_lines = Ok 2
  /\ pick_checkout_line_least_time (sample_globals LeastTime) (sample_customer 3)
       sample_world_three_lines = Ok 2
  /\ first_minimum_among (CheckoutLine_get_num_items sample_world_three_lines)
       (sample_customer 3) (GroceryStore.lines (store sample_world_three_lines)) 2
  /\ selects_first_minimum
       (fun line => CheckoutLine_get_queue_time (sample_globals LeastTime)
                      sample_world_three_lines line true)
       (sample_customer 3) (GroceryStore.lines (store sample_world_three_lines))
       (pick_checkout_line_least_time (sample_globals LeastTime) (sample_customer 3)
          sample_world_three_lines).
Proof.
  split; [reflexivity|]. split; [reflexivity|]. split; [reflexivity|].
  destruct (C5_least_policies (sample_globals LeastTime) (sample_customer 3)
              sample_world_three_lines) as (_ & Hitem & _ & _ & Htime).
  - exists (CheckoutLine.mk 0 "cashier" [0; 1] [] false).
    split; [left | reflexivity].
  - split; [apply Hitem; reflexivity|].
    apply Htime. intros line Hin _.
    apply get_queue_time_available; [reflexivity| |].
    + simpl in Hin.
      repeat (apply elem_of_cons in Hin as [->|Hin]; [reflexivity|]).
      apply elem_of_nil in Hin. contradiction.
    + intros c Hc. simpl in Hin.
      repeat (apply elem_of_cons in Hin as [->|Hin];
              [simpl in Hc;
               repeat (apply elem_of_cons in Hc as [->|Hc]; [simpl; lia|]);
               apply elem_of_nil in Hc; contradiction|]).
      apply elem_of_nil in Hin. contradiction.
Defined.

(** ** Every policy returns an eligible line *)

Lemma least_loop_eligible (measure : CheckoutLine.t -> Result Z)
  (customer : Customer.t) (all_lines ls : list CheckoutLine.t) :
  forall (i : lref) (best : option (lref * CheckoutLine.t)) (j : lref) (line : CheckoutLine.t),
    (forall k l0, ls !! k = Some l0 -> all_lines !! (i + k) = Some l0) ->
    (forall jb b, best = Some (jb, b) ->
                  all_lines !! jb = Some b /\ eligible customer b = true) ->
    least_loop measure customer i ls best = Ok (Some (j, line)) ->
    all_lines !! j = Some line /\ eligible customer line = true.
Proof.
  induction ls as [|l0 ls' IH]; intros i best j line Hls Hbest Hloop; simpl in Hloop.
  - injection Hloop as ->. apply Hbest. reflexivity.
  - assert (Hhere : all_lines !! i = Some l0).
    { rewrite <- (Nat.add_0_r i). apply Hls. reflexivity. }
    assert (Hls' : forall k l1, ls' !! k = Some l1 -> all_lines !! (S i + k) = Some l1).
    { intros k l1 Hk. replace (S i + k) with (i + S k) by lia. apply Hls. assumption. }
    destruct (eligible customer l0) eqn:Hel.
    + destruct best as [[jb b]|].
      * destruct (measure l0) as [m|]; simpl in Hloop; [|discriminate].
        destruct (measure b) as [mb|]; simpl in Hloop; [|discriminate].
        eapply (IH (S i)); [exact Hls' | | exact Hloop].
        destruct (m <? mb)%Z.
        -- intros ? ? [= <- <-]. auto.
        -- assumption.
      * eapply (IH (S i)); [exact Hls' | | exact Hloop].
        intros ? ? [= <- <-]. auto.
    + eapply (IH (S i)); [exact Hls' | exact Hbest | exact Hloop].
Qed.

Lemma pick_least_eligible (measure : CheckoutLine.t -> Result Z)
  (customer : Customer.t) (st : GroceryStore.t) (l : lref) :
  pick_least measure customer st = Ok l ->
  exists line, GroceryStore.lines st !! l = Some line
               /\ eligible customer line = true.
Proof.
  unfold pick_least. intros H.
  destruct (least_loop measure customer 0 (GroceryStore.lines st) None)
    as [[[j line]|]|e] eqn:Hloop; simpl in H; try discriminate.
  injection H as ->. exists line.
  eapply least_loop_eligible; [| |exact Hloop].
  - intros k l0 Hk. exact Hk.
  - intros ? ? [=].
Qed.

Lemma lines_avail_eligible (customer : Customer.t) (all_lines ls : list CheckoutLine.t) :
  forall (i l : lref),
    (forall k l0, ls !! k = Some l0 -> all_lines !! (i + k) = Some l0) ->
    l ∈ lines_avail customer i ls ->
    exists line, all_lines !! l = Some line /\ eligible customer line = true.
Proof.
  induction ls as [|l0 ls' IH]; intros i l Hls Hin; simpl in Hin.
  - apply elem_of_nil in Hin. contradiction.
  - assert (Hhere : all_lines !! i = Some l0).
    { rewrite <- (Nat.add_0_r i). apply Hls. reflexivity. }
    assert (Hls' : forall k l1, ls' !! k = Some l1 -> all_lines !! (S i + k) = Some l1).
    { intros k l1 Hk. replace (S i + k) with (i + S k) by lia. apply Hls. assumption. }
    destruct (eligible customer l0) eqn:Hel.
    + apply elem_of_cons in Hin as [->|Hin]; [eauto|].
      apply (IH (S i)); assumption.
    + apply (IH (S i)); assumption.
Qed.

(** What a call of the active policy does: it returns the position of a line
    that is eligible for the customer, and leaves customers and lines as they
    are (round robin moves the cursor, pure random takes one draw). *)
Lemma call_pick_checkout_line_spec (g : Globals) (customer : Customer.t)
  (w w' : World) (l : lref) :
  call_pick_checkout_line g customer w = Ok (l, w') ->
  customers w' = customers w
  /\ GroceryStore.lines (store w') = GroceryStore.lines (store w)
  /\ GroceryStore.total_lines (store w') = GroceryStore.total_lines (store w)
  /\ exists line, GroceryStore.lines (store w) !! l = Some line
                  /\ eligible customer line = true
                  /\ (GroceryStore.last_line_id (store w')
                      = GroceryStore.last_line_id (store w)
                      \/ pick_checkout_line g = Some RoundRobin
                         /\ GroceryStore.last_line_id (store w') = CheckoutLine.id line).
Proof.
  unfold call_pick_checkout_line. intros H.
  destruct (pick_checkout_line g) as [[| | | |]|]; [| | | | |discriminate].
  - (* pure random *)
    unfold pick_checkout_line_pure_random in H.
    destruct (length (lines_avail customer 0 (GroceryStore.lines (store w))) =? 0)%nat;
      [discriminate|].
    destruct (lines_avail customer 0 (GroceryStore.lines (store w))
                !! randint g w (length (lines_avail customer 0 (GroceryStore.lines (store w)))))
      as [l0|] eqn:Hl0; simpl in H; [|discriminate].
    injection H as <- <-. simpl.
    split; [reflexivity|]. split; [reflexivity|]. split; [reflexivity|].
    destruct (lines_avail_eligible customer (GroceryStore.lines (store w))
                (GroceryStore.lines (store w)) 0 l0) as (line & Hl & Hel).
    + intros k l1 Hk. exact Hk.
    + eapply list_elem_of_lookup_2; eassumption.
    + exists line. auto.
  - (* least person *)
    destruct (pick_checkout_line_least_person customer w) as [l0|] eqn:Hp;
      simpl in H; [|discriminate].
    injection H as <- <-. apply pick_least_eligible in Hp as (line & Hl & Hel).
    repeat split; try reflexivity. exists line. auto.
  - (* least item *)
    destruct (pick_checkout_line_least_item customer w) as [l0|] eqn:Hp;
      simpl in H; [|discriminate].
    injection H as <- <-. apply pick_least_eligible in Hp as (line & Hl & Hel).
    repeat split; try reflexivity. exists line. auto.
  - (* least time *)
    destruct (pick_checkout_line_least_time g customer w) as [l0|] eqn:Hp;
      simpl in H; [|discriminate].
    injection H as <- <-. apply pick_least_eligible in Hp as (line & Hl & Hel).
    repeat split; try reflexivity. exists line. auto.
  - (* round robin *)
    unfold pick_checkout_line_round_robin in H.
    destruct (round_robin_loop customer (store w)
                (range1 (GroceryStore.total_lines (store w))))
      as [[[l0 line]|]|e] eqn:Hloop; simpl in H; try discriminate.
    injection H as <- <-. simpl.
    split; [reflexivity|]. split; [reflexivity|]. split; [reflexivity|].
    exists line.
    assert (Hgen : forall offsets,
               round_robin_loop customer (store w) offsets = Ok (Some (l0, line)) ->
               GroceryStore.lines (store w) !! l0 = Some line
               /\ eligible customer line = true).
    { induction offsets as [|o offsets IH]; simpl; [discriminate|].
      unfold py_index.
      set (i := ((GroceryStore.last_line_id (store w) + o)
                 mod GroceryStore.total_lines (store w))%Z).
      set (j := if (i <? 0)%Z
                then (i + Z.of_nat (length (GroceryStore.lines (store w))))%Z else i).
      destruct (j <? 0)%Z; simpl; [discriminate|].
      destruct (GroceryStore.lines (store w) !! Z.to_nat j) as [line1|] eqn:Hj;
        simpl; [|discriminate].
      destruct (eligible customer line1) eqn:Hel1.
      - intros [= <- <-]. auto.
      - exact IH. }
    destruct (Hgen _ Hloop) as [Hl Hel]. auto.
Qed.

(** ** What the events do to the world *)

Lemma update_customer_inv (f : Customer.t -> Customer.t) (c : cref) (w w1 : World) :
  update_customer f c w = Ok w1 ->
  exists customer,
    customers w !! c = Some customer
    /\ w1 = {| customers := <[c := f customer]> (customers w);
               store := store w; rng_calls := rng_calls w |}.
Proof.
  unfold update_customer, get_customer. intros H.
  destruct (customers w !! c) as [customer|]; simpl in H; [|discriminate].
  injection H as <-. eauto.
Qed.

Lemma BeginCheckoutEvent_do_inv (g : Globals) (t : Z) (c : cref) (l : lref)
  (w w' : World) (future_events : list Event) :
  BeginCheckoutEvent_do g t c l w = Ok (w', future_events) ->
  exists customer line checkout_time,
    customers w !! c = Some customer
    /\ GroceryStore.lines (store w) !! l = Some line
    /\ call_get_checkout_time g (Customer.set_begin_timestamp t customer) line
       = Ok checkout_time
    /\ w' = {| customers := <[c := Customer.set_begin_timestamp t customer]> (customers w);
               store := store w; rng_calls := rng_calls w |}
    /\ future_events = [FinishCheckoutEvent (t + checkout_time) c l].
Proof.
  unfold BeginCheckoutEvent_do. intros H.
  destruct (update_customer (Customer.set_begin_timestamp t) c w) as [w1|] eqn:Hu;
    simpl in H; [|discriminate].
  apply update_customer_inv in Hu as (customer & Hc & ->).
  unfold get_customer, get_line in H. simpl in H.
  rewrite list_lookup_insert_eq in H by (eapply lookup_lt_Some; eassumption).
  simpl in H.
  destruct (GroceryStore.lines (store w) !! l) as [line|] eqn:Hl; simpl in H;
    [|discriminate].
  destruct (call_get_checkout_time g (Customer.set_begin_timestamp t customer) line)
    as [d|] eqn:Hd; simpl in H; [|discriminate].
  injection H as <- <-. exists customer, line, d. auto.
Qed.

Lemma FinishCheckoutEvent_do_inv (t : Z) (c : cref) (l : lref)
  (w w' : World) (future_events : list Event) :
  FinishCheckoutEvent_do t c l w = Ok (w', future_events) ->
  exists customer line served_customer rest,
    customers w !! c = Some customer
    /\ GroceryStore.lines (store w) !! l = Some line
    /\ CheckoutLine.queue line = served_customer :: rest
    /\ w' = {| customers := <[c := Customer.set_finish_timestamp t customer]> (customers w);
               store := GroceryStore.mk
                          (<[l := CheckoutLine.mk (CheckoutLine.id line)
                                    (CheckoutLine.type line) rest
                                    (CheckoutLine.served line ++ [served_customer])
                                    (CheckoutLine.closed line)]>
                             (GroceryStore.lines (store w)))
                          (GroceryStore.last_line_id (store w))
                          (GroceryStore.total_lines (store w));
               rng_calls := rng_calls w |}
    /\ future_events = match rest with
                       | [] => []
                       | next_customer :: _ => [BeginCheckoutEvent t next_customer l]
                       end.
Proof.
  unfold FinishCheckoutEvent_do. intros H.
  destruct (update_customer (Customer.set_finish_timestamp t) c w) as [w1|] eqn:Hu;
    simpl in H; [|discriminate].
  apply update_customer_inv in Hu as (customer & Hc & ->).
  unfold get_line in H. simpl in H.
  destruct (GroceryStore.lines (store w) !! l) as [line|] eqn:Hl; simpl in H;
    [|discriminate].
  destruct (CheckoutLine.queue line) as [|hd rest] eqn:Hq; [discriminate|].
  exists customer, line, hd, rest.
  split; [assumption|]. split; [reflexivity|]. split; [assumption|].
  destruct rest as [|next rest']; simpl in H; injection H as <- <-; auto.
Qed.

Lemma JoinCheckoutEvent_do_line_inv (g : Globals) (t : Z) (c : cref)
  (w w' : World) (l : lref) (future_events : list Event) :
  JoinCheckoutEvent_do_line g t c w = Ok (l, (w', future_events)) ->
  exists customer w2 line,
    customers w !! c = Some customer
    /\ call_pick_checkout_line g (Customer.set_join_timestamp t customer)
         {| customers := <[c := Customer.set_join_timestamp t customer]> (customers w);
            store := store w; rng_calls := rng_calls w |}
       = Ok (l, w2)
    /\ GroceryStore.lines (store w2) !! l = Some line
    /\ CheckoutLine.closed line = false
    /\ w' = set_line l (CheckoutLine.mk (CheckoutLine.id line) (CheckoutLine.type line)
                          (CheckoutLine.queue line ++ [c]) (CheckoutLine.served line)
                          (CheckoutLine.closed line)) w2
    /\ future_events = if CheckoutLine.is_empty line
                       then [BeginCheckoutEvent t c l] else [].
Proof.
  unfold JoinCheckoutEvent_do_line. intros H.
  destruct (update_customer (Customer.set_join_timestamp t) c w) as [w1|] eqn:Hu;
    simpl in H; [|discriminate].
  apply update_customer_inv in Hu as (customer & Hc & ->).
  unfold get_customer in H. simpl in H.
  rewrite list_lookup_insert_eq in H by (eapply lookup_lt_Some; eassumption).
  simpl in H.
  destruct (call_pick_checkout_line g (Customer.set_join_timestamp t customer) _)
    as [[l0 w2]|] eqn:Hpick; simpl in H; [|discriminate].
  unfold get_line in H.
  destruct (GroceryStore.lines (store w2) !! l0) as [line|] eqn:Hl; simpl in H;
    [|discriminate].
  unfold CheckoutLine.queue_new_customer in H.
  exists customer, w2, line.
  destruct (CheckoutLine.closed line) eqn:Hclosed.
  - destruct (CheckoutLine.is_empty line); discriminate.
  - destruct (CheckoutLine.is_empty line); simpl in H; injection H as <- <- <-; auto 10.
Qed.

Lemma LineOpenEvent_do_inv (l : lref) (w w' : World) (future_events : list Event) :
  LineOpenEvent_do l w = Ok (w', future_events) ->
  exists line, GroceryStore.lines (store w) !! l = Some line
               /\ w' = set_line l (CheckoutLine.open line) w
               /\ future_events = [].
Proof.
  unfold LineOpenEvent_do, get_line. intros H.
  destruct (GroceryStore.lines (store w) !! l) as [line|]; simpl in H; [|discriminate].
  injection H as <- <-. eauto.
Qed.

Lemma LineCloseEvent_do_inv (l : lref) (w w' : World) (future_events : list Event) :
  LineCloseEvent_do l w = Ok (w', future_events) ->
  exists line, GroceryStore.lines (store w) !! l = Some line
               /\ w' = set_line l (CheckoutLine.close line) w
               /\ future_events = [].
Proof.
  unfold LineCloseEvent_do, get_line. intros H.
  destruct (GroceryStore.lines (store w) !! l) as [line|]; simpl in H; [|discriminate].
  injection H as <- <-. eauto.
Qed.

Lemma JoinCheckoutEvent_do_inv (g : Globals) (t : Z) (c : cref)
  (w w' : World) (future_events : list Event) :
  JoinCheckoutEvent_do g t c w = Ok (w', future_events) ->
  exists l, JoinCheckoutEvent_do_line g t c w = Ok (l, (w', future_events)).
Proof.
  unfold JoinCheckoutEvent_do. intros H.
  destruct (JoinCheckoutEvent_do_line g t c w) as [[l [w0 f0]]|]; simpl in H;
    [|discriminate].
  injection H as <- <-. eauto.
Qed.

(** ** No customer with more than 10 items on an express line *)

Lemma insert_lookup_cases {A : Type} (ls : list A) (i j : nat) (new x : A) :
  <[i := new]> ls !! j = Some x ->
  (j = i /\ x = new) \/ (j <> i /\ ls !! j = Some x).
Proof.
  intros H. destruct (decide (i = j)) as [->|Hne].
  - left. split; [reflexivity|].
    assert (j < length ls).
    { apply lookup_lt_Some in H. rewrite length_insert in H. assumption. }
    rewrite list_lookup_insert_eq in H by assumption. congruence.
  - right. rewrite list_lookup_insert_ne in H by assumption. auto.
Qed.

Lemma customers_insert_items (cs : list Customer.t) (c c' : cref)
  (old new x : Customer.t) :
  cs !! c = Some old ->
  <[c := new]> cs !! c' = Some x ->
  Customer.num_items new = Customer.num_items old ->
  exists y, cs !! c' = Some y /\ Customer.num_items y = Customer.num_items x.
Proof.
  intros Hold H Hitems.
  apply insert_lookup_cases in H as [[-> ->]|[_ H]]; eauto.
Qed.

(** The step lemma behind the invariant: customers keep their item count,
    lines keep their type, and whoever is new on an express line has at
    most 10 items. *)
Lemma express_lines_respected_step (w w' : World) :
  (forall c x, customers w' !! c = Some x ->
     exists y, customers w !! c = Some y
               /\ Customer.num_items y = Customer.num_items x) ->
  (forall l line', GroceryStore.lines (store w') !! l = Some line' ->
     exists line, GroceryStore.lines (store w) !! l = Some line
       /\ CheckoutLine.type line' = CheckoutLine.type line
       /\ forall c, c ∈ CheckoutLine.queue line' ++ CheckoutLine.served line' ->
            c ∈ CheckoutLine.queue line ++ CheckoutLine.served line
            \/ (is_express line' = true ->
                forall x, customers w' !! c = Some x ->
                          (Customer.num_items x <= 10)%Z)) ->
  express_lines_respected w -> express_lines_respected w'.
Proof.
  intros Hcust Hlines Hinv l line' c x Hl Hexp Hc Hx.
  destruct (Hlines l line' Hl) as (line & Hline & Hty & Hmem).
  destruct (Hmem c Hc) as [Hold|Hnew].
  - destruct (Hcust c x Hx) as (y & Hy & <-).
    apply (Hinv l line c y); try assumption.
    unfold is_express in *. rewrite <- Hty. assumption.
  - apply (Hnew Hexp x Hx).
Qed.

Lemma Event_do_express_lines_respected (g : Globals) (e : Event)
  (w w' : World) (future_events : list Event) :
  Event_do g e w = Ok (w', future_events) ->
  express_lines_respected w -> express_lines_respected w'.
Proof.
  intros Hdo. apply express_lines_respected_step.
  - (* customers keep their items *)
    intros c' x Hx. destruct e as [t c l|t c l|t c|t l|t l]; simpl in Hdo.
    + apply BeginCheckoutEvent_do_inv in Hdo as (cu & line & d & Hc & _ & _ & -> & _).
      simpl in Hx. exact (customers_insert_items _ _ _ _ _ _ Hc Hx eq_refl).
    + apply FinishCheckoutEvent_do_inv in Hdo as (cu & line & hd & rest & Hc & _ & _ & -> & _).
      simpl in Hx. exact (customers_insert_items _ _ _ _ _ _ Hc Hx eq_refl).
    + apply JoinCheckoutEvent_do_inv in Hdo as (l & Hdo).
      apply JoinCheckoutEvent_do_line_inv in Hdo
        as (cu & w2 & line & Hc & Hpick & _ & _ & -> & _).
      apply call_pick_checkout_line_spec in Hpick as (Hcs & _).
      simpl in Hx, Hcs. rewrite Hcs in Hx.
      exact (customers_insert_items _ _ _ _ _ _ Hc Hx eq_refl).
    + apply LineOpenEvent_do_inv in Hdo as (line & _ & -> & _). eauto.
    + apply LineCloseEvent_do_inv in Hdo as (line & _ & -> & _). eauto.
  - (* lines keep their type; new arrivals on express lines are light *)
    intros l' line' Hl'. destruct e as [t c l|t c l|t c|t l|t l]; simpl in Hdo.
    + apply BeginCheckoutEvent_do_inv in Hdo as (cu & line & d & _ & _ & _ & -> & _).
      simpl in Hl'. exists line'. auto.
    + apply FinishCheckoutEvent_do_inv in Hdo
        as (cu & line & hd & rest & _ & Hline & Hq & -> & _).
      simpl in Hl'. apply insert_lookup_cases in Hl' as [[-> ->]|[_ Hl']].
      * exists line. split; [assumption|]. split; [reflexivity|].
        intros c0 Hc0. left. simpl in Hc0. rewrite Hq.
        rewrite !elem_of_app, list_elem_of_singleton in Hc0.
        rewrite elem_of_app, elem_of_cons. tauto.
      * exists line'. auto.
    + apply JoinCheckoutEvent_do_inv in Hdo as (l & Hdo).
      apply JoinCheckoutEvent_do_line_inv in Hdo
        as (cu & w2 & line & Hc & Hpick & Hline & _ & -> & _).
      apply call_pick_checkout_line_spec in Hpick
        as (Hcs & Hls & _ & line0 & Hline0 & Hel & _).
      simpl in Hcs, Hls, Hline0. rewrite Hls in Hline.
      assert (line0 = line) as -> by congruence.
      simpl in Hl'. rewrite Hls in Hl'.
      apply insert_lookup_cases in Hl' as [[-> ->]|[_ Hl']].
      * exists line. split; [assumption|]. split; [reflexivity|].
        intros c0 Hc0. simpl in Hc0.
        rewrite !elem_of_app, list_elem_of_singleton in Hc0.
        destruct Hc0 as [[Hc0| ->]|Hc0];
          [left; rewrite elem_of_app; auto | | left; rewrite elem_of_app; auto].
        right. intros Hexp x Hx. simpl in Hx. rewrite Hcs in Hx.
        rewrite list_lookup_insert_eq in Hx by (eapply lookup_lt_Some; eassumption).
        injection Hx as <-. simpl.
        apply eligible_spec in Hel as (_ & [Hne|Hle]); [|exact Hle].
        unfold is_express in Hexp. simpl in Hexp.
        apply String.eqb_eq in Hexp. contradiction.
      * exists line'. auto.
    + apply LineOpenEvent_do_inv in Hdo as (line & Hline & -> & _).
      simpl in Hl'. apply insert_lookup_cases in Hl' as [[-> ->]|[_ Hl']].
      * exists line. auto.
      * exists line'. auto.
    + apply LineCloseEvent_do_inv in Hdo as (line & Hline & -> & _).
      simpl in Hl'. apply insert_lookup_cases in Hl' as [[-> ->]|[_ Hl']].
      * exists line. auto.
      * exists line'. auto.
Qed.

(** ** The closed-line failure cannot come out of an event *)

Lemma ncl_Ok {A : Type} (a : A) : never_closed_line_error (Ok a).
Proof. intros e H. discriminate. Qed.

Lemma ncl_Raise {A : Type} (e : Error) :
  is_closed_line_error e = false -> never_closed_line_error (@Raise A e).
Proof. intros He e' [= <-]. assumption. Qed.

Lemma ncl_bind {A B : Type} (r : Result A) (k : A -> Result B) :
  never_closed_line_error r ->
  (forall a, r = Ok a -> never_closed_line_error (k a)) ->
  never_closed_line_error (r ≫= k).
Proof.
  intros Hr Hk e H. destruct r as [a|e']; simpl in H.
  - apply (Hk a eq_refl e H).
  - injection H as <-. apply Hr. reflexivity.
Qed.

Lemma ncl_of_option {A : Type} (o : option A) (e : Error) :
  is_closed_line_error e = false -> never_closed_line_error (of_option o e).
Proof. intros He. destruct o; [apply ncl_Ok | apply ncl_Raise, He]. Qed.

Lemma ncl_for_each {A S : Type} (body : S -> A -> Result S) (xs : list A) :
  (forall acc x, never_closed_line_error (body acc x)) ->
  forall acc, never_closed_line_error (for_each body xs acc).
Proof.
  intros Hbody. induction xs as [|x xs IH]; intros acc; simpl.
  - apply ncl_Ok.
  - apply ncl_bind; [apply Hbody | intros; apply IH].
Qed.

Create HintDb ncl.
#[local] Hint Resolve ncl_Ok : ncl.
#[local] Hint Extern 1 (never_closed_line_error (Raise _)) =>
  apply ncl_Raise; reflexivity : ncl.
#[local] Hint Extern 1 (never_closed_line_error (of_option _ _)) =>
  apply ncl_of_option; reflexivity : ncl.

Lemma ncl_get_customer (w : World) (c : cref) :
  never_closed_line_error (get_customer w c).
Proof. unfold get_customer. auto with ncl. Qed.

Lemma ncl_get_line (w : World) (l : lref) :
  never_closed_line_error (get_line w l).
Proof. unfold get_line. auto with ncl. Qed.

Lemma ncl_update_customer (f : Customer.t -> Customer.t) (c : cref) (w : World) :
  never_closed_line_error (update_customer f c w).
Proof.
  unfold update_customer. apply ncl_bind; [apply ncl_get_customer|].
  intros; apply ncl_Ok.
Qed.

Lemma ncl_call_get_checkout_time (g : Globals) (customer : Customer.t)
  (line : CheckoutLine.t) :
  never_closed_line_error (call_get_checkout_time g customer line).
Proof.
  unfold call_get_checkout_time, get_checkout_time_deterministic,
    get_checkout_time_stochastic.
  destruct (get_checkout_time g) as [[|]|]; auto with ncl.
  destruct (known_line_type (CheckoutLine.type line)); auto with ncl.
  apply ncl_bind; [auto with ncl|]. intros.
  apply ncl_bind; [auto with ncl|]. intros. apply ncl_Ok.
Qed.

Lemma ncl_get_num_items (w : World) (line : CheckoutLine.t) :
  never_closed_line_error (CheckoutLine_get_num_items w line).
Proof.
  unfold CheckoutLine_get_num_items. apply ncl_for_each. intros acc c.
  apply ncl_bind; [apply ncl_get_customer | intros; apply ncl_Ok].
Qed.

Lemma ncl_get_queue_time (g : Globals) (w : World) (line : CheckoutLine.t) (cf : bool) :
  never_closed_line_error (CheckoutLine_get_queue_time g w line cf).
Proof.
  unfold CheckoutLine_get_queue_time.
  destruct (length (CheckoutLine.queue line) =? 0)%nat; [apply ncl_Ok|].
  apply ncl_for_each. intros acc c.
  apply ncl_bind; [apply ncl_get_customer | intros].
  apply ncl_bind; [apply ncl_call_get_checkout_time | intros; apply ncl_Ok].
Qed.

Lemma ncl_least_loop (measure : CheckoutLine.t -> Result Z) (customer : Customer.t)
  (ls : list CheckoutLine.t) :
  (forall line, never_closed_line_error (measure line)) ->
  forall i best, never_closed_line_error (least_loop measure customer i ls best).
Proof.
  intros Hm. induction ls as [|line ls IH]; intros i best; simpl.
  - apply ncl_Ok.
  - destruct (eligible customer line); [|apply IH].
    destruct best as [[jb b]|]; [|apply IH].
    apply ncl_bind; [apply Hm | intros].
    apply ncl_bind; [apply Hm | intros]. apply IH.
Qed.

Lemma ncl_pick_least (measure : CheckoutLine.t -> Result Z) (customer : Customer.t)
  (st : GroceryStore.t) :
  (forall line, never_closed_line_error (measure line)) ->
  never_closed_line_error (pick_least measure customer st).
Proof.
  intros Hm. unfold pick_least.
  apply ncl_bind; [apply ncl_least_loop, Hm | intros [[i line]|] _]; auto with ncl.
Qed.

Lemma ncl_py_index {A : Type} (lst : list A) (i : Z) :
  never_closed_line_error (py_index lst i).
Proof.
  unfold py_index.
  destruct (_ <? 0)%Z; auto with ncl.
Qed.

Lemma ncl_round_robin_loop (customer : Customer.t) (st : GroceryStore.t)
  (offsets : list Z) :
  never_closed_line_error (round_robin_loop customer st offsets).
Proof.
  induction offsets as [|o offsets IH]; simpl; [apply ncl_Ok|].
  apply ncl_bind; [apply ncl_py_index | intros [l line] _].
  destruct (eligible customer line); auto with ncl.
Qed.

Lemma ncl_call_pick_checkout_line (g : Globals) (customer : Customer.t) (w : World) :
  never_closed_line_error (call_pick_checkout_line g customer w).
Proof.
  unfold call_pick_checkout_line.
  destruct (pick_checkout_line g) as [[| | | |]|]; auto with ncl.
  - unfold pick_checkout_line_pure_random.
    destruct (_ =? 0)%nat; auto with ncl.
    apply ncl_bind; [auto with ncl | intros; apply ncl_Ok].
  - apply ncl_bind; [|intros; apply ncl_Ok].
    apply ncl_pick_least. intros; apply ncl_Ok.
  - apply ncl_bind; [|intros; apply ncl_Ok].
    apply ncl_pick_least, ncl_get_num_items.
  - apply ncl_bind; [|intros; apply ncl_Ok].
    apply ncl_pick_least. intros; apply ncl_get_queue_time.
  - unfold pick_checkout_line_round_robin.
    apply ncl_bind; [apply ncl_round_robin_loop | intros [[l line]|] _]; auto with ncl.
Qed.

(** The enqueue of a join event finds its line open: the policy has just
    returned it. *)
Lemma ncl_JoinCheckoutEvent_do_line (g : Globals) (t : Z) (c : cref) (w : World) :
  never_closed_line_error (JoinCheckoutEvent_do_line g t c w).
Proof.
  unfold JoinCheckoutEvent_do_line.
  apply ncl_bind; [apply ncl_update_customer | intros w1 _].
  apply ncl_bind; [apply ncl_get_customer | intros customer _].
  apply ncl_bind; [apply ncl_call_pick_checkout_line | intros [l w2] Hpick].
  apply ncl_bind; [apply ncl_get_line | intros line Hline].
  apply call_pick_checkout_line_spec in Hpick
    as (_ & Hls & _ & line0 & Hline0 & Hel & _).
  unfold get_line in Hline. apply of_option_Ok in Hline.
  rewrite Hls in Hline. assert (line0 = line) as -> by congruence.
  apply eligible_spec in Hel as [Hopen _].
  unfold CheckoutLine.queue_new_customer. rewrite Hopen.
  destruct (CheckoutLine.is_empty line); simpl; apply ncl_Ok.
Qed.

Lemma ncl_Event_do (g : Globals) (e : Event) (w : World) :
  never_closed_line_error (Event_do g e w).
Proof.
  destruct e as [t c l|t c l|t c|t l|t l]; simpl.
  - unfold BeginCheckoutEvent_do.
    apply ncl_bind; [apply ncl_update_customer | intros w1 _].
    apply ncl_bind; [apply ncl_get_customer | intros customer _].
    apply ncl_bind; [apply ncl_get_line | intros line _].
    apply ncl_bind; [apply ncl_call_get_checkout_time | intros; apply ncl_Ok].
  - unfold FinishCheckoutEvent_do.
    apply ncl_bind; [apply ncl_update_customer | intros w1 _].
    apply ncl_bind; [apply ncl_get_line | intros line _].
    destruct (CheckoutLine.queue line) as [|hd rest]; auto with ncl.
    destruct (negb _); auto with ncl.
    apply ncl_bind; [|intros; apply ncl_Ok].
    unfold CheckoutLine.serve_next_customer.
    destruct (CheckoutLine.is_empty _); auto with ncl.
  - unfold JoinCheckoutEvent_do.
    apply ncl_bind; [apply ncl_JoinCheckoutEvent_do_line | intros [l r] _; apply ncl_Ok].
  - unfold LineOpenEvent_do.
    apply ncl_bind; [apply ncl_get_line | intros; apply ncl_Ok].
  - unfold LineCloseEvent_do.
    apply ncl_bind; [apply ncl_get_line | intros; apply ncl_Ok].
Qed.

(** ** The engine loop *)

Lemma engine_loop_exec (g : Globals) (fuel : nat) :
  forall conf conf',
    engine_loop fuel g conf = Some (Ok conf') ->
    fst conf' = [] /\ exists evs, engine_exec g conf evs conf'.
Proof.
  induction fuel as [|fuel IH]; intros [heap w] conf' H; simpl in H.
  - destruct (heappop heap) as [[e heap']|] eqn:Hpop.
    + destruct (Event_do g e w) as [[w1 fut]|]; simpl in H; discriminate.
    + injection H as <-. split; [|exists []; constructor].
      simpl. unfold heappop in Hpop.
      destruct heap as [|x heap] using rev_ind; [reflexivity|].
      rewrite last_snoc in Hpop.
      destruct (removelast (heap ++ [x])); discriminate.
  - destruct (heappop heap) as [[e heap']|] eqn:Hpop.
    + destruct (Event_do g e w) as [[w1 fut]|] eqn:Hdo; simpl in H; [|discriminate].
      destruct (IH _ _ H) as (Hempty & evs & Hexec).
      split; [assumption|]. exists (e :: evs). econstructor; eassumption.
    + injection H as <-. split; [|exists []; constructor].
      simpl. unfold heappop in Hpop.
      destruct heap as [|x heap] using rev_ind; [reflexivity|].
      rewrite last_snoc in Hpop.
      destruct (removelast (heap ++ [x])); discriminate.
Qed.

Lemma engine_loop_never_closed_line_error (g : Globals) (fuel : nat) :
  forall conf e,
    engine_loop fuel g conf = Some (Raise e) -> is_closed_line_error e = false.
Proof.
  induction fuel as [|fuel IH]; intros [heap w] e H; simpl in H.
  - destruct (heappop heap) as [[ev heap']|]; [|discriminate].
    destruct (Event_do g ev w) as [[w1 fut]|e1] eqn:Hdo; simpl in H; [discriminate|].
    injection H as <-. eapply ncl_Event_do; eassumption.
  - destruct (heappop heap) as [[ev heap']|]; [|discriminate].
    destruct (Event_do g ev w) as [[w1 fut]|e1] eqn:Hdo; simpl in H.
    + eapply IH; eassumption.
    + injection H as <-. eapply ncl_Event_do; eassumption.
Qed.

Lemma create_event_loop_inv (st : GroceryStore.t) (text : list string) :
  forall idx events customers id events' customers',
    create_event_loop st idx text events customers id = Ok (events', customers') ->
    exists new, customers' = customers ++ new.
Proof.
  induction text as [|line text IH]; intros idx events customers id events' customers' H;
    simpl in H.
  - injection H as <- <-. exists []. rewrite app_nil_r. reflexivity.
  - destruct (parse_event_line customers st id line) as [[[ev cs1] id1]|] eqn:Hp;
      [|discriminate].
    apply IH in H as (new & ->).
    unfold parse_event_line in Hp.
    destruct (split "," line) as [|f1 [|f2 [|f3 [|]]]]; try discriminate.
    destruct (py_int f1) as [ts|]; simpl in Hp; [|discriminate].
    destruct (py_int f3) as [param|]; simpl in Hp; [|discriminate].
    destruct (String.eqb f2 "join").
    + injection Hp as <- <- <-. eexists. rewrite <- app_assoc. reflexivity.
    + destruct (String.eqb f2 "open" || String.eqb f2 "close"); [|discriminate].
      destruct (find_line_by_id param 0 (GroceryStore.lines st)); simpl in Hp;
        [|discriminate].
      destruct (String.eqb f2 "open"); injection Hp as <- <- <-; eauto.
Qed.

Lemma create_event_loop_error (st : GroceryStore.t) (text : list string) :
  forall idx events customers id e,
    create_event_loop st idx text events customers id = Raise e ->
    exists k, e = ValueError_parse k.
Proof.
  induction text as [|line text IH]; intros idx events customers id e H; simpl in H.
  - discriminate.
  - destruct (parse_event_line customers st id line) as [[[ev cs1] id1]|].
    + eapply IH; eassumption.
    + injection H as <-. eauto.
Qed.

Lemma create_event_list_inv (text : string) (w w0 : World) (evs : list Event) :
  create_event_list text w = Ok (evs, w0) ->
  store w0 = store w /\ rng_calls w0 = rng_calls w
  /\ exists new, customers w0 = customers w ++ new.
Proof.
  unfold create_event_list. intros H.
  destruct (create_event_loop _ _ _ _ _ _) as [[events cs]|] eqn:Hloop; simpl in H;
    [|discriminate].
  injection H as <- <-. simpl. split; [reflexivity|]. split; [reflexivity|].
  eapply create_event_loop_inv; eassumption.
Qed.

Lemma create_event_list_error (text : string) (w : World) (e : Error) :
  create_event_list text w = Raise e -> exists k, e = ValueError_parse k.
Proof.
  unfold create_event_list. intros H.
  destruct (create_event_loop _ _ _ _ _ _) as [[events cs]|e1] eqn:Hloop; simpl in H;
    [discriminate|].
  injection H as <-. eapply create_event_loop_error; eassumption.
Qed.

Lemma run_inv (fuel : nat) (g : Globals) (self sim : Simulator) (text : string) :
  run fuel g self text = Some (Ok sim) ->
  _finished self = false /\ _finished sim = true /\ events sim = []
  /\ exists conf0 evs,
       initial_conf self text = Ok conf0
       /\ engine_exec g conf0 evs (events sim, world sim).
Proof.
  unfold run, initial_conf. intros H.
  destruct (_finished self); [discriminate|].
  destruct (create_event_list text (world self)) as [[initial_events w]|]; simpl;
    [|discriminate].
  destruct (engine_loop fuel g _) as [[[heap w']|]|] eqn:Hloop; try discriminate.
  injection H as <-. simpl.
  apply engine_loop_exec in Hloop as (Hempty & evs & Hexec). simpl in Hempty.
  split; [reflexivity|]. split; [reflexivity|]. split; [assumption|].
  eauto.
Qed.

Lemma run_never_closed_line_error (fuel : nat) (g : Globals) (self : Simulator)
  (text : string) (e : Error) :
  run fuel g self text = Some (Raise e) -> is_closed_line_error e = false.
Proof.
  unfold run. intros H.
  destruct (_finished self); [injection H as <-; reflexivity|].
  destruct (create_event_list text (world self)) as [[initial_events w]|e1] eqn:Hc.
  - destruct (engine_loop fuel g _) as [[[heap w']|e2]|] eqn:Hloop; try discriminate.
    injection H as <-. eapply engine_loop_never_closed_line_error; eassumption.
  - injection H as <-. apply create_event_list_error in Hc as [k ->]. reflexivity.
Qed.

Lemma engine_exec_express_lines_respected (g : Globals) conf evs conf' :
  engine_exec g conf evs conf' ->
  express_lines_respected (snd conf) -> express_lines_respected (snd conf').
Proof.
  induction 1 as [conf|heap w e heap' w' fut evs conf' Hpop Hdo Hexec IH]; intros Hinv.
  - assumption.
  - apply IH. simpl. eapply Event_do_express_lines_respected; eassumption.
Qed.

Lemma fresh_lines_express_respected (w : World) :
  fresh_lines (GroceryStore.lines (store w)) -> express_lines_respected w.
Proof.
  intros Hfresh l line c customer Hl _ Hc _.
  destruct (Hfresh l line Hl) as (_ & Hq & Hs & _).
  rewrite Hq, Hs in Hc. apply elem_of_nil in Hc. contradiction.
Qed.

Lemma initial_conf_express_respected (line_counts : list (string * Z))
  (text : string) conf0 :
  initial_conf (Simulator__init__ line_counts) text = Ok conf0 ->
  express_lines_respected (snd conf0).
Proof.
  unfold initial_conf. intros H.
  destruct (create_event_list text _) as [[evs w0]|] eqn:Hc; simpl in H; [|discriminate].
  injection H as <-. simpl.
  apply create_event_list_inv in Hc as (Hst & _).
  apply fresh_lines_express_respected. rewrite Hst. simpl.
  apply GroceryStore_init_fresh.
Qed.

(** C3: whatever the policy, a selection returns a line that is not closed
    and is not an express line unless the customer has at most 10 items; a
    join event enqueues its customer into that line and no other; so over any
    run of the engine no customer with more than 10 items ever stands in, or
    was served by, an express line. *)
Theorem C3_eligibility_invariant (g : Globals) :
  (forall customer w l w',
      call_pick_checkout_line g customer w = Ok (l, w') ->
      exists line,
        GroceryStore.lines (store w') !! l = Some line
        /\ eligible customer line = true
        /\ CheckoutLine.closed line = false
        /\ (CheckoutLine.type line <> "express"
            \/ (Customer.num_items customer <= 10)%Z))
  /\ (forall t c w l w' future_events,
        JoinCheckoutEvent_do_line g t c w = Ok (l, (w', future_events)) ->
        exists customer line line',
          customers w' !! c = Some customer
          /\ GroceryStore.lines (store w) !! l = Some line
          /\ GroceryStore.lines (store w') !! l = Some line'
          /\ CheckoutLine.queue line' = CheckoutLine.queue line ++ [c]
          /\ CheckoutLine.type line' = CheckoutLine.type line
          /\ CheckoutLine.closed line = false
          /\ (CheckoutLine.type line <> "express"
              \/ (Customer.num_items customer <= 10)%Z)
          /\ forall l', l' <> l ->
               GroceryStore.lines (store w') !! l'
               = GroceryStore.lines (store w) !! l')
  /\ (forall conf evs conf',
        engine_exec g conf evs conf' ->
        express_lines_respected (snd conf) ->
        express_lines_respected (snd conf'))
  /\ (forall line_counts text conf0 evs conf,
        initial_conf (Simulator__init__ line_counts) text = Ok conf0 ->
        engine_exec g conf0 evs conf ->
        express_lines_respected (snd conf))
  /\ (forall fuel line_counts text sim,
        run fuel g (Simulator__init__ line_counts) text = Some (Ok sim) ->
        express_lines_respected (world sim)).
Proof.
  split; [|split; [|split; [|split]]].
  - intros customer w l w' Hpick.
    apply call_pick_checkout_line_spec in Hpick
      as (_ & Hls & _ & line & Hline & Hel & _).
    exists line. rewrite Hls. split; [assumption|]. split; [assumption|].
    apply eligible_spec. assumption.
  - intros t c w l w' fut Hjoin.
    apply JoinCheckoutEvent_do_line_inv in Hjoin
      as (cu & w2 & line & Hc & Hpick & Hline & Hopen & -> & _).
    apply call_pick_checkout_line_spec in Hpick
      as (Hcs & Hls & _ & line0 & Hline0 & Hel & _).
    simpl in Hcs, Hls, Hline0. rewrite Hls in Hline.
    assert (line0 = line) as -> by congruence.
    assert (Hl : l < length (GroceryStore.lines (store w)))
      by (eapply lookup_lt_Some; eassumption).
    exists (Customer.set_join_timestamp t cu), line. eexists.
    simpl. rewrite Hcs, Hls.
    split; [apply list_lookup_insert_eq; eapply lookup_lt_Some; eassumption|].
    split; [assumption|].
    split; [apply list_lookup_insert_eq; assumption|].
    split; [reflexivity|]. split; [reflexivity|]. split; [assumption|].
    split; [apply eligible_spec in Hel as [_ H]; exact H|].
    intros l' Hne. apply list_lookup_insert_ne. congruence.
  - intros conf evs conf'. apply engine_exec_express_lines_respected.
  - intros line_counts text conf0 evs conf Hinit Hexec.
    eapply engine_exec_express_lines_respected; [eassumption|].
    eapply initial_conf_express_respected; eassumption.
  - intros fuel line_counts text sim Hrun.
    apply run_inv in Hrun as (_ & _ & _ & conf0 & evs & Hinit & Hexec).
    change (world sim) with (snd (events sim, world sim)).
    eapply engine_exec_express_lines_respected; [eassumption|].
    eapply initial_conf_express_respected; eassumption.
Qed.

Lemma C3_eligibility_invariant_witness :
  exists sim,
    run 30 (sample_globals LeastPerson) (Simulator__init__ two_line_config)
      text_11_then_3 = Some (Ok sim)
    /\ (CheckoutLine.served <$> GroceryStore.lines (store (world sim)))
       = [[0]; [1]]
    /\ express_lines_respected (world sim).
Proof.
  eexists. split; [vm_compute; reflexivity|]. split; [reflexivity|].
  destruct (C3_eligibility_invariant (sample_globals LeastPerson))
    as (_ & _ & _ & _ & H).
  apply (H 30 two_line_config text_11_then_3). vm_compute. reflexivity.
Defined.

(** C8: a join event enqueues its customer into the line the active policy
    has just returned, and into no other; every policy returns a line that is
    not closed; hence no event, and no run of the engine, fails with the
    closed-line precondition of the enqueue operation, which does fire when
    the operation is applied to a closed line directly. *)
Theorem C8_closed_line_failure_unreachable (g : Globals) :
  (forall t c w l w' future_events,
      JoinCheckoutEvent_do_line g t c w = Ok (l, (w', future_events)) ->
      exists customer w1 w2 line,
        update_customer (Customer.set_join_timestamp t) c w = Ok w1
        /\ get_customer w1 c = Ok customer
        /\ call_pick_checkout_line g customer w1 = Ok (l, w2)
        /\ GroceryStore.lines (store w2) !! l = Some line
        /\ CheckoutLine.closed line = false
        /\ exists line',
             CheckoutLine.queue_new_customer line c = Ok line'
             /\ w' = set_line l line' w2)
  /\ (forall customer w l w',
        call_pick_checkout_line g customer w = Ok (l, w') ->
        exists line, GroceryStore.lines (store w') !! l = Some line
                     /\ CheckoutLine.closed line = false)
  /\ (forall e w line_id,
        Event_do g e w <> Raise (AssertionError_closed_line line_id))
  /\ (forall fuel self initial_events_str line_id,
        run fuel g self initial_events_str
        <> Some (Raise (AssertionError_closed_line line_id)))
  /\ (forall line c,
        CheckoutLine.closed line = true ->
        CheckoutLine.queue_new_customer line c
        = Raise (AssertionError_closed_line (CheckoutLine.id line))).
Proof.
  split; [|split; [|split; [|split]]].
  - intros t c w l w' fut Hjoin.
    apply JoinCheckoutEvent_do_line_inv in Hjoin
      as (cu & w2 & line & Hc & Hpick & Hline & Hopen & -> & _).
    exists (Customer.set_join_timestamp t cu). eexists. exists w2, line.
    assert (Hlt : c < length (customers w)) by (eapply lookup_lt_Some; eassumption).
    split; [unfold update_customer, get_customer; rewrite Hc; reflexivity|].
    split; [unfold get_customer; simpl;
            rewrite list_lookup_insert_eq by assumption; reflexivity|].
    split; [assumption|]. split; [assumption|]. split; [assumption|].
    eexists. split; [|reflexivity].
    unfold CheckoutLine.queue_new_customer. rewrite Hopen. reflexivity.
  - intros customer w l w' Hpick.
    apply call_pick_checkout_line_spec in Hpick
      as (_ & Hls & _ & line & Hline & Hel & _).
    exists line. rewrite Hls. split; [assumption|].
    apply eligible_spec in Hel as [H _]. exact H.
  - intros e w line_id H. apply ncl_Event_do in H. discriminate.
  - intros fuel self text line_id H.
    apply run_never_closed_line_error in H. discriminate.
  - intros line c H. unfold CheckoutLine.queue_new_customer. rewrite H. reflexivity.
Qed.

Lemma C8_closed_line_failure_unreachable_witness :
  (exists line,
      GroceryStore.lines (store sample_world_three_lines) !! 1 = Some line
      /\ CheckoutLine.closed line = false)
  /\ CheckoutLine.queue_new_customer (CheckoutLine.mk 4 "self" [] [] true) 0
     = Raise (AssertionError_closed_line 4).
Proof.
  destruct (C8_closed_line_failure_unreachable (sample_globals LeastPerson))
    as (_ & H2 & _ & _ & H5).
  split.
  - apply (H2 (sample_customer 3) sample_world_three_lines 1 sample_world_three_lines).
    reflexivity.
  - apply (H5 (CheckoutLine.mk 4 "self" [] [] true) 0). reflexivity.
Defined.

(** ** Round robin over a run *)

Lemma all_lines_eligible_step (w w' : World) :
  (forall x, x ∈ customers w' ->
     exists y, y ∈ customers w /\ Customer.num_items y = Customer.num_items x) ->
  (forall line', line' ∈ GroceryStore.lines (store w') ->
     exists line, line ∈ GroceryStore.lines (store w)
       /\ CheckoutLine.type line' = CheckoutLine.type line
       /\ (CheckoutLine.closed line = false -> CheckoutLine.closed line' = false)) ->
  all_lines_eligible w -> all_lines_eligible w'.
Proof.
  intros Hcust Hlines Hall x line' Hx Hline'.
  destruct (Hcust x Hx) as (y & Hy & Hitems).
  destruct (Hlines line' Hline') as (line & Hline & Hty & Hclosed).
  specialize (Hall y line Hy Hline).
  apply eligible_spec in Hall as [Hopen Hexp].
  apply eligible_spec. split; [auto|]. rewrite Hty, <- Hitems. assumption.
Qed.

Lemma elem_of_insert_cases {A : Type} (ls : list A) (i : nat) (new x : A) :
  x ∈ <[i := new]> ls -> x = new \/ x ∈ ls.
Proof.
  intros H. apply list_elem_of_lookup in H as [j Hj].
  apply insert_lookup_cases in Hj as [[_ ->]|[_ Hj]]; [auto|].
  right. eapply list_elem_of_lookup_2; eassumption.
Qed.

Lemma customers_insert_elem (cs : list Customer.t) (c : cref) (old new x : Customer.t) :
  cs !! c = Some old ->
  Customer.num_items new = Customer.num_items old ->
  x ∈ <[c := new]> cs ->
  exists y, y ∈ cs /\ Customer.num_items y = Customer.num_items x.
Proof.
  intros Hold Hitems H. apply elem_of_insert_cases in H as [->|H].
  - exists old. split; [eapply list_elem_of_lookup_2; eassumption | auto].
  - eauto.
Qed.

Lemma wf_store_insert_line (st : GroceryStore.t) (l : lref) (line line' : CheckoutLine.t)
  (last : Z) :
  wf_store st ->
  GroceryStore.lines st !! l = Some line ->
  CheckoutLine.id line' = CheckoutLine.id line ->
  (-1 <= last < GroceryStore.total_lines st)%Z ->
  wf_store (GroceryStore.mk (<[l := line']> (GroceryStore.lines st)) last
              (GroceryStore.total_lines st)).
Proof.
  intros (Htot & Hid & _) Hl Hsame Hlast. unfold wf_store. simpl.
  rewrite length_insert. split; [assumption|]. split; [|assumption].
  intros i x Hx. apply insert_lookup_cases in Hx as [[-> ->]|[_ Hx]].
  - rewrite Hsame. apply Hid. assumption.
  - apply Hid. assumption.
Qed.

(** A join event under round robin, when every line takes every customer:
    the line after the cursor is chosen and becomes the cursor. *)
Lemma round_robin_join_step (g : Globals) (t : Z) (c : cref) (w w' : World)
  (l : lref) (future_events : list Event) :
  pick_checkout_line g = Some RoundRobin ->
  wf_store (store w) -> all_lines_eligible w ->
  JoinCheckoutEvent_do_line g t c w = Ok (l, (w', future_events)) ->
  l = round_robin_pos (store w) 1
  /\ GroceryStore.last_line_id (store w') = Z.of_nat l
  /\ GroceryStore.total_lines (store w') = GroceryStore.total_lines (store w)
  /\ wf_store (store w') /\ all_lines_eligible w'.
Proof.
  intros Hrr Hwf Hall Hjoin.
  apply JoinCheckoutEvent_do_line_inv in Hjoin
    as (cu & w2 & line & Hc & Hpick & Hline & Hopen & -> & _).
  unfold call_pick_checkout_line in Hpick. rewrite Hrr in Hpick.
  set (w1 := {| customers := <[c := Customer.set_join_timestamp t cu]> (customers w);
                store := store w; rng_calls := rng_calls w |}) in *.
  assert (Hwf1 : wf_store (store w1)) by exact Hwf.
  pose proof (pick_round_robin_spec (Customer.set_join_timestamp t cu) w1 Hwf1) as Hspec.
  rewrite Hpick in Hspec.
  destruct Hspec as (k & line0 & Hk & _ & Hline0 & _ & _ & _).
  assert (Hpos : (0 < GroceryStore.total_lines (store w1))%Z).
  { destruct Hwf1 as (Htot & _). rewrite Htot. lia. }
  rewrite pick_round_robin_next in Hpick; [|assumption|assumption|].
  2:{ intros line1 Hin.
      rewrite (eligible_same_items _ cu) by reflexivity.
      apply Hall; [eapply list_elem_of_lookup_2; eassumption | exact Hin]. }
  injection Hpick as <- <-. simpl in *.
  assert (Hlt : round_robin_pos (store w) 1 < length (GroceryStore.lines (store w)))
    by (apply round_robin_pos_lt; assumption).
  split; [reflexivity|]. split; [reflexivity|]. split; [reflexivity|]. split.
  - eapply wf_store_insert_line with (st := store w);
      [assumption|exact Hline|reflexivity|].
    destruct Hwf as (Htot & _). lia.
  - eapply all_lines_eligible_step; [| |exact Hall].
    + simpl. intros x Hx. eapply customers_insert_elem; [exact Hc | | exact Hx]. reflexivity.
    + simpl. intros line' Hin. apply elem_of_insert_cases in Hin as [->|Hin].
      * exists line. split; [eapply list_elem_of_lookup_2; eassumption|]. auto.
      * exists line'. auto.
Qed.

(** The other events, a closing apart, leave the cursor where it is. *)
Lemma round_robin_other_step (g : Globals) (e : Event) (w w' : World)
  (future_events : list Event) :
  match e with JoinCheckoutEvent _ _ | LineCloseEvent _ _ => False | _ => True end ->
  wf_store (store w) -> all_lines_eligible w ->
  Event_do g e w = Ok (w', future_events) ->
  GroceryStore.last_line_id (store w') = GroceryStore.last_line_id (store w)
  /\ GroceryStore.total_lines (store w') = GroceryStore.total_lines (store w)
  /\ wf_store (store w') /\ all_lines_eligible w'.
Proof.
  intros He Hwf Hall Hdo.
  destruct e as [t c l|t c l|t c|t l|t l]; simpl in Hdo; try contradiction.
  - apply BeginCheckoutEvent_do_inv in Hdo as (cu & line & d & Hc & _ & _ & -> & _).
    simpl. split; [reflexivity|]. split; [reflexivity|]. split; [assumption|].
    eapply all_lines_eligible_step; [| |exact Hall]; simpl.
    + intros x Hx. eapply customers_insert_elem; [exact Hc | | exact Hx]. reflexivity.
    + intros line' Hin. exists line'. auto.
  - apply FinishCheckoutEvent_do_inv in Hdo
      as (cu & line & hd & rest & Hc & Hline & _ & -> & _).
    simpl. split; [reflexivity|]. split; [reflexivity|]. split.
    + eapply wf_store_insert_line with (st := store w);
        [assumption|eassumption|reflexivity|apply Hwf].
    + eapply all_lines_eligible_step; [| |exact Hall]; simpl.
      * intros x Hx. eapply customers_insert_elem; [exact Hc | | exact Hx]. reflexivity.
      * intros line' Hin. apply elem_of_insert_cases in Hin as [->|Hin].
        -- exists line. split; [eapply list_elem_of_lookup_2; eassumption|]. auto.
        -- exists line'. auto.
  - apply LineOpenEvent_do_inv in Hdo as (line & Hline & -> & _).
    simpl. split; [reflexivity|]. split; [reflexivity|]. split.
    + eapply wf_store_insert_line with (st := store w);
        [assumption|eassumption|reflexivity|apply Hwf].
    + eapply all_lines_eligible_step; [| |exact Hall]; simpl.
      * intros x Hx. eauto.
      * intros line' Hin. apply elem_of_insert_cases in Hin as [->|Hin].
        -- exists line. split; [eapply list_elem_of_lookup_2; eassumption|]. auto.
        -- exists line'. auto.
Qed.

Lemma cycle_from_next (last n : Z) (k : nat) :
  (0 < n)%Z ->
  cycle_from (Z.of_nat (Z.to_nat ((last + 1) mod n))) n k = cycle_from last n (S k).
Proof.
  intros Hn. unfold cycle_from.
  pose proof (Z.mod_pos_bound (last + 1) n Hn).
  rewrite Z2Nat.id by lia.
  replace ((last + 1) mod n + 1 + Z.of_nat k)%Z
    with ((last + 1) mod n + (1 + Z.of_nat k))%Z by lia.
  rewrite Zplus_mod_idemp_l. f_equal. f_equal. lia.
Qed.

(** Successive round-robin selections over the events a run executes: with
    no closing and every line taking every customer, the lines are taken in
    cyclic id order, starting after the cursor. *)
Lemma exec_events_round_robin (g : Globals) (evs : list Event) :
  pick_checkout_line g = Some RoundRobin ->
  forall (w w' : World) (sels : list lref),
    wf_store (store w) -> all_lines_eligible w ->
    no_close_event evs = true ->
    exec_events g evs w = Ok (sels, w') ->
    sels = map (cycle_from (GroceryStore.last_line_id (store w))
                  (GroceryStore.total_lines (store w)))
               (seq 0 (length sels))
    /\ wf_store (store w') /\ all_lines_eligible w'.
Proof.
  intros Hrr. induction evs as [|e evs IH]; intros w w' sels Hwf Hall Hnc Hexec.
  - simpl in Hexec. injection Hexec as <- <-. auto.
  - simpl in Hnc. apply andb_true_iff in Hnc as [He Hnc].
    destruct e as [t c l|t c l|t c|t l|t l]; try discriminate.
    1,2,4:
      (cbn [exec_events] in Hexec;
       match type of Hexec with
       | (?r ≫= _) = _ => destruct r as [[w1 fut]|] eqn:Hdo
       end; simpl in Hexec; [|discriminate];
       apply round_robin_other_step in Hdo as (Hlast & Htot & Hwf1 & Hall1);
         [|exact I|assumption|assumption];
       destruct (IH w1 w' sels Hwf1 Hall1 Hnc Hexec) as (Hsels & Hwf' & Hall');
       rewrite Hlast, Htot in Hsels; auto).
    simpl in Hexec.
    destruct (JoinCheckoutEvent_do_line g t c w) as [[l [w1 fut]]|] eqn:Hjoin;
      simpl in Hexec; [|discriminate].
    destruct (exec_events g evs w1) as [[ls w2]|] eqn:Hrest; simpl in Hexec;
      [|discriminate].
    injection Hexec as <- <-.
    apply round_robin_join_step in Hjoin as (Hl & Hlast & Htot & Hwf1 & Hall1);
      try assumption.
    destruct (IH w1 w2 ls Hwf1 Hall1 Hnc Hrest) as (Hsels & Hwf' & Hall').
    split; [|auto]. simpl. f_equal.
    + rewrite Hl. unfold cycle_from, round_robin_pos. f_equal. f_equal. lia.
    + rewrite Hsels at 1. rewrite <- seq_shift, map_map.
      apply map_ext. intros k. rewrite Hlast, Htot, Hl.
      unfold round_robin_pos. apply cycle_from_next.
      destruct Hwf as (Htot0 & _). rewrite Htot0.
      assert (round_robin_pos (store w) 1 < length (GroceryStore.lines (store w))).
      { rewrite Hl in *. destruct Hwf1 as (Ht1 & _ & Hrange).
        rewrite Hlast in Hrange. rewrite Htot, Htot0 in Hrange. lia. }
      lia.
Qed.

Lemma engine_exec_exec_events (g : Globals) conf evs conf' :
  engine_exec g conf evs conf' ->
  exists sels, exec_events g evs (snd conf) = Ok (sels, snd conf').
Proof.
  induction 1 as [conf|heap w e heap' w' fut evs conf' Hpop Hdo Hexec IH].
  - exists []. reflexivity.
  - destruct IH as [sels IH]. simpl in IH.
    destruct e as [t c l|t c l|t c|t l|t l];
      try (exists sels; cbn [exec_events snd]; rewrite Hdo; simpl; exact IH).
    simpl in Hdo. apply JoinCheckoutEvent_do_inv in Hdo as [l Hdo].
    exists (l :: sels). simpl. rewrite Hdo. simpl. rewrite IH. reflexivity.
Qed.

Lemma cycle_from_fresh (n : nat) (k : nat) :
  cycle_from (Z.of_nat n - 1) (Z.of_nat n) k = k mod n.
Proof.
  unfold cycle_from.
  replace (Z.of_nat n - 1 + 1 + Z.of_nat k)%Z
    with (Z.of_nat k + 1 * Z.of_nat n)%Z by lia.
  rewrite Z_mod_plus_full, <- Nat2Z.inj_mod. apply Nat2Z.id.
Qed.

Lemma initial_conf_fresh (line_counts : list (string * Z)) (text : string) conf0 :
  initial_conf (Simulator__init__ line_counts) text = Ok conf0 ->
  store (snd conf0) = GroceryStore.__init__ line_counts.
Proof.
  unfold initial_conf. intros H.
  destruct (create_event_list text _) as [[evs w0]|] eqn:Hc; simpl in H; [|discriminate].
  injection H as <-. simpl. apply create_event_list_inv in Hc as (Hst & _). exact Hst.
Qed.

(** C4, as the code has it: one round-robin selection scans the lines
    cyclically from the line after the cursor, takes the first eligible line
    and moves the cursor to its id; over the events of a run without a
    closing in which every line is eligible for every customer (nothing is
    closed and no customer is too loaded for an express line of the store),
    the successive selections go through the line ids in ascending cyclic
    order, from line 0 in a fresh store. *)
Theorem C4_round_robin_cycle (g : Globals) :
  pick_checkout_line g = Some RoundRobin ->
  (forall customer w,
      wf_store (store w) ->
      match call_pick_checkout_line g customer w with
      | Ok (l, w') =>
          exists (k : nat) (line : CheckoutLine.t),
            1 <= k <= length (GroceryStore.lines (store w))
            /\ l = round_robin_pos (store w) (Z.of_nat k)
            /\ GroceryStore.lines (store w) !! l = Some line
            /\ eligible customer line = true
            /\ (forall j line', 1 <= j < k ->
                  GroceryStore.lines (store w)
                    !! round_robin_pos (store w) (Z.of_nat j) = Some line' ->
                  eligible customer line' = false)
            /\ w' = set_last_line_id (CheckoutLine.id line) w
            /\ CheckoutLine.id line = Z.of_nat l
      | Raise e =>
          e = AssertionError_no_line
          /\ forall line, line ∈ GroceryStore.lines (store w) ->
                          eligible customer line = false
      end)
  /\ (forall evs w w' sels,
        wf_store (store w) -> all_lines_eligible w ->
        no_close_event evs = true ->
        exec_events g evs w = Ok (sels, w') ->
        sels = map (cycle_from (GroceryStore.last_line_id (store w))
                      (GroceryStore.total_lines (store w)))
                   (seq 0 (length sels)))
  /\ (forall line_counts text conf0 evs conf,
        initial_conf (Simulator__init__ line_counts) text = Ok conf0 ->
        all_lines_eligible (snd conf0) ->
        no_close_event evs = true ->
        engine_exec g conf0 evs conf ->
        exists sels,
          exec_events g evs (snd conf0) = Ok (sels, snd conf)
          /\ sels = map (fun k => k mod length (GroceryStore.lines (store (snd conf0))))
                        (seq 0 (length sels))).
Proof.
  intros Hrr. split; [|split].
  - intros customer w Hwf. unfold call_pick_checkout_line. rewrite Hrr.
    pose proof (pick_round_robin_spec customer w Hwf) as Hspec.
    destruct (pick_checkout_line_round_robin customer w) as [[l w']|e]; [|exact Hspec].
    destruct Hspec as (k & line & Hk & Hl & Hline & Hel & Hbefore & ->).
    exists k, line. destruct Hwf as (_ & Hid & _).
    rewrite (Hid l line Hline). auto 10.
  - intros evs w w' sels Hwf Hall Hnc Hexec.
    eapply exec_events_round_robin; eassumption.
  - intros line_counts text conf0 evs conf Hinit Hall Hnc Hexec.
    destruct (engine_exec_exec_events g conf0 evs conf Hexec) as [sels Hsels].
    exists sels. split; [assumption|].
    pose proof (initial_conf_fresh _ _ _ Hinit) as Hst.
    pose proof (GroceryStore_init_fresh line_counts) as (Htot & Hlast & _).
    pose proof (GroceryStore_init_wf line_counts) as Hwf.
    rewrite <- Hst in Htot, Hlast, Hwf.
    destruct (exec_events_round_robin g evs Hrr _ _ _ Hwf Hall Hnc Hsels) as (Heq & _).
    rewrite Heq at 1. apply map_ext. intros k.
    rewrite Hlast, Htot. apply cycle_from_fresh.
Qed.

Lemma C4_round_robin_cycle_witness :
  exists (conf0 conf : list Event * World),
    initial_conf (Simulator__init__ two_line_config) text_three_light = Ok conf0
    /\ exists sels,
         exec_events (sample_globals RoundRobin)
           [JoinCheckoutEvent 0 0; JoinCheckoutEvent 0 1; JoinCheckoutEvent 0 2]
           (snd conf0) = Ok (sels, snd conf)
         /\ sels = map (fun k => k mod length (GroceryStore.lines (store (snd conf0))))
                       (seq 0 (length sels)).
Proof.
  eexists. eexists. split; [vm_compute; reflexivity|].
  destruct (C4_round_robin_cycle (sample_globals RoundRobin) eq_refl) as (_ & _ & H).
  eapply (H two_line_config text_three_light).
  - vm_compute. reflexivity.
  - intros customer line Hc Hl. simpl in Hc, Hl.
    repeat (apply elem_of_cons in Hc as [->|Hc];
            [repeat (apply elem_of_cons in Hl as [->|Hl]; [reflexivity|]);
             apply elem_of_nil in Hl; contradiction|]).
    apply elem_of_nil in Hc. contradiction.
  - reflexivity.
  - eapply engine_exec_cons; [vm_compute; reflexivity | vm_compute; reflexivity |].
    eapply engine_exec_cons; [vm_compute; reflexivity | vm_compute; reflexivity |].
    eapply engine_exec_cons; [vm_compute; reflexivity | vm_compute; reflexivity |].
    apply engine_exec_nil.
Defined.

(** C4, as stated, fails: in a store with a cashier line (id 0) and an
    express line (id 1), with no line ever closed, two customers with 11
    items each are both sent to line 0; line 1 is skipped. *)
Lemma C4_round_robin_counterexample :
  (exists sim,
      run 30 (sample_globals RoundRobin) (Simulator__init__ two_line_config)
        text_11_twice = Some (Ok sim)
      /\ (CheckoutLine.served <$> GroceryStore.lines (store (world sim)))
         = [[0; 1]; []]
      /\ no_line_closed (world sim))
  /\ ~ round_robin_cycles_without_closing (sample_globals RoundRobin).
Proof.
  split.
  - eexists. split; [vm_compute; reflexivity|]. split; [reflexivity|].
    intros line Hl. simpl in Hl.
    repeat (apply elem_of_cons in Hl as [->|Hl]; [reflexivity|]).
    apply elem_of_nil in Hl. contradiction.
  - intros Hclaim.
    assert (Hexec : exists (conf0 conf : list Event * World),
               initial_conf (Simulator__init__ two_line_config) text_11_twice = Ok conf0
               /\ engine_exec (sample_globals RoundRobin) conf0
                    [JoinCheckoutEvent 0 0; JoinCheckoutEvent 0 1] conf
               /\ exec_events (sample_globals RoundRobin)
                    [JoinCheckoutEvent 0 0; JoinCheckoutEvent 0 1] (snd conf0)
                  = Ok ([0; 0], snd conf)).
    { eexists. eexists. split; [vm_compute; reflexivity|]. split.
      - eapply engine_exec_cons; [vm_compute; reflexivity | vm_compute; reflexivity |].
        eapply engine_exec_cons; [vm_compute; reflexivity | vm_compute; reflexivity |].
        apply engine_exec_nil.
      - vm_compute. reflexivity. }
    destruct Hexec as (conf0 & conf & Hinit & Hexec & Hsels).
    pose proof (Hclaim two_line_config text_11_twice conf0
                  [JoinCheckoutEvent 0 0; JoinCheckoutEvent 0 1] conf [0; 0]
                  Hinit eq_refl Hexec Hsels) as Habs.
    pose proof (initial_conf_fresh _ _ _ Hinit) as Hst.
    rewrite Hst in Habs. vm_compute in Habs. discriminate.
Qed.

(** ** The statistics query *)

Lemma customer_timestamp_field (f : TimeField) (customer : Customer.t) :
  customer_timestamp (field_name f) customer = Ok (field_value f customer).
Proof. destruct f; reflexivity. Qed.


Lemma in_window_spec (start_time end_time : option Z) (t : Z) :
  in_window (match start_time with None => 0%Z | Some s => s end) end_time (Some t)
  = Ok (spec_in_interval start_time end_time t).
Proof. reflexivity. Qed.

(** The inner loop over one served list. *)
Lemma retained_inner_loop (w : World) (f : TimeField) (start_time end_time : option Z)
  (served : list cref) :
  (forall c, c ∈ served -> fully_stamped w c) ->
  forall acc,
    for_each
      (fun acc c =>
         customer ← get_customer w c;
         ts ← customer_timestamp (field_name f) customer;
         keep ← in_window (match start_time with None => 0%Z | Some s => s end)
                  end_time ts;
         Ok (if keep : bool then acc ++ [c] else acc))
      served acc
    = Ok (acc ++ List.filter (spec_keeps w f start_time end_time) served).
Proof.
  induction served as [|c served IH]; intros Hst acc; simpl.
  - rewrite app_nil_r. reflexivity.
  - destruct (Hst c) as (customer & j & b & fi & Hc & Hj & Hb & Hf); [left|].
    unfold get_customer, spec_keeps. rewrite Hc. simpl.
    rewrite customer_timestamp_field. simpl.
    assert (Hfield : exists t, field_value f customer = Some t)
      by (destruct f; simpl; eauto).
    destruct Hfield as [t Ht]. rewrite Ht, in_window_spec. simpl.
    rewrite IH by (intros c' Hc'; apply Hst; right; assumption).
    destruct (spec_in_interval start_time end_time t).
    + rewrite <- app_assoc. reflexivity.
    + reflexivity.
Qed.

Lemma retained_outer_loop (w : World) (f : TimeField) (start_time end_time : option Z)
  (line_ids : option (list Z)) (ls : list CheckoutLine.t) :
  (forall line c, line ∈ ls -> line_selected line_ids line = true ->
                  c ∈ CheckoutLine.served line -> fully_stamped w c) ->
  forall acc,
    for_each
      (fun acc line =>
         if line_selected line_ids line then
           for_each
             (fun acc c =>
                customer ← get_customer w c;
                ts ← customer_timestamp (field_name f) customer;
                keep ← in_window (match start_time with None => 0%Z | Some s => s end)
                         end_time ts;
                Ok (if keep : bool then acc ++ [c] else acc))
             (CheckoutLine.served line) acc
         else Ok acc)
      ls acc
    = Ok (acc ++ List.filter (spec_keeps w f start_time end_time)
                   (flat_map (fun line => if line_selected line_ids line
                                          then CheckoutLine.served line else [])
                             ls)).
Proof.
  induction ls as [|line ls IH]; intros Hst acc; simpl.
  - rewrite app_nil_r. reflexivity.
  - assert (Hrest : forall line' c, line' ∈ ls -> line_selected line_ids line' = true ->
                      c ∈ CheckoutLine.served line' -> fully_stamped w c).
    { intros line' c Hin. apply Hst. right. assumption. }
    destruct (line_selected line_ids line) eqn:Hsel.
    + rewrite retained_inner_loop
        by (intros c Hc; apply (Hst line c); [left|assumption|assumption]).
      simpl. rewrite IH by assumption.
      rewrite List.filter_app, app_assoc. reflexivity.
    + simpl. apply IH. assumption.
Qed.

Lemma retained_customers_spec (w : World) (f : TimeField)
  (start_time end_time : option Z) (line_ids : option (list Z)) :
  (forall c, c ∈ spec_served_on w line_ids -> fully_stamped w c) ->
  retained_customers w (match start_time with None => 0%Z | Some s => s end)
    end_time line_ids (field_name f)
  = Ok (spec_retained w f start_time end_time line_ids).
Proof.
  intros Hst. unfold retained_customers, spec_retained, spec_served_on.
  rewrite retained_outer_loop; [reflexivity|].
  intros line c Hline Hsel Hc. apply Hst. unfold spec_served_on.
  apply list_elem_of_In, in_flat_map. exists line.
  split; [apply list_elem_of_In; assumption|].
  rewrite Hsel. apply list_elem_of_In. assumption.
Qed.




Lemma fold_left_min_spec (a : list Z) (x : Z) :
  fold_left Z.min a x ∈ x :: a
  /\ forall y, y ∈ x :: a -> (fold_left Z.min a x <= y)%Z.
Proof.
  revert x. induction a as [|z a IH]; intros x; simpl.
  - split; [left|]. intros y Hy. apply list_elem_of_singleton in Hy. lia.
  - destruct (IH (Z.min x z)) as [Hin Hle]. split.
    + apply elem_of_cons in Hin as [Heq|Hin].
      * rewrite Heq. destruct (Z.min_spec x z) as [[_ ->]|[_ ->]];
          [left | right; left].
      * right. right. assumption.
    + intros y Hy.
      assert (Hm : (fold_left Z.min a (Z.min x z) <= Z.min x z)%Z)
        by (apply Hle; left).
      apply elem_of_cons in Hy as [->|Hy]; [lia|].
      apply elem_of_cons in Hy as [->|Hy]; [lia|].
      apply Hle. right. assumption.
Qed.






(** ** An empty selection *)

Lemma retained_loop_nothing_served {S : Type} (line_ids : option (list Z))
  (body : S -> cref -> Result S) (ls : list CheckoutLine.t) :
  flat_map (fun line => if line_selected line_ids line
                        then CheckoutLine.served line else []) ls = [] ->
  forall acc,
    for_each (fun acc line =>
                if line_selected line_ids line
                then for_each body (CheckoutLine.served line) acc
                else Ok acc) ls acc
    = Ok acc.
Proof.
  induction ls as [|line ls IH]; intros H acc; simpl.
  - reflexivity.
  - simpl in H. apply app_eq_nil in H as [Hline Hrest].
    destruct (line_selected line_ids line).
    + rewrite Hline. simpl. apply IH. assumption.
    + simpl. apply IH. assumption.
Qed.

Lemma retained_nothing_served (w : World) (start_time : Z) (end_time : option Z)
  (line_ids : option (list Z)) (filter_by : string) :
  spec_served_on w line_ids = [] ->
  retained_customers w start_time end_time line_ids filter_by = Ok [].
Proof.
  intros H. unfold retained_customers.
  apply retained_loop_nothing_served. exact H.
Qed.

(** ** The end-to-end examples *)

Lemma engine_loop_more_fuel (g : Globals) (fuel : nat) :
  forall conf r,
    engine_loop fuel g conf = Some r ->
    forall k, engine_loop (fuel + k) g conf = Some r.
Proof.
  induction fuel as [|fuel IH]; intros conf r H k.
  - destruct k as [|k]; [exact H|]. simpl in *.
    destruct (engine_step g conf) as [[conf'|e]|]; [discriminate|exact H|exact H].
  - simpl in *.
    destruct (engine_step g conf) as [[conf'|e]|]; [|exact H|exact H].
    apply IH. exact H.
Qed.

Lemma run_more_fuel (g : Globals) (fuel : nat) (self : Simulator) (text : string) r :
  run fuel g self text = Some r ->
  forall k, run (fuel + k) g self text = Some r.
Proof.
  unfold run. intros H k.
  destruct (_finished self); [exact H|].
  destruct (create_event_list text (world self)) as [[evs w]|]; [|exact H].
  destruct (engine_loop fuel g _) as [r0|] eqn:Hloop; [|discriminate].
  rewrite (engine_loop_more_fuel g fuel _ r0 Hloop k). exact H.
Qed.

Lemma query_statistics_steps (self : Simulator) (criterion : string)
  (start_time end_time : option Z) (line_ids : option (list Z)) (filter_by : string)
  (cs : list cref) (raw : list Z) (lo hi : Z) :
  _finished self = true ->
  retained_customers (world self)
    (match start_time with None => 0%Z | Some s => s end) end_time line_ids filter_by
  = Ok cs ->
  raw_times (world self) criterion cs = Ok raw ->
  np_min raw = Ok lo -> np_max raw = Ok hi ->
  query_statistics self criterion start_time end_time line_ids filter_by
  = Ok ({| num_customers := length cs; total_time := np_sum raw;
           min_time := lo; max_time := hi;
           mean_time := np_mean raw; std_time := np_std raw |}, raw).
Proof.
  intros Hfin Hcs Hraw Hlo Hhi. unfold query_statistics.
  rewrite Hfin. simpl. rewrite Hcs. simpl. rewrite Hraw. simpl.
  rewrite Hlo. simpl. rewrite Hhi. reflexivity.
Qed.

(** C1: one cashier line (id 0), the deterministic duration model
    (items + 7 on a cashier line), any policy.  On "0,join,3" followed by
    "0,join,5" customer 0 joins at 0, begins at 0 and finishes at 10, customer 1
    joins at 0, begins at 10 and finishes at 22, and the query for "wait"
    returns the raw values [0, 10]; on "0,join,3" alone the query returns
    count 1 and the wait value 0. *)
Theorem C1_end_to_end (p : Policy) (cf : bool) (draws : nat -> nat) (k : nat) :
  (CheckoutLine.id <$> GroceryStore.lines (store (fresh_world one_cashier_config)))
  = [0%Z]
  /\ (CheckoutLine.type <$> GroceryStore.lines (store (fresh_world one_cashier_config)))
     = ["cashier"]
  /\ (forall customer id queue served closed,
        get_checkout_time_deterministic customer
          (CheckoutLine.mk id "cashier" queue served closed)
        = Ok (Customer.num_items customer + 7)%Z)
  /\ (exists sim stats,
        run (6 + k) (deterministic_globals p cf draws)
          (Simulator__init__ one_cashier_config) text_3_then_5 = Some (Ok sim)
        /\ customers (world sim)
           = [Customer.mk 0 3 (Some 0%Z) (Some 0%Z) (Some 10%Z);
              Customer.mk 1 5 (Some 0%Z) (Some 10%Z) (Some 22%Z)]
        /\ (CheckoutLine.served <$> GroceryStore.lines (store (world sim))) = [[0; 1]]
        /\ query_statistics sim "wait" None None None "join" = Ok (stats, [0; 10]%Z)
        /\ num_customers stats = 2)
  /\ (exists sim stats,
        run (3 + k) (deterministic_globals p cf draws)
          (Simulator__init__ one_cashier_config) text_3 = Some (Ok sim)
        /\ customers (world sim)
           = [Customer.mk 0 3 (Some 0%Z) (Some 0%Z) (Some 10%Z)]
        /\ (CheckoutLine.served <$> GroceryStore.lines (store (world sim))) = [[0]]
        /\ query_statistics sim "wait" None None None "join" = Ok (stats, [0]%Z)
        /\ num_customers stats = 1
        /\ total_time stats = 0%Z /\ min_time stats = 0%Z /\ max_time stats = 0%Z).
Proof.
  split; [reflexivity|]. split; [reflexivity|]. split.
  { intros customer id queue served closed.
    unfold get_checkout_time_deterministic. simpl. f_equal. lia. }
  split.
  - destruct p;
      (eexists; eexists;
       split; [apply run_more_fuel; destruct cf; vm_compute; reflexivity|];
       split; [reflexivity|]; split; [reflexivity|];
       split;
       [apply query_statistics_steps with (cs := [0; 1]) (lo := 0%Z) (hi := 10%Z);
        reflexivity
       |reflexivity]).
  - destruct p;
      (eexists; eexists;
       split; [apply run_more_fuel; destruct cf; vm_compute; reflexivity|];
       split; [reflexivity|]; split; [reflexivity|];
       split;
       [apply query_statistics_steps with (cs := [0]) (lo := 0%Z) (hi := 0%Z);
        reflexivity
       |repeat split; reflexivity]).
Qed.

(** ** The priority queue keeps its events

    [heappush] and [heappop] only move events around: the list is a
    permutation of what went in.  The sifting loops work with a hole, so the
    invariant is stated for the list with the item put back into the hole. *)

Lemma cons_insert_swap {A : Type} (t : list A) (j : nat) (x y : A) :
  j < length t -> x :: <[j := y]> t ≡ₚ y :: <[j := x]> t.
Proof.
  revert j. induction t as [|z t IH]; intros j Hj; simpl in Hj; [lia|].
  destruct j as [|j]; simpl.
  - apply perm_swap.
  - rewrite (perm_swap z x), (perm_swap z y). apply perm_skip. apply IH. lia.
Qed.

Lemma insert_insert_swap {A : Type} (h : list A) (i j : nat) (a b : A) :
  h !! i = Some a -> i <> j -> j < length h ->
  <[i := b]> (<[j := a]> h) ≡ₚ <[j := b]> h.
Proof.
  revert i j. induction h as [|c h IH]; intros i j Hi Hne Hj; simpl in Hj; [lia|].
  destruct i as [|i], j as [|j]; simpl in *; try congruence.
  - injection Hi as ->. apply cons_insert_swap. lia.
  - rewrite cons_insert_swap by (eapply lookup_lt_Some; eassumption).
    rewrite list_insert_id by assumption. reflexivity.
  - apply perm_skip. apply IH; [assumption|congruence|lia].
Qed.

Lemma div2_pred_lt (pos : nat) : 0 < pos -> Nat.div2 (pos - 1) < pos.
Proof.
  intros H. pose proof (Nat.div2_decr (pos - 1) (pos - 1) ltac:(lia)). lia.
Qed.

Lemma _siftdown_loop_perm (rounds : nat) :
  forall (heap : list Event) (newitem : Event) (startpos pos : nat),
    pos < length heap ->
    _siftdown_loop rounds heap newitem startpos pos ≡ₚ <[pos := newitem]> heap.
Proof.
  induction rounds as [|rounds IH]; intros heap newitem startpos pos Hpos; simpl.
  - reflexivity.
  - destruct (startpos <? pos) eqn:Hlt; [|reflexivity].
    apply Nat.ltb_lt in Hlt.
    assert (Hpp : Nat.div2 (pos - 1) < pos) by (apply div2_pred_lt; lia).
    destruct (lookup_lt_is_Some_2 heap (Nat.div2 (pos - 1))) as [parent Hparent];
      [lia|].
    rewrite Hparent.
    destruct (Event_lt newitem parent); [|reflexivity].
    rewrite IH by (rewrite length_insert; lia).
    apply insert_insert_swap; [assumption|lia|assumption].
Qed.

Lemma _siftdown_perm (heap : list Event) (startpos pos : nat) :
  _siftdown heap startpos pos ≡ₚ heap.
Proof.
  unfold _siftdown. destruct (heap !! pos) as [newitem|] eqn:Hpos; [|reflexivity].
  rewrite _siftdown_loop_perm by (eapply lookup_lt_Some; eassumption).
  rewrite list_insert_id by assumption. reflexivity.
Qed.

Lemma heappush_perm (heap : list Event) (item : Event) :
  heappush heap item ≡ₚ item :: heap.
Proof.
  unfold heappush. rewrite _siftdown_perm.
  symmetry. apply Permutation_cons_append.
Qed.

Lemma _siftup_loop_perm (rounds : nat) :
  forall (heap heap1 : list Event) (endpos pos childpos leaf : nat) (x : Event),
    pos < length heap -> pos < childpos ->
    _siftup_loop rounds heap endpos pos childpos = (heap1, leaf) ->
    <[leaf := x]> heap1 ≡ₚ <[pos := x]> heap.
Proof.
  induction rounds as [|rounds IH];
    intros heap heap1 endpos pos childpos leaf x Hpos Hchild H; simpl in H.
  - injection H as <- <-. reflexivity.
  - destruct (childpos <? endpos); [|injection H as <- <-; reflexivity].
    set (c := match heap !! childpos, heap !! (childpos + 1) with
              | Some child, Some rchild =>
                  if (childpos + 1 <? endpos) && negb (Event_lt child rchild)
                  then childpos + 1 else childpos
              | _, _ => childpos
              end) in *.
    assert (Hc : pos < c).
    { unfold c. destruct (heap !! childpos), (heap !! (childpos + 1));
        try lia. destruct (_ && _); lia. }
    destruct (heap !! c) as [child|] eqn:Hchild_at;
      [|injection H as <- <-; reflexivity].
    apply (IH _ _ _ _ _ _ x) in H;
      [|rewrite length_insert; eapply lookup_lt_Some; eassumption|lia].
    rewrite H. apply insert_insert_swap; [assumption|lia|assumption].
Qed.

Lemma _siftup_perm (heap : list Event) (pos : nat) :
  _siftup heap pos ≡ₚ heap.
Proof.
  unfold _siftup. destruct (heap !! pos) as [newitem|] eqn:Hpos; [|reflexivity].
  destruct (_siftup_loop (length heap) heap (length heap) pos (2 * pos + 1))
    as [heap1 leaf] eqn:Hloop.
  rewrite _siftdown_perm.
  assert (Hchild : pos < 2 * pos + 1) by lia.
  rewrite (_siftup_loop_perm _ _ _ _ _ _ _ newitem
             (lookup_lt_Some _ _ _ Hpos) Hchild Hloop).
  rewrite list_insert_id by assumption. reflexivity.
Qed.

Lemma heappop_perm (heap heap' : list Event) (e : Event) :
  heappop heap = Some (e, heap') -> heap ≡ₚ e :: heap'.
Proof.
  unfold heappop. intros H.
  destruct heap as [|x heap0] using rev_ind; [discriminate|]. clear IHheap0.
  rewrite last_snoc, removelast_last in H.
  destruct heap0 as [|returnitem rest].
  - injection H as <- <-. reflexivity.
  - injection H as <- <-. rewrite _siftup_perm. simpl.
    rewrite <- Permutation_cons_append. reflexivity.
Qed.

Lemma fold_heappush_perm (future_events heap : list Event) :
  fold_left heappush future_events heap ≡ₚ future_events ++ heap.
Proof.
  revert heap. induction future_events as [|e evs IH]; intros heap; simpl.
  - reflexivity.
  - rewrite IH, heappush_perm. symmetry. apply Permutation_middle.
Qed.

(** ** The invariant of the engine loop *)

Lemma service_count_perm (l : lref) (evs evs' : list Event) :
  evs ≡ₚ evs' -> service_count l evs = service_count l evs'.
Proof.
  unfold service_count. induction 1 as [|x a b _ IH|x y a|a b c _ IH1 _ IH2]; simpl.
  - reflexivity.
  - destruct (serves l x); simpl; congruence.
  - destruct (serves l x), (serves l y); reflexivity.
  - congruence.
Qed.

Lemma service_count_app (l : lref) (evs evs' : list Event) :
  service_count l (evs ++ evs') = service_count l evs + service_count l evs'.
Proof. unfold service_count. rewrite List.filter_app, length_app. reflexivity. Qed.

Lemma service_count_zero (l : lref) (evs : list Event) (e : Event) :
  service_count l evs = 0 -> e ∈ evs -> serves l e = false.
Proof.
  unfold service_count. induction evs as [|x evs IH]; intros H Hin; simpl in H.
  - apply elem_of_nil in Hin. contradiction.
  - destruct (serves l x) eqn:Hx; [discriminate|].
    apply elem_of_cons in Hin as [->|Hin]; [assumption|]. apply IH; assumption.
Qed.

Lemma engine_invariant_perm (evs evs' : list Event) (w : World) :
  evs ≡ₚ evs' -> engine_invariant evs w -> engine_invariant evs' w.
Proof.
  intros Hperm (Hok & Hcount & Hq & Hs).
  split; [rewrite <- Hperm; assumption|].
  split; [intros l; rewrite <- (service_count_perm l _ _ Hperm); apply Hcount|].
  auto.
Qed.

Lemma has_stamp_insert (w : World) (cs' : list Customer.t) (c0 : cref)
  (old new : Customer.t) (f : TimeField) (c : cref) :
  customers w !! c0 = Some old ->
  cs' = <[c0 := new]> (customers w) ->
  (forall f t, field_value f old = Some t -> exists t', field_value f new = Some t') ->
  has_stamp w f c ->
  exists customer t, cs' !! c = Some customer /\ field_value f customer = Some t.
Proof.
  intros Hold -> Hkeep (customer & t & Hc & Ht).
  destruct (decide (c0 = c)) as [->|Hne].
  - assert (customer = old) as -> by congruence.
    destruct (Hkeep f t Ht) as [t' Ht'].
    exists new, t'. split; [|assumption].
    apply list_lookup_insert_eq. eapply lookup_lt_Some; eassumption.
  - exists customer, t. split; [|assumption].
    rewrite list_lookup_insert_ne by assumption. assumption.
Qed.

Lemma fully_stamped_stamps (w : World) (c : cref) :
  fully_stamped w c
  <-> has_stamp w ByJoin c /\ has_stamp w ByBegin c /\ has_stamp w ByFinish c.
Proof.
  unfold fully_stamped, has_stamp. split.
  - intros (customer & j & b & f & Hc & Hj & Hb & Hf).
    split; [exists customer, j; auto|].
    split; [exists customer, b; auto | exists customer, f; auto].
  - intros ((c1 & j & Hc1 & Hj) & (c2 & b & Hc2 & Hb) & (c3 & f & Hc3 & Hf)).
    simpl in *. assert (c2 = c1) as -> by congruence.
    assert (c3 = c1) as -> by congruence.
    exists c1, j, b, f. auto.
Qed.

Lemma is_empty_queue (line : CheckoutLine.t) :
  CheckoutLine.is_empty line = true <-> CheckoutLine.queue line = [].
Proof.
  unfold CheckoutLine.is_empty, CheckoutLine.get_num_customers.
  rewrite Z.eqb_eq. destruct (CheckoutLine.queue line); simpl; split;
    intros H; try reflexivity; try discriminate; lia.
Qed.

(** Stamps stay when an event stamps a customer; lines other than the one
    the event works on keep their head. *)
Lemma engine_invariant_frame (evs : list Event) (w w' : World) :
  (forall f c, has_stamp w f c -> has_stamp w' f c) ->
  (forall e l c, e ∈ evs -> serves l e = true -> head_of w l c -> head_of w' l c) ->
  Forall (event_ok w) evs -> Forall (event_ok w') evs.
Proof.
  intros Hstamp Hhead Hok. apply Forall_forall. intros e He.
  rewrite Forall_forall in Hok. specialize (Hok e He).
  destruct e as [t c l|t c l|t c|t l|t l]; simpl in *; try exact I.
  - apply (Hhead _ l c He); [apply Nat.eqb_refl | assumption].
  - destruct Hok as [Hh Hb]. split; [|apply Hstamp; assumption].
    apply (Hhead _ l c He); [apply Nat.eqb_refl | assumption].
Qed.

Lemma fully_stamped_mono (w w' : World) (c : cref) :
  (forall f c, has_stamp w f c -> has_stamp w' f c) ->
  fully_stamped w c -> fully_stamped w' c.
Proof.
  intros Hmono H. apply fully_stamped_stamps in H as (Hj & Hb & Hf).
  apply fully_stamped_stamps. auto.
Qed.

Lemma stamps_after_update (w : World) (c0 : cref) (old new : Customer.t)
  (st : GroceryStore.t) (n : nat) :
  customers w !! c0 = Some old ->
  (forall f t, field_value f old = Some t -> exists t', field_value f new = Some t') ->
  forall f c,
    has_stamp w f c ->
    has_stamp {| customers := <[c0 := new]> (customers w); store := st;
                 rng_calls := n |} f c.
Proof.
  intros Hold Hkeep f c H. unfold has_stamp. simpl.
  eapply has_stamp_insert; [exact Hold | reflexivity | exact Hkeep | exact H].
Qed.

Lemma invariant_begin (g : Globals) (t : Z) (c : cref) (l : lref)
  (heap' : list Event) (w w' : World) (future_events : list Event) :
  engine_invariant (BeginCheckoutEvent t c l :: heap') w ->
  BeginCheckoutEvent_do g t c l w = Ok (w', future_events) ->
  engine_invariant (future_events ++ heap') w'.
Proof.
  intros (Hok & Hcount & Hq & Hs) Hdo.
  apply BeginCheckoutEvent_do_inv in Hdo as (cu & line & d & Hc & Hline & _ & -> & ->).
  assert (Hmono : forall f c',
             has_stamp w f c' ->
             has_stamp {| customers := <[c := Customer.set_begin_timestamp t cu]> (customers w);
                          store := store w; rng_calls := rng_calls w |} f c').
  { apply stamps_after_update with (old := cu); [assumption|].
    intros f t0 Ht0. destruct f; simpl in *; eauto. }
  apply Forall_cons in Hok as [Hhead Hok]. simpl in Hhead.
  split; [|split; [|split]].
  - simpl. apply Forall_cons. split.
    + simpl. split; [exact Hhead|].
      exists (Customer.set_begin_timestamp t cu), t. simpl. split; [|reflexivity].
      apply list_lookup_insert_eq. eapply lookup_lt_Some; eassumption.
    + eapply engine_invariant_frame; [exact Hmono | | exact Hok].
      intros e l0 c0 _ _ H. exact H.
  - intros l0. pose proof (Hcount l0) as H.
    unfold service_count in *. simpl in *.
    destruct (l0 =? l)%nat; simpl in *; exact H.
  - intros l0 line0 c0 Hl0 Hc0. apply Hmono. eapply Hq; eassumption.
  - intros l0 line0 c0 Hl0 Hc0. eapply fully_stamped_mono; [exact Hmono|].
    eapply Hs; eassumption.
Qed.

Lemma service_count_head (l : lref) (e : Event) (evs : list Event) :
  service_count l (e :: evs) <= 1 -> serves l e = true -> service_count l evs = 0.
Proof.
  unfold service_count. cbn [List.filter]. intros H Hs.
  rewrite Hs in H. simpl in H. lia.
Qed.

Lemma service_count_tail (l : lref) (e : Event) (evs : list Event) :
  service_count l (e :: evs) <= 1 -> service_count l evs <= 1.
Proof.
  unfold service_count. cbn [List.filter]. destruct (serves l e); simpl; lia.
Qed.

Lemma invariant_finish (t : Z) (c : cref) (l : lref)
  (heap' : list Event) (w w' : World) (future_events : list Event) :
  engine_invariant (FinishCheckoutEvent t c l :: heap') w ->
  FinishCheckoutEvent_do t c l w = Ok (w', future_events) ->
  engine_invariant (future_events ++ heap') w'.
Proof.
  intros (Hok & Hcount & Hq & Hs) Hdo.
  apply FinishCheckoutEvent_do_inv in Hdo
    as (cu & line & hd & rest & Hc & Hline & Hqueue & -> & ->).
  apply Forall_cons in Hok as [[Hhead Hbegun] Hok].
  destruct Hhead as (line0 & Hline0 & Hhd).
  assert (line0 = line) as -> by congruence.
  rewrite Hqueue in Hhd. injection Hhd as ->.
  set (line' := CheckoutLine.mk (CheckoutLine.id line) (CheckoutLine.type line) rest
                  (CheckoutLine.served line ++ [c]) (CheckoutLine.closed line)).
  set (w' := {| customers := <[c := Customer.set_finish_timestamp t cu]> (customers w);
                store := GroceryStore.mk (<[l := line']> (GroceryStore.lines (store w)))
                           (GroceryStore.last_line_id (store w))
                           (GroceryStore.total_lines (store w));
                rng_calls := rng_calls w |}).
  assert (Hmono : forall f c', has_stamp w f c' -> has_stamp w' f c').
  { apply stamps_after_update with (old := cu); [assumption|].
    intros f t0 Ht0. destruct f; simpl in *; eauto. }
  assert (Hl : l < length (GroceryStore.lines (store w)))
    by (eapply lookup_lt_Some; eassumption).
  assert (Hline' : GroceryStore.lines (store w') !! l = Some line')
    by (simpl; apply list_lookup_insert_eq; assumption).
  assert (Hnone : service_count l heap' = 0).
  { apply (service_count_head l _ _ (Hcount l)). simpl. apply Nat.eqb_refl. }
  assert (Hok' : Forall (event_ok w') heap').
  { eapply engine_invariant_frame; [exact Hmono | | exact Hok].
    intros e l0 c0 He Hserves (line1 & Hline1 & Hhead1).
    assert (l0 <> l).
    { intros ->. rewrite (service_count_zero l heap' e Hnone He) in Hserves.
      discriminate. }
    exists line1. split; [|assumption]. simpl.
    rewrite list_lookup_insert_ne by congruence. assumption. }
  split; [|split; [|split]].
  - apply Forall_app. split; [|exact Hok'].
    destruct rest as [|next rest']; [constructor|].
    apply Forall_cons. split; [|constructor].
    simpl. exists line'. split; [exact Hline'|reflexivity].
  - intros l0. rewrite service_count_app.
    destruct (decide (l0 = l)) as [->|Hne].
    + rewrite Hnone. destruct rest; unfold service_count; simpl;
        try destruct (l =? l)%nat; simpl; lia.
    + pose proof (service_count_tail l0 _ _ (Hcount l0)).
      assert (service_count l0 (match rest with
                                | [] => []
                                | next :: _ => [BeginCheckoutEvent t next l]
                                end) = 0).
      { destruct rest; [reflexivity|]. unfold service_count. simpl.
        destruct (l0 =? l)%nat eqn:Heq; [apply Nat.eqb_eq in Heq; contradiction|].
        reflexivity. }
      lia.
  - intros l0 line0 c0 Hl0 Hc0. apply Hmono. simpl in Hl0.
    apply insert_lookup_cases in Hl0 as [[-> ->]|[_ Hl0]].
    + apply (Hq l line c0 Hline). rewrite Hqueue. right. exact Hc0.
    + eapply Hq; eassumption.
  - intros l0 line0 c0 Hl0 Hc0. simpl in Hl0.
    apply insert_lookup_cases in Hl0 as [[-> ->]|[_ Hl0]].
    + simpl in Hc0. apply elem_of_app in Hc0 as [Hc0|Hc0].
      * eapply fully_stamped_mono; [exact Hmono|]. eapply Hs; eassumption.
      * apply list_elem_of_singleton in Hc0 as ->.
        assert (Hj : has_stamp w ByJoin c).
        { apply (Hq l line c Hline). rewrite Hqueue. left. }
        destruct Hj as (c1 & j & Hc1 & Hj). destruct Hbegun as (c2 & b & Hc2 & Hb).
        assert (c1 = cu) as -> by congruence. assert (c2 = cu) as -> by congruence.
        simpl in Hj, Hb.
        exists (Customer.set_finish_timestamp t cu), j, b, t. simpl.
        split; [apply list_lookup_insert_eq; eapply lookup_lt_Some; eassumption|].
        auto.
    + eapply fully_stamped_mono; [exact Hmono|]. eapply Hs; eassumption.
Qed.

Lemma service_count_zero_intro (l : lref) (evs : list Event) :
  (forall e, e ∈ evs -> serves l e = false) -> service_count l evs = 0.
Proof.
  unfold service_count. induction evs as [|x evs IH]; intros H; [reflexivity|].
  cbn [List.filter]. rewrite (H x) by left. apply IH.
  intros e He. apply H. right. assumption.
Qed.

Lemma serves_head_of (w : World) (l : lref) (e : Event) :
  serves l e = true -> event_ok w e -> exists c, head_of w l c.
Proof.
  destruct e as [t c l'|t c l'|t c|t l'|t l']; simpl; try discriminate.
  - intros Heq H. apply Nat.eqb_eq in Heq as ->. eauto.
  - intros Heq [H _]. apply Nat.eqb_eq in Heq as ->. eauto.
Qed.

Lemma invariant_join (g : Globals) (t : Z) (c : cref)
  (heap' : list Event) (w w' : World) (future_events : list Event) :
  engine_invariant (JoinCheckoutEvent t c :: heap') w ->
  JoinCheckoutEvent_do g t c w = Ok (w', future_events) ->
  engine_invariant (future_events ++ heap') w'.
Proof.
  intros (Hok & Hcount & Hq & Hs) Hdo.
  apply JoinCheckoutEvent_do_inv in Hdo as (l & Hdo).
  apply JoinCheckoutEvent_do_line_inv in Hdo
    as (cu & w2 & line & Hc & Hpick & Hline & _ & -> & ->).
  apply call_pick_checkout_line_spec in Hpick as (Hcs & Hls & _).
  simpl in Hcs, Hls. rewrite Hls in Hline.
  apply Forall_cons in Hok as [_ Hok].
  set (line' := CheckoutLine.mk (CheckoutLine.id line) (CheckoutLine.type line)
                  (CheckoutLine.queue line ++ [c]) (CheckoutLine.served line)
                  (CheckoutLine.closed line)).
  assert (Hmono : forall f c', has_stamp w f c' -> has_stamp (set_line l line' w2) f c').
  { intros f c' H. unfold has_stamp. simpl. rewrite Hcs.
    eapply has_stamp_insert; [exact Hc | reflexivity | | exact H].
    intros f0 t0 Ht0. destruct f0; simpl in *; eauto. }
  assert (Hl : l < length (GroceryStore.lines (store w)))
    by (eapply lookup_lt_Some; eassumption).
  assert (Hlines' : GroceryStore.lines (store (set_line l line' w2))
                    = <[l := line']> (GroceryStore.lines (store w)))
    by (simpl; rewrite Hls; reflexivity).
  assert (Hhead : forall l0 c0, head_of w l0 c0 -> head_of (set_line l line' w2) l0 c0).
  { intros l0 c0 (line0 & Hline0 & Hhd). unfold head_of. rewrite Hlines'.
    destruct (decide (l0 = l)) as [->|Hne].
    - assert (line0 = line) as -> by congruence.
      exists line'. split; [apply list_lookup_insert_eq; assumption|].
      simpl. destruct (CheckoutLine.queue line); [discriminate|exact Hhd].
    - exists line0. split; [|assumption].
      rewrite list_lookup_insert_ne by congruence. assumption. }
  assert (Hok' : Forall (event_ok (set_line l line' w2)) heap').
  { eapply engine_invariant_frame; [exact Hmono | | exact Hok].
    intros e l0 c0 _ _. apply Hhead. }
  split; [|split; [|split]].
  - apply Forall_app. split; [|exact Hok'].
    destruct (CheckoutLine.is_empty line) eqn:Hempty; [|constructor].
    apply Forall_cons. split; [|constructor].
    apply is_empty_queue in Hempty.
    unfold event_ok, head_of. exists line'. rewrite Hlines'.
    split; [apply list_lookup_insert_eq; assumption|].
    simpl. rewrite Hempty. reflexivity.
  - intros l0. rewrite service_count_app.
    pose proof (service_count_tail l0 _ _ (Hcount l0)) as Htail.
    destruct (CheckoutLine.is_empty line) eqn:Hempty; [|simpl; exact Htail].
    apply is_empty_queue in Hempty.
    unfold service_count at 1. simpl.
    destruct (l0 =? l)%nat eqn:Heq; [|simpl; exact Htail].
    apply Nat.eqb_eq in Heq as ->. simpl.
    rewrite service_count_zero_intro; [lia|].
    intros e He. destruct (serves l e) eqn:Hserves; [|reflexivity].
    rewrite Forall_forall in Hok.
    destruct (serves_head_of w l e Hserves (Hok e He)) as (c0 & line0 & Hline0 & Hhd).
    assert (line0 = line) as -> by congruence.
    rewrite Hempty in Hhd. discriminate.
  - intros l0 line0 c0 Hl0 Hc0. rewrite Hlines' in Hl0.
    apply insert_lookup_cases in Hl0 as [[-> ->]|[_ Hl0]].
    + simpl in Hc0. apply elem_of_app in Hc0 as [Hc0|Hc0].
      * apply Hmono. eapply Hq; eassumption.
      * apply list_elem_of_singleton in Hc0 as ->.
        exists (Customer.set_join_timestamp t cu), t. simpl. rewrite Hcs.
        split; [|reflexivity].
        apply list_lookup_insert_eq. eapply lookup_lt_Some; eassumption.
    + apply Hmono. eapply Hq; eassumption.
  - intros l0 line0 c0 Hl0 Hc0. rewrite Hlines' in Hl0.
    eapply fully_stamped_mono; [exact Hmono|].
    apply insert_lookup_cases in Hl0 as [[-> ->]|[_ Hl0]].
    + eapply Hs; eassumption.
    + eapply Hs; eassumption.
Qed.

Lemma invariant_flag (l : lref) (line : CheckoutLine.t) (flag : bool)
  (e : Event) (heap' : list Event) (w : World) :
  GroceryStore.lines (store w) !! l = Some line ->
  engine_invariant (e :: heap') w ->
  engine_invariant heap'
    (set_line l (CheckoutLine.mk (CheckoutLine.id line) (CheckoutLine.type line)
                   (CheckoutLine.queue line) (CheckoutLine.served line) flag) w).
Proof.
  intros Hline (Hok & Hcount & Hq & Hs).
  apply Forall_cons in Hok as [_ Hok].
  set (line' := CheckoutLine.mk _ _ _ _ flag).
  assert (Hl : l < length (GroceryStore.lines (store w)))
    by (eapply lookup_lt_Some; eassumption).
  split; [|split; [|split]].
  - eapply engine_invariant_frame; [| |exact Hok].
    + intros f c H. exact H.
    + intros e0 l0 c0 _ _ (line0 & Hline0 & Hhd). unfold head_of. simpl.
      destruct (decide (l0 = l)) as [->|Hne].
      * assert (line0 = line) as -> by congruence.
        exists line'. split; [apply list_lookup_insert_eq; assumption|exact Hhd].
      * exists line0. split; [|assumption].
        rewrite list_lookup_insert_ne by congruence. assumption.
  - intros l0. eapply service_count_tail. apply Hcount.
  - intros l0 line0 c0 Hl0 Hc0. simpl in Hl0.
    apply insert_lookup_cases in Hl0 as [[-> ->]|[_ Hl0]];
      (change (has_stamp w ByJoin c0); eapply Hq; eassumption).
  - intros l0 line0 c0 Hl0 Hc0. simpl in Hl0.
    apply insert_lookup_cases in Hl0 as [[-> ->]|[_ Hl0]];
      (change (fully_stamped w c0); eapply Hs; eassumption).
Qed.

Lemma engine_invariant_event (g : Globals) (e : Event) (heap' : list Event)
  (w w' : World) (future_events : list Event) :
  engine_invariant (e :: heap') w ->
  Event_do g e w = Ok (w', future_events) ->
  engine_invariant (future_events ++ heap') w'.
Proof.
  intros Hinv Hdo. destruct e as [t c l|t c l|t c|t l|t l]; simpl in Hdo.
  - eapply invariant_begin; eassumption.
  - eapply invariant_finish; eassumption.
  - eapply invariant_join; eassumption.
  - apply LineOpenEvent_do_inv in Hdo as (line & Hline & -> & ->).
    eapply invariant_flag; eassumption.
  - apply LineCloseEvent_do_inv in Hdo as (line & Hline & -> & ->).
    eapply invariant_flag; eassumption.
Qed.

Lemma engine_exec_invariant (g : Globals) conf evs conf' :
  engine_exec g conf evs conf' ->
  engine_invariant (fst conf) (snd conf) ->
  engine_invariant (fst conf') (snd conf').
Proof.
  induction 1 as [conf|heap w e heap' w' fut evs conf' Hpop Hdo Hexec IH]; intros Hinv.
  - assumption.
  - apply IH. simpl in *.
    apply (engine_invariant_perm (fut ++ heap')); [symmetry; apply fold_heappush_perm|].
    eapply engine_invariant_event; [|eassumption].
    eapply engine_invariant_perm; [apply heappop_perm; eassumption | assumption].
Qed.

Lemma create_event_loop_initial (st : GroceryStore.t) (text : list string) :
  forall idx events customers id events' customers',
    Forall (fun e => is_initial_event e = true) events ->
    create_event_loop st idx text events customers id = Ok (events', customers') ->
    Forall (fun e => is_initial_event e = true) events'.
Proof.
  induction text as [|line text IH];
    intros idx events customers id events' customers' Hev H; simpl in H.
  - injection H as <- <-. assumption.
  - destruct (parse_event_line customers st id line) as [[[ev cs1] id1]|] eqn:Hp;
      [|discriminate].
    eapply IH; [|exact H]. apply Forall_app. split; [assumption|].
    apply Forall_cons. split; [|constructor].
    unfold parse_event_line in Hp.
    destruct (split "," line) as [|f1 [|f2 [|f3 [|]]]]; try discriminate.
    destruct (py_int f1) as [ts|]; simpl in Hp; [|discriminate].
    destruct (py_int f3) as [param|]; simpl in Hp; [|discriminate].
    destruct (String.eqb f2 "join").
    + injection Hp as <- <- <-. reflexivity.
    + destruct (String.eqb f2 "open" || String.eqb f2 "close"); [|discriminate].
      destruct (find_line_by_id param 0 (GroceryStore.lines st)); simpl in Hp;
        [|discriminate].
      destruct (String.eqb f2 "open"); injection Hp as <- <- <-; reflexivity.
Qed.

Lemma initial_conf_invariant (line_counts : list (string * Z)) (text : string) conf0 :
  initial_conf (Simulator__init__ line_counts) text = Ok conf0 ->
  engine_invariant (fst conf0) (snd conf0).
Proof.
  unfold initial_conf. intros H.
  destruct (create_event_list text _) as [[evs w0]|] eqn:Hc; simpl in H; [|discriminate].
  injection H as <-. simpl.
  pose proof (create_event_list_inv _ _ _ _ Hc) as (Hst & _).
  assert (Hinit : Forall (fun e => is_initial_event e = true) evs).
  { unfold create_event_list in Hc.
    destruct (create_event_loop _ _ _ _ _ _) as [[events cs]|] eqn:Hloop;
      simpl in Hc; [|discriminate].
    injection Hc as <- <-.
    eapply create_event_loop_initial; [|exact Hloop]. constructor. }
  pose proof (GroceryStore_init_fresh line_counts) as (_ & _ & Hfresh).
  apply (engine_invariant_perm (evs ++ [])); [symmetry; apply fold_heappush_perm|].
  rewrite app_nil_r. rewrite Forall_forall in Hinit.
  split; [|split; [|split]].
  - apply Forall_forall. intros e He. specialize (Hinit e He).
    destruct e; try discriminate; exact I.
  - intros l. rewrite service_count_zero_intro; [lia|].
    intros e He. specialize (Hinit e He). destruct e; try discriminate; reflexivity.
  - intros l line c Hl Hin. rewrite Hst in Hl. simpl in Hl.
    destruct (Hfresh l line Hl) as (_ & Hq & _). rewrite Hq in Hin.
    apply elem_of_nil in Hin. contradiction.
  - intros l line c Hl Hin. rewrite Hst in Hl. simpl in Hl.
    destruct (Hfresh l line Hl) as (_ & _ & Hs & _). rewrite Hs in Hin.
    apply elem_of_nil in Hin. contradiction.
Qed.

(** After a completed run every served customer carries its three
    timestamps. *)
Lemma run_served_fully_stamped (fuel : nat) (g : Globals)
  (line_counts : list (string * Z)) (text : string) (sim : Simulator) :
  run fuel g (Simulator__init__ line_counts) text = Some (Ok sim) ->
  forall line_ids c,
    c ∈ spec_served_on (world sim) line_ids -> fully_stamped (world sim) c.
Proof.
  intros Hrun line_ids c Hc.
  apply run_inv in Hrun as (_ & _ & _ & conf0 & evs & Hinit & Hexec).
  apply initial_conf_invariant in Hinit.
  pose proof (engine_exec_invariant g _ _ _ Hexec Hinit) as (_ & _ & _ & Hs).
  simpl in Hs. unfold spec_served_on in Hc.
  apply list_elem_of_In, in_flat_map in Hc as (line & Hline & Hc).
  apply list_elem_of_In, list_elem_of_lookup in Hline as [l Hl].
  destruct (line_selected line_ids line); [|contradiction].
  apply (Hs l line c Hl). apply list_elem_of_In. assumption.
Qed.

(** In every configuration a run goes through, a FinishCheckout event waiting
    in the queue is for the customer at the head of its line. *)
Lemma run_finish_events_for_head (g : Globals) (line_counts : list (string * Z))
  (text : string) conf0 evs heap w t c l :
  initial_conf (Simulator__init__ line_counts) text = Ok conf0 ->
  engine_exec g conf0 evs (heap, w) ->
  FinishCheckoutEvent t c l ∈ heap ->
  exists line rest,
    GroceryStore.lines (store w) !! l = Some line
    /\ CheckoutLine.queue line = c :: rest
    /\ is_Some (customers w !! c).
Proof.
  intros Hinit Hexec Hin.
  apply initial_conf_invariant in Hinit.
  pose proof (engine_exec_invariant g _ _ _ Hexec Hinit) as (Hok & _).
  simpl in Hok. rewrite Forall_forall in Hok.
  destruct (Hok _ Hin) as [(line & Hline & Hhead) (customer & b & Hc & _)].
  destruct (CheckoutLine.queue line) as [|c0 rest] eqn:Hq; [discriminate|].
  injection Hhead as ->. exists line, rest. rewrite Hc. eauto.
Qed.




(** ** An empty selection, after a run *)

(** C9: when the query retains no customer it returns no summary at all, not
    a zero-count one: taking the minimum of the empty array of values raises
    an error.  So it is when no customer was served on the selected lines and
    when no served customer falls into the time window. *)
Theorem C9_empty_selection_raises (self : Simulator) (criterion : string)
  (start_time end_time : option Z) (line_ids : option (list Z)) (filter_by : string) :
  _finished self = true ->
  (retained_customers (world self)
     (match start_time with None => 0%Z | Some s => s end) end_time line_ids filter_by
   = Ok [] ->
   query_statistics self criterion start_time end_time line_ids filter_by
   = Raise ValueError_zero_size_reduction)
  /\ (spec_served_on (world self) line_ids = [] ->
      query_statistics self criterion start_time end_time line_ids filter_by
      = Raise ValueError_zero_size_reduction)
  /\ (forall f,
        filter_by = field_name f ->
        (forall c, c ∈ spec_served_on (world self) line_ids ->
                   fully_stamped (world self) c) ->
        spec_retained (world self) f start_time end_time line_ids = [] ->
        query_statistics self criterion start_time end_time line_ids filter_by
        = Raise ValueError_zero_size_reduction)
  /\ (forall fuel g line_counts text f,
        run fuel g (Simulator__init__ line_counts) text = Some (Ok self) ->
        filter_by = field_name f ->
        spec_retained (world self) f start_time end_time line_ids = [] ->
        query_statistics self criterion start_time end_time line_ids filter_by
        = Raise ValueError_zero_size_reduction)
  /\ np_min [] = Raise ValueError_zero_size_reduction
  /\ np_max [] = Raise ValueError_zero_size_reduction.
Proof.
  intros Hfin.
  assert (Hgen : retained_customers (world self)
                   (match start_time with None => 0%Z | Some s => s end)
                   end_time line_ids filter_by = Ok [] ->
                 query_statistics self criterion start_time end_time line_ids filter_by
                 = Raise ValueError_zero_size_reduction).
  { intros Hret. unfold query_statistics. rewrite Hfin. simpl. rewrite Hret.
    reflexivity. }
  split; [exact Hgen|]. split; [|split; [|split; [|split; reflexivity]]].
  - intros Hnone. apply Hgen. apply retained_nothing_served. assumption.
  - intros f -> Hst Hnone. apply Hgen.
    rewrite retained_customers_spec by assumption. rewrite Hnone. reflexivity.
  - intros fuel g line_counts text f Hrun -> Hnone. apply Hgen.
    rewrite retained_customers_spec
      by (eapply run_served_fully_stamped; exact Hrun).
    rewrite Hnone. reflexivity.
Qed.

Lemma C9_empty_selection_raises_witness :
  query_statistics sample_finished_simulator "wait" (Some 100%Z) None None "join"
  = Raise ValueError_zero_size_reduction
  /\ query_statistics sample_finished_simulator "wait" None None (Some [7%Z]) "join"
     = Raise ValueError_zero_size_reduction.
Proof.
  destruct (C9_empty_selection_raises sample_finished_simulator "wait"
              (Some 100%Z) None None "join" eq_refl) as (H1 & _).
  destruct (C9_empty_selection_raises sample_finished_simulator "wait"
              None None (Some [7%Z]) "join" eq_refl) as (_ & H2 & _).
  split; [apply H1 | apply H2]; reflexivity.
Defined.

(** * Further properties

    ** The loop of [run] terminates *)

















(** ** The text of the initial events *)

Lemma parse_event_line_inv (cs : list Customer.t) (st : GroceryStore.t) (id : Z)
  (line : string) (ev : Event) (cs' : list Customer.t) (id' : Z) :
  parse_event_line cs st id line = Some (ev, cs', id') ->
  line_timestamp line = Some (timestamp ev)
  /\ is_initial_event ev = true
  /\ ((exists t n, ev = JoinCheckoutEvent t (length cs)
                   /\ cs' = cs ++ [Customer.__init__ id n] /\ id' = (id + 1)%Z)
      \/ (arriving [ev] = [] /\ cs' = cs /\ id' = id)).
Proof.
  unfold parse_event_line, line_timestamp. intros Hp.
  destruct (split "," line) as [|f1 [|f2 [|f3 [|]]]]; try discriminate.
  destruct (py_int f1) as [ts|]; simpl in Hp; [|discriminate].
  destruct (py_int f3) as [param|]; simpl in Hp; [|discriminate].
  destruct (String.eqb f2 "join").
  - injection Hp as <- <- <-. simpl. split; [reflexivity|]. split; [reflexivity|].
    left. exists ts, param. auto.
  - destruct (String.eqb f2 "open" || String.eqb f2 "close"); [|discriminate].
    destruct (find_line_by_id param 0 (GroceryStore.lines st)); simpl in Hp;
      [|discriminate].
    destruct (String.eqb f2 "open"); injection Hp as <- <- <-; simpl;
      (split; [reflexivity|]; split; [reflexivity|]; right; auto).
Qed.


Lemma arriving_app (evs evs' : list Event) :
  arriving (evs ++ evs') = arriving evs ++ arriving evs'.
Proof. apply flat_map_app. Qed.

Lemma create_event_loop_spec (st : GroceryStore.t) (text : list string) :
  forall idx events cs id events' cs',
    create_event_loop st idx text events cs id = Ok (events', cs') ->
    exists evs new,
      events' = events ++ evs /\ cs' = cs ++ new
      /\ Forall2 (fun line e => line_timestamp line = Some (timestamp e)) text evs
      /\ arriving evs = seq (length cs) (length new)
      /\ forall k cu, new !! k = Some cu ->
                      exists n, cu = Customer.__init__ (id + Z.of_nat k) n.
Proof.
  induction text as [|line text IH]; intros idx events cs id events' cs' H; simpl in H.
  - injection H as <- <-. exists [], []. rewrite !app_nil_r.
    repeat split; [constructor|]. intros k cu Hk. rewrite lookup_nil in Hk. discriminate.
  - destruct (parse_event_line cs st id line) as [[[ev cs1] id1]|] eqn:Hp;
      [|discriminate].
    apply IH in H as (evs & new & -> & -> & Hts & Harr & Hnew).
    apply parse_event_line_inv in Hp as (Ht & _ & [(t & n & -> & -> & ->)|(Hno & -> & ->)]).
    + exists (JoinCheckoutEvent t (length cs) :: evs), (Customer.__init__ id n :: new).
      rewrite <- !app_assoc. split; [reflexivity|]. split; [reflexivity|].
      split; [constructor; assumption|]. split.
      * change (arriving (JoinCheckoutEvent t (length cs) :: evs))
          with (length cs :: arriving evs).
        rewrite Harr, length_app. simpl. rewrite Nat.add_1_r. reflexivity.
      * intros [|k] cu Hk; simpl in Hk.
        -- injection Hk as <-. exists n. rewrite Z.add_0_r. reflexivity.
        -- destruct (Hnew k cu Hk) as [n' ->]. exists n'. f_equal. lia.
    + exists (ev :: evs), new.
      rewrite <- !app_assoc. split; [reflexivity|]. split; [reflexivity|].
      split; [constructor; assumption|]. split; [|assumption].
      change (ev :: evs) with ([ev] ++ evs). rewrite arriving_app, Hno. exact Harr.
Qed.

Lemma create_event_list_new_customers (text : string) (w w' : World)
  (evs : list Event) :
  create_event_list text w = Ok (evs, w') ->
  Forall (fun e => is_initial_event e = true) evs
  /\ store w' = store w
  /\ exists new,
       customers w' = customers w ++ new
       /\ arriving evs = seq (length (customers w)) (length new)
       /\ forall k cu, new !! k = Some cu ->
                       exists n, cu = Customer.__init__ (Z.of_nat k) n.
Proof.
  unfold create_event_list. intros H.
  destruct (create_event_loop _ _ _ _ _ _) as [[events cs]|] eqn:Hloop; simpl in H;
    [|discriminate].
  injection H as <- <-. cbn [store customers].
  pose proof (create_event_loop_initial _ _ _ _ _ _ _ _ (List.Forall_nil _) Hloop) as Hinit.
  apply create_event_loop_spec in Hloop as (evs & new & -> & -> & _ & Harr & Hnew).
  split; [exact Hinit|]. split; [reflexivity|].
  exists new. split; [reflexivity|]. split; [exact Harr|exact Hnew].
Qed.

(** X2. When [create_event_list] succeeds it has made one event for each line
    of the stripped text, in the order of the text and with the timestamp of
    its line; the customers it has created are numbered 0, 1, 2, ... in the
    order of their lines, carry no timestamp yet, and are the customers of the
    join events, one each. *)
Theorem create_event_list_spec (text : string) (w w' : World) (evs : list Event) :
  create_event_list text w = Ok (evs, w') ->
  Forall2 (fun line e => line_timestamp line = Some (timestamp e)) (text_lines text) evs
  /\ Forall (fun e => is_initial_event e = true) evs
  /\ store w' = store w
  /\ exists new,
       customers w' = customers w ++ new
       /\ arriving evs = seq (length (customers w)) (length new)
       /\ forall k cu, new !! k = Some cu ->
                       exists n, cu = Customer.__init__ (Z.of_nat k) n.
Proof.
  unfold create_event_list, text_lines. intros H.
  destruct (create_event_loop _ _ _ _ _ _) as [[events cs]|] eqn:Hloop; simpl in H;
    [|discriminate].
  injection H as <- <-. cbn [store customers].
  pose proof (create_event_loop_initial _ _ _ _ _ _ _ _ (List.Forall_nil _) Hloop) as Hinit.
  apply create_event_loop_spec in Hloop as (evs & new & -> & -> & Hts & Harr & Hnew).
  split; [exact Hts|]. split; [exact Hinit|]. split; [reflexivity|].
  exists new. split; [reflexivity|]. split; [exact Harr|exact Hnew].
Qed.

Lemma create_event_list_spec_witness :
  Forall2 (fun line e => line_timestamp line = Some (timestamp e))
    (text_lines text_3_then_5) [JoinCheckoutEvent 0 0; JoinCheckoutEvent 0 1].
Proof.
  refine (proj1 (create_event_list_spec text_3_then_5 (fresh_world two_line_config)
                   {| customers := [Customer.__init__ 0 3; Customer.__init__ 1 5];
                      store := GroceryStore.__init__ two_line_config; rng_calls := 0 |}
                   [JoinCheckoutEvent 0 0; JoinCheckoutEvent 0 1] _)).
  vm_compute. reflexivity.
Defined.





(** ** What one event does *)

Lemma Event_do_effect (g : Globals) (e : Event) (w w' : World)
  (future_events : list Event) :
  Event_do g e w = Ok (w', future_events) ->
  customers_effect e (customers w) (customers w')
  /\ GroceryStore.total_lines (store w') = GroceryStore.total_lines (store w)
  /\ exists l line line',
       GroceryStore.lines (store w) !! l = Some line
       /\ GroceryStore.lines (store w') = <[l := line']> (GroceryStore.lines (store w))
       /\ line_effect l line e line' future_events.
Proof.
  intros Hdo. destruct e as [t c l|t c l|t c|t l|t l]; simpl in Hdo.
  - apply BeginCheckoutEvent_do_inv in Hdo as (cu & line & d & Hc & Hl & _ & -> & ->).
    unfold customers_effect. cbn [stamp customers store].
    split; [eauto|]. split; [reflexivity|].
    exists l, line, line. split; [assumption|].
    split; [symmetry; apply list_insert_id; assumption|constructor].
  - apply FinishCheckoutEvent_do_inv in Hdo
      as (cu & line & hd & rest & Hc & Hl & Hq & -> & ->).
    unfold customers_effect. cbn [stamp customers store GroceryStore.lines
                                    GroceryStore.total_lines].
    split; [eauto|]. split; [reflexivity|].
    exists l, line. eexists. split; [assumption|]. split; [reflexivity|].
    destruct rest as [|next rest]; econstructor; eassumption.
  - apply JoinCheckoutEvent_do_inv in Hdo as (l & Hdo).
    apply JoinCheckoutEvent_do_line_inv in Hdo
      as (cu & w2 & line & Hc & Hpick & Hl & Hopen & -> & ->).
    apply call_pick_checkout_line_spec in Hpick as (Hcs & Hls & Htot & _).
    cbn [customers store] in Hcs, Hls, Htot.
    unfold customers_effect, set_line, set_lines.
    cbn [stamp customers store GroceryStore.lines GroceryStore.total_lines].
    rewrite Hcs, Hls, Htot. rewrite Hls in Hl.
    split; [eauto|]. split; [reflexivity|].
    exists l, line. eexists. split; [assumption|]. split; [reflexivity|].
    destruct (CheckoutLine.is_empty line) eqn:Hempty.
    + apply is_empty_queue in Hempty. rewrite Hempty. simpl.
      apply effect_join_first; assumption.
    + apply effect_join_behind; [|assumption].
      intros Hq. apply is_empty_queue in Hq. congruence.
  - apply LineOpenEvent_do_inv in Hdo as (line & Hl & -> & ->).
    unfold customers_effect, set_line, set_lines.
    cbn [stamp customers store GroceryStore.lines GroceryStore.total_lines].
    split; [reflexivity|]. split; [reflexivity|].
    exists l, line. eexists. split; [assumption|]. split; [reflexivity|constructor].
  - apply LineCloseEvent_do_inv in Hdo as (line & Hl & -> & ->).
    unfold customers_effect, set_line, set_lines.
    cbn [stamp customers store GroceryStore.lines GroceryStore.total_lines].
    split; [reflexivity|]. split; [reflexivity|].
    exists l, line. eexists. split; [assumption|]. split; [reflexivity|constructor].
Qed.

(** An invariant of the events waiting and the world is kept by the loop of
    [run] when it does not depend on the order of the priority queue and every
    event keeps it. *)
Lemma engine_exec_preserves (Inv : list Event -> World -> Prop) (g : Globals) :
  (forall evs evs' w, evs ≡ₚ evs' -> Inv evs w -> Inv evs' w) ->
  (forall e heap' w w' future_events,
     Inv (e :: heap') w -> Event_do g e w = Ok (w', future_events) ->
     Inv (future_events ++ heap') w') ->
  forall conf evs conf',
    engine_exec g conf evs conf' ->
    Inv (fst conf) (snd conf) -> Inv (fst conf') (snd conf').
Proof.
  intros Hperm Hstep conf evs conf' Hexec.
  induction Hexec as [conf|heap w e heap' w' fut evs conf' Hpop Hdo Hexec IH];
    intros Hinv; [assumption|].
  apply IH. cbn [fst snd] in *.
  apply (Hperm (fut ++ heap')); [symmetry; apply fold_heappush_perm|].
  eapply Hstep; [|eassumption].
  eapply Hperm; [apply heappop_perm; eassumption|assumption].
Qed.

(** ** Nobody is lost *)

Lemma count_flat_map_insert {A : Type} (f : A -> list nat) (ls : list A) (l : nat)
  (a a' : A) (x : nat) :
  ls !! l = Some a ->
  count_occ Nat.eq_dec (flat_map f (<[l := a']> ls)) x + count_occ Nat.eq_dec (f a) x
  = count_occ Nat.eq_dec (flat_map f ls) x + count_occ Nat.eq_dec (f a') x.
Proof.
  revert l. induction ls as [|b ls IH]; intros l Hl; [discriminate|].
  destruct l as [|l]; simpl in *; rewrite !count_occ_app.
  - injection Hl as ->. lia.
  - specialize (IH l Hl). lia.
Qed.

Lemma arriving_perm (evs evs' : list Event) :
  evs ≡ₚ evs' -> arriving evs ≡ₚ arriving evs'.
Proof. apply Permutation_flat_map. Qed.

Lemma everybody_accounted_perm (evs evs' : list Event) (w : World) :
  evs ≡ₚ evs' -> everybody_accounted evs w -> everybody_accounted evs' w.
Proof.
  unfold everybody_accounted. intros Hp H. rewrite <- (arriving_perm _ _ Hp). exact H.
Qed.

Lemma customers_effect_length (e : Event) (cs cs' : list Customer.t) :
  customers_effect e cs cs' -> length cs' = length cs.
Proof.
  unfold customers_effect. destruct (stamp e) as [[c f]|].
  - intros (cu & _ & ->). apply length_insert.
  - intros ->. reflexivity.
Qed.

Lemma everybody_accounted_event (g : Globals) (e : Event) (heap' : list Event)
  (w w' : World) (future_events : list Event) :
  everybody_accounted (e :: heap') w ->
  Event_do g e w = Ok (w', future_events) ->
  everybody_accounted (future_events ++ heap') w'.
Proof.
  unfold everybody_accounted. intros Hinv Hdo.
  apply Event_do_effect in Hdo as (Hcs & _ & l & line & line' & Hl & -> & Heff).
  rewrite (customers_effect_length _ _ _ Hcs).
  rewrite <- Hinv. apply (Permutation_count_occ Nat.eq_dec). intros x.
  pose proof (count_flat_map_insert CheckoutLine.queue _ l line line' x Hl) as Hq.
  pose proof (count_flat_map_insert CheckoutLine.served _ l line line' x Hl) as Hs.
  fold (waiting (<[l := line']> (GroceryStore.lines (store w)))) in Hq.
  fold (waiting (GroceryStore.lines (store w))) in Hq.
  fold (served_customers (<[l := line']> (GroceryStore.lines (store w)))) in Hs.
  fold (served_customers (GroceryStore.lines (store w))) in Hs.
  change (e :: heap') with ([e] ++ heap').
  rewrite !arriving_app, !count_occ_app.
  destruct Heff as [t c d|t c hd Hqueue|t c hd next rest Hqueue|t c Hqueue Hopen
                   |t c Hqueue Hopen|t|t];
    cbn [CheckoutLine.queue CheckoutLine.served CheckoutLine.open CheckoutLine.close] in Hq, Hs;
    try rewrite Hqueue in Hq; try rewrite count_occ_app in Hq;
    try rewrite count_occ_app in Hs;
    cbn [arriving flat_map app count_occ] in *;
    repeat destruct (Nat.eq_dec _ x); lia.
Qed.

Lemma lines_busy_perm (evs evs' : list Event) (w : World) :
  evs ≡ₚ evs' -> lines_busy evs w -> lines_busy evs' w.
Proof.
  intros Hp H l line Hl Hq. rewrite <- (service_count_perm l _ _ Hp). eapply H; eassumption.
Qed.

Lemma service_count_cons (l : lref) (e : Event) (evs : list Event) :
  service_count l (e :: evs) = (if serves l e then 1 else 0) + service_count l evs.
Proof. unfold service_count. simpl. destruct (serves l e); reflexivity. Qed.

Lemma lines_busy_event (g : Globals) (e : Event) (heap' : list Event)
  (w w' : World) (future_events : list Event) :
  lines_busy (e :: heap') w ->
  Event_do g e w = Ok (w', future_events) ->
  lines_busy (future_events ++ heap') w'.
Proof.
  intros Hinv Hdo l0 line0 Hl0 Hq0.
  apply Event_do_effect in Hdo as (_ & _ & l & line & line' & Hl & Hls & Heff).
  rewrite Hls in Hl0. apply insert_lookup_cases in Hl0 as [[-> ->]|[Hne Hl0]].
  - (* the line the event works on *)
    destruct Heff as [t c d|t c hd Hqueue|t c hd next rest Hqueue|t c Hqueue Hopen
                     |t c Hqueue Hopen|t|t];
      cbn [CheckoutLine.queue CheckoutLine.open CheckoutLine.close app] in *;
      rewrite ?service_count_cons; cbn [serves]; rewrite ?Nat.eqb_refl; try lia;
      try congruence.
    + specialize (Hinv l line Hl Hqueue). rewrite service_count_cons in Hinv.
      cbn [serves] in Hinv. lia.
    + specialize (Hinv l line Hl Hq0). rewrite service_count_cons in Hinv.
      cbn [serves] in Hinv. lia.
    + specialize (Hinv l line Hl Hq0). rewrite service_count_cons in Hinv.
      cbn [serves] in Hinv. lia.
  - (* another line *)
    specialize (Hinv l0 line0 Hl0 Hq0). rewrite service_count_cons in Hinv.
    rewrite service_count_app.
    destruct Heff; cbn [serves] in Hinv; rewrite ?service_count_cons;
      cbn [serves service_count List.filter length];
      try (apply Nat.eqb_neq in Hne; rewrite ?Hne in *); lia.
Qed.

Lemma flat_map_nil_all {A B : Type} (f : A -> list B) (ls : list A) :
  (forall a, a ∈ ls -> f a = []) -> flat_map f ls = [].
Proof.
  induction ls as [|a ls IH]; intros H; [reflexivity|].
  simpl. rewrite (H a) by apply list_elem_of_here.
  apply IH. intros b Hb. apply H, list_elem_of_further, Hb.
Qed.

Lemma fresh_lines_nobody (ls : list CheckoutLine.t) :
  fresh_lines ls -> waiting ls = [] /\ served_customers ls = [].
Proof.
  intros Hfresh. split; apply flat_map_nil_all; intros line Hin;
    apply list_elem_of_lookup in Hin as [i Hi]; apply (Hfresh i line Hi).
Qed.

Lemma initial_conf_inv (line_counts : list (string * Z)) (text : string) conf0 :
  initial_conf (Simulator__init__ line_counts) text = Ok conf0 ->
  exists evs w0,
    create_event_list text (fresh_world line_counts) = Ok (evs, w0)
    /\ conf0 = (fold_left heappush evs [], w0)
    /\ fst conf0 ≡ₚ evs.
Proof.
  unfold initial_conf, fresh_world. intros H.
  destruct (create_event_list text _) as [[evs w0]|] eqn:Hc; simpl in H; [|discriminate].
  injection H as <-. exists evs, w0. split; [reflexivity|]. split; [reflexivity|].
  cbn [fst]. rewrite fold_heappush_perm, app_nil_r. reflexivity.
Qed.

Lemma initial_conf_accounted (line_counts : list (string * Z)) (text : string) conf0 :
  initial_conf (Simulator__init__ line_counts) text = Ok conf0 ->
  everybody_accounted (fst conf0) (snd conf0) /\ lines_busy (fst conf0) (snd conf0).
Proof.
  intros H. apply initial_conf_inv in H as (evs & w0 & Hc & -> & Hperm).
  cbn [fst snd] in *.
  apply create_event_list_new_customers in Hc as (_ & Hst & new & Hcs & Harr & _).
  pose proof (GroceryStore_init_fresh line_counts) as (_ & _ & Hfresh).
  unfold fresh_world in *. cbn [world Simulator__init__ customers store] in *.
  split.
  - apply (everybody_accounted_perm evs); [symmetry; exact Hperm|].
    unfold everybody_accounted. rewrite Hst.
    destruct (fresh_lines_nobody _ Hfresh) as [-> ->].
    rewrite !app_nil_r, Harr, Hcs. reflexivity.
  - intros l line Hl Hq. rewrite Hst in Hl. destruct (Hfresh l line Hl) as (_ & Hempty & _).
    congruence.
Qed.

(** X4. After a completed run on a fresh simulator nobody waits on a line any
    more, and every customer of the text has been served exactly once, by
    exactly one line: the served lists of the lines, taken together, hold
    each customer once. *)
Theorem run_serves_everyone (fuel : nat) (g : Globals)
  (line_counts : list (string * Z)) (text : string) (self : Simulator) :
  run fuel g (Simulator__init__ line_counts) text = Some (Ok self) ->
  (forall line, line ∈ GroceryStore.lines (store (world self)) ->
                CheckoutLine.queue line = [])
  /\ served_customers (GroceryStore.lines (store (world self)))
     ≡ₚ seq 0 (length (customers (world self))).
Proof.
  intros Hrun. apply run_inv in Hrun as (_ & _ & Hempty & conf0 & evs & Hinit & Hexec).
  apply initial_conf_accounted in Hinit as [Hacc Hbusy].
  pose proof (engine_exec_preserves everybody_accounted g
                everybody_accounted_perm (everybody_accounted_event g) _ _ _ Hexec Hacc)
    as Hacc'.
  pose proof (engine_exec_preserves lines_busy g
                lines_busy_perm (lines_busy_event g) _ _ _ Hexec Hbusy) as Hbusy'.
  cbn [fst snd] in Hacc', Hbusy'. rewrite Hempty in Hacc', Hbusy'.
  assert (Hq : forall line, line ∈ GroceryStore.lines (store (world self)) ->
                            CheckoutLine.queue line = []).
  { intros line Hin. apply list_elem_of_lookup in Hin as [l Hl].
    destruct (CheckoutLine.queue line) as [|c rest] eqn:Hqueue; [reflexivity|].
    assert (Hne : CheckoutLine.queue line <> []) by (rewrite Hqueue; discriminate).
    specialize (Hbusy' l line Hl Hne). unfold service_count in Hbusy'. simpl in Hbusy'.
    lia. }
  split; [exact Hq|].
  unfold everybody_accounted in Hacc'. cbn [arriving flat_map app] in Hacc'.
  unfold waiting in Hacc'. rewrite (flat_map_nil_all _ _ Hq) in Hacc'. exact Hacc'.
Qed.

Lemma run_serves_everyone_witness :
  served_customers (GroceryStore.lines (store (world sample_finished_simulator)))
  ≡ₚ seq 0 (length (customers (world sample_finished_simulator))).
Proof.
  refine (proj2 (run_serves_everyone 6 (sample_globals LeastPerson) one_cashier_config text_3_then_5
                   sample_finished_simulator _)).
  vm_compute. reflexivity.
Defined.

(** ** First come, first served *)

Lemma line_moves_on_refl (line : CheckoutLine.t) : line_moves_on line line [].
Proof.
  unfold line_moves_on. rewrite app_nil_r. repeat split; reflexivity.
Qed.

Lemma line_moves_on_trans (a b c : CheckoutLine.t) (j1 j2 : list cref) :
  line_moves_on a b j1 -> line_moves_on b c j2 -> line_moves_on a c (j1 ++ j2).
Proof.
  intros (Hid1 & Hty1 & Hs1 & Hh1) (Hid2 & Hty2 & Hs2 & Hh2).
  split; [congruence|]. split; [congruence|].
  split; [etrans; eassumption|]. rewrite Hh2, Hh1, app_assoc. reflexivity.
Qed.

Lemma line_effect_moves_on (l : lref) (line line' : CheckoutLine.t) (e : Event)
  (future_events : list Event) :
  line_effect l line e line' future_events ->
  line_moves_on line line' (arriving [e]).
Proof.
  intros Heff. unfold line_moves_on, line_history.
  destruct Heff as [t c d|t c hd Hqueue|t c hd next rest Hqueue|t c Hqueue Hopen
                   |t c Hqueue Hopen|t|t];
    cbn [CheckoutLine.id CheckoutLine.type CheckoutLine.queue CheckoutLine.served
         CheckoutLine.open CheckoutLine.close arriving flat_map app];
    rewrite ?Hqueue, ?app_nil_r, <- ?app_assoc;
    (split; [reflexivity|]); (split; [reflexivity|]);
    (split; [try reflexivity; apply prefix_app_r; reflexivity|reflexivity]).
Qed.

(** X5. First come, first served.  While the loop of [run] executes the
    events [evs], a line keeps its id and its type; its served list only
    grows at the end; and the sequence of the customers it has taken (served,
    then waiting) only grows at the end, by customers whose join events were
    executed, in the order of their execution.  So nobody overtakes on a line
    and nobody leaves a line unserved. *)
Theorem first_come_first_served (g : Globals) conf evs conf' :
  engine_exec g conf evs conf' ->
  forall (l : lref) (line : CheckoutLine.t),
    GroceryStore.lines (store (snd conf)) !! l = Some line ->
    exists line' joined,
      GroceryStore.lines (store (snd conf')) !! l = Some line'
      /\ line_moves_on line line' joined
      /\ joined `sublist_of` arriving evs.
Proof.
  induction 1 as [conf|heap w e heap' w' fut evs conf' Hpop Hdo Hexec IH];
    intros l0 line0 Hl0.
  - exists line0, []. split; [assumption|]. split; [apply line_moves_on_refl|].
    apply sublist_nil_l.
  - cbn [fst snd] in *.
    apply Event_do_effect in Hdo as (_ & _ & l & line & line' & Hl & Hls & Heff).
    assert (Hstep : exists line1 j1,
               GroceryStore.lines (store w') !! l0 = Some line1
               /\ line_moves_on line0 line1 j1 /\ j1 `sublist_of` arriving [e]).
    { rewrite Hls. destruct (decide (l0 = l)) as [->|Hne].
      - rewrite list_lookup_insert_eq by (eapply lookup_lt_Some; eassumption).
        assert (line0 = line) as -> by congruence.
        exists line', (arriving [e]). split; [reflexivity|].
        split; [eapply line_effect_moves_on; eassumption|reflexivity].
      - rewrite list_lookup_insert_ne by congruence.
        exists line0, []. split; [assumption|]. split; [apply line_moves_on_refl|].
        apply sublist_nil_l. }
    destruct Hstep as (line1 & j1 & Hl1 & Hmove1 & Hsub1).
    destruct (IH l0 line1 Hl1) as (line2 & j2 & Hl2 & Hmove2 & Hsub2).
    exists line2, (j1 ++ j2). split; [assumption|].
    split; [eapply line_moves_on_trans; eassumption|].
    change (e :: evs) with ([e] ++ evs). rewrite arriving_app.
    apply sublist_app; assumption.
Qed.

Lemma first_come_first_served_witness :
  exists line' joined,
    GroceryStore.lines (store sample_world_waiting) !! 0 = Some line'
    /\ line_moves_on (sample_line "cashier" [0]) line' joined
    /\ joined `sublist_of` arriving [JoinCheckoutEvent 0 1].
Proof.
  apply (first_come_first_served (sample_globals LeastPerson)
           ([JoinCheckoutEvent 0 1; FinishCheckoutEvent 10 0 0],
            {| customers := [Customer.mk 0 3 (Some 0%Z) (Some 0%Z) None;
                             Customer.__init__ 1 5];
               store := store sample_world_one_served; rng_calls := 0 |})
           [JoinCheckoutEvent 0 1]
           ([FinishCheckoutEvent 10 0 0], sample_world_waiting)
           ltac:(eapply engine_exec_cons;
                 [vm_compute; reflexivity | vm_compute; reflexivity | apply engine_exec_nil])
           0 (sample_line "cashier" [0])).
  reflexivity.
Defined.

(** ** Failures *)

Lemma raises_only_Ok {A : Type} (P : Error -> Prop) (a : A) : raises_only P (Ok a).
Proof. intros e H. discriminate. Qed.

Lemma raises_only_Raise {A : Type} (P : Error -> Prop) (e : Error) :
  P e -> raises_only P (@Raise A e).
Proof. intros He e' [= <-]. assumption. Qed.

Lemma raises_only_bind {A B : Type} (P : Error -> Prop) (r : Result A)
  (k : A -> Result B) :
  raises_only P r ->
  (forall a, r = Ok a -> raises_only P (k a)) ->
  raises_only P (r ≫= k).
Proof.
  intros Hr Hk e H. destruct r as [a|e']; simpl in H.
  - apply (Hk a eq_refl e H).
  - injection H as <-. apply Hr. reflexivity.
Qed.

Lemma raises_only_mono {A : Type} (P Q : Error -> Prop) (r : Result A) :
  (forall e, P e -> Q e) -> raises_only P r -> raises_only Q r.
Proof. intros HPQ Hr e He. apply HPQ, Hr, He. Qed.

Lemma raises_only_for_each {A S : Type} (P : Error -> Prop)
  (body : S -> A -> Result S) (xs : list A) :
  (forall acc x, x ∈ xs -> raises_only P (body acc x)) ->
  forall acc, raises_only P (for_each body xs acc).
Proof.
  induction xs as [|x xs IH]; intros Hbody acc; simpl.
  - apply raises_only_Ok.
  - apply raises_only_bind; [apply Hbody, list_elem_of_here|].
    intros acc' _. apply IH. intros acc0 y Hy. apply Hbody, list_elem_of_further, Hy.
Qed.




(** The duration model fails in three ways only. *)
Lemma call_get_checkout_time_failure (g : Globals) (types : list string)
  (customer : Customer.t) (line : CheckoutLine.t) :
  CheckoutLine.type line ∈ types ->
  raises_only (duration_failure g types) (call_get_checkout_time g customer line).
Proof.
  intros Hty. unfold call_get_checkout_time.
  destruct (get_checkout_time g) as [[|]|] eqn:Hslot.
  - unfold get_checkout_time_deterministic.
    destruct (known_line_type (CheckoutLine.type line)) eqn:Hknown.
    + apply known_line_type_spec in Hknown as [->|[->| ->]]; simpl; apply raises_only_Ok.
    + apply raises_only_Raise. simpl. auto.
  - apply raises_only_Raise. simpl. assumption.
  - apply raises_only_Raise. simpl. assumption.
Qed.




(** ** The policies and the customer nobody takes *)

Lemma least_loop_failure (P : Error -> Prop) (measure : CheckoutLine.t -> Result Z)
  (customer : Customer.t) (ls : list CheckoutLine.t) :
  (forall line, line ∈ ls -> raises_only P (measure line)) ->
  forall i best,
    (forall j b, best = Some (j, b) -> raises_only P (measure b)) ->
    raises_only P (least_loop measure customer i ls best).
Proof.
  induction ls as [|line ls IH]; intros Hm i best Hbest; simpl.
  - apply raises_only_Ok.
  - assert (Hm' : forall line0, line0 ∈ ls -> raises_only P (measure line0))
      by (intros line0 Hin; apply Hm, list_elem_of_further, Hin).
    assert (Hline : raises_only P (measure line)) by apply Hm, list_elem_of_here.
    destruct (eligible customer line); [|apply IH; assumption].
    destruct best as [[jb b]|].
    + apply raises_only_bind; [assumption|]. intros m _.
      apply raises_only_bind; [eapply Hbest; reflexivity|]. intros mb _.
      apply IH; [assumption|]. intros j b0.
      destruct (m <? mb)%Z; intros [= <- <-]; [assumption|eapply Hbest; reflexivity].
    + apply IH; [assumption|]. intros j b0 [= <- <-]. assumption.
Qed.

Lemma least_loop_none (measure : CheckoutLine.t -> Result Z) (customer : Customer.t)
  (ls : list CheckoutLine.t) :
  forall i best r,
    least_loop measure customer i ls best = Ok r ->
    (r = None <-> best = None
                  /\ forall line, line ∈ ls -> eligible customer line = false).
Proof.
  induction ls as [|line ls IH]; intros i best r H; simpl in H.
  - injection H as <-. split; [intros ->; split; [reflexivity|]|tauto].
    intros line Hin. apply elem_of_nil in Hin. contradiction.
  - destruct (eligible customer line) eqn:Hel.
    + assert (Hsome : r <> None).
      { destruct best as [[jb b]|].
        - destruct (measure line) as [m|]; simpl in H; [|discriminate].
          destruct (measure b) as [mb|]; simpl in H; [|discriminate].
          apply IH in H. intros ->. destruct (m <? mb)%Z; destruct H as [H _];
            destruct (H eq_refl) as [[=] _].
        - apply IH in H. intros ->. destruct H as [H _].
          destruct (H eq_refl) as [[=] _]. }
      split; [contradiction|]. intros [_ Hnone].
      rewrite (Hnone line) in Hel by apply list_elem_of_here. discriminate.
    + apply IH in H. rewrite H. split; intros [Hb Hnone]; (split; [assumption|]).
      * intros line0 Hin. apply elem_of_cons in Hin as [->|Hin]; auto.
      * intros line0 Hin. apply Hnone, list_elem_of_further, Hin.
Qed.

Lemma least_loop_nobody (measure : CheckoutLine.t -> Result Z) (customer : Customer.t)
  (ls : list CheckoutLine.t) :
  (forall line, line ∈ ls -> eligible customer line = false) ->
  forall i best, least_loop measure customer i ls best = Ok best.
Proof.
  induction ls as [|line ls IH]; intros Hnone i best; simpl; [reflexivity|].
  rewrite (Hnone line) by apply list_elem_of_here.
  apply IH. intros line0 Hin. apply Hnone, list_elem_of_further, Hin.
Qed.

Lemma pick_least_no_line (measure : CheckoutLine.t -> Result Z) (customer : Customer.t)
  (st : GroceryStore.t) :
  (forall line, raises_only (fun e => e <> AssertionError_no_line) (measure line)) ->
  pick_least measure customer st = Raise AssertionError_no_line
  <-> nobody_takes customer st.
Proof.
  intros Hm. unfold pick_least, nobody_takes. split.
  - intros H.
    destruct (least_loop measure customer 0 (GroceryStore.lines st) None)
      as [[[i line]|]|e] eqn:Hloop; simpl in H; try discriminate.
    + apply least_loop_none in Hloop. apply Hloop. reflexivity.
    + injection H as ->. exfalso.
      eapply (least_loop_failure (fun e => e <> AssertionError_no_line));
        [| |exact Hloop|reflexivity]; [intros; apply Hm|discriminate].
  - intros Hnone. rewrite least_loop_nobody by assumption. reflexivity.
Qed.

Lemma lines_avail_nil (customer : Customer.t) (ls : list CheckoutLine.t) :
  forall i, lines_avail customer i ls = []
            <-> forall line, line ∈ ls -> eligible customer line = false.
Proof.
  induction ls as [|line ls IH]; intros i; simpl.
  - split; [|reflexivity]. intros _ line Hin. apply elem_of_nil in Hin. contradiction.
  - destruct (eligible customer line) eqn:Hel.
    + split; [discriminate|]. intros Hnone.
      rewrite (Hnone line) in Hel by apply list_elem_of_here. discriminate.
    + rewrite IH. split.
      * intros Hnone line0 Hin. apply elem_of_cons in Hin as [->|Hin]; auto.
      * intros Hnone line0 Hin. apply Hnone, list_elem_of_further, Hin.
Qed.

Lemma lookup_mod_length {A : Type} (xs : list A) (n : nat) :
  xs <> [] -> is_Some (xs !! (n mod length xs)).
Proof.
  intros Hne. apply lookup_lt_is_Some_2, Nat.mod_upper_bound.
  destruct xs; [contradiction|discriminate].
Qed.

Lemma call_pick_no_line (g : Globals) (p : Policy) (customer : Customer.t)
  (w : World) :
  pick_checkout_line g = Some p ->
  wf_store (store w) ->
  call_pick_checkout_line g customer w = Raise AssertionError_no_line
  <-> nobody_takes customer (store w).
Proof.
  intros Hp Hwf. unfold call_pick_checkout_line. rewrite Hp.
  destruct p.
  - (* pure random *)
    unfold pick_checkout_line_pure_random, nobody_takes.
    rewrite <- (lines_avail_nil customer _ 0).
    destruct (lines_avail customer 0 (GroceryStore.lines (store w))) as [|l0 avail] eqn:Ha.
    + simpl. tauto.
    + rewrite <- Ha.
      destruct (lookup_mod_length (lines_avail customer 0 (GroceryStore.lines (store w)))
                  (np_random g (rng_calls w))) as [l Hl]; [rewrite Ha; discriminate|].
      unfold randint. rewrite Hl, Ha. simpl. split; discriminate.
  - (* least person *)
    rewrite <- (pick_least_no_line (fun line => Ok (CheckoutLine.get_num_customers line)))
      by (intros; apply raises_only_Ok).
    unfold pick_checkout_line_least_person.
    destruct (pick_least _ customer (store w)); simpl; split; congruence.
  - (* least item *)
    rewrite <- (pick_least_no_line (CheckoutLine_get_num_items w)).
    + unfold pick_checkout_line_least_item.
      destruct (pick_least _ customer (store w)); simpl; split; congruence.
    + intros line. unfold CheckoutLine_get_num_items.
      apply raises_only_for_each. intros acc c _.
      apply raises_only_bind; [|intros; apply raises_only_Ok].
      unfold get_customer. destruct (customers w !! c);
        [apply raises_only_Ok|apply raises_only_Raise; discriminate].
  - (* least time *)
    rewrite <- (pick_least_no_line
                  (fun line => CheckoutLine_get_queue_time g w line (count_first g))).
    + unfold pick_checkout_line_least_time.
      destruct (pick_least _ customer (store w)); simpl; split; congruence.
    + intros line. unfold CheckoutLine_get_queue_time.
      destruct (length (CheckoutLine.queue line) =? 0)%nat; [apply raises_only_Ok|].
      apply raises_only_for_each. intros acc c _.
      apply raises_only_bind.
      * unfold get_customer. destruct (customers w !! c);
          [apply raises_only_Ok|apply raises_only_Raise; discriminate].
      * intros cu _. apply raises_only_bind; [|intros; apply raises_only_Ok].
        eapply raises_only_mono;
          [|apply (call_get_checkout_time_failure g [CheckoutLine.type line]);
            apply list_elem_of_here].
        intros e He ->. exact He.
  - (* round robin *)
    pose proof (pick_round_robin_spec customer w Hwf) as Hspec.
    destruct (pick_checkout_line_round_robin customer w) as [[l w']|e].
    + destruct Hspec as (k & line & _ & _ & Hl & Hel & _).
      split; [discriminate|]. intros Hnone.
      rewrite (Hnone line) in Hel by (eapply list_elem_of_lookup_2; eassumption).
      discriminate.
    + destruct Hspec as [-> Hnone]. split; [intros _; exact Hnone|reflexivity].
Qed.

(** X6. Whatever the policy, the selection fails with "no line available"
    exactly when no line of the store is eligible for the customer (every
    line is closed, or is an express line and the customer has more than 10
    items); and a line it returns is a line of the store that is eligible
    for the customer, the customers and the lines being left as they are. *)
Theorem no_line_iff_nobody_takes (g : Globals) (p : Policy) (customer : Customer.t)
  (w : World) :
  pick_checkout_line g = Some p ->
  wf_store (store w) ->
  (call_pick_checkout_line g customer w = Raise AssertionError_no_line
   <-> nobody_takes customer (store w))
  /\ forall l w',
       call_pick_checkout_line g customer w = Ok (l, w') ->
       customers w' = customers w
       /\ GroceryStore.lines (store w') = GroceryStore.lines (store w)
       /\ exists line, GroceryStore.lines (store w) !! l = Some line
                       /\ eligible customer line = true.
Proof.
  intros Hp Hwf. split; [eapply call_pick_no_line; eassumption|].
  intros l w' Hpick.
  apply call_pick_checkout_line_spec in Hpick as (Hcs & Hls & _ & line & Hl & Hel & _).
  eauto.
Qed.

Lemma no_line_iff_nobody_takes_witness :
  call_pick_checkout_line (sample_globals RoundRobin) (sample_customer 11)
    {| customers := [sample_customer 11];
       store := GroceryStore.__init__ [("express", 2%Z)]; rng_calls := 0 |}
  = Raise AssertionError_no_line.
Proof.
  apply (no_line_iff_nobody_takes (sample_globals RoundRobin) RoundRobin);
    [reflexivity|apply GroceryStore_init_wf|].
  intros line Hin. vm_compute in Hin.
  apply elem_of_cons in Hin as [->|Hin]; [reflexivity|].
  apply elem_of_cons in Hin as [->|Hin]; [reflexivity|].
  apply elem_of_nil in Hin. contradiction.
Defined.

(** ** The lines of a new store *)

Lemma insert_sorted_perm (x : string * Z) (l : list (string * Z)) :
  GroceryStore.insert_sorted x l ≡ₚ x :: l.
Proof.
  induction l as [|y l IH]; simpl; [reflexivity|].
  destruct (GroceryStore.item_ltb x y); [reflexivity|].
  rewrite IH. apply perm_swap.
Qed.

Lemma sorted_perm (items : list (string * Z)) : GroceryStore.sorted items ≡ₚ items.
Proof.
  induction items as [|x items IH]; simpl; [reflexivity|].
  rewrite insert_sorted_perm, IH. reflexivity.
Qed.

Lemma insert_sorted_Sorted (x : string * Z) (l : list (string * Z)) :
  Sorted item_le l -> Sorted item_le (GroceryStore.insert_sorted x l).
Proof.
  induction 1 as [|y l Hl IH Hhd]; simpl.
  - repeat constructor.
  - destruct (GroceryStore.item_ltb x y) eqn:Hxy.
    + constructor; [constructor; assumption|]. constructor.
      unfold item_le, GroceryStore.item_ltb in *.
      rewrite String.compare_antisym.
      destruct (String.compare (fst x) (fst y)) eqn:Hc; simpl; try discriminate;
        [|reflexivity].
      apply Z.ltb_lt in Hxy. apply Z.ltb_ge. lia.
    + constructor; [assumption|].
      destruct l as [|z l]; simpl.
      * constructor. exact Hxy.
      * destruct (GroceryStore.item_ltb x z); constructor; [exact Hxy|].
        inversion Hhd; assumption.
Qed.

Lemma sorted_Sorted (items : list (string * Z)) :
  Sorted item_le (GroceryStore.sorted items).
Proof.
  induction items as [|x items IH]; simpl; [constructor|].
  apply insert_sorted_Sorted, IH.
Qed.

Lemma append_lines_types (n : nat) (ty : string) :
  forall (ls : list CheckoutLine.t) (id : Z),
    map CheckoutLine.type (fst (GroceryStore.append_lines n ty (ls, id)))
    = map CheckoutLine.type ls ++ replicate n ty.
Proof.
  induction n as [|n IH]; intros ls id; simpl.
  - rewrite app_nil_r. reflexivity.
  - rewrite IH, map_app, <- app_assoc. reflexivity.
Qed.

Lemma fold_append_lines_types (items : list (string * Z)) :
  forall (acc : list CheckoutLine.t * Z),
    map CheckoutLine.type
      (fst (fold_left (fun acc '(line_type, line_count) =>
                         GroceryStore.append_lines (Z.to_nat line_count) line_type acc)
                      items acc))
    = map CheckoutLine.type (fst acc) ++ types_of_counts items.
Proof.
  induction items as [|[ty n] items IH]; intros [ls id]; simpl.
  - rewrite app_nil_r. reflexivity.
  - rewrite IH, append_lines_types, <- app_assoc. reflexivity.
Qed.

Lemma GroceryStore_init_line_types (line_counts : list (string * Z)) :
  map CheckoutLine.type (GroceryStore.lines (GroceryStore.__init__ line_counts))
  = types_of_counts (GroceryStore.sorted line_counts).
Proof.
  unfold GroceryStore.__init__.
  pose proof (fold_append_lines_types (GroceryStore.sorted line_counts) ([], 0%Z)) as H.
  destruct (fold_left _ (GroceryStore.sorted line_counts) ([], 0%Z)) as [ls id].
  exact H.
Qed.

(** X7. [GroceryStore.__init__] makes, for each line type of the
    configuration in ascending order, as many lines of that type as its
    count says (none for a count that is not positive), one after the other;
    a line's id is its position, every line is open, nobody waits and nobody
    has been served; [total_lines] is the number of lines and the cursor of
    round robin is on the last line. *)
Theorem GroceryStore_init_spec (line_counts : list (string * Z)) :
  let st := GroceryStore.__init__ line_counts in
  map CheckoutLine.type (GroceryStore.lines st)
  = types_of_counts (GroceryStore.sorted line_counts)
  /\ GroceryStore.sorted line_counts ≡ₚ line_counts
  /\ Sorted item_le (GroceryStore.sorted line_counts)
  /\ fresh_lines (GroceryStore.lines st)
  /\ GroceryStore.total_lines st = Z.of_nat (length (GroceryStore.lines st))
  /\ GroceryStore.last_line_id st = (GroceryStore.total_lines st - 1)%Z.
Proof.
  destruct (GroceryStore_init_fresh line_counts) as (Htot & Hlast & Hfresh).
  split; [apply GroceryStore_init_line_types|].
  split; [apply sorted_perm|]. split; [apply sorted_Sorted|]. auto.
Qed.




(** ** What the loop of [run] can rely on *)










(** ** The failures of a run *)









(** ** A run that cannot fail *)

Lemma raises_only_of_option {A : Type} (P : Error -> Prop) (o : option A) (e : Error) :
  P e -> raises_only P (of_option o e).
Proof. intros He. destruct o; [apply raises_only_Ok|apply raises_only_Raise, He]. Qed.









(** ** The timestamps of a run *)

Lemma accounted_NoDup (evs : list Event) (w : World) :
  everybody_accounted evs w ->
  NoDup (arriving evs ++ waiting (GroceryStore.lines (store w))
           ++ served_customers (GroceryStore.lines (store w))).
Proof. unfold everybody_accounted. intros ->. apply NoDup_seq. Qed.

Lemma elem_of_flat_map_lookup {A B : Type} (f : A -> list B) (ls : list A) (i : nat)
  (a : A) (x : B) :
  ls !! i = Some a -> x ∈ f a -> x ∈ flat_map f ls.
Proof.
  intros Hi Hx. apply list_elem_of_In, in_flat_map. exists a.
  split; apply list_elem_of_In; [eapply list_elem_of_lookup_2; eassumption|assumption].
Qed.

Lemma flat_map_NoDup_lookup {A B : Type} (f : A -> list B) (ls : list A) :
  NoDup (flat_map f ls) ->
  forall i j a b x, ls !! i = Some a -> ls !! j = Some b -> x ∈ f a -> x ∈ f b -> i = j.
Proof.
  induction ls as [|a0 ls IH]; intros Hnd i j a b x Hi Hj Ha Hb; [discriminate|].
  simpl in Hnd. apply NoDup_app in Hnd as (_ & Hdisj & Hnd).
  destruct i as [|i], j as [|j]; simpl in Hi, Hj.
  - reflexivity.
  - injection Hi as ->. exfalso. apply (Hdisj x Ha).
    eapply elem_of_flat_map_lookup; eassumption.
  - injection Hj as ->. exfalso. apply (Hdisj x Hb).
    eapply elem_of_flat_map_lookup; eassumption.
  - f_equal. eapply IH; eassumption.
Qed.

(** Where a customer can be, by the invariant: in one place only. *)
Lemma accounted_places (evs : list Event) (w : World) :
  everybody_accounted evs w ->
  NoDup (arriving evs)
  /\ (forall l line c, GroceryStore.lines (store w) !! l = Some line ->
        c ∈ CheckoutLine.queue line ->
        (c ∉ arriving evs)
        /\ (forall l' line', GroceryStore.lines (store w) !! l' = Some line' ->
              c ∉ CheckoutLine.served line')
        /\ (forall l' line', GroceryStore.lines (store w) !! l' = Some line' ->
              c ∈ CheckoutLine.queue line' -> l' = l))
  /\ (forall l line c, GroceryStore.lines (store w) !! l = Some line ->
        c ∈ CheckoutLine.served line -> c ∉ arriving evs).
Proof.
  intros Hacc. apply accounted_NoDup in Hacc.
  apply NoDup_app in Hacc as (Harr & Hdisj1 & Hrest).
  apply NoDup_app in Hrest as (Hwait & Hdisj2 & _).
  split; [assumption|]. split.
  - intros l line c Hl Hc.
    assert (Hw : c ∈ waiting (GroceryStore.lines (store w)))
      by (eapply elem_of_flat_map_lookup; eassumption).
    split; [|split].
    + intros Ha. apply (Hdisj1 c Ha). apply elem_of_app. left. exact Hw.
    + intros l' line' Hl' Hs. apply (Hdisj2 c Hw).
      eapply elem_of_flat_map_lookup; eassumption.
    + intros l' line' Hl' Hc'.
      eapply (flat_map_NoDup_lookup CheckoutLine.queue); eassumption.
  - intros l line c Hl Hc Ha. apply (Hdisj1 c Ha). apply elem_of_app. right.
    eapply elem_of_flat_map_lookup; eassumption.
Qed.

Lemma call_get_checkout_time_same (g : Globals) (cu cu' : Customer.t)
  (line line' : CheckoutLine.t) :
  Customer.num_items cu' = Customer.num_items cu ->
  CheckoutLine.type line' = CheckoutLine.type line ->
  call_get_checkout_time g cu' line' = call_get_checkout_time g cu line.
Proof.
  intros Hitems Hty.
  unfold call_get_checkout_time, get_checkout_time_deterministic,
    get_checkout_time_stochastic.
  rewrite Hitems, Hty. reflexivity.
Qed.

Lemma head_elem_of {A : Type} (xs : list A) (x : A) : head xs = Some x -> x ∈ xs.
Proof. destruct xs; [discriminate|]. intros [= ->]. apply list_elem_of_here. Qed.

Lemma service_count_two (l : lref) (e e' : Event) (evs : list Event) :
  serves l e = true -> e' ∈ evs -> serves l e' = true ->
  2 <= service_count l (e :: evs).
Proof.
  intros He Hin He'. rewrite service_count_cons, He.
  apply list_elem_of_In, in_split in Hin as (a & b & ->).
  rewrite service_count_app, service_count_cons, He'. lia.
Qed.

Lemma customers_effect_lookup (e : Event) (cs cs' : list Customer.t) (c0 : cref)
  (cu0 : Customer.t) :
  customers_effect e cs cs' ->
  cs !! c0 = Some cu0 ->
  (cs' !! c0 = Some cu0 /\ forall c f, stamp e = Some (c, f) -> c <> c0)
  \/ exists f, stamp e = Some (c0, f) /\ cs' !! c0 = Some (f cu0).
Proof.
  unfold customers_effect. intros Heff Hc0.
  destruct (stamp e) as [[c f]|].
  - destruct Heff as (cu & Hc & ->). destruct (decide (c = c0)) as [->|Hne].
    + right. exists f. split; [reflexivity|].
      rewrite list_lookup_insert_eq by (eapply lookup_lt_Some; eassumption).
      congruence.
    + left. rewrite list_lookup_insert_ne by assumption.
      split; [assumption|]. intros c1 f1 [= <- <-]. assumption.
  - subst cs'. left. split; [assumption|]. discriminate.
Qed.

Lemma Event_do_line_kept (g : Globals) (e : Event) (w w' : World)
  (future_events : list Event) :
  Event_do g e w = Ok (w', future_events) ->
  forall l line, GroceryStore.lines (store w) !! l = Some line ->
    exists line', GroceryStore.lines (store w') !! l = Some line'
                  /\ CheckoutLine.type line' = CheckoutLine.type line.
Proof.
  intros Hdo l0 line0 Hl0.
  apply Event_do_effect in Hdo as (_ & _ & l & line & line' & Hl & Hls & Heff).
  apply line_effect_moves_on in Heff as (_ & Hty & _).
  rewrite Hls. destruct (decide (l0 = l)) as [->|Hne].
  - rewrite list_lookup_insert_eq by (eapply lookup_lt_Some; eassumption).
    exists line'. split; [reflexivity|congruence].
  - rewrite list_lookup_insert_ne by lia. eauto.
Qed.

(** The stamps of the three events: each sets its own field and keeps the
    item count. *)
Lemma stamp_cases (e : Event) (c : cref) (f : Customer.t -> Customer.t) :
  stamp e = Some (c, f) ->
  (forall cu, Customer.num_items (f cu) = Customer.num_items cu)
  /\ ((exists t l, e = BeginCheckoutEvent t c l /\ f = Customer.set_begin_timestamp t)
      \/ (exists t l, e = FinishCheckoutEvent t c l
                      /\ f = Customer.set_finish_timestamp t)
      \/ (exists t, e = JoinCheckoutEvent t c /\ f = Customer.set_join_timestamp t)).
Proof.
  destruct e as [t c0 l|t c0 l|t c0|t l|t l]; simpl; intros [= <- <-];
    (split; [reflexivity|]); eauto 6.
Qed.

(** In a sound state the customer an event stamps is not the customer of a
    FinishCheckout event that waits, unless the stamp leaves the begin alone. *)
Lemma finish_timed_event (g : Globals) (e : Event) (heap' : list Event)
  (w w' : World) (future_events : list Event) (e1 : Event) :
  engine_invariant (e :: heap') w ->
  everybody_accounted (e :: heap') w ->
  Event_do g e w = Ok (w', future_events) ->
  e1 ∈ heap' ->
  finish_timed g w e1 -> finish_timed g w' e1.
Proof.
  intros (Hok & Hcount & _) Hacc Hdo Hin Hfin.
  destruct e1 as [| t1 c1 l1 | | |]; try exact I.
  destruct Hfin as (cu1 & line1 & b1 & Hc1 & Hl1 & Hb1 & Hd1).
  destruct (Event_do_line_kept _ _ _ _ _ Hdo l1 line1 Hl1) as (line1' & Hl1' & Hty).
  pose proof (Event_do_effect _ _ _ _ _ Hdo) as (Hcs & _).
  destruct (customers_effect_lookup _ _ _ c1 cu1 Hcs Hc1)
    as [[Hsame _]|(f & Hstamp & Hnew)].
  - exists cu1, line1', b1. split; [assumption|]. split; [assumption|].
    split; [assumption|]. rewrite <- Hd1. apply call_get_checkout_time_same; auto.
  - destruct (stamp_cases _ _ _ Hstamp)
      as (Hitems & [(t & l & -> & ->)|[(t & l & -> & ->)|(t & -> & ->)]]).
    + (* a begin for the customer of a finish: two service events on a line *)
      exfalso.
      pose proof (proj1 (Forall_forall _ _) Hok) as Hall.
      destruct (Hall (BeginCheckoutEvent t c1 l) (list_elem_of_here _ _))
        as (line & Hl & Hhead).
      destruct (Hall (FinishCheckoutEvent t1 c1 l1) (list_elem_of_further _ _ _ Hin))
        as [(line1_ & Hl1_ & Hhead1) _].
      destruct (accounted_places _ _ Hacc) as (_ & Hq & _).
      destruct (Hq l line c1 Hl (head_elem_of _ _ Hhead)) as (_ & _ & Hone).
      assert (l1 = l) as -> by (eapply Hone; [eassumption|apply head_elem_of, Hhead1]).
      pose proof (service_count_two l (BeginCheckoutEvent t c1 l)
                    (FinishCheckoutEvent t1 c1 l) heap') as Htwo.
      cbn [serves] in Htwo. rewrite Nat.eqb_refl in Htwo.
      specialize (Htwo eq_refl Hin eq_refl). specialize (Hcount l). lia.
    + exists (Customer.set_finish_timestamp t cu1), line1', b1.
      split; [assumption|]. split; [assumption|]. split; [assumption|].
      rewrite <- Hd1. apply call_get_checkout_time_same; auto.
    + exists (Customer.set_join_timestamp t cu1), line1', b1.
      split; [assumption|]. split; [assumption|]. split; [assumption|].
      rewrite <- Hd1. apply call_get_checkout_time_same; auto.
Qed.

Lemma line_effect_no_arrival (l : lref) (line line' : CheckoutLine.t) (e : Event)
  (future_events : list Event) :
  line_effect l line e line' future_events -> arriving future_events = [].
Proof. intros Heff. destruct Heff; reflexivity. Qed.

Lemma service_timed_event (g : Globals) (e : Event) (heap' : list Event)
  (w w' : World) (future_events : list Event) :
  engine_invariant (e :: heap') w ->
  everybody_accounted (e :: heap') w ->
  finish_timed g w e ->
  (forall l line c, GroceryStore.lines (store w) !! l = Some line ->
                    c ∈ CheckoutLine.served line -> service_timed g w c line) ->
  Event_do g e w = Ok (w', future_events) ->
  forall l line c, GroceryStore.lines (store w') !! l = Some line ->
                   c ∈ CheckoutLine.served line -> service_timed g w' c line.
Proof.
  intros (Hok & _) Hacc Hfin Hserved Hdo l0 line0' c0 Hl0' Hc0.
  apply Forall_cons in Hok as [Hok _].
  destruct (accounted_places _ _ Hacc) as (_ & Hplace_q & Hplace_s).
  pose proof (Event_do_effect _ _ _ _ _ Hdo)
    as (Hcs & _ & l & line & line' & Hl & Hls & Heff).
  (* a customer served before the event *)
  assert (Hold : forall line0,
             GroceryStore.lines (store w) !! l0 = Some line0 ->
             CheckoutLine.type line0' = CheckoutLine.type line0 ->
             c0 ∈ CheckoutLine.served line0 ->
             service_timed g w' c0 line0').
  { intros line0 Hl0 Hty Hin.
    destruct (Hserved l0 line0 c0 Hl0 Hin) as (cu0 & b0 & f0 & Hcu0 & Hb0 & Hf0 & Hd0).
    destruct (customers_effect_lookup _ _ _ c0 cu0 Hcs Hcu0)
      as [[Hsame _]|(f & Hstamp & _)].
    - exists cu0, b0, f0. split; [assumption|]. split; [assumption|].
      split; [assumption|]. rewrite <- Hd0. apply call_get_checkout_time_same; auto.
    - exfalso.
      destruct (stamp_cases _ _ _ Hstamp)
        as (_ & [(t & l1 & -> & _)|[(t & l1 & -> & _)|(t & -> & _)]]).
      + destruct Hok as (line1 & Hl1 & Hhead).
        destruct (Hplace_q l1 line1 c0 Hl1 (head_elem_of _ _ Hhead)) as (_ & Hnot & _).
        exact (Hnot l0 line0 Hl0 Hin).
      + destruct Hok as [(line1 & Hl1 & Hhead) _].
        destruct (Hplace_q l1 line1 c0 Hl1 (head_elem_of _ _ Hhead)) as (_ & Hnot & _).
        exact (Hnot l0 line0 Hl0 Hin).
      + apply (Hplace_s l0 line0 c0 Hl0 Hin). simpl. apply list_elem_of_here. }
  (* the customer the event has just served *)
  assert (Hnew : forall t c served_customer rest,
             e = FinishCheckoutEvent t c l ->
             CheckoutLine.queue line = served_customer :: rest ->
             CheckoutLine.type line' = CheckoutLine.type line ->
             service_timed g w' served_customer line').
  { intros t c hd rest -> Hq Hty.
    destruct Hok as [(line1 & Hl1 & Hhead) _].
    assert (line1 = line) as -> by congruence.
    rewrite Hq in Hhead. injection Hhead as ->.
    destruct Hfin as (cu & line2 & b & Hcu & Hl2 & Hb & Hd).
    assert (line2 = line) as -> by congruence.
    unfold customers_effect in Hcs. cbn [stamp] in Hcs.
    destruct Hcs as (cu' & Hcu' & Hcs'). assert (cu' = cu) as -> by congruence.
    exists (Customer.set_finish_timestamp t cu), b, t.
    split; [rewrite Hcs'; apply list_lookup_insert_eq; eapply lookup_lt_Some; eassumption|].
    split; [assumption|]. split; [reflexivity|].
    rewrite <- Hd. apply call_get_checkout_time_same; auto. }
  rewrite Hls in Hl0'. apply insert_lookup_cases in Hl0' as [[-> ->]|[Hne Hl0]].
  - destruct Heff as [t c d|t c hd Hqueue|t c hd next rest Hqueue|t c Hqueue Hopen
                     |t c Hqueue Hopen|t|t];
      cbn [CheckoutLine.served CheckoutLine.open CheckoutLine.close] in Hc0;
      try (apply (Hold line Hl); [reflexivity|exact Hc0]).
    + apply elem_of_app in Hc0 as [Hc0|Hc0]; [apply (Hold line Hl); [reflexivity|exact Hc0]|].
      apply list_elem_of_singleton in Hc0 as ->.
      eapply Hnew; [reflexivity|eassumption|reflexivity].
    + apply elem_of_app in Hc0 as [Hc0|Hc0]; [apply (Hold line Hl); [reflexivity|exact Hc0]|].
      apply list_elem_of_singleton in Hc0 as ->.
      eapply Hnew; [reflexivity|eassumption|reflexivity].
  - apply (Hold line0' Hl0); [reflexivity|exact Hc0].
Qed.

Lemma joins_stamped_event (g : Globals) (initial : list Event) (e : Event)
  (heap' : list Event) (w w' : World) (future_events : list Event) :
  everybody_accounted (e :: heap') w ->
  joins_stamped initial (e :: heap') w ->
  Event_do g e w = Ok (w', future_events) ->
  joins_stamped initial (future_events ++ heap') w'.
Proof.
  intros Hacc Hjoin Hdo t0 c0 Hinit.
  destruct (accounted_places _ _ Hacc) as (Hnd & _).
  pose proof (Event_do_effect _ _ _ _ _ Hdo)
    as (Hcs & _ & l & line & line' & Hl & Hls & Heff).
  pose proof (line_effect_no_arrival _ _ _ _ _ Heff) as Hfut.
  assert (Harr : forall c, c ∉ arriving (e :: heap') ->
                           c ∉ arriving (future_events ++ heap')).
  { intros c Hc. rewrite arriving_app, Hfut. simpl. intros Hin. apply Hc.
    change (e :: heap') with ([e] ++ heap'). rewrite arriving_app.
    apply elem_of_app. right. exact Hin. }
  destruct (Hjoin t0 c0 Hinit) as [Hin|(Hnot & cu0 & Hcu0 & Hj0)].
  - apply elem_of_cons in Hin as [<-|Hin].
    + right. unfold customers_effect in Hcs. cbn [stamp] in Hcs.
      destruct Hcs as (cu & Hcu & Hcs'). split.
      * rewrite arriving_app, Hfut. simpl. cbn [arriving flat_map app] in Hnd.
        apply NoDup_cons in Hnd as [Hnd _]. exact Hnd.
      * exists (Customer.set_join_timestamp t0 cu). split; [|reflexivity].
        rewrite Hcs'. apply list_lookup_insert_eq. eapply lookup_lt_Some; eassumption.
    + left. apply elem_of_app. right. exact Hin.
  - right. split; [apply Harr, Hnot|].
    destruct (customers_effect_lookup _ _ _ c0 cu0 Hcs Hcu0)
      as [[Hsame _]|(f & Hstamp & Hnew)]; [eauto|].
    destruct (stamp_cases _ _ _ Hstamp)
      as (_ & [(t & l1 & -> & ->)|[(t & l1 & -> & ->)|(t & -> & ->)]]).
    + exists (Customer.set_begin_timestamp t cu0). auto.
    + exists (Customer.set_finish_timestamp t cu0). auto.
    + exfalso. apply Hnot. simpl. apply list_elem_of_here.
Qed.

Lemma timed_perm (g : Globals) (initial evs evs' : list Event) (w : World) :
  evs ≡ₚ evs' -> timed g initial evs w -> timed g initial evs' w.
Proof.
  intros Hp (Hinv & Hacc & Hfin & Hserved & Hjoin).
  split; [eapply engine_invariant_perm; eassumption|].
  split; [eapply everybody_accounted_perm; eassumption|].
  split; [rewrite <- Hp; assumption|]. split; [assumption|].
  intros t c Hinit. destruct (Hjoin t c Hinit) as [Hin|(Hnot & Hcu)].
  - left. rewrite <- Hp. exact Hin.
  - right. split; [|exact Hcu]. rewrite <- (arriving_perm _ _ Hp). exact Hnot.
Qed.

Lemma timed_event (g : Globals) (initial : list Event) (e : Event)
  (heap' : list Event) (w w' : World) (future_events : list Event) :
  timed g initial (e :: heap') w ->
  Event_do g e w = Ok (w', future_events) ->
  timed g initial (future_events ++ heap') w'.
Proof.
  intros (Hinv & Hacc & Hfin & Hserved & Hjoin) Hdo.
  split; [eapply engine_invariant_event; eassumption|].
  split; [eapply everybody_accounted_event; eassumption|].
  apply Forall_cons in Hfin as [Hfin_e Hfin].
  split; [|split].
  - apply Forall_app. split.
    + destruct e as [t c l|t c l|t c|t l|t l].
      * cbn [Event_do] in Hdo.
        apply BeginCheckoutEvent_do_inv in Hdo as (cu & line & d & Hc & Hl & Hd & -> & ->).
        repeat constructor. cbn [finish_timed customers store].
        exists (Customer.set_begin_timestamp t cu), line, t.
        split; [apply list_lookup_insert_eq; eapply lookup_lt_Some; eassumption|].
        split; [assumption|]. split; [reflexivity|].
        rewrite Hd. f_equal. lia.
      * apply Event_do_effect in Hdo as (_ & _ & l0 & line & line' & _ & _ & Heff).
        inversion Heff; repeat constructor.
      * apply Event_do_effect in Hdo as (_ & _ & l0 & line & line' & _ & _ & Heff).
        inversion Heff; repeat constructor.
      * apply Event_do_effect in Hdo as (_ & _ & l0 & line & line' & _ & _ & Heff).
        inversion Heff; repeat constructor.
      * apply Event_do_effect in Hdo as (_ & _ & l0 & line & line' & _ & _ & Heff).
        inversion Heff; repeat constructor.
    + apply Forall_forall. intros e1 He1.
      eapply finish_timed_event; try eassumption.
      apply (proj1 (Forall_forall _ _) Hfin e1 He1).
  - eapply service_timed_event; eassumption.
  - eapply joins_stamped_event; eassumption.
Qed.

Lemma initial_conf_timed (g : Globals) (line_counts : list (string * Z))
  (text : string) (initial_events : list Event) (w0 : World) conf0 :
  create_event_list text (fresh_world line_counts) = Ok (initial_events, w0) ->
  initial_conf (Simulator__init__ line_counts) text = Ok conf0 ->
  timed g initial_events (fst conf0) (snd conf0).
Proof.
  intros Hc Hinit.
  pose proof (initial_conf_invariant _ _ _ Hinit) as Hinv.
  pose proof (initial_conf_accounted _ _ _ Hinit) as [Hacc _].
  pose proof (initial_conf_fresh _ _ _ Hinit) as Hst.
  apply initial_conf_inv in Hinit as (evs & w1 & Hc' & -> & Hperm).
  rewrite Hc in Hc'. injection Hc' as <- <-. cbn [fst snd] in *.
  apply create_event_list_new_customers in Hc as (Hinitial & _).
  destruct (GroceryStore_init_fresh line_counts) as (_ & _ & Hfresh).
  split; [assumption|]. split; [assumption|]. split; [|split].
  - rewrite Hperm. eapply Forall_impl; [exact Hinitial|].
    intros e He. destruct e; try discriminate; exact I.
  - intros l line c Hl Hin. rewrite Hst in Hl.
    destruct (Hfresh l line Hl) as (_ & _ & Hs & _). rewrite Hs in Hin.
    apply elem_of_nil in Hin. contradiction.
  - intros t c Hin. left. rewrite Hperm. exact Hin.
Qed.

(** X10. The timestamps a completed run leaves.  For every arrival
    "t,join,n" of the text, the customer made for it has been served by a
    line of the store and carries its three timestamps: the join timestamp is
    [t], and the time between begin and finish is the checkout time the
    duration model gives for that customer on the line that served it. *)
Theorem run_timestamps (fuel : nat) (g : Globals) (line_counts : list (string * Z))
  (text : string) (self : Simulator) (initial_events : list Event) (w0 : World) :
  run fuel g (Simulator__init__ line_counts) text = Some (Ok self) ->
  create_event_list text (fresh_world line_counts) = Ok (initial_events, w0) ->
  forall t c,
    JoinCheckoutEvent t c ∈ initial_events ->
    exists customer b f line,
      customers (world self) !! c = Some customer
      /\ Customer.join_timestamp customer = Some t
      /\ Customer.begin_timestamp customer = Some b
      /\ Customer.finish_timestamp customer = Some f
      /\ line ∈ GroceryStore.lines (store (world self))
      /\ c ∈ CheckoutLine.served line
      /\ call_get_checkout_time g customer line = Ok (f - b)%Z.
Proof.
  intros Hrun Hc t c Hin.
  apply run_inv in Hrun as (_ & _ & Hempty & conf0 & evs & Hinit & Hexec).
  pose proof (initial_conf_timed g _ _ _ _ _ Hc Hinit) as Htimed.
  pose proof (initial_conf_accounted _ _ _ Hinit) as [_ Hbusy].
  apply (engine_exec_preserves (timed g initial_events) g
           (timed_perm g _) (timed_event g _) _ _ _ Hexec) in Htimed.
  apply (engine_exec_preserves lines_busy g lines_busy_perm (lines_busy_event g)
           _ _ _ Hexec) in Hbusy.
  cbn [fst snd] in Htimed, Hbusy. rewrite Hempty in Htimed, Hbusy.
  destruct Htimed as (_ & Hacc & _ & Hserved & Hjoin).
  destruct (Hjoin t c Hin) as [Hno|(_ & customer & Hcu & Hj)];
    [apply elem_of_nil in Hno; contradiction|].
  assert (Hq : waiting (GroceryStore.lines (store (world self))) = []).
  { apply flat_map_nil_all. intros line Hline.
    apply list_elem_of_lookup in Hline as [l Hl].
    destruct (CheckoutLine.queue line) as [|c0 rest] eqn:Hqueue; [reflexivity|].
    assert (Hne : CheckoutLine.queue line <> []) by (rewrite Hqueue; discriminate).
    specialize (Hbusy l line Hl Hne). unfold service_count in Hbusy. simpl in Hbusy. lia. }
  unfold everybody_accounted in Hacc. rewrite Hq in Hacc. cbn [arriving flat_map app] in Hacc.
  assert (Hc_served : c ∈ served_customers (GroceryStore.lines (store (world self)))).
  { rewrite Hacc. apply elem_of_seq. apply lookup_lt_Some in Hcu. lia. }
  apply list_elem_of_In, in_flat_map in Hc_served as (line & Hline & Hc_line).
  apply list_elem_of_In in Hline, Hc_line.
  pose proof Hline as Hline'. apply list_elem_of_lookup in Hline' as [l Hl].
  destruct (Hserved l line c Hl Hc_line) as (cu & b & f & Hcu' & Hb & Hf & Hd).
  assert (cu = customer) as -> by congruence.
  exists customer, b, f, line. auto 10.
Qed.

Lemma run_timestamps_witness :
  exists customer b f line,
    customers (world sample_finished_simulator) !! 1 = Some customer
    /\ Customer.join_timestamp customer = Some 0%Z
    /\ Customer.begin_timestamp customer = Some b
    /\ Customer.finish_timestamp customer = Some f
    /\ line ∈ GroceryStore.lines (store (world sample_finished_simulator))
    /\ 1 ∈ CheckoutLine.served line
    /\ call_get_checkout_time (sample_globals LeastPerson) customer line = Ok (f - b)%Z.
Proof.
  apply (run_timestamps 6 (sample_globals LeastPerson) one_cashier_config text_3_then_5
           sample_finished_simulator
           [JoinCheckoutEvent 0 0; JoinCheckoutEvent 0 1]
           {| customers := [Customer.__init__ 0 3; Customer.__init__ 1 5];
              store := GroceryStore.__init__ one_cashier_config; rng_calls := 0 |}).
  - vm_compute. reflexivity.
  - vm_compute. reflexivity.
  - apply list_elem_of_further, list_elem_of_here.
Defined.

(** ** The order of the priority queue *)

Lemma parent_child (i pos : nat) :
  0 < i -> (parent i = pos <-> i = 2 * pos + 1 \/ i = 2 * pos + 2).
Proof.
  unfold parent. intros Hi.
  pose proof (Nat.div2_odd (i - 1)) as H. destruct (Nat.odd (i - 1)); simpl in H; lia.
Qed.

Lemma parent_lt (i : nat) : 0 < i -> parent i < i.
Proof.
  unfold parent. intros Hi.
  pose proof (Nat.div2_odd (i - 1)) as H. destruct (Nat.odd (i - 1)); simpl in H; lia.
Qed.

Lemma Event_lt_false (a b : Event) : Event_lt a b = false <-> not_later b a.
Proof. unfold Event_lt, not_later. rewrite Z.ltb_ge. reflexivity. Qed.

Lemma Event_lt_true (a b : Event) :
  Event_lt a b = true <-> (timestamp a < timestamp b)%Z.
Proof. unfold Event_lt. apply Z.ltb_lt. Qed.

Lemma heap_hole_insert (h : list Event) (pos : nat) (x : Event) :
  heap_hole h pos -> heap_hole (<[pos := x]> h) pos.
Proof.
  intros H i c p Hi Hne Hpne Hc Hp.
  rewrite list_lookup_insert_ne in Hc by lia.
  rewrite list_lookup_insert_ne in Hp by lia.
  eapply H; eassumption.
Qed.

Lemma is_heap_hole (h : list Event) (pos : nat) : is_heap h -> heap_hole h pos.
Proof. intros H i c p Hi _ _. apply H, Hi. Qed.

(** The loop of [_siftdown] started at the root: it closes a hole under which
    the new item fits and over which the list is in order. *)
Lemma _siftdown_loop_heap (rounds : nat) :
  forall (h : list Event) (newitem : Event) (pos : nat),
    pos <= rounds -> pos < length h ->
    heap_hole h pos ->
    (forall i c p, 0 < pos -> 0 < i -> parent i = pos ->
                   h !! i = Some c -> h !! parent pos = Some p -> not_later p c) ->
    (forall i c, 0 < i -> parent i = pos -> h !! i = Some c -> not_later newitem c) ->
    is_heap (_siftdown_loop rounds h newitem 0 pos).
Proof.
  assert (Hclose : forall (h : list Event) (newitem : Event) (pos : nat),
             pos < length h -> heap_hole h pos ->
             (0 < pos -> forall p, h !! parent pos = Some p -> not_later p newitem) ->
             (forall i c, 0 < i -> parent i = pos -> h !! i = Some c ->
                          not_later newitem c) ->
             is_heap (<[pos := newitem]> h)).
  { intros h newitem pos Hlt Hhole Hup Hdown i c p Hi Hc Hp.
    destruct (decide (i = pos)) as [->|Hne].
    - rewrite list_lookup_insert_eq in Hc by assumption. injection Hc as <-.
      rewrite list_lookup_insert_ne in Hp by (pose proof (parent_lt pos Hi); lia).
      apply Hup; assumption.
    - rewrite list_lookup_insert_ne in Hc by lia.
      destruct (decide (parent i = pos)) as [Hpar|Hpne].
      + rewrite Hpar, list_lookup_insert_eq in Hp by assumption. injection Hp as <-.
        eapply Hdown; eassumption.
      + rewrite list_lookup_insert_ne in Hp by lia. eapply Hhole; eassumption. }
  induction rounds as [|rounds IH]; intros h newitem pos Hrounds Hlt Hhole Hgrand Hdown;
    cbn [_siftdown_loop].
  - apply Hclose; try assumption. intros Hpos. lia.
  - destruct (0 <? pos) eqn:Hpos.
    + apply Nat.ltb_lt in Hpos.
      pose proof (parent_lt pos Hpos) as Hpar. fold (parent pos).
      destruct (lookup_lt_is_Some_2 h (parent pos) ltac:(lia)) as [par Hparent].
      rewrite Hparent.
      assert (Hsibling : forall i c, 0 < i -> i <> pos -> parent i = parent pos ->
                                     h !! i = Some c -> not_later par c).
      { intros i c Hi Hne Hsame Hc. apply (Hhole i c par); try assumption; [lia|].
        rewrite Hsame. exact Hparent. }
      destruct (Event_lt newitem par) eqn:Hcmp.
      * apply Event_lt_true in Hcmp. apply IH.
        -- lia.
        -- rewrite length_insert. lia.
        -- intros i c p Hi Hne Hpne Hc Hp.
           destruct (decide (i = pos)) as [->|Hipos]; [contradiction|].
           rewrite list_lookup_insert_ne in Hc by lia.
           destruct (decide (parent i = pos)) as [Hchild|Hnochild].
           ++ rewrite Hchild, list_lookup_insert_eq in Hp by assumption.
              injection Hp as <-. eapply Hgrand; eassumption.
           ++ rewrite list_lookup_insert_ne in Hp by lia. eapply Hhole; eassumption.
        -- intros i c p Hpp Hi Hchild Hc Hp.
           rewrite list_lookup_insert_ne in Hp by (pose proof (parent_lt _ Hpp); lia).
           assert (Hgp : not_later p par).
           { apply (Hhole (parent pos) par p); try assumption; try lia.
             pose proof (parent_lt _ Hpp). lia. }
           destruct (decide (i = pos)) as [->|Hipos].
           ++ rewrite list_lookup_insert_eq in Hc by assumption. injection Hc as <-.
              exact Hgp.
           ++ rewrite list_lookup_insert_ne in Hc by lia.
              pose proof (Hsibling i c Hi Hipos Hchild Hc). unfold not_later in *. lia.
        -- intros i c Hi Hchild Hc.
           destruct (decide (i = pos)) as [->|Hipos].
           ++ rewrite list_lookup_insert_eq in Hc by assumption. injection Hc as <-.
              unfold not_later. lia.
           ++ rewrite list_lookup_insert_ne in Hc by lia.
              pose proof (Hsibling i c Hi Hipos Hchild Hc). unfold not_later in *. lia.
      * apply Event_lt_false in Hcmp. apply Hclose; try assumption.
        intros _ p Hp. assert (p = par) as -> by congruence. exact Hcmp.
    + apply Nat.ltb_ge in Hpos. apply Hclose; try assumption. intros Hp. lia.
Qed.

Lemma _siftdown_heap (h : list Event) (pos : nat) :
  heap_hole h pos ->
  (forall i c p, 0 < pos -> 0 < i -> parent i = pos ->
                 h !! i = Some c -> h !! parent pos = Some p -> not_later p c) ->
  (forall i c newitem, 0 < i -> parent i = pos -> h !! i = Some c ->
                       h !! pos = Some newitem -> not_later newitem c) ->
  pos < length h ->
  is_heap (_siftdown h 0 pos).
Proof.
  intros Hhole Hgrand Hdown Hlt. unfold _siftdown.
  destruct (lookup_lt_is_Some_2 h pos Hlt) as [newitem Hnew]. rewrite Hnew.
  apply _siftdown_loop_heap; try assumption; [lia|].
  intros i c Hi Hchild Hc. eapply Hdown; eassumption.
Qed.

Lemma is_heap_nil : is_heap [].
Proof. intros i c p _ Hc. rewrite lookup_nil in Hc. discriminate. Qed.

(** [heappush] keeps the invariant. *)
Lemma heappush_heap (h : list Event) (item : Event) :
  is_heap h -> is_heap (heappush h item).
Proof.
  intros Hheap. unfold heappush. rewrite length_app. cbn [length].
  replace (length h + 1 - 1) with (length h) by lia.
  assert (Hleaf : forall i c, 0 < i -> parent i = length h ->
                              (h ++ [item]) !! i = Some c -> False).
  { intros i c Hi Hchild Hc. apply lookup_lt_Some in Hc.
    rewrite length_app in Hc. cbn [length] in Hc.
    apply parent_child in Hchild; lia. }
  apply _siftdown_heap.
  - intros i c p Hi Hne Hpne Hc Hp.
    assert (Hlt : i < length h).
    { apply lookup_lt_Some in Hc. rewrite length_app in Hc. cbn [length] in Hc. lia. }
    rewrite lookup_app_l in Hc by assumption.
    rewrite lookup_app_l in Hp by (pose proof (parent_lt i Hi); lia).
    eapply Hheap; eassumption.
  - intros i c p _ Hi Hchild Hc _. destruct (Hleaf i c Hi Hchild Hc).
  - intros i c newitem Hi Hchild Hc _. destruct (Hleaf i c Hi Hchild Hc).
  - rewrite length_app. cbn [length]. lia.
Qed.

Lemma fold_heappush_heap (future_events h : list Event) :
  is_heap h -> is_heap (fold_left heappush future_events h).
Proof.
  revert h. induction future_events as [|e evs IH]; intros h Hh; simpl; [assumption|].
  apply IH, heappush_heap, Hh.
Qed.

(** In a heap nothing is earlier than the root. *)
Lemma is_heap_root (h : list Event) (root : Event) :
  is_heap h -> h !! 0 = Some root ->
  forall i x, h !! i = Some x -> not_later root x.
Proof.
  intros Hheap Hroot i. induction i as [i IH] using lt_wf_ind. intros x Hx.
  destruct (decide (i = 0)) as [->|Hpos].
  - assert (x = root) as -> by congruence. unfold not_later. lia.
  - pose proof (parent_lt i ltac:(lia)) as Hlt.
    destruct (lookup_lt_is_Some_2 h (parent i)) as [p Hp].
    { apply lookup_lt_Some in Hx. lia. }
    pose proof (IH (parent i) Hlt p Hp). pose proof (Hheap i x p ltac:(lia) Hx Hp).
    unfold not_later in *. lia.
Qed.

(** The loop of [_siftup]: the hole goes down to a leaf, the smaller child
    moving up each time. *)
Lemma _siftup_loop_hole (rounds : nat) :
  forall (h : list Event) (endpos pos : nat) (h' : list Event) (leaf : nat),
    endpos = length h ->
    endpos <= pos + rounds -> pos < endpos ->
    heap_hole h pos ->
    (forall i c p, 0 < pos -> 0 < i -> parent i = pos ->
                   h !! i = Some c -> h !! parent pos = Some p -> not_later p c) ->
    _siftup_loop rounds h endpos pos (2 * pos + 1) = (h', leaf) ->
    length h' = length h /\ leaf < length h /\ heap_hole h' leaf
    /\ length h <= 2 * leaf + 1.
Proof.
  induction rounds as [|rounds IH];
    intros h endpos pos h' leaf Hend Hrounds Hlt Hhole Hgrand Hloop;
    cbn [_siftup_loop] in Hloop.
  - injection Hloop as <- <-. repeat split; try assumption; lia.
  - destruct (2 * pos + 1 <? endpos) eqn:Hchild.
    2:{ apply Nat.ltb_ge in Hchild. injection Hloop as <- <-.
        repeat split; try assumption; lia. }
    apply Nat.ltb_lt in Hchild.
    destruct (lookup_lt_is_Some_2 h (2 * pos + 1) ltac:(lia)) as [child Hc].
    set (chosen := match h !! (2 * pos + 1), h !! (2 * pos + 1 + 1) with
                   | Some child, Some rchild =>
                       if (2 * pos + 1 + 1 <? endpos) && negb (Event_lt child rchild)
                       then 2 * pos + 1 + 1 else 2 * pos + 1
                   | _, _ => 2 * pos + 1
                   end) in Hloop.
    (* the child chosen is the smaller one *)
    assert (Hchosen : exists x, h !! chosen = Some x
                                /\ parent chosen = pos /\ pos < chosen
                                /\ forall i c, 0 < i -> parent i = pos ->
                                               h !! i = Some c -> not_later x c).
    { subst chosen. rewrite Hc.
      assert (Hkids : forall i, 0 < i -> parent i = pos ->
                                i = 2 * pos + 1 \/ i = 2 * pos + 1 + 1).
      { intros i Hi Hp. apply parent_child in Hp; lia. }
      destruct (h !! (2 * pos + 1 + 1)) as [rchild|] eqn:Hr.
      - assert (Hrlt : 2 * pos + 1 + 1 < endpos)
          by (apply lookup_lt_Some in Hr; lia).
        apply Nat.ltb_lt in Hrlt. rewrite Hrlt. cbn [andb].
        destruct (Event_lt child rchild) eqn:Hcmp; cbn [negb].
        + apply Event_lt_true in Hcmp. exists child.
          split; [assumption|]. split; [apply parent_child; lia|]. split; [lia|].
          intros i c Hi Hp Hic. destruct (Hkids i Hi Hp) as [->| ->];
            [assert (c = child) as -> by congruence|
             assert (c = rchild) as -> by congruence]; unfold not_later; lia.
        + apply Event_lt_false in Hcmp. exists rchild.
          split; [assumption|]. split; [apply parent_child; lia|]. split; [lia|].
          intros i c Hi Hp Hic. destruct (Hkids i Hi Hp) as [->| ->];
            [assert (c = child) as -> by congruence|
             assert (c = rchild) as -> by congruence]; unfold not_later in *; lia.
      - exists child. split; [assumption|]. split; [apply parent_child; lia|].
        split; [lia|].
        intros i c Hi Hp Hic. destruct (Hkids i Hi Hp) as [->| ->];
          [assert (c = child) as -> by congruence; unfold not_later; lia|congruence]. }
    destruct Hchosen as (x & Hx & Hpar & Hbelow & Hsmallest).
    rewrite Hx in Hloop.
    assert (Hlen : length (<[pos := x]> h) = length h) by apply length_insert.
    apply IH in Hloop.
    + rewrite Hlen in Hloop. exact Hloop.
    + rewrite Hlen. exact Hend.
    + lia.
    + apply lookup_lt_Some in Hx. lia.
    + intros i c p Hi Hne Hpne Hic Hp.
      destruct (decide (i = pos)) as [->|Hipos].
      * rewrite list_lookup_insert_eq in Hic by lia. injection Hic as <-.
        rewrite list_lookup_insert_ne in Hp by (pose proof (parent_lt _ Hi); lia).
        apply (Hgrand chosen x p); try assumption; lia.
      * rewrite list_lookup_insert_ne in Hic by lia.
        destruct (decide (parent i = pos)) as [Hip|Hip].
        -- rewrite Hip, list_lookup_insert_eq in Hp by lia. injection Hp as <-.
           apply (Hsmallest i c); assumption.
        -- rewrite list_lookup_insert_ne in Hp by lia. eapply Hhole; eassumption.
    + intros i c p _ Hi Hip Hic Hp.
      rewrite Hpar, list_lookup_insert_eq in Hp by lia. injection Hp as <-.
      assert (Hne : i <> pos) by (pose proof (parent_lt _ Hi); lia).
      rewrite list_lookup_insert_ne in Hic by lia.
      apply (Hhole i c x); try assumption; [lia|]. rewrite Hip. exact Hx.
Qed.

Lemma _siftup_heap (h : list Event) :
  heap_hole h 0 -> is_heap (_siftup h 0).
Proof.
  intros Hhole. unfold _siftup.
  destruct (h !! 0) as [newitem|] eqn:Hnew.
  2:{ destruct h; [apply is_heap_nil|discriminate]. }
  destruct (_siftup_loop (length h) h (length h) 0 (2 * 0 + 1)) as [h' leaf] eqn:Hloop.
  apply _siftup_loop_hole in Hloop as (Hlen & Hleaf & Hhole' & Hkids);
    [|reflexivity|lia|apply lookup_lt_Some in Hnew; lia|assumption|intros; lia].
  assert (Hnone : forall i c, 0 < i -> parent i = leaf ->
                              <[leaf := newitem]> h' !! i = Some c -> False).
  { intros i c Hi Hp Hc. apply lookup_lt_Some in Hc. rewrite length_insert in Hc.
    apply parent_child in Hp; lia. }
  apply _siftdown_heap.
  - apply heap_hole_insert, Hhole'.
  - intros i c p _ Hi Hp Hc _. destruct (Hnone i c Hi Hp Hc).
  - intros i c x Hi Hp Hc _. destruct (Hnone i c Hi Hp Hc).
  - rewrite length_insert. lia.
Qed.

(** [heappop] takes an item that nothing in the heap is earlier than, and
    keeps the invariant. *)
Lemma heappop_heap (h h' : list Event) (e : Event) :
  is_heap h -> heappop h = Some (e, h') ->
  is_heap h' /\ forall x, x ∈ h -> not_later e x.
Proof.
  intros Hheap Hpop. unfold heappop in Hpop.
  destruct h as [|x0 h0] using rev_ind; [discriminate|]. clear IHh0.
  rewrite last_snoc, removelast_last in Hpop.
  destruct h0 as [|returnitem rest].
  - injection Hpop as <- <-. split; [apply is_heap_nil|].
    intros x Hx. apply list_elem_of_singleton in Hx as ->. unfold not_later. lia.
  - injection Hpop as <- <-. split.
    + apply _siftup_heap. change 0 with (0 + 0) at 1. cbn [Nat.add].
      apply (heap_hole_insert (returnitem :: rest) 0 x0).
      intros i c p Hi _ _ Hc Hp. apply (Hheap i c p Hi).
      * rewrite lookup_app_l; [assumption|]. eapply lookup_lt_Some; eassumption.
      * rewrite lookup_app_l; [assumption|]. eapply lookup_lt_Some; eassumption.
    + intros x Hx. apply list_elem_of_lookup in Hx as [i Hi].
      eapply is_heap_root; [exact Hheap|reflexivity|exact Hi].
Qed.

(** ** Time *)

Lemma call_get_checkout_time_pos (g : Globals) (customer : Customer.t)
  (line : CheckoutLine.t) (d : Z) :
  call_get_checkout_time g customer line = Ok d ->
  (0 <= Customer.num_items customer)%Z -> (0 < d)%Z.
Proof.
  unfold call_get_checkout_time, get_checkout_time_deterministic,
    get_checkout_time_stochastic.
  destruct (get_checkout_time g) as [[|]|]; try discriminate.
  destruct (known_line_type (CheckoutLine.type line)) eqn:Hknown; [|discriminate].
  apply known_line_type_spec in Hknown as [->|[->| ->]]; simpl;
    intros [= <-] Hitems; lia.
Qed.

Lemma Event_do_items_nonneg (g : Globals) (e : Event) (w w' : World)
  (future_events : list Event) :
  items_nonneg w -> Event_do g e w = Ok (w', future_events) -> items_nonneg w'.
Proof.
  intros Hitems Hdo cu' Hin.
  apply Event_do_effect in Hdo as (Hcs & _).
  unfold customers_effect in Hcs. destruct (stamp e) as [[c f]|] eqn:Hstamp.
  - destruct Hcs as (cu & Hcu & Hcs'). rewrite Hcs' in Hin.
    apply elem_of_insert_cases in Hin as [->|Hin]; [|apply Hitems, Hin].
    destruct (stamp_cases _ _ _ Hstamp) as (Hsame & _). rewrite Hsame.
    apply Hitems. eapply list_elem_of_lookup_2; eassumption.
  - rewrite Hcs in Hin. apply Hitems, Hin.
Qed.

(** What an event returns is not due before the event itself, when no
    customer has a negative number of items. *)
Lemma Event_do_future_not_earlier (g : Globals) (e : Event) (w w' : World)
  (future_events : list Event) :
  items_nonneg w -> Event_do g e w = Ok (w', future_events) ->
  nothing_overdue (timestamp e) future_events.
Proof.
  intros Hitems Hdo. unfold nothing_overdue.
  destruct e as [t c l|t c l|t c|t l|t l].
  - cbn [Event_do] in Hdo.
    apply BeginCheckoutEvent_do_inv in Hdo as (cu & line & d & Hc & _ & Hd & _ & ->).
    apply call_get_checkout_time_pos in Hd;
      [|cbn [Customer.num_items Customer.set_begin_timestamp]; apply Hitems;
        eapply list_elem_of_lookup_2; eassumption].
    repeat constructor. simpl. lia.
  - apply Event_do_effect in Hdo as (_ & _ & l0 & line & line' & _ & _ & Heff).
    inversion Heff; subst; repeat constructor; simpl; lia.
  - apply Event_do_effect in Hdo as (_ & _ & l0 & line & line' & _ & _ & Heff).
    inversion Heff; subst; repeat constructor; simpl; lia.
  - apply Event_do_effect in Hdo as (_ & _ & l0 & line & line' & _ & _ & Heff).
    inversion Heff; subst; repeat constructor.
  - apply Event_do_effect in Hdo as (_ & _ & l0 & line & line' & _ & _ & Heff).
    inversion Heff; subst; repeat constructor.
Qed.

(** An invariant that depends on the time of the event under way is kept by
    the loop of [run]: the priority queue hands out the events in the order
    of their timestamps. *)
Lemma engine_exec_preserves_in_time (Inv : Z -> list Event -> World -> Prop)
  (g : Globals) :
  (forall now evs evs' w, evs ≡ₚ evs' -> Inv now evs w -> Inv now evs' w) ->
  (forall now e heap' w w' future_events,
     Inv now (e :: heap') w ->
     (now <= timestamp e)%Z -> nothing_overdue (timestamp e) heap' ->
     Event_do g e w = Ok (w', future_events) ->
     Inv (timestamp e) (future_events ++ heap') w'
     /\ nothing_overdue (timestamp e) future_events) ->
  forall conf evs conf',
    engine_exec g conf evs conf' ->
    forall now,
      is_heap (fst conf) -> nothing_overdue now (fst conf) ->
      Inv now (fst conf) (snd conf) ->
      StronglySorted not_later evs /\ nothing_overdue now evs
      /\ exists now', (now <= now')%Z /\ Inv now' (fst conf') (snd conf').
Proof.
  intros Hperm Hstep conf evs conf' Hexec.
  induction Hexec as [conf|heap w e heap' w' fut evs conf' Hpop Hdo Hexec IH];
    intros now Hheap Hdue Hinv.
  - split; [constructor|]. split; [constructor|]. exists now. split; [lia|assumption].
  - cbn [fst snd] in *.
    destruct (heappop_heap _ _ _ Hheap Hpop) as [Hheap' Hmin].
    pose proof (heappop_perm _ _ _ Hpop) as Hp.
    assert (Hnow : (now <= timestamp e)%Z).
    { unfold nothing_overdue in Hdue. rewrite Hp in Hdue.
      apply Forall_cons in Hdue as [Hdue _]. exact Hdue. }
    assert (Hrest : nothing_overdue (timestamp e) heap').
    { apply Forall_forall. intros x Hx. apply Hmin. rewrite Hp.
      apply list_elem_of_further, Hx. }
    destruct (Hstep now e heap' w w' fut) as [Hinv' Hfut]; try assumption.
    { eapply Hperm; [exact Hp|exact Hinv]. }
    destruct (IH (timestamp e)) as (Hsorted & Hlater & now' & Hnow' & Hfinal).
    + apply fold_heappush_heap, Hheap'.
    + unfold nothing_overdue. rewrite fold_heappush_perm.
      apply Forall_app. split; assumption.
    + eapply Hperm; [symmetry; apply fold_heappush_perm|exact Hinv'].
    + split; [|split].
      * constructor; [assumption|]. exact Hlater.
      * constructor; [assumption|].
        eapply Forall_impl; [exact Hlater|]. cbv beta. intros x Hx. lia.
      * exists now'. split; [lia|assumption].
Qed.

Lemma lower_bound_exists (evs : list Event) : exists now, nothing_overdue now evs.
Proof.
  induction evs as [|e evs [now Hnow]].
  - exists 0%Z. constructor.
  - exists (Z.min now (timestamp e)). constructor; [lia|].
    eapply Forall_impl; [exact Hnow|]. cbv beta. intros x Hx. lia.
Qed.

Lemma initial_conf_heap (line_counts : list (string * Z)) (text : string) conf0 :
  initial_conf (Simulator__init__ line_counts) text = Ok conf0 ->
  is_heap (fst conf0).
Proof.
  intros H. apply initial_conf_inv in H as (evs & w0 & _ & -> & _).
  apply fold_heappush_heap, is_heap_nil.
Qed.

(** X11. Events are executed in the order of their timestamps.  In a run on
    a fresh simulator in which no customer has a negative number of items,
    the events the loop executes, initial and future ones alike, come in
    non-decreasing order of timestamp: simulated time never goes back. *)
Theorem events_in_time_order (g : Globals) (line_counts : list (string * Z))
  (text : string) conf0 evs conf :
  initial_conf (Simulator__init__ line_counts) text = Ok conf0 ->
  items_nonneg (snd conf0) ->
  engine_exec g conf0 evs conf ->
  StronglySorted not_later evs.
Proof.
  intros Hinit Hitems Hexec.
  destruct (lower_bound_exists (fst conf0)) as [now Hnow].
  refine (proj1 (engine_exec_preserves_in_time (fun _ _ w => items_nonneg w) g
                   _ _ _ _ _ Hexec now (initial_conf_heap _ _ _ Hinit) Hnow Hitems)).
  - auto.
  - intros now0 e heap' w w' fut Hw _ _ Hdo.
    split; [eapply Event_do_items_nonneg; eassumption|].
    eapply Event_do_future_not_earlier; eassumption.
Qed.

Lemma events_in_time_order_witness :
  StronglySorted not_later
    [JoinCheckoutEvent 0 0; BeginCheckoutEvent 0 0 0; FinishCheckoutEvent 10 0 0].
Proof.
  apply (events_in_time_order (sample_globals LeastPerson) one_cashier_config text_3
           conf_arriving _ conf_finished).
  - vm_compute. reflexivity.
  - intros cu Hin. apply list_elem_of_singleton in Hin as ->. simpl. lia.
  - eapply engine_exec_cons; [vm_compute; reflexivity|vm_compute; reflexivity|].
    eapply engine_exec_cons; [vm_compute; reflexivity|vm_compute; reflexivity|].
    eapply engine_exec_cons; [vm_compute; reflexivity|vm_compute; reflexivity|].
    apply engine_exec_nil.
Defined.

(** ** One customer at a time *)

(** An event leaves the timestamps of a customer alone, unless it is the
    event that sets them. *)
Lemma joined_at_event (g : Globals) (e : Event) (w w' : World)
  (future_events : list Event) (c : cref) (j : Z) :
  Event_do g e w = Ok (w', future_events) ->
  c ∉ arriving [e] ->
  joined_at w c j -> joined_at w' c j.
Proof.
  intros Hdo Hnot (cu & Hcu & Hj).
  apply Event_do_effect in Hdo as (Hcs & _).
  destruct (customers_effect_lookup _ _ _ c cu Hcs Hcu)
    as [[Hsame _]|(f & Hstamp & Hnew)]; [exists cu; auto|].
  destruct (stamp_cases _ _ _ Hstamp)
    as (_ & [(t & l1 & -> & ->)|[(t & l1 & -> & ->)|(t & -> & ->)]]).
  - exists (Customer.set_begin_timestamp t cu). auto.
  - exists (Customer.set_finish_timestamp t cu). auto.
  - exfalso. apply Hnot. simpl. apply list_elem_of_here.
Qed.

Lemma begun_at_event (g : Globals) (e : Event) (w w' : World)
  (future_events : list Event) (c : cref) (b : Z) :
  Event_do g e w = Ok (w', future_events) ->
  (forall t l, e <> BeginCheckoutEvent t c l) ->
  begun_at w c b -> begun_at w' c b.
Proof.
  intros Hdo Hnot (cu & Hcu & Hb).
  apply Event_do_effect in Hdo as (Hcs & _).
  destruct (customers_effect_lookup _ _ _ c cu Hcs Hcu)
    as [[Hsame _]|(f & Hstamp & Hnew)]; [exists cu; auto|].
  destruct (stamp_cases _ _ _ Hstamp)
    as (_ & [(t & l1 & -> & ->)|[(t & l1 & -> & ->)|(t & -> & ->)]]).
  - destruct (Hnot t l1 eq_refl).
  - exists (Customer.set_finish_timestamp t cu). auto.
  - exists (Customer.set_join_timestamp t cu). auto.
Qed.

Lemma finished_at_event (g : Globals) (e : Event) (w w' : World)
  (future_events : list Event) (c : cref) (f : Z) :
  Event_do g e w = Ok (w', future_events) ->
  (forall t l, e <> FinishCheckoutEvent t c l) ->
  finished_at w c f -> finished_at w' c f.
Proof.
  intros Hdo Hnot (cu & Hcu & Hf).
  apply Event_do_effect in Hdo as (Hcs & _).
  destruct (customers_effect_lookup _ _ _ c cu Hcs Hcu)
    as [[Hsame _]|(f0 & Hstamp & Hnew)]; [exists cu; auto|].
  destruct (stamp_cases _ _ _ Hstamp)
    as (_ & [(t & l1 & -> & ->)|[(t & l1 & -> & ->)|(t & -> & ->)]]).
  - exists (Customer.set_begin_timestamp t cu). auto.
  - destruct (Hnot t l1 eq_refl).
  - exists (Customer.set_join_timestamp t cu). auto.
Qed.

(** The customer an event stamps is still to arrive or at the head of a
    line: it is not a served customer, and a customer waiting is not the
    customer of a join event. *)
Lemma served_untouched (e : Event) (heap' : list Event) (w : World)
  (l : lref) (line : CheckoutLine.t) (c : cref) :
  engine_invariant (e :: heap') w ->
  everybody_accounted (e :: heap') w ->
  GroceryStore.lines (store w) !! l = Some line ->
  c ∈ CheckoutLine.served line ->
  (c ∉ arriving [e])
  /\ (forall t l', e <> BeginCheckoutEvent t c l')
  /\ (forall t l', e <> FinishCheckoutEvent t c l').
Proof.
  intros (Hok & _) Hacc Hl Hc. apply Forall_cons in Hok as [Hok _].
  destruct (accounted_places _ _ Hacc) as (_ & Hplace_q & Hplace_s).
  split; [|split].
  - intros Hin. apply (Hplace_s l line c Hl Hc).
    change (e :: heap') with ([e] ++ heap'). rewrite arriving_app.
    apply elem_of_app. left. exact Hin.
  - intros t l' ->. destruct Hok as (line1 & Hl1 & Hhead).
    destruct (Hplace_q l' line1 c Hl1 (head_elem_of _ _ Hhead)) as (_ & Hnot & _).
    exact (Hnot l line Hl Hc).
  - intros t l' ->. destruct Hok as [(line1 & Hl1 & Hhead) _].
    destruct (Hplace_q l' line1 c Hl1 (head_elem_of _ _ Hhead)) as (_ & Hnot & _).
    exact (Hnot l line Hl Hc).
Qed.

Lemma waiting_not_arriving (e : Event) (heap' : list Event) (w : World)
  (l : lref) (line : CheckoutLine.t) (c : cref) :
  everybody_accounted (e :: heap') w ->
  GroceryStore.lines (store w) !! l = Some line ->
  c ∈ CheckoutLine.queue line ->
  c ∉ arriving [e].
Proof.
  intros Hacc Hl Hc Hin.
  destruct (accounted_places _ _ Hacc) as (_ & Hplace_q & _).
  destruct (Hplace_q l line c Hl Hc) as (Hnot & _). apply Hnot.
  change (e :: heap') with ([e] ++ heap'). rewrite arriving_app.
  apply elem_of_app. left. exact Hin.
Qed.

Lemma last_elem_of {A : Type} (xs : list A) (x : A) : last xs = Some x -> x ∈ xs.
Proof.
  intros H. destruct xs as [|y xs] using rev_ind; [discriminate|].
  rewrite last_snoc in H. injection H as ->. apply elem_of_app. right.
  apply list_elem_of_here.
Qed.

(** The rule holds on after an event for a customer whose join the event
    does not set, behind a served customer. *)
Lemma begin_rule_event (g : Globals) (e : Event) (heap' : list Event) (w w' : World)
  (future_events : list Event) (l : lref) (line : CheckoutLine.t) (c : cref) (b : Z) :
  engine_invariant (e :: heap') w ->
  everybody_accounted (e :: heap') w ->
  Event_do g e w = Ok (w', future_events) ->
  GroceryStore.lines (store w) !! l = Some line ->
  c ∉ arriving [e] ->
  begin_rule w (last (CheckoutLine.served line)) c b ->
  begin_rule w' (last (CheckoutLine.served line)) c b.
Proof.
  intros Hinv Hacc Hdo Hl Hnot (j & Hj & Hprev).
  exists j. split; [eapply joined_at_event; eassumption|].
  destruct (last (CheckoutLine.served line)) as [p|] eqn:Hlast; [|assumption].
  destruct Hprev as (f & Hf & Hb). exists f. split; [|assumption].
  eapply finished_at_event; [eassumption| |exact Hf].
  eapply served_untouched; try eassumption. apply last_elem_of, Hlast.
Qed.

Lemma one_at_a_time_snoc (w : World) (served : list cref) (c : cref) :
  forall prev,
    one_at_a_time w prev (served ++ [c])
    <-> one_at_a_time w prev served
        /\ exists b, begun_at w c b
                     /\ begin_rule w (match last served with
                                      | Some p => Some p
                                      | None => prev
                                      end) c b.
Proof.
  induction served as [|c0 served IH]; intros prev; simpl.
  - tauto.
  - rewrite IH. destruct served as [|c1 served']; simpl; [tauto|].
    assert (Hlast : last (c1 :: served') <> None).
    { intros H. apply last_None in H. discriminate. }
    change (match served' with [] => Some c1 | _ :: _ => last served' end)
      with (last (c1 :: served')).
    destruct (last (c1 :: served')) as [p|]; [tauto|contradiction].
Qed.

Lemma one_at_a_time_event (g : Globals) (e : Event) (heap' : list Event) (w w' : World)
  (future_events : list Event) (l : lref) (line : CheckoutLine.t) :
  engine_invariant (e :: heap') w ->
  everybody_accounted (e :: heap') w ->
  Event_do g e w = Ok (w', future_events) ->
  GroceryStore.lines (store w) !! l = Some line ->
  one_at_a_time w None (CheckoutLine.served line) ->
  one_at_a_time w' None (CheckoutLine.served line).
Proof.
  intros Hinv Hacc Hdo Hl.
  assert (Hgen : forall served prev,
             (forall c, c ∈ served -> c ∈ CheckoutLine.served line) ->
             (forall p, prev = Some p -> p ∈ CheckoutLine.served line) ->
             one_at_a_time w prev served -> one_at_a_time w' prev served).
  { induction served as [|c served IH]; intros prev Hsub Hprev; simpl; [auto|].
    intros [(b & Hb & j & Hj & Hrule) Hrest].
    assert (Hc : c ∈ CheckoutLine.served line) by apply Hsub, list_elem_of_here.
    destruct (served_untouched _ _ _ _ _ _ Hinv Hacc Hl Hc) as (Hnj & Hnb & Hnf).
    split.
    - exists b. split; [eapply begun_at_event; eassumption|].
      exists j. split; [eapply joined_at_event; eassumption|].
      destruct prev as [p|]; [|assumption].
      destruct Hrule as (f & Hf & Hmax). exists f. split; [|assumption].
      eapply finished_at_event; [eassumption| |exact Hf].
      eapply served_untouched; try eassumption. apply Hprev. reflexivity.
    - apply IH; [| |assumption].
      + intros c0 Hc0. apply Hsub, list_elem_of_further, Hc0.
      + intros p [= <-]. exact Hc. }
  apply Hgen; [auto|discriminate].
Qed.

Lemma served_kept (g : Globals) (e : Event) (w w' : World)
  (future_events : list Event) (l1 : lref) (line1 : CheckoutLine.t) :
  Event_do g e w = Ok (w', future_events) ->
  GroceryStore.lines (store w) !! l1 = Some line1 ->
  (forall t c, e <> FinishCheckoutEvent t c l1) ->
  exists line1', GroceryStore.lines (store w') !! l1 = Some line1'
                 /\ CheckoutLine.served line1' = CheckoutLine.served line1.
Proof.
  intros Hdo Hl1 Hnot.
  apply Event_do_effect in Hdo as (_ & _ & l & line & line' & Hl & Hls & Heff).
  rewrite Hls. destruct (decide (l1 = l)) as [->|Hne].
  - rewrite list_lookup_insert_eq by (eapply lookup_lt_Some; eassumption).
    assert (line1 = line) as -> by congruence.
    exists line'. split; [reflexivity|].
    destruct Heff as [t c d|t c hd Hqueue|t c hd next rest Hqueue|t c Hqueue Hopen
                     |t c Hqueue Hopen|t|t]; try reflexivity.
    + destruct (Hnot t c eq_refl).
    + destruct (Hnot t c eq_refl).
  - rewrite list_lookup_insert_ne by lia. eauto.
Qed.

(** Two service events of one line are never in the priority queue
    together. *)
Lemma one_service_event (e e1 : Event) (heap' : list Event) (w : World) (l : lref) :
  engine_invariant (e :: heap') w ->
  e1 ∈ heap' -> serves l e = true -> serves l e1 = true -> False.
Proof.
  intros (_ & Hcount & _) Hin He He1.
  pose proof (service_count_two l e e1 heap' He Hin He1). specialize (Hcount l). lia.
Qed.

Lemma event_clocked_event (g : Globals) (e : Event) (heap' : list Event)
  (w w' : World) (future_events : list Event) (e1 : Event) :
  engine_invariant (e :: heap') w ->
  everybody_accounted (e :: heap') w ->
  Event_do g e w = Ok (w', future_events) ->
  e1 ∈ heap' ->
  event_clocked w e1 -> event_clocked w' e1.
Proof.
  intros Hinv Hacc Hdo Hin Hclocked.
  pose proof Hinv as (Hok & _).
  pose proof (proj1 (Forall_forall _ _) Hok) as Hall.
  pose proof (Hall e (list_elem_of_here _ _)) as Hok_e.
  pose proof (Hall e1 (list_elem_of_further _ _ _ Hin)) as Hok_1.
  destruct (accounted_places _ _ Hacc) as (_ & Hplace_q & _).
  destruct e1 as [t1 c1 l1|t1 c1 l1| | |]; try exact I.
  - (* a begin that waits *)
    destruct Hclocked as (line1 & Hl1 & Hrule).
    destruct Hok_1 as (line1_ & Hl1_ & Hhead1).
    assert (line1_ = line1) as -> by congruence.
    destruct (served_kept _ _ _ _ _ l1 line1 Hdo Hl1) as (line1' & Hl1' & Hserved).
    { intros t c ->. eapply (one_service_event _ (BeginCheckoutEvent t1 c1 l1));
        try eassumption; cbn [serves]; apply Nat.eqb_refl. }
    exists line1'. split; [assumption|]. rewrite Hserved.
    eapply begin_rule_event; try eassumption.
    eapply waiting_not_arriving; try eassumption. apply head_elem_of, Hhead1.
  - (* a finish that waits *)
    destruct Hclocked as (line1 & b & Hl1 & Hb & Hlt & Hrule).
    destruct Hok_1 as [(line1_ & Hl1_ & Hhead1) _].
    assert (line1_ = line1) as -> by congruence.
    destruct (served_kept _ _ _ _ _ l1 line1 Hdo Hl1) as (line1' & Hl1' & Hserved).
    { intros t c ->. eapply (one_service_event _ (FinishCheckoutEvent t1 c1 l1));
        try eassumption; cbn [serves]; apply Nat.eqb_refl. }
    exists line1', b. split; [assumption|]. split; [|split; [assumption|]].
    + eapply begun_at_event; [eassumption| |exact Hb].
      intros t l ->. destruct Hok_e as (line & Hl & Hhead).
      destruct (Hplace_q l line c1 Hl (head_elem_of _ _ Hhead)) as (_ & _ & Hone).
      assert (l1 = l) as -> by (eapply Hone; [eassumption|apply head_elem_of, Hhead1]).
      eapply (one_service_event _ (FinishCheckoutEvent t1 c1 l));
        try eassumption; cbn [serves]; apply Nat.eqb_refl.
    + rewrite Hserved. eapply begin_rule_event; try eassumption.
      eapply waiting_not_arriving; try eassumption. apply head_elem_of, Hhead1.
Qed.

Lemma customers_effect_stamped (e : Event) (cs cs' : list Customer.t) (c : cref)
  (f : Customer.t -> Customer.t) :
  customers_effect e cs cs' -> stamp e = Some (c, f) ->
  exists customer, cs !! c = Some customer /\ cs' !! c = Some (f customer).
Proof.
  unfold customers_effect. intros Hcs Hstamp. rewrite Hstamp in Hcs.
  destruct Hcs as (cu & Hcu & ->). exists cu. split; [assumption|].
  apply list_lookup_insert_eq. eapply lookup_lt_Some; eassumption.
Qed.

Lemma begin_rule_joined (w : World) (prev : option cref) (c : cref) (b : Z) :
  begin_rule w prev c b -> exists j, joined_at w c j /\ (j <= b)%Z.
Proof.
  intros (j & Hj & Hrule). exists j. split; [assumption|].
  destruct prev as [p|]; [destruct Hrule as (f & _ & ->)|]; lia.
Qed.

Lemma clocked_perm (now : Z) (evs evs' : list Event) (w : World) :
  evs ≡ₚ evs' -> clocked now evs w -> clocked now evs' w.
Proof.
  intros Hp (Hinv & Hacc & Hitems & Hq & Hs & Hl & He).
  split; [eapply engine_invariant_perm; eassumption|].
  split; [eapply everybody_accounted_perm; eassumption|].
  repeat (split; [assumption|]). rewrite <- Hp. assumption.
Qed.

Lemma clocked_event (g : Globals) (now : Z) (e : Event) (heap' : list Event)
  (w w' : World) (future_events : list Event) :
  clocked now (e :: heap') w ->
  (now <= timestamp e)%Z -> nothing_overdue (timestamp e) heap' ->
  Event_do g e w = Ok (w', future_events) ->
  clocked (timestamp e) (future_events ++ heap') w'
  /\ nothing_overdue (timestamp e) future_events.
Proof.
  intros (Hinv & Hacc & Hitems & Hq & Hs & Hone & Hev) Hnow _ Hdo.
  split; [|eapply Event_do_future_not_earlier; eassumption].
  apply Forall_cons in Hev as [Hev_e Hev].
  pose proof Hinv as (Hok & _). apply Forall_cons in Hok as [Hok_e _].
  pose proof (Event_do_effect _ _ _ _ _ Hdo)
    as (Hcs & _ & l & line & line' & Hl & Hls & Heff).
  (* what was true of a waiting or served customer stays true *)
  assert (Hold_q : forall l0 line0 c0,
             GroceryStore.lines (store w) !! l0 = Some line0 ->
             c0 ∈ CheckoutLine.queue line0 ->
             exists j, joined_at w' c0 j /\ (j <= timestamp e)%Z).
  { intros l0 line0 c0 Hl0 Hc0. destruct (Hq l0 line0 c0 Hl0 Hc0) as (j & Hj & Hle).
    exists j. split; [|lia]. eapply joined_at_event; try eassumption.
    eapply waiting_not_arriving; eassumption. }
  assert (Hold_s : forall l0 line0 c0,
             GroceryStore.lines (store w) !! l0 = Some line0 ->
             c0 ∈ CheckoutLine.served line0 ->
             exists j b f, joined_at w' c0 j /\ begun_at w' c0 b /\ finished_at w' c0 f
                           /\ (j <= b < f)%Z /\ (f <= timestamp e)%Z).
  { intros l0 line0 c0 Hl0 Hc0.
    destruct (Hs l0 line0 c0 Hl0 Hc0) as (j & b & f & Hj & Hb & Hf & Hord & Hle).
    destruct (served_untouched _ _ _ _ _ _ Hinv Hacc Hl0 Hc0) as (Hnj & Hnb & Hnf).
    exists j, b, f. split; [eapply joined_at_event; eassumption|].
    split; [eapply begun_at_event; eassumption|].
    split; [eapply finished_at_event; eassumption|]. split; [assumption|lia]. }
  split; [eapply engine_invariant_event; eassumption|].
  split; [eapply everybody_accounted_event; eassumption|].
  split; [eapply Event_do_items_nonneg; eassumption|].
  destruct Heff as [t c d|t c hd Hqueue|t c hd next rest Hqueue|t c Hqueue Hopen
                   |t c Hqueue Hopen|t|t]; cbn [timestamp] in *.
  - (* begin *)
    rewrite list_insert_id in Hls by assumption.
    destruct Hev_e as (line_ & Hl_ & Hrule). assert (line_ = line) as -> by congruence.
    destruct Hok_e as (line_ & Hl_' & Hhead). assert (line_ = line) as -> by congruence.
    destruct (customers_effect_stamped _ _ _ c _ Hcs eq_refl) as (cu & Hcu & Hcu').
    split; [intros l0 line0 c0 Hl0; rewrite Hls in Hl0; eauto|].
    split; [intros l0 line0 c0 Hl0; rewrite Hls in Hl0; eauto|].
    split; [intros l0 line0 Hl0; rewrite Hls in Hl0;
            eapply one_at_a_time_event; eauto|].
    apply Forall_app. split.
    + pose proof Hdo as Hbegin. cbn [Event_do] in Hbegin.
      apply BeginCheckoutEvent_do_inv in Hbegin
        as (cu0 & line0 & d0 & Hc0 & Hl0 & Hd & _ & Hfut).
      injection Hfut as Hfut. assert (d = d0) as -> by lia.
      assert (cu0 = cu) as -> by congruence. assert (line0 = line) as -> by congruence.
      apply call_get_checkout_time_pos in Hd;
        [|cbn [Customer.num_items Customer.set_begin_timestamp]; apply Hitems;
          eapply list_elem_of_lookup_2; eassumption].
      repeat constructor. cbn [event_clocked]. exists line, t.
      split; [rewrite Hls; assumption|].
      split; [exists (Customer.set_begin_timestamp t cu); auto|]. split; [lia|].
      eapply begin_rule_event; try eassumption.
      eapply waiting_not_arriving; try eassumption. apply head_elem_of, Hhead.
    + apply Forall_forall. intros e1 He1. eapply event_clocked_event; try eassumption.
      apply (proj1 (Forall_forall _ _) Hev e1 He1).
  - (* finish, nobody behind *)
    destruct Hev_e as (line_ & b & Hl_ & Hb & Hlt & Hrule).
    assert (line_ = line) as -> by congruence.
    destruct Hok_e as [(line_ & Hl_' & Hhead) _]. assert (line_ = line) as -> by congruence.
    rewrite Hqueue in Hhead. injection Hhead as ->.
    destruct (customers_effect_stamped _ _ _ c _ Hcs eq_refl) as (cu & Hcu & Hcu').
    assert (Hnew : exists j b f, joined_at w' c j /\ begun_at w' c b /\ finished_at w' c f
                                 /\ (j <= b < f)%Z /\ (f <= t)%Z).
    { destruct (begin_rule_joined _ _ _ _ Hrule) as (j & Hj & Hjb).
      exists j, b, t. split; [eapply joined_at_event; try eassumption; apply not_elem_of_nil|].
      split; [eapply begun_at_event; try eassumption; discriminate|].
      split; [exists (Customer.set_finish_timestamp t cu); auto|]. lia. }
    assert (Hrule' : begin_rule w' (last (CheckoutLine.served line)) c b).
    { eapply begin_rule_event; try eassumption. apply not_elem_of_nil. }
    split; [|split; [|split]].
    + intros l0 line0 c0 Hl0 Hc0. rewrite Hls in Hl0.
      apply insert_lookup_cases in Hl0 as [[-> ->]|[_ Hl0]]; [|eauto].
      apply elem_of_nil in Hc0. contradiction.
    + intros l0 line0 c0 Hl0 Hc0. rewrite Hls in Hl0.
      apply insert_lookup_cases in Hl0 as [[-> ->]|[_ Hl0]]; [|eauto].
      cbn [CheckoutLine.served] in Hc0. apply elem_of_app in Hc0 as [Hc0|Hc0]; [eauto|].
      apply list_elem_of_singleton in Hc0 as ->. exact Hnew.
    + intros l0 line0 Hl0. rewrite Hls in Hl0.
      apply insert_lookup_cases in Hl0 as [[-> ->]|[_ Hl0]];
        [|eapply one_at_a_time_event; eauto].
      cbn [CheckoutLine.served]. apply one_at_a_time_snoc.
      split; [eapply one_at_a_time_event; eauto|].
      exists b. split; [eapply begun_at_event; try eassumption; discriminate|].
      destruct (last (CheckoutLine.served line)); exact Hrule'.
    + apply Forall_forall. intros e1 He1. eapply event_clocked_event; try eassumption.
      apply (proj1 (Forall_forall _ _) Hev e1 He1).
  - (* finish, the next customer begins *)
    destruct Hev_e as (line_ & b & Hl_ & Hb & Hlt & Hrule).
    assert (line_ = line) as -> by congruence.
    destruct Hok_e as [(line_ & Hl_' & Hhead) _]. assert (line_ = line) as -> by congruence.
    rewrite Hqueue in Hhead. injection Hhead as ->.
    destruct (customers_effect_stamped _ _ _ c _ Hcs eq_refl) as (cu & Hcu & Hcu').
    assert (Hnew : exists j b f, joined_at w' c j /\ begun_at w' c b /\ finished_at w' c f
                                 /\ (j <= b < f)%Z /\ (f <= t)%Z).
    { destruct (begin_rule_joined _ _ _ _ Hrule) as (j & Hj & Hjb).
      exists j, b, t. split; [eapply joined_at_event; try eassumption; apply not_elem_of_nil|].
      split; [eapply begun_at_event; try eassumption; discriminate|].
      split; [exists (Customer.set_finish_timestamp t cu); auto|]. lia. }
    assert (Hrule' : begin_rule w' (last (CheckoutLine.served line)) c b).
    { eapply begin_rule_event; try eassumption. apply not_elem_of_nil. }
    split; [|split; [|split]].
    + intros l0 line0 c0 Hl0 Hc0. rewrite Hls in Hl0.
      apply insert_lookup_cases in Hl0 as [[-> ->]|[_ Hl0]]; [|eauto].
      cbn [CheckoutLine.queue] in Hc0. apply (Hold_q l line c0 Hl).
      rewrite Hqueue. apply list_elem_of_further, Hc0.
    + intros l0 line0 c0 Hl0 Hc0. rewrite Hls in Hl0.
      apply insert_lookup_cases in Hl0 as [[-> ->]|[_ Hl0]]; [|eauto].
      cbn [CheckoutLine.served] in Hc0. apply elem_of_app in Hc0 as [Hc0|Hc0]; [eauto|].
      apply list_elem_of_singleton in Hc0 as ->. exact Hnew.
    + intros l0 line0 Hl0. rewrite Hls in Hl0.
      apply insert_lookup_cases in Hl0 as [[-> ->]|[_ Hl0]];
        [|eapply one_at_a_time_event; eauto].
      cbn [CheckoutLine.served]. apply one_at_a_time_snoc.
      split; [eapply one_at_a_time_event; eauto|].
      exists b. split; [eapply begun_at_event; try eassumption; discriminate|].
      destruct (last (CheckoutLine.served line)); exact Hrule'.
    + apply Forall_app. split.
      * repeat constructor. cbn [event_clocked]. eexists.
        split; [rewrite Hls; apply list_lookup_insert_eq; eapply lookup_lt_Some; eassumption|].
        cbn [CheckoutLine.served]. rewrite last_snoc.
        destruct (Hold_q l line next Hl) as (j & Hj & Hle).
        { rewrite Hqueue. apply list_elem_of_further, list_elem_of_here. }
        exists j. split; [assumption|]. exists t.
        split; [exists (Customer.set_finish_timestamp t cu); auto|]. lia.
      * apply Forall_forall. intros e1 He1. eapply event_clocked_event; try eassumption.
        apply (proj1 (Forall_forall _ _) Hev e1 He1).
  - (* join, nobody on the line *)
    destruct (customers_effect_stamped _ _ _ c _ Hcs eq_refl) as (cu & Hcu & Hcu').
    assert (Hjoined : joined_at w' c t)
      by (exists (Customer.set_join_timestamp t cu); auto).
    split; [|split; [|split]].
    + intros l0 line0 c0 Hl0 Hc0. rewrite Hls in Hl0.
      apply insert_lookup_cases in Hl0 as [[-> ->]|[_ Hl0]]; [|eauto].
      cbn [CheckoutLine.queue] in Hc0. apply list_elem_of_singleton in Hc0 as ->.
      exists t. split; [assumption|lia].
    + intros l0 line0 c0 Hl0 Hc0. rewrite Hls in Hl0.
      apply insert_lookup_cases in Hl0 as [[-> ->]|[_ Hl0]]; eauto.
    + intros l0 line0 Hl0. rewrite Hls in Hl0.
      apply insert_lookup_cases in Hl0 as [[-> ->]|[_ Hl0]];
        cbn [CheckoutLine.served CheckoutLine.open CheckoutLine.close];
        eapply one_at_a_time_event; eauto.
    + apply Forall_app. split.
      * repeat constructor. cbn [event_clocked]. eexists.
        split; [rewrite Hls; apply list_lookup_insert_eq; eapply lookup_lt_Some; eassumption|].
        cbn [CheckoutLine.served]. exists t. split; [assumption|].
        destruct (last (CheckoutLine.served line)) as [p|] eqn:Hlast; [|reflexivity].
        destruct (Hold_s l line p Hl (last_elem_of _ _ Hlast))
          as (_ & _ & f & _ & _ & Hf & _ & Hle).
        exists f. split; [assumption|lia].
      * apply Forall_forall. intros e1 He1. eapply event_clocked_event; try eassumption.
        apply (proj1 (Forall_forall _ _) Hev e1 He1).
  - (* join, behind somebody *)
    destruct (customers_effect_stamped _ _ _ c _ Hcs eq_refl) as (cu & Hcu & Hcu').
    assert (Hjoined : joined_at w' c t)
      by (exists (Customer.set_join_timestamp t cu); auto).
    split; [|split; [|split]].
    + intros l0 line0 c0 Hl0 Hc0. rewrite Hls in Hl0.
      apply insert_lookup_cases in Hl0 as [[-> ->]|[_ Hl0]]; [|eauto].
      cbn [CheckoutLine.queue] in Hc0. apply elem_of_app in Hc0 as [Hc0|Hc0]; [eauto|].
      apply list_elem_of_singleton in Hc0 as ->. exists t. split; [assumption|lia].
    + intros l0 line0 c0 Hl0 Hc0. rewrite Hls in Hl0.
      apply insert_lookup_cases in Hl0 as [[-> ->]|[_ Hl0]]; eauto.
    + intros l0 line0 Hl0. rewrite Hls in Hl0.
      apply insert_lookup_cases in Hl0 as [[-> ->]|[_ Hl0]];
        cbn [CheckoutLine.served CheckoutLine.open CheckoutLine.close];
        eapply one_at_a_time_event; eauto.
    + apply Forall_forall. intros e1 He1. eapply event_clocked_event; try eassumption.
      apply (proj1 (Forall_forall _ _) Hev e1 He1).
  - (* open *)
    split; [|split; [|split]].
    + intros l0 line0 c0 Hl0 Hc0. rewrite Hls in Hl0.
      apply insert_lookup_cases in Hl0 as [[-> ->]|[_ Hl0]]; eauto.
    + intros l0 line0 c0 Hl0 Hc0. rewrite Hls in Hl0.
      apply insert_lookup_cases in Hl0 as [[-> ->]|[_ Hl0]]; eauto.
    + intros l0 line0 Hl0. rewrite Hls in Hl0.
      apply insert_lookup_cases in Hl0 as [[-> ->]|[_ Hl0]];
        cbn [CheckoutLine.served CheckoutLine.open CheckoutLine.close];
        eapply one_at_a_time_event; eauto.
    + apply Forall_forall. intros e1 He1. eapply event_clocked_event; try eassumption.
      apply (proj1 (Forall_forall _ _) Hev e1 He1).
  - (* close *)
    split; [|split; [|split]].
    + intros l0 line0 c0 Hl0 Hc0. rewrite Hls in Hl0.
      apply insert_lookup_cases in Hl0 as [[-> ->]|[_ Hl0]]; eauto.
    + intros l0 line0 c0 Hl0 Hc0. rewrite Hls in Hl0.
      apply insert_lookup_cases in Hl0 as [[-> ->]|[_ Hl0]]; eauto.
    + intros l0 line0 Hl0. rewrite Hls in Hl0.
      apply insert_lookup_cases in Hl0 as [[-> ->]|[_ Hl0]];
        cbn [CheckoutLine.served CheckoutLine.open CheckoutLine.close];
        eapply one_at_a_time_event; eauto.
    + apply Forall_forall. intros e1 He1. eapply event_clocked_event; try eassumption.
      apply (proj1 (Forall_forall _ _) Hev e1 He1).
Qed.

Lemma run_clocked (fuel : nat) (g : Globals) (line_counts : list (string * Z))
  (text : string) (self : Simulator) (initial_events : list Event) (w0 : World) :
  run fuel g (Simulator__init__ line_counts) text = Some (Ok self) ->
  create_event_list text (fresh_world line_counts) = Ok (initial_events, w0) ->
  items_nonneg w0 ->
  exists now, clocked now [] (world self).
Proof.
  intros Hrun Hc Hitems.
  apply run_inv in Hrun as (_ & _ & Hempty & conf0 & evs & Hinit & Hexec).
  destruct (lower_bound_exists (fst conf0)) as [now Hnow].
  pose proof (initial_conf_invariant _ _ _ Hinit) as Hinv.
  pose proof (initial_conf_accounted _ _ _ Hinit) as [Hacc _].
  pose proof (initial_conf_fresh _ _ _ Hinit) as Hst.
  pose proof (initial_conf_heap _ _ _ Hinit) as Hheap.
  assert (Hclocked : clocked now (fst conf0) (snd conf0)).
  { apply initial_conf_inv in Hinit as (evs0 & w1 & Hc' & -> & Hperm).
    rewrite Hc in Hc'. injection Hc' as <- <-. cbn [fst snd] in *.
    apply create_event_list_new_customers in Hc as (Hinitial & _).
    destruct (GroceryStore_init_fresh line_counts) as (_ & _ & Hfresh).
    split; [assumption|]. split; [assumption|]. split; [assumption|].
    split; [|split; [|split]].
    - intros l line c Hl Hin. rewrite Hst in Hl.
      destruct (Hfresh l line Hl) as (_ & Hq & _). rewrite Hq in Hin.
      apply elem_of_nil in Hin. contradiction.
    - intros l line c Hl Hin. rewrite Hst in Hl.
      destruct (Hfresh l line Hl) as (_ & _ & Hs & _). rewrite Hs in Hin.
      apply elem_of_nil in Hin. contradiction.
    - intros l line Hl. rewrite Hst in Hl.
      destruct (Hfresh l line Hl) as (_ & _ & Hs & _). rewrite Hs. exact I.
    - rewrite Hperm. eapply Forall_impl; [exact Hinitial|].
      intros e He. destruct e; try discriminate; exact I. }
  destruct (engine_exec_preserves_in_time clocked g clocked_perm (clocked_event g)
              _ _ _ Hexec now Hheap Hnow Hclocked) as (_ & _ & now' & _ & Hfinal).
  cbn [fst snd] in Hfinal. rewrite Hempty in Hfinal. eauto.
Qed.

(** X12. Nobody is served before joining.  After a completed run on a fresh
    simulator in which no customer has a negative number of items, every
    served customer has joined no later than it began and began before it
    finished: waiting times are never negative and checkout times are
    positive. *)
Theorem run_timestamps_in_order (fuel : nat) (g : Globals)
  (line_counts : list (string * Z)) (text : string) (self : Simulator)
  (initial_events : list Event) (w0 : World) :
  run fuel g (Simulator__init__ line_counts) text = Some (Ok self) ->
  create_event_list text (fresh_world line_counts) = Ok (initial_events, w0) ->
  items_nonneg w0 ->
  forall line c,
    line ∈ GroceryStore.lines (store (world self)) ->
    c ∈ CheckoutLine.served line ->
    exists j b f,
      joined_at (world self) c j /\ begun_at (world self) c b
      /\ finished_at (world self) c f /\ (j <= b < f)%Z.
Proof.
  intros Hrun Hc Hitems line c Hline Hserved.
  destruct (run_clocked _ _ _ _ _ _ _ Hrun Hc Hitems) as (now & _ & _ & _ & _ & Hs & _).
  apply list_elem_of_lookup in Hline as [l Hl].
  destruct (Hs l line c Hl Hserved) as (j & b & f & Hj & Hb & Hf & Hord & _).
  eauto 8.
Qed.

(** X13. One customer at a time.  After a completed run on a fresh simulator
    in which no customer has a negative number of items, the served list of
    every line obeys the rule of a queue with one server: the first customer
    began when it joined, and every other one began when it had joined and
    the customer served before it on the line had finished, whichever came
    later. *)
Theorem run_serves_one_at_a_time (fuel : nat) (g : Globals)
  (line_counts : list (string * Z)) (text : string) (self : Simulator)
  (initial_events : list Event) (w0 : World) :
  run fuel g (Simulator__init__ line_counts) text = Some (Ok self) ->
  create_event_list text (fresh_world line_counts) = Ok (initial_events, w0) ->
  items_nonneg w0 ->
  forall line,
    line ∈ GroceryStore.lines (store (world self)) ->
    one_at_a_time (world self) None (CheckoutLine.served line).
Proof.
  intros Hrun Hc Hitems line Hline.
  destruct (run_clocked _ _ _ _ _ _ _ Hrun Hc Hitems) as (now & _ & _ & _ & _ & _ & Hone & _).
  apply list_elem_of_lookup in Hline as [l Hl]. eapply Hone; eassumption.
Qed.

Lemma run_timestamps_in_order_witness :
  exists j b f,
    joined_at (world sample_finished_simulator) 1 j
    /\ begun_at (world sample_finished_simulator) 1 b
    /\ finished_at (world sample_finished_simulator) 1 f /\ (j <= b < f)%Z.
Proof.
  refine (run_timestamps_in_order 6 (sample_globals LeastPerson) one_cashier_config
           text_3_then_5 sample_finished_simulator
           [JoinCheckoutEvent 0 0; JoinCheckoutEvent 0 1]
           {| customers := [Customer.__init__ 0 3; Customer.__init__ 1 5];
              store := GroceryStore.__init__ one_cashier_config; rng_calls := 0 |}
           ltac:(vm_compute; reflexivity) ltac:(vm_compute; reflexivity) _
           (CheckoutLine.mk 0 "cashier" [] [0; 1] false) 1 _ _).
  - intros cu Hin. apply elem_of_cons in Hin as [->|Hin]; [simpl; lia|].
    apply list_elem_of_singleton in Hin as ->. simpl. lia.
  - apply list_elem_of_here.
  - apply list_elem_of_further, list_elem_of_here.
Defined.

Lemma run_serves_one_at_a_time_witness :
  one_at_a_time (world sample_finished_simulator) None [0; 1].
Proof.
  refine (run_serves_one_at_a_time 6 (sample_globals LeastPerson) one_cashier_config
           text_3_then_5 sample_finished_simulator
           [JoinCheckoutEvent 0 0; JoinCheckoutEvent 0 1]
           {| customers := [Customer.__init__ 0 3; Customer.__init__ 1 5];
              store := GroceryStore.__init__ one_cashier_config; rng_calls := 0 |}
           ltac:(vm_compute; reflexivity) ltac:(vm_compute; reflexivity) _
           (CheckoutLine.mk 0 "cashier" [] [0; 1] false) _).
  - intros cu Hin. apply elem_of_cons in Hin as [->|Hin]; [simpl; lia|].
    apply list_elem_of_singleton in Hin as ->. simpl. lia.
  - apply list_elem_of_here.
Defined.

(** ** What a run leaves as it was *)

Lemma call_pick_checkout_line_draws (g : Globals) (customer : Customer.t)
  (w w' : World) (l : lref) :
  call_pick_checkout_line g customer w = Ok (l, w') ->
  rng_calls w' = rng_calls w + draws_per_arrival g.
Proof.
  unfold call_pick_checkout_line, draws_per_arrival.
  destruct (pick_checkout_line g) as [[| | | |]|]; [| | | | |discriminate].
  - unfold pick_checkout_line_pure_random.
    destruct (length _ =? 0)%nat; [discriminate|].
    destruct (_ !! _) as [l0|]; simpl; [|discriminate].
    intros [= <- <-]. simpl. lia.
  - destruct (pick_checkout_line_least_person customer w); simpl; [|discriminate].
    intros [= <- <-]. lia.
  - destruct (pick_checkout_line_least_item customer w); simpl; [|discriminate].
    intros [= <- <-]. lia.
  - destruct (pick_checkout_line_least_time g customer w); simpl; [|discriminate].
    intros [= <- <-]. lia.
  - unfold pick_checkout_line_round_robin.
    destruct (round_robin_loop _ _ _) as [[[l0 line]|]|]; simpl; try discriminate.
    intros [= <- <-]. simpl. lia.
Qed.

Lemma Event_do_draws (g : Globals) (e : Event) (w w' : World)
  (future_events : list Event) :
  Event_do g e w = Ok (w', future_events) ->
  rng_calls w' = rng_calls w + draws_per_arrival g * length (arriving [e]).
Proof.
  intros Hdo. destruct e as [t c l|t c l|t c|t l|t l]; cbn [Event_do] in Hdo;
    cbn [arriving flat_map app length].
  - apply BeginCheckoutEvent_do_inv in Hdo as (cu & line & d & _ & _ & _ & -> & _).
    simpl. lia.
  - apply FinishCheckoutEvent_do_inv in Hdo as (cu & line & hd & rest & _ & _ & _ & -> & _).
    simpl. lia.
  - apply JoinCheckoutEvent_do_inv in Hdo as (l & Hdo).
    apply JoinCheckoutEvent_do_line_inv in Hdo as (cu & w2 & line & _ & Hpick & _ & _ & -> & _).
    apply call_pick_checkout_line_draws in Hpick. simpl in *. lia.
  - apply LineOpenEvent_do_inv in Hdo as (line & _ & -> & _). simpl. lia.
  - apply LineCloseEvent_do_inv in Hdo as (line & _ & -> & _). simpl. lia.
Qed.

Lemma arriving_length_perm (evs evs' : list Event) :
  evs ≡ₚ evs' -> length (arriving evs) = length (arriving evs').
Proof. intros Hp. apply Permutation_length, arriving_perm, Hp. Qed.

(** X14. Only the pure random policy draws random numbers, and it draws
    once for each arrival: after a completed run on a fresh simulator the
    number of draws taken is the number of customers under pure random, and
    zero under every other policy. *)
Theorem run_draws (fuel : nat) (g : Globals) (line_counts : list (string * Z))
  (text : string) (self : Simulator) :
  run fuel g (Simulator__init__ line_counts) text = Some (Ok self) ->
  rng_calls (world self)
  = draws_per_arrival g * length (customers (world self)).
Proof.
  intros Hrun. apply run_inv in Hrun as (_ & _ & Hempty & conf0 & evs & Hinit & Hexec).
  pose proof (initial_conf_accounted _ _ _ Hinit) as [Hacc _].
  set (Inv := fun (evs : list Event) (w : World) =>
                everybody_accounted evs w
                /\ rng_calls w + draws_per_arrival g * length (arriving evs)
                   = draws_per_arrival g * length (customers w)).
  assert (Hinv0 : Inv (fst conf0) (snd conf0)).
  { split; [assumption|].
    apply initial_conf_inv in Hinit as (evs0 & w0 & Hc & -> & Hperm).
    cbn [fst snd] in *.
    rewrite (arriving_length_perm _ _ Hperm).
    pose proof (create_event_list_inv _ _ _ _ Hc) as (_ & Hrng & _).
    apply create_event_list_new_customers in Hc as (_ & _ & new & Hcs & Harr & _).
    rewrite Hrng, Hcs, Harr, length_seq. unfold fresh_world. simpl. lia. }
  assert (Hfinal : Inv (fst (events self, world self)) (snd (events self, world self))).
  { eapply (engine_exec_preserves Inv g); [| |exact Hexec|exact Hinv0].
    - intros evs1 evs2 w Hp [Ha Hr]. split; [eapply everybody_accounted_perm; eassumption|].
      rewrite <- (arriving_length_perm _ _ Hp). exact Hr.
    - intros e heap' w w' fut [Ha Hr] Hdo.
      split; [eapply everybody_accounted_event; eassumption|].
      pose proof (Event_do_draws _ _ _ _ _ Hdo) as Hdraw.
      pose proof (Event_do_effect _ _ _ _ _ Hdo)
        as (Hcs & _ & l & line & line' & _ & _ & Heff).
      rewrite (customers_effect_length _ _ _ Hcs).
      rewrite arriving_app, (line_effect_no_arrival _ _ _ _ _ Heff).
      change (e :: heap') with ([e] ++ heap') in Hr.
      rewrite arriving_app, length_app in Hr. cbn [app]. lia. }
  destruct Hfinal as [_ Hr]. cbn [fst snd] in Hr. rewrite Hempty in Hr.
  simpl in Hr. lia.
Qed.

Lemma run_draws_witness :
  rng_calls (world sample_finished_simulator)
  = draws_per_arrival (sample_globals LeastPerson)
    * length (customers (world sample_finished_simulator)).
Proof.
  apply (run_draws 6 (sample_globals LeastPerson) one_cashier_config text_3_then_5).
  vm_compute. reflexivity.
Defined.

Lemma same_customers_event (g : Globals) (w0 : World) (e : Event) (w w' : World)
  (future_events : list Event) :
  same_customers w0 w -> Event_do g e w = Ok (w', future_events) ->
  same_customers w0 w'.
Proof.
  intros [Hlen Hsame] Hdo.
  apply Event_do_effect in Hdo as (Hcs & _).
  split; [rewrite (customers_effect_length _ _ _ Hcs); exact Hlen|].
  intros c cu0 Hc0. destruct (Hsame c cu0 Hc0) as (cu & Hcu & Hid & Hitems).
  destruct (customers_effect_lookup _ _ _ c cu Hcs Hcu)
    as [[Hkept _]|(f & Hstamp & Hnew)]; [eauto|].
  exists (f cu). split; [assumption|].
  destruct (stamp_cases _ _ _ Hstamp)
    as (_ & [(t & l1 & _ & ->)|[(t & l1 & _ & ->)|(t & _ & ->)]]); auto.
Qed.

Lemma same_layout_event (g : Globals) (st0 : GroceryStore.t) (e : Event) (w w' : World)
  (future_events : list Event) :
  same_layout st0 (store w) -> Event_do g e w = Ok (w', future_events) ->
  same_layout st0 (store w').
Proof.
  intros (Htot & Hids & Htypes) Hdo.
  apply Event_do_effect in Hdo as (_ & Htot' & l & line & line' & Hl & Hls & Heff).
  apply line_effect_moves_on in Heff as (Hid & Hty & _).
  split; [congruence|]. rewrite Hls.
  split; [rewrite <- Hids|rewrite <- Htypes];
    rewrite list_fmap_insert; [rewrite Hid|rewrite Hty];
    apply list_insert_id; rewrite list_lookup_fmap, Hl; reflexivity.
Qed.

(** X15. A run changes nothing but timestamps, waiting sequences, served
    lists, closed flags and the cursor of round robin: after a completed run
    the customers are those [create_event_list] made, each with its id (its
    position) and its number of items, and the store has the lines it was
    built with, with their ids and types. *)
Theorem run_keeps_customers_and_lines (fuel : nat) (g : Globals)
  (line_counts : list (string * Z)) (text : string) (self : Simulator)
  (initial_events : list Event) (w0 : World) :
  run fuel g (Simulator__init__ line_counts) text = Some (Ok self) ->
  create_event_list text (fresh_world line_counts) = Ok (initial_events, w0) ->
  same_customers w0 (world self)
  /\ (forall c customer, customers (world self) !! c = Some customer ->
                         Customer.id customer = Z.of_nat c)
  /\ same_layout (GroceryStore.__init__ line_counts) (store (world self)).
Proof.
  intros Hrun Hc.
  apply run_inv in Hrun as (_ & _ & _ & conf0 & evs & Hinit & Hexec).
  pose proof (initial_conf_fresh _ _ _ Hinit) as Hst.
  apply initial_conf_inv in Hinit as (evs0 & w1 & Hc' & -> & _).
  rewrite Hc in Hc'. injection Hc' as <- <-.
  set (Inv := fun (evs : list Event) (w : World) =>
                same_customers w0 w
                /\ same_layout (GroceryStore.__init__ line_counts) (store w)).
  assert (Hfinal : Inv (fst (events self, world self)) (snd (events self, world self))).
  { eapply (engine_exec_preserves Inv g); [| |exact Hexec|].
    - intros evs1 evs2 w _ H. exact H.
    - intros e heap' w w' fut [Hcs Hlay] Hdo.
      split; [eapply same_customers_event|eapply same_layout_event]; eassumption.
    - cbn [fst snd] in *. split.
      + split; [reflexivity|]. intros c cu0 Hcu0. eauto.
      + rewrite Hst. repeat split. }
  destruct Hfinal as [Hsame Hlay]. cbn [snd] in Hsame, Hlay.
  split; [exact Hsame|]. split; [|exact Hlay].
  intros c cu Hcu. destruct Hsame as [Hlen Hsame].
  destruct (lookup_lt_is_Some_2 (customers w0) c) as [cu0 Hcu0].
  { rewrite <- Hlen. eapply lookup_lt_Some; eassumption. }
  destruct (Hsame c cu0 Hcu0) as (cu' & Hcu' & Hid & _).
  assert (cu' = cu) as -> by congruence. rewrite Hid.
  apply create_event_list_new_customers in Hc as (_ & _ & new & Hcs & _ & Hnew).
  unfold fresh_world in Hcs. simpl in Hcs. rewrite Hcs in Hcu0.
  destruct (Hnew c cu0 Hcu0) as (n & ->). reflexivity.
Qed.

Lemma run_keeps_customers_and_lines_witness :
  same_layout (GroceryStore.__init__ one_cashier_config)
    (store (world sample_finished_simulator)).
Proof.
  refine (proj2 (proj2 (run_keeps_customers_and_lines 6 (sample_globals LeastPerson)
                          one_cashier_config text_3_then_5 sample_finished_simulator
                          [JoinCheckoutEvent 0 0; JoinCheckoutEvent 0 1]
                          {| customers := [Customer.__init__ 0 3; Customer.__init__ 1 5];
                             store := GroceryStore.__init__ one_cashier_config;
                             rng_calls := 0 |} _ _))).
  - vm_compute. reflexivity.
  - vm_compute. reflexivity.
Defined.

(** ** The statistics query: what it refuses *)

Lemma customer_timestamp_unknown (filter_by : string) (customer : Customer.t) :
  (forall f, filter_by <> field_name f) ->
  customer_timestamp filter_by customer = Raise (ValueError_filter_by filter_by).
Proof.
  intros Hunknown. unfold customer_timestamp.
  destruct (String.eqb_spec filter_by "join") as [->|_];
    [destruct (Hunknown ByJoin eq_refl)|].
  destruct (String.eqb_spec filter_by "begin") as [->|_];
    [destruct (Hunknown ByBegin eq_refl)|].
  destruct (String.eqb_spec filter_by "finish") as [->|_];
    [destruct (Hunknown ByFinish eq_refl)|].
  reflexivity.
Qed.

Lemma criterion_value_unknown (criterion : string) (customer : Customer.t) :
  (forall crit, criterion <> criterion_name crit) ->
  criterion_value criterion customer = Raise (ValueError_criterion criterion).
Proof.
  intros Hunknown. unfold criterion_value.
  destruct (String.eqb_spec criterion "wait") as [->|_];
    [destruct (Hunknown Wait eq_refl)|].
  destruct (String.eqb_spec criterion "checkout") as [->|_];
    [destruct (Hunknown Checkout eq_refl)|].
  destruct (String.eqb_spec criterion "total") as [->|_];
    [destruct (Hunknown Total eq_refl)|].
  reflexivity.
Qed.

Lemma retained_customers_unknown (w : World) (start_time : Z) (end_time : option Z)
  (line_ids : option (list Z)) (filter_by : string) :
  (forall f, filter_by <> field_name f) ->
  (forall c, c ∈ spec_served_on w line_ids -> is_Some (customers w !! c)) ->
  spec_served_on w line_ids <> [] ->
  retained_customers w start_time end_time line_ids filter_by
  = Raise (ValueError_filter_by filter_by).
Proof.
  intros Hunknown. unfold retained_customers, spec_served_on.
  assert (Hgen : forall ls acc,
             (forall c, c ∈ flat_map (fun line => if line_selected line_ids line
                                                  then CheckoutLine.served line else [])
                              ls ->
                        is_Some (customers w !! c)) ->
             flat_map (fun line => if line_selected line_ids line
                                   then CheckoutLine.served line else []) ls <> [] ->
             for_each
               (fun acc line =>
                  if line_selected line_ids line then
                    for_each
                      (fun acc c =>
                         customer ← get_customer w c;
                         ts ← customer_timestamp filter_by customer;
                         keep ← in_window start_time end_time ts;
                         Ok (if keep : bool then acc ++ [c] else acc))
                      (CheckoutLine.served line) acc
                  else Ok acc) ls acc
             = Raise (ValueError_filter_by filter_by));
    [|intros Hvalid Hne; apply Hgen; assumption].
  induction ls as [|line ls IH]; intros acc Hvalid Hne; [destruct (Hne eq_refl)|].
  cbn [flat_map for_each] in *.
  destruct (line_selected line_ids line).
  - destruct (CheckoutLine.served line) as [|c served] eqn:Hserved.
    + cbn [for_each mbind Result_bind app] in *. apply IH; assumption.
    + destruct (Hvalid c) as [cu Hcu]; [apply list_elem_of_here|].
      assert (Hg : get_customer w c = Ok cu)
        by (unfold get_customer; rewrite Hcu; reflexivity).
      cbn [for_each]. rewrite Hg. cbn [mbind Result_bind].
      rewrite customer_timestamp_unknown by assumption. reflexivity.
  - cbn [mbind Result_bind app] in *. apply IH; assumption.
Qed.

Lemma raw_times_unknown (w : World) (criterion : string) (cs : list cref) :
  (forall crit, criterion <> criterion_name crit) ->
  (forall c, c ∈ cs -> is_Some (customers w !! c)) ->
  cs <> [] ->
  raw_times w criterion cs = Raise (ValueError_criterion criterion).
Proof.
  intros Hunknown Hvalid Hne. unfold raw_times.
  destruct cs as [|c cs]; [contradiction|].
  destruct (Hvalid c) as [cu Hcu]; [apply list_elem_of_here|].
  assert (Hg : get_customer w c = Ok cu)
    by (unfold get_customer; rewrite Hcu; reflexivity).
  cbn [for_each]. rewrite Hg. cbn [mbind Result_bind].
  rewrite criterion_value_unknown by assumption. reflexivity.
Qed.

(** X16. What the statistics query refuses after a completed run, and when.
    A name for [filter_by] other than "join", "begin" and "finish" is refused
    (ValueError) as soon as a selected line has served somebody; a name for
    [criterion] other than "wait", "checkout" and "total" is refused
    (ValueError) as soon as a customer is retained.  The names are looked at
    customer by customer, so with nobody to look at the query ends in the
    error of the empty selection instead. *)
Theorem query_statistics_unknown_names (fuel : nat) (g : Globals)
  (line_counts : list (string * Z)) (text : string) (self : Simulator)
  (criterion : string) (start_time end_time : option Z)
  (line_ids : option (list Z)) (filter_by : string) :
  run fuel g (Simulator__init__ line_counts) text = Some (Ok self) ->
  ((forall f, filter_by <> field_name f) ->
   spec_served_on (world self) line_ids <> [] ->
   query_statistics self criterion start_time end_time line_ids filter_by
   = Raise (ValueError_filter_by filter_by))
  /\ (forall f,
        filter_by = field_name f ->
        (forall crit, criterion <> criterion_name crit) ->
        spec_retained (world self) f start_time end_time line_ids <> [] ->
        query_statistics self criterion start_time end_time line_ids filter_by
        = Raise (ValueError_criterion criterion))
  /\ (spec_served_on (world self) line_ids = [] ->
      query_statistics self criterion start_time end_time line_ids filter_by
      = Raise ValueError_zero_size_reduction).
Proof.
  intros Hrun.
  pose proof (run_served_fully_stamped _ _ _ _ _ Hrun line_ids) as Hstamped.
  apply run_inv in Hrun as (_ & Hfin & _).
  assert (Hvalid : forall c, c ∈ spec_served_on (world self) line_ids ->
                             is_Some (customers (world self) !! c)).
  { intros c Hc. destruct (Hstamped c Hc) as (cu & _ & _ & _ & Hcu & _). eauto. }
  unfold query_statistics. rewrite Hfin. cbn [negb].
  split; [|split].
  - intros Hunknown Hne. rewrite retained_customers_unknown by assumption. reflexivity.
  - intros f -> Hunknown Hne.
    rewrite retained_customers_spec by assumption. cbn [mbind Result_bind].
    rewrite raw_times_unknown; [reflexivity|assumption| |assumption].
    intros c Hc. apply Hvalid.
    unfold spec_retained in Hc. apply list_elem_of_In, filter_In in Hc as [Hc _].
    apply list_elem_of_In, Hc.
  - intros Hnone. rewrite retained_nothing_served by assumption. reflexivity.
Qed.

Lemma query_statistics_unknown_names_witness :
  query_statistics sample_finished_simulator "wait" None None None "arrival"
  = Raise (ValueError_filter_by "arrival").
Proof.
  refine (proj1 (query_statistics_unknown_names 6 (sample_globals LeastPerson)
                   one_cashier_config text_3_then_5 sample_finished_simulator
                   "wait" None None None "arrival" _) _ _).
  - vm_compute. reflexivity.
  - intros [| |]; discriminate.
  - discriminate.
Defined.

(** ** The statistics of a run *)

Lemma retained_customers_served (w : World) (start_time : Z) (end_time : option Z)
  (line_ids : option (list Z)) (filter_by : string) (cs : list cref) :
  retained_customers w start_time end_time line_ids filter_by = Ok cs ->
  forall c, c ∈ cs ->
            exists line, line ∈ GroceryStore.lines (store w)
                         /\ c ∈ CheckoutLine.served line.
Proof.
  unfold retained_customers.
  assert (Hinner : forall served acc acc',
             for_each
               (fun acc c =>
                  customer ← get_customer w c;
                  ts ← customer_timestamp filter_by customer;
                  keep ← in_window start_time end_time ts;
                  Ok (if keep : bool then acc ++ [c] else acc))
               served acc = Ok acc' ->
             forall c, c ∈ acc' -> c ∈ acc \/ c ∈ served).
  { induction served as [|c0 served IH]; intros acc acc' H c Hc; cbn [for_each] in H.
    - injection H as <-. auto.
    - destruct (get_customer w c0) as [cu|]; cbn [mbind Result_bind] in H;
        [|discriminate].
      destruct (customer_timestamp filter_by cu) as [ts|]; cbn [mbind Result_bind] in H;
        [|discriminate].
      destruct (in_window start_time end_time ts) as [keep|];
        cbn [mbind Result_bind] in H; [|discriminate].
      destruct (IH _ _ H c Hc) as [Hacc|Hserved];
        [|right; apply list_elem_of_further, Hserved].
      destruct keep; [|auto].
      apply elem_of_app in Hacc as [Hacc|Hnew]; [auto|].
      apply list_elem_of_singleton in Hnew as ->. right. apply list_elem_of_here. }
  assert (Houter : forall ls acc acc',
             for_each
               (fun acc line =>
                  if line_selected line_ids line then
                    for_each
                      (fun acc c =>
                         customer ← get_customer w c;
                         ts ← customer_timestamp filter_by customer;
                         keep ← in_window start_time end_time ts;
                         Ok (if keep : bool then acc ++ [c] else acc))
                      (CheckoutLine.served line) acc
                  else Ok acc) ls acc = Ok acc' ->
             forall c, c ∈ acc' ->
                       c ∈ acc \/ exists line, line ∈ ls /\ c ∈ CheckoutLine.served line).
  { induction ls as [|line ls IH]; intros acc acc' H c Hc; cbn [for_each] in H.
    - injection H as <-. auto.
    - destruct (line_selected line_ids line).
      + destruct (for_each _ (CheckoutLine.served line) acc) as [acc1|] eqn:Hin;
          cbn [mbind Result_bind] in H; [|discriminate].
        destruct (IH _ _ H c Hc) as [Hacc|(line' & Hline' & Hserved)].
        * destruct (Hinner _ _ _ Hin c Hacc) as [Hold|Hnew]; [auto|].
          right. exists line. split; [apply list_elem_of_here|assumption].
        * right. exists line'. split; [apply list_elem_of_further|]; assumption.
      + cbn [mbind Result_bind] in H.
        destruct (IH _ _ H c Hc) as [Hacc|(line' & Hline' & Hserved)]; [auto|].
        right. exists line'. split; [apply list_elem_of_further|]; assumption. }
  intros H c Hc. destruct (Houter _ _ _ H c Hc) as [Hnil|Hline]; [|exact Hline].
  apply elem_of_nil in Hnil. contradiction.
Qed.

Lemma raw_times_values (w : World) (criterion : string) (cs : list cref)
  (raw : list Z) :
  raw_times w criterion cs = Ok raw ->
  Forall2 (fun c v => exists customer,
               customers w !! c = Some customer
               /\ criterion_value criterion customer = Ok v) cs raw.
Proof.
  unfold raw_times.
  assert (Hgen : forall cs acc r,
             for_each
               (fun raw_time c =>
                  customer ← get_customer w c;
                  v ← criterion_value criterion customer;
                  Ok (raw_time ++ [v])) cs acc = Ok r ->
             exists raw, r = acc ++ raw
                         /\ Forall2 (fun c v => exists customer,
                                         customers w !! c = Some customer
                                         /\ criterion_value criterion customer = Ok v)
                              cs raw).
  { clear cs raw. induction cs as [|c cs IH]; intros acc r H; cbn [for_each] in H.
    - injection H as <-. exists []. rewrite app_nil_r. split; [reflexivity|constructor].
    - unfold get_customer in H.
      destruct (customers w !! c) as [cu|] eqn:Hcu; cbn [of_option mbind Result_bind] in H;
        [|discriminate].
      destruct (criterion_value criterion cu) as [v|] eqn:Hv;
        cbn [mbind Result_bind] in H; [|discriminate].
      apply IH in H as (raw & -> & Hall). exists (v :: raw).
      rewrite <- app_assoc. split; [reflexivity|]. constructor; [eauto|assumption]. }
  intros H. apply Hgen in H as (raw' & -> & Hall). exact Hall.
Qed.

Lemma query_statistics_inv (self : Simulator) (criterion : string)
  (start_time end_time : option Z) (line_ids : option (list Z)) (filter_by : string)
  (stats : Statistics) (raw : list Z) :
  query_statistics self criterion start_time end_time line_ids filter_by
  = Ok (stats, raw) ->
  exists cs,
    retained_customers (world self)
      (match start_time with None => 0%Z | Some s => s end) end_time line_ids filter_by
    = Ok cs
    /\ raw_times (world self) criterion cs = Ok raw
    /\ np_min raw = Ok (min_time stats)
    /\ np_max raw = Ok (max_time stats)
    /\ num_customers stats = length cs
    /\ total_time stats = np_sum raw.
Proof.
  unfold query_statistics. destruct (negb (_finished self)); [discriminate|].
  destruct (retained_customers _ _ _ _ _) as [cs|] eqn:Hret; cbn [mbind Result_bind];
    [|discriminate].
  destruct (raw_times _ _ _) as [raw0|] eqn:Hraw; cbn [mbind Result_bind]; [|discriminate].
  destruct (np_min raw0) as [lo|] eqn:Hmin; cbn [mbind Result_bind]; [|discriminate].
  destruct (np_max raw0) as [hi|] eqn:Hmax; cbn [mbind Result_bind]; [|discriminate].
  intros [= <- <-]. exists cs. cbn. auto 8.
Qed.

(** X17. No negative time in the statistics.  After a completed run on a
    fresh simulator in which no customer has a negative number of items,
    whatever the query selects: every waiting time it returns is at least 0,
    every checkout time and every total time is positive, and so is the
    minimum it reports. *)
Theorem query_statistics_signs (fuel : nat) (g : Globals)
  (line_counts : list (string * Z)) (text : string) (self : Simulator)
  (initial_events : list Event) (w0 : World)
  (crit : Criterion) (start_time end_time : option Z) (line_ids : option (list Z))
  (filter_by : string) (stats : Statistics) (raw : list Z) :
  run fuel g (Simulator__init__ line_counts) text = Some (Ok self) ->
  create_event_list text (fresh_world line_counts) = Ok (initial_events, w0) ->
  items_nonneg w0 ->
  query_statistics self (criterion_name crit) start_time end_time line_ids filter_by
  = Ok (stats, raw) ->
  let lowest := match crit with Wait => 0%Z | _ => 1%Z end in
  Forall (fun v => (lowest <= v)%Z) raw /\ (lowest <= min_time stats)%Z.
Proof.
  intros Hrun Hc Hitems Hquery lowest.
  destruct (run_clocked _ _ _ _ _ _ _ Hrun Hc Hitems) as (now & _ & _ & _ & _ & Hs & _).
  apply query_statistics_inv in Hquery as (cs & Hret & Hraw & Hmin & _).
  pose proof (retained_customers_served _ _ _ _ _ _ Hret) as Hserved.
  apply raw_times_values in Hraw.
  assert (Hall : Forall (fun v => (lowest <= v)%Z) raw).
  { clear Hmin Hret. induction Hraw as [|c v cs raw (cu & Hcu & Hv) _ IH]; constructor.
    - destruct (Hserved c (list_elem_of_here _ _)) as (line & Hline & Hc_line).
      apply list_elem_of_lookup in Hline as [l Hl].
      destruct (Hs l line c Hl Hc_line)
        as (j & b & f & (cu1 & Hcu1 & Hj) & (cu2 & Hcu2 & Hb) & (cu3 & Hcu3 & Hf) & Hord & _).
      assert (cu1 = cu) as -> by congruence. assert (cu2 = cu) as -> by congruence.
      assert (cu3 = cu) as -> by congruence.
      subst lowest. destruct crit; unfold criterion_value in Hv; simpl in Hv;
        rewrite ?Hj, ?Hb, ?Hf in Hv; simpl in Hv; injection Hv as <-; lia.
    - apply IH. intros c0 Hc0. apply Hserved, list_elem_of_further, Hc0. }
  split; [exact Hall|].
  unfold np_min in Hmin. destruct raw as [|x raw]; [discriminate|].
  injection Hmin as <-. destruct (fold_left_min_spec raw x) as [Hin _].
  apply (proj1 (Forall_forall _ _) Hall _ Hin).
Qed.

Lemma query_statistics_signs_witness :
  Forall (fun v => (0 <= v)%Z) [0%Z; 10%Z].
Proof.
  refine (proj1 (query_statistics_signs 6 (sample_globals LeastPerson) one_cashier_config
                   text_3_then_5 sample_finished_simulator
                   [JoinCheckoutEvent 0 0; JoinCheckoutEvent 0 1]
                   {| customers := [Customer.__init__ 0 3; Customer.__init__ 1 5];
                      store := GroceryStore.__init__ one_cashier_config; rng_calls := 0 |}
                   Wait None None None "join"
                   {| num_customers := 2; total_time := 10; min_time := 0; max_time := 10;
                      mean_time := np_mean [0%Z; 10%Z]; std_time := np_std [0%Z; 10%Z] |}
                   [0%Z; 10%Z] _ _ _ _)).
  - vm_compute. reflexivity.
  - vm_compute. reflexivity.
  - intros cu Hin. apply elem_of_cons in Hin as [->|Hin]; [simpl; lia|].
    apply list_elem_of_singleton in Hin as ->. simpl. lia.
  - reflexivity.
Defined.

(** X18. A simulator runs once.  Before its run every statistics query fails
    with the AssertionError of the unfinished simulation; after a completed
    run every further run fails with the AssertionError of the finished
    simulation, whatever the text, and the queries are open. *)
Theorem simulator_runs_once (fuel : nat) (g : Globals)
  (line_counts : list (string * Z)) (text : string) (self : Simulator) :
  run fuel g (Simulator__init__ line_counts) text = Some (Ok self) ->
  (forall criterion start_time end_time line_ids filter_by,
      query_statistics (Simulator__init__ line_counts) criterion start_time end_time
        line_ids filter_by = Raise AssertionError_not_finished)
  /\ (forall fuel' g' text',
        run fuel' g' self text' = Some (Raise AssertionError_finished))
  /\ (forall criterion start_time end_time line_ids filter_by,
        query_statistics self criterion start_time end_time line_ids filter_by
        <> Raise AssertionError_not_finished).
Proof.
  intros Hrun. apply run_inv in Hrun as (_ & Hfin & _).
  split; [reflexivity|]. split.
  - intros fuel' g' text'. unfold run. rewrite Hfin. reflexivity.
  - intros criterion start_time end_time line_ids filter_by.
    unfold query_statistics. rewrite Hfin. cbn [negb].
    assert (Hret : raises_only (fun e => e <> AssertionError_not_finished)
                     (retained_customers (world self)
                        (match start_time with None => 0%Z | Some s => s end)
                        end_time line_ids filter_by)).
    { unfold retained_customers. apply raises_only_for_each. intros acc line _.
      destruct (line_selected line_ids line); [|apply raises_only_Ok].
      apply raises_only_for_each. intros acc0 c _.
      apply raises_only_bind; [apply raises_only_of_option; discriminate|]. intros cu _.
      apply raises_only_bind.
      { unfold customer_timestamp.
        repeat (destruct (String.eqb _ _); [apply raises_only_Ok|]).
        apply raises_only_Raise. discriminate. }
      intros ts _. apply raises_only_bind; [|intros; apply raises_only_Ok].
      destruct ts; [apply raises_only_Ok|apply raises_only_Raise; discriminate]. }
    assert (Hraw : forall cs, raises_only (fun e => e <> AssertionError_not_finished)
                                (raw_times (world self) criterion cs)).
    { intros cs. unfold raw_times. apply raises_only_for_each. intros acc c _.
      apply raises_only_bind; [apply raises_only_of_option; discriminate|]. intros cu _.
      apply raises_only_bind; [|intros; apply raises_only_Ok].
      unfold criterion_value, ts_sub.
      repeat (destruct (String.eqb _ _);
              [repeat (match goal with
                       | |- context [match ?x with _ => _ end] => destruct x
                       end); try apply raises_only_Ok;
               apply raises_only_Raise; discriminate|]).
      apply raises_only_Raise. discriminate. }
    destruct (retained_customers _ _ _ _ _) as [cs|e] eqn:Hr; cbn [mbind Result_bind];
      [|intros [= ->]; exact (Hret _ eq_refl eq_refl)].
    specialize (Hraw cs).
    destruct (raw_times _ _ _) as [raw|e] eqn:Hw; cbn [mbind Result_bind];
      [|intros [= ->]; exact (Hraw _ eq_refl eq_refl)].
    destruct raw; cbn; discriminate.
Qed.

Lemma simulator_runs_once_witness :
  run 0 (sample_globals RoundRobin) sample_finished_simulator text_3
  = Some (Raise AssertionError_finished).
Proof.
  refine (proj1 (proj2 (simulator_runs_once 6 (sample_globals LeastPerson)
                          one_cashier_config text_3_then_5 sample_finished_simulator _))
            0 (sample_globals RoundRobin) text_3).
  vm_compute. reflexivity.
Defined.

(** ** The waiting time a line promises *)

Lemma checkout_w_b_known (ty : string) (wt bt : Z) :
  _checkout_w ty = Some wt -> _checkout_b ty = Some bt -> known_line_type ty = true.
Proof.
  unfold _checkout_w, known_line_type.
  destruct (String.eqb ty "cashier"); [reflexivity|].
  destruct (String.eqb ty "express"); [reflexivity|].
  destruct (String.eqb ty "self"); [reflexivity|discriminate].
Qed.

(** The loop of [get_queue_time] against the loop of [get_num_items]. *)
Lemma queue_time_loop (g : Globals) (w : World) (line : CheckoutLine.t) (wt bt : Z) :
  get_checkout_time g = Some Deterministic ->
  _checkout_w (CheckoutLine.type line) = Some wt ->
  _checkout_b (CheckoutLine.type line) = Some bt ->
  forall (cs : list cref) (items n time : Z),
    for_each (fun accum c => customer ← get_customer w c;
                             Ok (accum + Customer.num_items customer)%Z) cs items
    = Ok n ->
    for_each (fun wait_time c =>
                customer ← get_customer w c;
                d ← call_get_checkout_time g customer line;
                Ok (wait_time + d)%Z) cs time
    = Ok (time + (n - items) * wt + Z.of_nat (length cs) * bt)%Z.
Proof.
  intros Hdet Hw Hb. pose proof (checkout_w_b_known _ _ _ Hw Hb) as Hknown.
  induction cs as [|c cs IH]; intros items n time H; cbn [for_each] in *.
  - injection H as <-. f_equal. simpl. lia.
  - destruct (get_customer w c) as [cu|]; cbn [mbind Result_bind] in *; [|discriminate].
    assert (Hd : call_get_checkout_time g cu line
                 = Ok (Customer.num_items cu * wt + bt)%Z).
    { unfold call_get_checkout_time, get_checkout_time_deterministic.
      rewrite Hdet, Hknown, Hw, Hb. reflexivity. }
    rewrite Hd. cbn [mbind Result_bind].
    rewrite (IH _ _ _ H). f_equal. cbn [length]. lia.
Qed.

(** X19. The waiting time a line promises, under the deterministic model on
    a line of a known type with the coefficients [wt] and [bt]:
    [get_queue_time] with the first customer counted is [wt] times the items
    waiting ([get_num_items]) plus [bt] times the customers waiting
    ([get_num_customers]); without the first customer it is that minus the
    checkout time of the first customer. *)
Theorem get_queue_time_formula (g : Globals) (w : World) (line : CheckoutLine.t)
  (wt bt n : Z) :
  get_checkout_time g = Some Deterministic ->
  _checkout_w (CheckoutLine.type line) = Some wt ->
  _checkout_b (CheckoutLine.type line) = Some bt ->
  CheckoutLine_get_num_items w line = Ok n ->
  CheckoutLine_get_queue_time g w line true
  = Ok (n * wt + CheckoutLine.get_num_customers line * bt)%Z
  /\ forall first rest customer,
       CheckoutLine.queue line = first :: rest ->
       customers w !! first = Some customer ->
       CheckoutLine_get_queue_time g w line false
       = Ok (n * wt + CheckoutLine.get_num_customers line * bt
             - (Customer.num_items customer * wt + bt))%Z.
Proof.
  intros Hdet Hw Hb Hn.
  unfold CheckoutLine_get_num_items in Hn.
  unfold CheckoutLine_get_queue_time, CheckoutLine.get_num_customers.
  split.
  - destruct (CheckoutLine.queue line) as [|c cs] eqn:Hq.
    + simpl in *. injection Hn as <-. reflexivity.
    + cbn [length Nat.eqb drop].
      rewrite (queue_time_loop g w line wt bt Hdet Hw Hb _ _ _ _ Hn).
      f_equal. cbn [length]. lia.
  - intros first rest cu Hq Hcu. rewrite Hq in *. cbn [length Nat.eqb drop].
    assert (Hg : get_customer w first = Ok cu)
      by (unfold get_customer; rewrite Hcu; reflexivity).
    cbn [for_each] in Hn. rewrite Hg in Hn. cbn [mbind Result_bind] in Hn.
    rewrite (queue_time_loop g w line wt bt Hdet Hw Hb _ _ _ _ Hn).
    f_equal. cbn [length]. lia.
Qed.

Lemma get_queue_time_formula_witness :
  CheckoutLine_get_queue_time (sample_globals LeastTime) sample_world_waiting
    (sample_line "cashier" [0; 1]) true
  = Ok 22%Z.
Proof.
  refine (proj1 (get_queue_time_formula (sample_globals LeastTime) sample_world_waiting
                   (sample_line "cashier" [0; 1]) 1 7 8 _ _ _ _));
    reflexivity.
Defined.

(** ** Closing and opening a line *)

(** X20. Closing a line and opening it again leaves the store exactly as it
    was when the line was open before; and while a line is closed no policy
    gives it a customer. *)
Theorem close_then_open (g : Globals) (l : lref) (w : World) (line : CheckoutLine.t) :
  GroceryStore.lines (store w) !! l = Some line ->
  CheckoutLine.closed line = false ->
  ('(w1, _) ← LineCloseEvent_do l w; LineOpenEvent_do l w1) = Ok (w, [])
  /\ forall w1 future_events customer l' w2,
       LineCloseEvent_do l w = Ok (w1, future_events) ->
       call_pick_checkout_line g customer w1 = Ok (l', w2) ->
       l' <> l.
Proof.
  intros Hl Hopen. unfold LineCloseEvent_do, LineOpenEvent_do, get_line.
  rewrite Hl. cbn [of_option mbind Result_bind]. split.
  - unfold set_line, set_lines. cbn [store GroceryStore.lines customers rng_calls
                                       GroceryStore.last_line_id GroceryStore.total_lines].
    rewrite list_lookup_insert_eq by (eapply lookup_lt_Some; eassumption).
    cbn [of_option mbind Result_bind]. rewrite list_insert_insert_eq.
    replace (CheckoutLine.open (CheckoutLine.close line)) with line
      by (destruct line; simpl in *; subst; reflexivity).
    rewrite list_insert_id by assumption.
    destruct w as [cs [ls last total] rng]. reflexivity.
  - intros w1 fut customer l' w2 [= <- <-] Hpick.
    apply call_pick_checkout_line_spec in Hpick as (_ & _ & _ & line' & Hl' & Hel & _).
    intros ->. unfold set_line, set_lines in Hl'. cbn [store GroceryStore.lines] in Hl'.
    rewrite list_lookup_insert_eq in Hl' by (eapply lookup_lt_Some; eassumption).
    injection Hl' as <-. unfold eligible in Hel. simpl in Hel. discriminate.
Qed.

Lemma close_then_open_witness :
  ('(w1, _) ← LineCloseEvent_do 0 sample_world_waiting; LineOpenEvent_do 0 w1)
  = Ok (sample_world_waiting, []).
Proof.
  refine (proj1 (close_then_open (sample_globals LeastPerson) 0 sample_world_waiting
                   (sample_line "cashier" [0; 1]) _ _)); reflexivity.
Defined.

(** ** Pure random *)

Lemma lines_avail_complete (customer : Customer.t) (ls : list CheckoutLine.t) :
  forall (i k : nat) (line : CheckoutLine.t),
    ls !! k = Some line -> eligible customer line = true ->
    (i + k) ∈ lines_avail customer i ls.
Proof.
  induction ls as [|l0 ls IH]; intros i k line Hk Hel; [discriminate|].
  destruct k as [|k]; simpl in *.
  - injection Hk as ->. rewrite Hel, Nat.add_0_r. apply list_elem_of_here.
  - replace (i + S k) with (S i + k) by lia.
    destruct (eligible customer l0); [apply list_elem_of_further|];
      eapply IH; eassumption.
Qed.

(** X21. Pure random can pick every eligible line: for each line of the
    store that is eligible for the customer there is a value of the draw with
    which the policy returns that line; and it takes exactly one draw, and
    changes nothing else. *)
Theorem pure_random_reaches (customer : Customer.t) (w : World) (l : lref)
  (line : CheckoutLine.t) :
  GroceryStore.lines (store w) !! l = Some line ->
  eligible customer line = true ->
  exists draw,
    forall g, np_random g (rng_calls w) = draw ->
      pick_checkout_line_pure_random g customer w
      = Ok (l, {| customers := customers w; store := store w;
                  rng_calls := S (rng_calls w) |}).
Proof.
  intros Hl Hel.
  pose proof (lines_avail_complete customer _ 0 l line Hl Hel) as Hin.
  apply list_elem_of_lookup in Hin as [d Hd]. exists d. intros g Hdraw.
  unfold pick_checkout_line_pure_random, randint. cbn [Nat.add] in Hd.
  pose proof (lookup_lt_Some _ _ _ Hd) as Hlt.
  destruct (length (lines_avail customer 0 (GroceryStore.lines (store w))) =? 0)%nat
    eqn:Hzero; [apply Nat.eqb_eq in Hzero; lia|].
  rewrite Hdraw, Nat.mod_small by assumption. rewrite Hd. reflexivity.
Qed.

Lemma pure_random_reaches_witness :
  exists draw,
    forall g, np_random g 0 = draw ->
      pick_checkout_line_pure_random g (sample_customer 3)
        {| customers := [sample_customer 3];
           store := GroceryStore.__init__ two_line_config; rng_calls := 0 |}
      = Ok (1, {| customers := [sample_customer 3];
                  store := GroceryStore.__init__ two_line_config; rng_calls := 1 |}).
Proof.
  refine (pure_random_reaches (sample_customer 3)
            {| customers := [sample_customer 3];
               store := GroceryStore.__init__ two_line_config; rng_calls := 0 |}
            1 (CheckoutLine.__init__ 1 "express" false) _ _); reflexivity.
Defined.

(** ** The order of events *)

(** X22. The six comparisons of [Event] agree with one another and order
    events by timestamp alone: of [<], [==] and [>] exactly one holds; [<=]
    is [<] or [==], [>=] is [>] or [==], [!=] is the opposite of [==]; [<=]
    is transitive and total.  Events of different kinds, customers or lines
    are equal for [==] when their timestamps are. *)
Theorem Event_comparisons (a b c : Event) :
  (Event_lt a b = true /\ Event_eq a b = false /\ Event_gt a b = false
   \/ Event_lt a b = false /\ Event_eq a b = true /\ Event_gt a b = false
   \/ Event_lt a b = false /\ Event_eq a b = false /\ Event_gt a b = true)
  /\ Event_le a b = Event_lt a b || Event_eq a b
  /\ Event_ge a b = Event_gt a b || Event_eq a b
  /\ Event_ne a b = negb (Event_eq a b)
  /\ Event_gt a b = Event_lt b a
  /\ (Event_le a b = true -> Event_le b c = true -> Event_le a c = true)
  /\ (Event_le a b = true \/ Event_le b a = true)
  /\ (Event_eq a b = true <-> timestamp a = timestamp b).
Proof.
  unfold Event_eq, Event_gt, Event_le, Event_ge, Event_ne, Event_lt.
  set (ta := timestamp a). set (tb := timestamp b). set (tc := timestamp c).
  split; [|split; [|split; [|split; [|split; [|split; [|split]]]]]].
  - destruct (Z.ltb_spec ta tb), (Z.eqb_spec ta tb), (Z.leb_spec ta tb); cbn;
      first [lia
            |left; repeat split; reflexivity
            |right; left; repeat split; reflexivity
            |right; right; repeat split; reflexivity].
  - destruct (Z.ltb_spec ta tb), (Z.eqb_spec ta tb), (Z.leb_spec ta tb); cbn;
      first [lia|reflexivity].
  - destruct (Z.ltb_spec ta tb), (Z.eqb_spec ta tb), (Z.leb_spec ta tb); cbn;
      first [lia|reflexivity].
  - reflexivity.
  - destruct (Z.ltb_spec tb ta), (Z.leb_spec ta tb); cbn; first [lia|reflexivity].
  - rewrite !Z.leb_le. lia.
  - rewrite !Z.leb_le. lia.
  - apply Z.eqb_eq.
Qed.

Lemma Event_comparisons_witness :
  Event_le (JoinCheckoutEvent 0 0) (LineCloseEvent 7 1) = true.
Proof.
  refine (proj1 (proj2 (proj2 (proj2 (proj2 (proj2
            (Event_comparisons (JoinCheckoutEvent 0 0) (BeginCheckoutEvent 3 0 0)
               (LineCloseEvent 7 1))))))) _ _); reflexivity.
Defined.

(** ** The generator and the reader of its text *)

(** *** Strings *)

Lemma append_nil_r (s : string) : String.append s EmptyString = s.
Proof. induction s as [|c s IH]; [reflexivity|]. simpl. now rewrite IH. Qed.

Lemma append_assoc (a b c : string) :
  String.append (String.append a b) c = String.append a (String.append b c).
Proof. induction a as [|x a IH]; [reflexivity|]. simpl. now rewrite IH. Qed.

Lemma string_rev_onto_spec (s acc : string) :
  string_rev_onto s acc = String.append (string_rev s) acc.
Proof.
  unfold string_rev. revert acc.
  induction s as [|c s IH]; intros acc; [reflexivity|].
  simpl. rewrite IH, (IH (String c EmptyString)), append_assoc. reflexivity.
Qed.

Lemma string_rev_app (a b : string) :
  string_rev (String.append a b) = String.append (string_rev b) (string_rev a).
Proof.
  induction a as [|x a IH].
  - simpl. now rewrite append_nil_r.
  - unfold string_rev in *. simpl.
    rewrite (string_rev_onto_spec (String.append a b)), (string_rev_onto_spec a).
    unfold string_rev. rewrite IH, append_assoc. reflexivity.
Qed.

Lemma string_rev_involutive (s : string) : string_rev (string_rev s) = s.
Proof.
  induction s as [|c s IH]; [reflexivity|].
  change (String c s) with (String.append (String c EmptyString) s) at 1.
  rewrite string_rev_app, string_rev_app, IH. reflexivity.
Qed.

Lemma string_forall_app (P : ascii -> bool) (a b : string) :
  string_forall P (String.append a b) = string_forall P a && string_forall P b.
Proof.
  induction a as [|x a IH]; [reflexivity|]. simpl. rewrite IH. now rewrite andb_assoc.
Qed.

Lemma string_forall_rev (P : ascii -> bool) (s : string) :
  string_forall P (string_rev s) = string_forall P s.
Proof.
  induction s as [|c s IH]; [reflexivity|].
  change (String c s) with (String.append (String c EmptyString) s) at 1.
  rewrite string_rev_app, string_forall_app, IH. simpl.
  rewrite andb_true_r. apply andb_comm.
Qed.

Lemma string_forall_mono (P Q : ascii -> bool) (s : string) :
  (forall c, P c = true -> Q c = true) ->
  string_forall P s = true -> string_forall Q s = true.
Proof.
  intros HPQ. induction s as [|c s IH]; [reflexivity|]. simpl.
  rewrite !andb_true_iff. intros [Hc Hs]. auto.
Qed.

Lemma string_rev_nil (s : string) : string_rev s = EmptyString -> s = EmptyString.
Proof.
  intros H. rewrite <- (string_rev_involutive s), H. reflexivity.
Qed.

(** [strip] leaves alone a text that ends in a string without white space
    and starts with a character that is none. *)
Lemma lstrip_id (c : ascii) (s : string) :
  is_space c = false -> lstrip (String c s) = String c s.
Proof. intros H. simpl. now rewrite H. Qed.

Lemma rstrip_app (s t : string) :
  t <> EmptyString ->
  string_forall (fun c => negb (is_space c)) t = true ->
  rstrip (String.append s t) = String.append s t.
Proof.
  intros Hne Ht. unfold rstrip. rewrite string_rev_app.
  destruct (string_rev t) as [|c t'] eqn:Hrev.
  { apply string_rev_nil in Hrev. contradiction. }
  rewrite <- string_forall_rev, Hrev in Ht. simpl in Ht.
  apply andb_true_iff in Ht as [Hc _]. apply negb_true_iff in Hc.
  cbn [String.append]. rewrite lstrip_id by exact Hc.
  change (String c (String.append t' (string_rev s)))
    with (String.append (String c t') (string_rev s)).
  rewrite <- Hrev, <- string_rev_app. apply string_rev_involutive.
Qed.

(** *** [split] *)

Lemma split_onto_app (sep : ascii) (s rest cur : string) :
  string_forall (fun c => negb (Ascii.eqb c sep)) s = true ->
  split_onto sep (String.append s rest) cur
  = split_onto sep rest (string_rev_onto s cur).
Proof.
  revert cur. induction s as [|c s IH]; intros cur Hs; [reflexivity|].
  simpl in Hs. apply andb_true_iff in Hs as [Hc Hs]. apply negb_true_iff in Hc.
  simpl. rewrite Hc. apply IH, Hs.
Qed.

Lemma split_field (sep : ascii) (s rest : string) :
  string_forall (fun c => negb (Ascii.eqb c sep)) s = true ->
  split sep (String.append s (String sep rest)) = s :: split sep rest.
Proof.
  intros Hs. unfold split. rewrite split_onto_app by exact Hs.
  simpl. rewrite Ascii.eqb_refl. fold (string_rev s).
  rewrite string_rev_involutive. reflexivity.
Qed.

Lemma split_last (sep : ascii) (s : string) :
  string_forall (fun c => negb (Ascii.eqb c sep)) s = true ->
  split sep s = [s].
Proof.
  intros Hs. unfold split. rewrite <- (append_nil_r s) at 1.
  rewrite split_onto_app by exact Hs. simpl. fold (string_rev s).
  rewrite string_rev_involutive. reflexivity.
Qed.

(** *** [join] *)

Lemma join_fold_app (sep : ascii) (ls : list string) (a b : string) :
  fold_left (fun text l => String.append text (String sep l)) ls (String.append a b)
  = String.append a (fold_left (fun text l => String.append text (String sep l)) ls b).
Proof.
  revert b. induction ls as [|l ls IH]; intros b; [reflexivity|].
  simpl. rewrite append_assoc. apply IH.
Qed.

Lemma join_lines_cons (sep : ascii) (l l' : string) (ls : list string) :
  join_lines sep (l :: l' :: ls)
  = String.append l (String sep (join_lines sep (l' :: ls))).
Proof.
  unfold join_lines. simpl. rewrite join_fold_app. f_equal.
  change (String sep l') with (String.append (String sep EmptyString) l').
  rewrite join_fold_app. reflexivity.
Qed.

Lemma split_join_lines (sep : ascii) (lines : list string) :
  lines <> [] ->
  Forall (fun l => string_forall (fun c => negb (Ascii.eqb c sep)) l = true) lines ->
  split sep (join_lines sep lines) = lines.
Proof.
  intros Hne Hall. induction Hall as [|l ls Hl Hls IH]; [contradiction|].
  destruct ls as [|l' ls].
  - simpl. apply split_last, Hl.
  - rewrite join_lines_cons, split_field by exact Hl. f_equal. apply IH. discriminate.
Qed.

(** *** ["%d"] and [int] *)

Lemma parse_digits_digit (c : ascii) (s : string) (acc d : Z) (b : bool) :
  digit_value c = Some d ->
  parse_digits (String c s) acc b = parse_digits s (10 * acc + d)%Z true.
Proof. intros H. simpl. now rewrite H. Qed.

Lemma parse_digits_acc (d : Decimal.uint) (acc : positive) :
  parse_digits (NilEmpty.string_of_uint d) (Z.pos acc) true
  = Some (Z.pos (Pos.of_uint_acc d acc)).
Proof.
  revert acc. induction d as [|d IH|d IH|d IH|d IH|d IH|d IH|d IH|d IH|d IH|d IH];
    intros acc; [reflexivity|..];
    cbn [NilEmpty.string_of_uint Pos.of_uint_acc];
    (erewrite parse_digits_digit by reflexivity);
    match goal with
    | |- parse_digits _ (10 * ?a + ?d)%Z true = Some (Z.pos (Pos.of_uint_acc _ ?p)) =>
        let v := eval vm_compute in d in
        replace (10 * a + d)%Z with (Z.pos p) by (change d with v; lia)
    end; apply IH.
Qed.

Lemma parse_digits_uint (d : Decimal.uint) (b : bool) :
  d <> Decimal.Nil ->
  parse_digits (NilEmpty.string_of_uint d) 0%Z b = Some (Z.of_N (Pos.of_uint d)).
Proof.
  revert b. induction d as [|d IH|d IH|d IH|d IH|d IH|d IH|d IH|d IH|d IH|d IH];
    intros b Hne; [contradiction| |..].
  - cbn [NilEmpty.string_of_uint Pos.of_uint].
    erewrite parse_digits_digit by reflexivity. cbn [Z.mul Z.add Z.of_nat].
    destruct d; try (apply IH; discriminate). reflexivity.
  - cbn [NilEmpty.string_of_uint Pos.of_uint]. erewrite parse_digits_digit by reflexivity.
    apply (parse_digits_acc d 1).
  - cbn [NilEmpty.string_of_uint Pos.of_uint]. erewrite parse_digits_digit by reflexivity.
    apply (parse_digits_acc d 2).
  - cbn [NilEmpty.string_of_uint Pos.of_uint]. erewrite parse_digits_digit by reflexivity.
    apply (parse_digits_acc d 3).
  - cbn [NilEmpty.string_of_uint Pos.of_uint]. erewrite parse_digits_digit by reflexivity.
    apply (parse_digits_acc d 4).
  - cbn [NilEmpty.string_of_uint Pos.of_uint]. erewrite parse_digits_digit by reflexivity.
    apply (parse_digits_acc d 5).
  - cbn [NilEmpty.string_of_uint Pos.of_uint]. erewrite parse_digits_digit by reflexivity.
    apply (parse_digits_acc d 6).
  - cbn [NilEmpty.string_of_uint Pos.of_uint]. erewrite parse_digits_digit by reflexivity.
    apply (parse_digits_acc d 7).
  - cbn [NilEmpty.string_of_uint Pos.of_uint]. erewrite parse_digits_digit by reflexivity.
    apply (parse_digits_acc d 8).
  - cbn [NilEmpty.string_of_uint Pos.of_uint]. erewrite parse_digits_digit by reflexivity.
    apply (parse_digits_acc d 9).
Qed.

Lemma parse_digits_pos (p : positive) (b : bool) :
  parse_digits (NilEmpty.string_of_uint (Pos.to_uint p)) 0%Z b = Some (Z.pos p).
Proof.
  rewrite parse_digits_uint by apply Unsigned.to_uint_nonnil.
  rewrite Unsigned.of_to. reflexivity.
Qed.

Lemma is_number_char_cases (c : ascii) :
  is_number_char c = true ->
  is_space c = false /\ Ascii.eqb c ","%char = false /\ Ascii.eqb c LF = false.
Proof.
  destruct c as [[] [] [] [] [] [] [] []]; intros H; vm_compute in H;
    try discriminate H; vm_compute; auto.
Qed.

Lemma string_of_uint_number (d : Decimal.uint) :
  string_forall is_number_char (NilEmpty.string_of_uint d) = true.
Proof. induction d; simpl; auto. Qed.

Lemma string_of_uint_head (d : Decimal.uint) :
  d <> Decimal.Nil ->
  exists c s k, NilEmpty.string_of_uint d = String c s /\ digit_value c = Some k.
Proof. destruct d; intros H; [contradiction|..]; simpl; eauto. Qed.

Lemma format_d_number (z : Z) :
  string_forall is_number_char (format_d z) = true /\ format_d z <> EmptyString.
Proof.
  unfold format_d. destruct z as [|p|p]; cbn [Z.to_int NilEmpty.string_of_int].
  - split; [reflexivity|discriminate].
  - split; [apply string_of_uint_number|].
    destruct (string_of_uint_head (Pos.to_uint p)) as (c & s & k & -> & _);
      [apply Unsigned.to_uint_nonnil|discriminate].
  - split; [|discriminate]. cbn [string_forall]. rewrite string_of_uint_number. reflexivity.
Qed.

Lemma strip_tight (s : string) :
  s <> EmptyString ->
  string_forall (fun c => negb (is_space c)) s = true ->
  strip s = s.
Proof.
  intros Hne Hs. unfold strip. destruct s as [|c s']; [contradiction|].
  pose proof Hs as Hc. simpl in Hc. apply andb_true_iff in Hc as [Hc _].
  apply negb_true_iff in Hc. rewrite lstrip_id by exact Hc.
  apply (rstrip_app EmptyString); assumption.
Qed.

Lemma number_no_space (s : string) :
  string_forall is_number_char s = true ->
  string_forall (fun c => negb (is_space c)) s = true.
Proof.
  apply string_forall_mono. intros c Hc.
  apply is_number_char_cases in Hc as (-> & _). reflexivity.
Qed.

Lemma number_no_comma (s : string) :
  string_forall is_number_char s = true ->
  string_forall (fun c => negb (Ascii.eqb c ","%char)) s = true.
Proof.
  apply string_forall_mono. intros c Hc.
  apply is_number_char_cases in Hc as (_ & -> & _). reflexivity.
Qed.

Lemma py_int_digit (c : ascii) (s : string) (k : Z) :
  digit_value c = Some k ->
  strip (String c s) = String c s ->
  py_int (String c s) = parse_digits (String c s) 0%Z false.
Proof.
  unfold py_int. intros Hd ->.
  destruct c as [[] [] [] [] [] [] [] []]; vm_compute in Hd; try discriminate Hd;
    reflexivity.
Qed.

(** [int("%d" % z)] is [z]. *)
Lemma py_int_format_d (z : Z) : py_int (format_d z) = Some z.
Proof.
  destruct (format_d_number z) as [Hnum Hne].
  pose proof (strip_tight _ Hne (number_no_space _ Hnum)) as Hstrip.
  unfold format_d in *. destruct z as [|p|p]; cbn [Z.to_int NilEmpty.string_of_int] in *.
  - reflexivity.
  - destruct (string_of_uint_head (Pos.to_uint p)) as (c & s & k & Heq & Hk);
      [apply Unsigned.to_uint_nonnil|].
    rewrite Heq in Hstrip |- *. rewrite (py_int_digit c s k Hk Hstrip).
    rewrite <- Heq. apply parse_digits_pos.
  - unfold py_int. rewrite Hstrip, parse_digits_pos. reflexivity.
Qed.

(** *** One line *)

Lemma format_join_no_space (row : Z * Z) :
  string_forall (fun c => negb (is_space c)) (format_join row) = true
  /\ format_join row <> EmptyString.
Proof.
  unfold format_join.
  destruct (format_d_number (fst row)) as [H1 Hne], (format_d_number (snd row)) as [H2 _].
  split.
  - rewrite !string_forall_app, (number_no_space _ H1), (number_no_space _ H2). reflexivity.
  - destruct (format_d (fst row)); [contradiction|discriminate].
Qed.

Lemma split_format_join (row : Z * Z) :
  split ","%char (format_join row) = [format_d (fst row); "join"; format_d (snd row)].
Proof.
  unfold format_join.
  destruct (format_d_number (fst row)) as [H1 _], (format_d_number (snd row)) as [H2 _].
  change (String.append ",join," (format_d (snd row)))
    with (String ","%char (String.append "join" (String ","%char (format_d (snd row))))).
  rewrite split_field by (apply number_no_comma, H1).
  rewrite split_field by reflexivity.
  rewrite split_last by (apply number_no_comma, H2). reflexivity.
Qed.

Lemma parse_event_line_format_join (cs : list Customer.t) (st : GroceryStore.t)
  (id : Z) (row : Z * Z) :
  parse_event_line cs st id (format_join row)
  = Some (JoinCheckoutEvent (fst row) (length cs),
          cs ++ [Customer.__init__ id (snd row)], (id + 1)%Z).
Proof.
  unfold parse_event_line. rewrite split_format_join, !py_int_format_d. reflexivity.
Qed.

Lemma create_event_loop_rows (st : GroceryStore.t) (rows : list (Z * Z)) :
  forall idx events cs id,
    create_event_loop st idx (map format_join rows) events cs id
    = Ok (events ++ events_of_rows (length cs) rows, cs ++ customers_of_rows id rows).
Proof.
  induction rows as [|row rows IH]; intros idx events cs id.
  - simpl. rewrite !app_nil_r. reflexivity.
  - cbn [map create_event_loop]. rewrite parse_event_line_format_join, IH.
    rewrite length_app, Nat.add_1_r. cbn [length events_of_rows customers_of_rows].
    rewrite <- !app_assoc. reflexivity.
Qed.

Lemma join_lines_head (sep : ascii) (l : string) (ls : list string) :
  exists rest, join_lines sep (l :: ls) = String.append l rest.
Proof.
  destruct ls as [|l' ls].
  - exists EmptyString. simpl. now rewrite append_nil_r.
  - rewrite join_lines_cons. eauto.
Qed.

Lemma join_lines_last (sep : ascii) (ls : list string) (x : string) :
  exists before, join_lines sep (ls ++ [x]) = String.append before x.
Proof.
  destruct ls as [|l ls].
  - exists EmptyString. reflexivity.
  - unfold join_lines. cbn [app]. rewrite fold_left_app. cbn [fold_left].
    eexists (String.append _ (String sep EmptyString)). rewrite append_assoc. reflexivity.
Qed.

Lemma strip_join_lines (rows : list (Z * Z)) :
  strip (join_lines LF (map format_join rows)) = join_lines LF (map format_join rows).
Proof.
  destruct rows as [|row rows]; [reflexivity|].
  unfold strip.
  assert (Hl : lstrip (join_lines LF (map format_join (row :: rows)))
               = join_lines LF (map format_join (row :: rows))).
  { cbn [map]. destruct (join_lines_head LF (format_join row) (map format_join rows))
      as [rest ->].
    destruct (format_join_no_space row) as [Hs Hne].
    destruct (format_join row) as [|c s]; [contradiction|].
    simpl in Hs. apply andb_true_iff in Hs as [Hc _]. apply negb_true_iff in Hc.
    cbn [String.append]. apply lstrip_id, Hc. }
  rewrite Hl.
  destruct (exists_last (l := row :: rows)) as (rows' & last & ->); [discriminate|].
  rewrite map_app. cbn [map].
  destruct (join_lines_last LF (map format_join rows') (format_join last)) as [before ->].
  destruct (format_join_no_space last) as [Hs Hne].
  apply rstrip_app; assumption.
Qed.

Lemma split_generated_text (rows : list (Z * Z)) :
  rows <> [] ->
  split LF (join_lines LF (map format_join rows)) = map format_join rows.
Proof.
  intros Hne. apply split_join_lines.
  - destruct rows; [contradiction|discriminate].
  - apply List.Forall_forall. intros l Hl. apply in_map_iff in Hl as (row & <- & _).
    destruct (format_join_no_space row) as [Hs _].
    revert Hs. apply string_forall_mono. intros c Hc.
    destruct (Ascii.eqb_spec c LF) as [->|]; [discriminate Hc|reflexivity].
Qed.

(** *** [sorted] *)

Lemma insert_Z_perm (x : Z) (l : list Z) : insert_Z x l ≡ₚ x :: l.
Proof.
  induction l as [|y l IH]; [reflexivity|]. simpl.
  destruct (x <=? y)%Z; [reflexivity|]. rewrite IH. apply Permutation_swap.
Qed.

Lemma sorted_Z_perm (l : list Z) : sorted_Z l ≡ₚ l.
Proof.
  induction l as [|x l IH]; [reflexivity|]. simpl. rewrite insert_Z_perm, IH. reflexivity.
Qed.

Lemma insert_Z_Sorted (x : Z) (l : list Z) :
  Sorted Z.le l -> Sorted Z.le (insert_Z x l).
Proof.
  induction 1 as [|y l Hs IH Hhd]; simpl; [repeat constructor|].
  destruct (Z.leb_spec x y).
  - repeat constructor; assumption.
  - constructor; [exact IH|].
    destruct Hhd as [|z l Hz]; simpl.
    + constructor. lia.
    + destruct (x <=? z)%Z; constructor; lia.
Qed.

Lemma sorted_Z_StronglySorted (l : list Z) : StronglySorted Z.le (sorted_Z l).
Proof.
  apply Sorted_StronglySorted; [intros a b c; lia|].
  induction l as [|x l IH]; [constructor|]. simpl. apply insert_Z_Sorted, IH.
Qed.

(** *** One call *)

Lemma uniform_time_rows_ok (np : NumpyRandom) (k : nat) (p : SubParams.t)
  (rows : list (Z * Z)) :
  uniform_time_rows np k p = GenOk rows <->
  valid_params p
  /\ exists param1 param2 drawn_times drawn_items,
       SubParams.dist_params p = [param1; param2]
       /\ floor_uniform np k (SubParams.start_time p) (SubParams.end_time p)
            (SubParams.num_customers p) = Some drawn_times
       /\ round_sample np (S k) (SubParams.item_distribution p) param1 param2
            (SubParams.num_customers p) = Some drawn_items
       /\ rows = combine (sorted_Z drawn_times) (map at_least_one_item drawn_items).
Proof.
  unfold uniform_time_rows, valid_params.
  destruct (String.eqb_spec (SubParams.item_distribution p) "uniform") as [Hu|Hu],
    (String.eqb_spec (SubParams.item_distribution p) "gaussian") as [Hg|Hg];
    cbn [orb negb];
    try (split; [discriminate|intros [[[?|?] _] _]; contradiction]);
    (destruct (SubParams.dist_params p) as [|p1 [|p2 [|p3 ps]]];
     cbn [length Nat.eqb negb];
     try (split; [discriminate|intros [(_ & ?) _]; discriminate]);
     destruct (floor_uniform np k _ _ _) as [ts|];
     [|split; [discriminate|intros (_ & ? & ? & ? & ? & _ & ? & _); discriminate]];
     destruct (round_sample np (S k) _ p1 p2 _) as [its|] eqn:Hits;
     [|split; [discriminate
              |intros (_ & q1 & q2 & ? & ? & Hq & _ & Hr & _); injection Hq as <- <-;
               rewrite Hits in Hr; discriminate]];
     split;
     [intros H; injection H as <-; split; [auto|]; exists p1, p2, ts, its; auto
     |intros (_ & q1 & q2 & ts' & its' & Hq & Ht & Hi & ->); injection Hq as <- <-;
      rewrite Hits in Hi; injection Ht as <-; injection Hi as <-; reflexivity]).
Qed.

Lemma uniform_time_rows_refused (np : NumpyRandom) (k : nat) (p : SubParams.t)
  (e : GenError) :
  refused p e -> uniform_time_rows np k p = GenRaise e.
Proof.
  unfold uniform_time_rows, refused.
  destruct (String.eqb_spec (SubParams.item_distribution p) "uniform") as [Hu|Hu],
    (String.eqb_spec (SubParams.item_distribution p) "gaussian") as [Hg|Hg];
    cbn [orb negb];
    try (destruct (Nat.eqb_spec (length (SubParams.dist_params p)) 2) as [Hl|Hl];
         cbn [negb]);
    intros [(Hk & ->)|(Hk & Hl' & ->)]; first [reflexivity|tauto].
Qed.

Lemma uniform_time_rows_raise (np : NumpyRandom) (k : nat) (p : SubParams.t)
  (e : GenError) :
  uniform_time_rows np k p = GenRaise e -> e = NumpyError \/ refused p e.
Proof.
  unfold uniform_time_rows, refused.
  destruct (String.eqb_spec (SubParams.item_distribution p) "uniform") as [Hu|Hu],
    (String.eqb_spec (SubParams.item_distribution p) "gaussian") as [Hg|Hg];
    cbn [orb negb];
    try (destruct (Nat.eqb_spec (length (SubParams.dist_params p)) 2) as [Hl|Hl];
         cbn [negb];
         [destruct (floor_uniform np k _ _ _);
          [destruct (SubParams.dist_params p) as [|p1 [|p2 [|p3 ps]]];
           try discriminate Hl; destruct (round_sample np (S k) _ _ _ _)|]|]);
    intros H; first [discriminate H|injection H as <-]; tauto.
Qed.

Lemma valid_not_refused (p : SubParams.t) (e : GenError) :
  valid_params p -> refused p e -> False.
Proof. unfold valid_params, refused. tauto. Qed.

(** *** The whole call *)

Lemma generate_loop_rows (np : NumpyRandom) (params : list SubParams.t) :
  forall k lines,
    generate_loop np k params lines
    = match generated_rows np k params with
      | GenOk rows => GenOk (lines ++ map format_join rows)
      | GenRaise e => GenRaise e
      end.
Proof.
  induction params as [|p params IH]; intros k lines; cbn [generate_loop generated_rows].
  - rewrite app_nil_r. reflexivity.
  - unfold _generate_uniform_time.
    destruct (uniform_time_rows np k p) as [rows|e]; [|reflexivity].
    rewrite IH. destruct (generated_rows np (k + 2) params) as [rows'|e]; [|reflexivity].
    rewrite map_app, app_assoc. reflexivity.
Qed.

Lemma generate_time_varying_rows (numpy : Numpy) (self : DataGenerator.t)
  (params : list SubParams.t) :
  generate_time_varying numpy self params
  = match seeded numpy self with
    | None => GenRaise NumpyError
    | Some np =>
        match generated_rows np 0 params with
        | GenOk rows => GenOk (join_lines LF (map format_join rows))
        | GenRaise e => GenRaise e
        end
    end.
Proof.
  unfold generate_time_varying. destruct (seeded numpy self) as [np|]; [|reflexivity].
  rewrite generate_loop_rows. destruct (generated_rows _ 0 params); reflexivity.
Qed.

Lemma generate_time_varying_ok (numpy : Numpy) (self : DataGenerator.t)
  (params : list SubParams.t) (text : string) :
  generate_time_varying numpy self params = GenOk text ->
  exists np rows,
    seeded numpy self = Some np
    /\ generated_rows np 0 params = GenOk rows
    /\ text = join_lines LF (map format_join rows).
Proof.
  rewrite generate_time_varying_rows.
  destruct (seeded numpy self) as [np|]; [|discriminate].
  destruct (generated_rows np 0 params) as [rows|] eqn:Hrows; [|discriminate].
  intros H. injection H as <-. eauto.
Qed.

Lemma generated_rows_raise (np : NumpyRandom) (params : list SubParams.t) (e : GenError) :
  forall k,
    generated_rows np k params = GenRaise e ->
    e = NumpyError
    \/ exists i p, params !! i = Some p /\ refused p e
                   /\ Forall valid_params (take i params).
Proof.
  induction params as [|p params IH]; intros k; cbn [generated_rows]; [discriminate|].
  destruct (uniform_time_rows np k p) as [rows|e0] eqn:Hp.
  - apply uniform_time_rows_ok in Hp as [Hv _].
    destruct (generated_rows np (k + 2) params) as [rows'|e1] eqn:Hrest; [discriminate|].
    intros H. injection H as ->.
    destruct (IH _ Hrest) as [->|(i & q & Hq & Href & Hall)]; [auto|].
    right. exists (S i), q. split; [exact Hq|]. split; [exact Href|].
    cbn. constructor; assumption.
  - intros H. injection H as ->.
    apply uniform_time_rows_raise in Hp as [->|Hp]; [auto|].
    right. exists 0, p. repeat split; [exact Hp|constructor].
Qed.

Lemma generated_rows_valid (np : NumpyRandom) (params : list SubParams.t) :
  forall k rows,
    generated_rows np k params = GenOk rows -> Forall valid_params params.
Proof.
  induction params as [|p params IH]; intros k rows; cbn [generated_rows]; [constructor|].
  destruct (uniform_time_rows np k p) as [rows1|] eqn:Hp; [|discriminate].
  destruct (generated_rows np (k + 2) params) as [rows2|] eqn:Hrest; [|discriminate].
  intros _. apply uniform_time_rows_ok in Hp as [Hv _].
  constructor; [exact Hv|]. eapply IH, Hrest.
Qed.

Lemma uniform_time_rows_items (np : NumpyRandom) (k : nat) (p : SubParams.t)
  (rows : list (Z * Z)) :
  uniform_time_rows np k p = GenOk rows ->
  Forall (fun row => (1 <= snd row)%Z) rows.
Proof.
  intros H. apply uniform_time_rows_ok in H as (_ & p1 & p2 & ts & its & _ & _ & _ & ->).
  apply List.Forall_forall. intros [t i] Hin. apply in_combine_r in Hin.
  apply in_map_iff in Hin as (d & <- & _). unfold at_least_one_item. cbn [snd].
  destruct (Z.leb_spec d 0); lia.
Qed.

Lemma uniform_time_rows_length (np : NumpyRandom) (k : nat) (p : SubParams.t)
  (rows : list (Z * Z)) :
  sized np ->
  uniform_time_rows np k p = GenOk rows ->
  length rows = Z.to_nat (SubParams.num_customers p).
Proof.
  intros [Hu Hs] H.
  apply uniform_time_rows_ok in H as (_ & p1 & p2 & ts & its & _ & Hts & Hits & ->).
  rewrite length_combine, length_map, (Hs _ _ _ _ _ _ Hits),
    (Permutation_length (sorted_Z_perm _)), (Hu _ _ _ _ _ Hts).
  lia.
Qed.

Lemma generated_rows_items (np : NumpyRandom) (params : list SubParams.t) :
  forall k rows,
    generated_rows np k params = GenOk rows ->
    Forall (fun row => (1 <= snd row)%Z) rows.
Proof.
  induction params as [|p params IH]; intros k rows; cbn [generated_rows].
  - intros H. injection H as <-. constructor.
  - destruct (uniform_time_rows np k p) as [rows1|] eqn:Hp; [|discriminate].
    destruct (generated_rows np (k + 2) params) as [rows2|] eqn:Hrest; [|discriminate].
    intros H. injection H as <-. apply List.Forall_app. split.
    + eapply uniform_time_rows_items, Hp.
    + eapply IH, Hrest.
Qed.

Lemma generated_rows_length (np : NumpyRandom) (params : list SubParams.t) :
  sized np ->
  forall k rows,
    generated_rows np k params = GenOk rows ->
    length rows = customers_asked params.
Proof.
  intros Hsized. unfold customers_asked.
  induction params as [|p params IH]; intros k rows; cbn [generated_rows].
  - intros H. injection H as <-. reflexivity.
  - destruct (uniform_time_rows np k p) as [rows1|] eqn:Hp; [|discriminate].
    destruct (generated_rows np (k + 2) params) as [rows2|] eqn:Hrest; [|discriminate].
    intros H. injection H as <-. rewrite length_app. cbn [map list_sum].
    rewrite (uniform_time_rows_length _ _ _ _ Hsized Hp), (IH _ _ Hrest). reflexivity.
Qed.

Lemma create_event_list_rows (rows : list (Z * Z)) (w : World) :
  rows <> [] ->
  create_event_list (join_lines LF (map format_join rows)) w
  = Ok (events_of_rows (length (customers w)) rows,
        {| customers := customers w ++ customers_of_rows 0 rows;
           store := store w; rng_calls := rng_calls w |}).
Proof.
  intros Hne. unfold create_event_list.
  rewrite strip_join_lines, split_generated_text by exact Hne.
  rewrite create_event_loop_rows. reflexivity.
Qed.

Lemma customers_of_rows_items (rows : list (Z * Z)) :
  forall id customer,
    customer ∈ customers_of_rows id rows ->
    exists row, row ∈ rows /\ Customer.num_items customer = snd row.
Proof.
  induction rows as [|row rows IH]; intros id customer Hin; cbn in Hin.
  - apply elem_of_nil in Hin. contradiction.
  - apply elem_of_cons in Hin as [->|Hin].
    + exists row. split; [apply list_elem_of_here|reflexivity].
    + destruct (IH _ _ Hin) as (r & Hr & Heq). exists r.
      split; [apply list_elem_of_further, Hr|exact Heq].
Qed.



Lemma combine_fst_snd (a b : list Z) :
  length a = length b ->
  map fst (combine a b) = a /\ map snd (combine a b) = b.
Proof.
  revert b. induction a as [|x a IH]; intros [|y b] Hab; try discriminate Hab; [auto|].
  injection Hab as Hab. destruct (IH b Hab) as [H1 H2]. cbn. rewrite H1, H2. auto.
Qed.

(** X23. One call of [_generate_uniform_time] on a numpy that gives arrays of
    the size asked for: as many lines as customers asked for, each
    ["<time>,join,<items>"]; the times are the drawn ones in ascending order,
    and the items of the k-th line are the k-th drawn number, or 1 where
    that is not positive. *)
Theorem generate_uniform_time_spec (np : NumpyRandom) (k : nat) (p : SubParams.t)
  (lines : list string) :
  sized np ->
  _generate_uniform_time np k p = GenOk lines ->
  exists rows param1 param2 drawn_times drawn_items,
    lines = map format_join rows
    /\ SubParams.dist_params p = [param1; param2]
    /\ floor_uniform np k (SubParams.start_time p) (SubParams.end_time p)
         (SubParams.num_customers p) = Some drawn_times
    /\ round_sample np (S k) (SubParams.item_distribution p) param1 param2
         (SubParams.num_customers p) = Some drawn_items
    /\ length rows = Z.to_nat (SubParams.num_customers p)
    /\ StronglySorted Z.le (map fst rows)
    /\ map fst rows ≡ₚ drawn_times
    /\ map snd rows = map (Z.max 1) drawn_items.
Proof.
  intros Hsized H. unfold _generate_uniform_time in H.
  destruct (uniform_time_rows np k p) as [rows|] eqn:Hrows; [|discriminate].
  injection H as <-.
  pose proof (uniform_time_rows_length _ _ _ _ Hsized Hrows) as Hlen.
  apply uniform_time_rows_ok in Hrows as (_ & p1 & p2 & ts & its & Hd & Hts & Hits & ->).
  destruct Hsized as [Hu Hs].
  exists (combine (sorted_Z ts) (map at_least_one_item its)), p1, p2, ts, its.
  split; [reflexivity|]. split; [exact Hd|]. split; [exact Hts|]. split; [exact Hits|].
  split; [exact Hlen|].
  destruct (combine_fst_snd (sorted_Z ts) (map at_least_one_item its)) as [-> ->].
  { rewrite length_map, (Hs _ _ _ _ _ _ Hits), (Permutation_length (sorted_Z_perm _)),
      (Hu _ _ _ _ _ Hts). reflexivity. }
  split; [apply sorted_Z_StronglySorted|]. split; [apply sorted_Z_perm|].
  apply map_ext. intros d. unfold at_least_one_item. destruct (Z.leb_spec d 0); lia.
Qed.

Lemma generate_uniform_time_spec_witness :
  exists rows param1 param2 drawn_times drawn_items,
    map format_join sample_rows = map format_join rows
    /\ [1%R; 10%R] = [param1; param2]
    /\ Some [3; 2; 1]%Z = Some drawn_times
    /\ Some [-2; 3; 8]%Z = Some drawn_items
    /\ length rows = 3
    /\ StronglySorted Z.le (map fst rows)
    /\ map fst rows ≡ₚ drawn_times
    /\ map snd rows = map (Z.max 1) drawn_items.
Proof.
  refine (generate_uniform_time_spec sample_stream 0
            (SubParams.mk 0 10 3 "uniform" [1%R; 10%R]) (map format_join sample_rows) _ _).
  - split; intros; cbn [sample_stream floor_uniform round_sample] in *;
      destruct (n <? 0)%Z; try discriminate;
      match goal with H : Some _ = Some _ |- _ => injection H as <- end;
      rewrite length_map, length_seq; reflexivity.
  - vm_compute. reflexivity.
Defined.

(** X24. How [generate_time_varying] fails.  An error other than one of numpy
    is the assertion error of the first tuple of [params] that the
    assertions refuse: an unknown distribution, or else a number of
    distribution parameters other than two; the tuples before it are
    acceptable.  A call that returns has only acceptable tuples. *)
Theorem generate_time_varying_raises (numpy : Numpy) (self : DataGenerator.t)
  (params : list SubParams.t) :
  (forall e,
     generate_time_varying numpy self params = GenRaise e ->
     e = NumpyError
     \/ exists i p, params !! i = Some p /\ refused p e
                    /\ Forall valid_params (take i params))
  /\ (forall text,
        generate_time_varying numpy self params = GenOk text ->
        Forall valid_params params).
Proof.
  rewrite generate_time_varying_rows. split.
  - intros e. destruct (seeded numpy self) as [np|]; [|intros [= <-]; auto].
    destruct (generated_rows np 0 params) eqn:Hrows; [discriminate|].
    intros [= ->]. eapply generated_rows_raise, Hrows.
  - intros text. destruct (seeded numpy self) as [np|]; [|discriminate].
    destruct (generated_rows np 0 params) eqn:Hrows; [|discriminate].
    intros _. eapply generated_rows_valid, Hrows.
Qed.

Lemma generate_time_varying_raises_witness :
  AssertionError_dist_params = NumpyError
  \/ exists i p,
       (sample_params ++ [one_parameter_params; poisson_params]) !! i = Some p
       /\ refused p AssertionError_dist_params
       /\ Forall valid_params
            (take i (sample_params ++ [one_parameter_params; poisson_params])).
Proof.
  apply (proj1 (generate_time_varying_raises sample_numpy (DataGenerator.__init__ (Some 7%Z))
                  (sample_params ++ [one_parameter_params; poisson_params]))).
  vm_compute. reflexivity.
Defined.

(** X25. The text of a successful [generate_time_varying], on a numpy that
    gives arrays of the size asked for: one row per customer asked for, in
    the order of [params], every row with at least one item, joined by line
    feeds with no line feed at the end. *)
Theorem generate_time_varying_spec (numpy : Numpy) (self : DataGenerator.t)
  (params : list SubParams.t) (text : string) :
  (forall np, seeded numpy self = Some np -> sized np) ->
  generate_time_varying numpy self params = GenOk text ->
  exists rows,
    text = join_lines LF (map format_join rows)
    /\ length rows = customers_asked params
    /\ Forall (fun row => (1 <= snd row)%Z) rows
    /\ (rows <> [] -> text_lines text = map format_join rows).
Proof.
  intros Hsized H.
  apply generate_time_varying_ok in H as (np & rows & Hnp & Hrows & ->).
  exists rows. split; [reflexivity|].
  split; [eapply generated_rows_length; eauto|].
  split; [eapply generated_rows_items; eassumption|].
  intros Hne. unfold text_lines. rewrite strip_join_lines. apply split_generated_text, Hne.
Qed.

Lemma generate_time_varying_spec_witness :
  exists rows,
    sample_generated_text = join_lines LF (map format_join rows)
    /\ length rows = 3
    /\ Forall (fun row => (1 <= snd row)%Z) rows
    /\ (rows <> [] -> text_lines sample_generated_text = map format_join rows).
Proof.
  refine (generate_time_varying_spec sample_numpy (DataGenerator.__init__ None)
            sample_params sample_generated_text _ _).
  - intros np Hnp. injection Hnp as <-.
    split; intros; cbn [sample_numpy np_stream sample_stream floor_uniform round_sample] in *;
      destruct (n <? 0)%Z; try discriminate;
      match goal with H : Some _ = Some _ |- _ => injection H as <- end;
      rewrite length_map, length_seq; reflexivity.
  - vm_compute. reflexivity.
Defined.

(** X26. What is written is read back.  [create_event_list] on the rows
    formatted as ["%d,join,%d"] and joined by line feeds gives one arrival
    per row with the time of the row, in the order of the rows, and one new
    customer per row with the items of the row, numbered from 0; no rows
    give the empty text, which it refuses at line 0. *)
Theorem create_event_list_reads_back (rows : list (Z * Z)) (w : World) :
  create_event_list (join_lines LF (map format_join rows)) w
  = match rows with
    | [] => Raise (ValueError_parse 0)
    | _ => Ok (events_of_rows (length (customers w)) rows,
               {| customers := customers w ++ customers_of_rows 0 rows;
                  store := store w; rng_calls := rng_calls w |})
    end.
Proof.
  destruct rows as [|row rows]; [reflexivity|]. apply create_event_list_rows. discriminate.
Qed.

(** X27. A generated workload is served in order.  After a completed run of a
    fresh simulator on a text that [generate_time_varying] returned, every
    served customer has joined no later than it began and began before it
    finished. *)
Theorem generated_workload_timestamps (numpy : Numpy) (gen : DataGenerator.t)
  (params : list SubParams.t) (text : string)
  (fuel : nat) (g : Globals) (line_counts : list (string * Z)) (self : Simulator) :
  generate_time_varying numpy gen params = GenOk text ->
  run fuel g (Simulator__init__ line_counts) text = Some (Ok self) ->
  forall line c,
    line ∈ GroceryStore.lines (store (world self)) ->
    c ∈ CheckoutLine.served line ->
    exists j b f,
      joined_at (world self) c j /\ begun_at (world self) c b
      /\ finished_at (world self) c f /\ (j <= b < f)%Z.
Proof.
  intros Hgen Hrun line c Hline Hserved.
  apply generate_time_varying_ok in Hgen as (np & rows & _ & Hrows & ->).
  apply generated_rows_items in Hrows.
  destruct rows as [|row rows]; [discriminate Hrun|].
  pose proof (create_event_list_rows (row :: rows) (fresh_world line_counts)
                ltac:(discriminate)) as Hc.
  destruct (run_clocked _ _ _ _ _ _ _ Hrun Hc) as (now & _ & _ & _ & _ & Hs & _).
  { intros customer Hin. cbn [customers fresh_world world Simulator__init__ app] in Hin.
    apply customers_of_rows_items in Hin as (r & Hr & ->).
    rewrite List.Forall_forall in Hrows. apply list_elem_of_In, Hrows in Hr. lia. }
  apply list_elem_of_lookup in Hline as [l Hl].
  destruct (Hs l line c Hl Hserved) as (j & b & f & Hj & Hb & Hf & Hord & _).
  eauto 8.
Qed.

Lemma generated_workload_timestamps_witness :
  exists j b f,
    joined_at (world sample_generated_simulator) 2 j
    /\ begun_at (world sample_generated_simulator) 2 b
    /\ finished_at (world sample_generated_simulator) 2 f /\ (j <= b < f)%Z.
Proof.
  refine (generated_workload_timestamps sample_numpy (DataGenerator.__init__ None)
            sample_params sample_generated_text 9 (sample_globals LeastPerson)
            one_cashier_config sample_generated_simulator
            ltac:(vm_compute; reflexivity) ltac:(vm_compute; reflexivity)
            (CheckoutLine.mk 0 "cashier" [] [0; 1; 2] false) 2 _ _).
  - apply list_elem_of_here.
  - apply list_elem_of_further, list_elem_of_further, list_elem_of_here.
Defined.


